(** * UMI core (lib/index.js): addresses, transactions, Bech32, SHA-256, Ed25519

    A shallow embedding of the JavaScript library.  Typed arrays are lists of
    integers ([list Z]) whose cells wrap the way the typed array does; JavaScript
    strings are lists of UTF-16 code units; a [throw new Error (msg)] is the
    [Err msg] of the [result] monad; objects that the setters mutate are passed
    and returned explicitly. *)

From stdpp Require Import base option list strings gmap.
From Stdlib Require Import ZArith Lia Ascii.

Local Open Scope Z_scope.

(** ** Exceptions *)

Inductive result (A : Type) : Type :=
  | Ok (a : A)
  | Err (msg : string).
Arguments Ok {A} a.
Arguments Err {A} msg.

#[global] Instance result_ret : MRet result := fun _ a => Ok a.
#[global] Instance result_bind : MBind result := fun _ _ f r =>
  match r with
  | Ok a => f a
  | Err msg => Err msg
  end.
#[global] Instance result_fmap : FMap result := fun _ _ f r =>
  match r with
  | Ok a => Ok (f a)
  | Err msg => Err msg
  end.

Definition is_ok {A} (r : result A) : bool :=
  match r with Ok _ => true | Err _ => false end.
Definition is_err {A} (r : result A) : bool := negb (is_ok r).

(** ** JavaScript numbers, strings and typed arrays *)

(** A JavaScript number: an integer, a finite non-integer lying strictly between
    [fl] and [fl + 1], NaN, or an infinity. *)
Inductive JsNumber : Type :=
  | JInt (z : Z)
  | JFrac (fl : Z)
  | JNaN
  | JInf (negative : bool).

(** A string is the list of its UTF-16 code units. *)
Abbreviation jsstring := (list Z) (only parsing).

Definition str (s : string) : jsstring :=
  map (fun c => Z.of_nat (nat_of_ascii c)) (String.list_ascii_of_string s).

(** Contents of a [Uint8Array] (cells are in [0, 256)) or of a [Float64Array]
    holding integers. *)
Abbreviation bytes := (list Z) (only parsing).

Module JS.

(** [ToInt32] and [ToUint32] of an integer. *)
Definition ToUint32 (z : Z) : Z := Z.land z 4294967295.
Definition ToInt32 (z : Z) : Z :=
  let u := ToUint32 z in
  if u <? 2147483648 then u else u - 4294967296.
Definition ToUint16 (z : Z) : Z := Z.land z 65535.
Definition ToUint8 (z : Z) : Z := Z.land z 255.

(** Truncation of a number to an integer, as the bitwise operators do first. *)
Definition ToInteger (n : JsNumber) : Z :=
  match n with
  | JInt z => z
  | JFrac fl => if 0 <=? fl then fl else fl + 1
  | JNaN => 0
  | JInf _ => 0
  end.

(** The 32-bit operators on integers. *)
Definition and (a b : Z) : Z := Z.land (ToInt32 a) (ToInt32 b).
Definition or (a b : Z) : Z := Z.lor (ToInt32 a) (ToInt32 b).
Definition xor (a b : Z) : Z := Z.lxor (ToInt32 a) (ToInt32 b).
Definition not (a : Z) : Z := Z.lnot (ToInt32 a).
Definition shl (a n : Z) : Z := ToInt32 (Z.shiftl (ToInt32 a) (Z.land n 31)).
Definition shr (a n : Z) : Z := Z.shiftr (ToInt32 a) (Z.land n 31).
Definition ushr (a n : Z) : Z := Z.shiftr (ToUint32 a) (Z.land n 31).

(** [Math.floor (v) === v] *)
Definition floor_eq (n : JsNumber) : bool :=
  match n with
  | JInt _ => true
  | JFrac _ => false
  | JNaN => false
  | JInf _ => true
  end.

(** [v < k] and [v > k] against an integer constant [k]. *)
Definition lt (n : JsNumber) (k : Z) : bool :=
  match n with
  | JInt z => z <? k
  | JFrac fl => fl <? k
  | JNaN => false
  | JInf negative => negative
  end.
Definition gt (n : JsNumber) (k : Z) : bool :=
  match n with
  | JInt z => k <? z
  | JFrac fl => k <=? fl
  | JNaN => false
  | JInf negative => negb negative
  end.

(** Reading a cell of a typed array; a missing cell reads as [undefined],
    which every use below coerces to [0]. *)
Definition get (a : bytes) (i : Z) : Z :=
  if i <? 0 then 0 else default 0 (a !! Z.to_nat i).

(** [a[i] = v] on a [Float64Array] or a plain array of known length. *)
Definition put (a : bytes) (i : Z) (v : Z) : bytes :=
  if i <? 0 then a else <[Z.to_nat i := v]> a.

(** [a[i] = v] on a [Uint8Array]: the value wraps modulo 256. *)
Definition put8 (a : bytes) (i : Z) (v : Z) : bytes := put a i (ToUint8 v).

(** [a[i] = v] on an [Int32Array]. *)
Definition put32 (a : bytes) (i : Z) (v : Z) : bytes := put a i (ToInt32 v).

(** [a.set (src, offset)] *)
Definition set (a : bytes) (src : bytes) (offset : nat) : bytes :=
  take offset a ++ take (length a - offset)%nat src
    ++ drop (offset + length src)%nat a.

(** [a.subarray (from, to)] (a view; every use below only reads it or copies
    it, except where noted). *)
Definition subarray (a : bytes) (from to : nat) : bytes :=
  take (to - from)%nat (drop from a).

(** [new Uint8Array (n)] *)
Definition zeros (n : nat) : bytes := replicate n 0.

(** [DataView] accessors, big-endian. *)
Definition getUint16 (a : bytes) (i : Z) : Z :=
  get a i * 256 + get a (i + 1).
Definition getUint32 (a : bytes) (i : Z) : Z :=
  get a i * 16777216 + get a (i + 1) * 65536 + get a (i + 2) * 256
    + get a (i + 3).
Definition getInt32 (a : bytes) (i : Z) : Z := ToInt32 (getUint32 a i).
Definition setUint16 (a : bytes) (i : Z) (v : Z) : bytes :=
  let u := ToUint16 v in
  put (put a i (Z.shiftr u 8)) (i + 1) (Z.land u 255).
Definition setUint32 (a : bytes) (i : Z) (v : Z) : bytes :=
  let u := ToUint32 v in
  put (put (put (put a i (Z.shiftr u 24))
    (i + 1) (Z.land (Z.shiftr u 16) 255))
    (i + 2) (Z.land (Z.shiftr u 8) 255))
    (i + 3) (Z.land u 255).
Definition setInt32 (a : bytes) (i : Z) (v : Z) : bytes := setUint32 a i v.

End JS.

(** [String.prototype.toLowerCase] and [toUpperCase].  Their Unicode tables are
    not part of the library; the development is parametric in them and assumes
    only their behaviour on ASCII strings ([CaseMapAscii] below). *)
Class CaseMap : Type := {
  toLowerCase : jsstring -> jsstring;
  toUpperCase : jsstring -> jsstring
}.

Definition is_ascii (c : Z) : Prop := 0 <= c < 128.
Definition lower_unit (c : Z) : Z :=
  if (65 <=? c) && (c <=? 90) then c + 32 else c.
Definition upper_unit (c : Z) : Z :=
  if (97 <=? c) && (c <=? 122) then c - 32 else c.

Definition CaseMapAscii (cm : CaseMap) : Prop :=
  forall s : jsstring, Forall is_ascii s ->
    toLowerCase s = map lower_unit s /\ toUpperCase s = map upper_unit s.

(** The case maps that leave every code unit outside ASCII alone. *)
Definition asciiCase : CaseMap :=
  {| toLowerCase := map lower_unit; toUpperCase := map upper_unit |}.

(** [for (i = lo; i < hi; i++) body] over a loop state. *)
Definition for_loop {S : Type} (lo hi : Z) (body : Z -> S -> S) (init : S) : S :=
  foldl (fun s i => body i s) init (seqZ lo (hi - lo)).

(** [for (i = hi; i >= lo; --i) body] *)
Definition for_down {S : Type} (hi lo : Z) (body : Z -> S -> S) (init : S) : S :=
  foldl (fun s i => body i s) init (reverse (seqZ lo (hi - lo + 1))).

(** ** The records of the library *)

Record PublicKey : Type := mkPublicKey { publicKey_bytes : bytes }.
Record SecretKey : Type := mkSecretKey { secretKey_bytes : bytes }.
Record Address : Type := mkAddress { address_bytes : bytes }.

(** [_fieldsMap] is an object used as a set of field names. *)
Record Transaction : Type := mkTransaction {
  tx_bytes : bytes;
  tx_fieldsMap : gmap string bool
}.

(** The values a caller can pass to a constructor or setter. *)
Inductive JsValue : Type :=
  | JUndefined
  | JNull
  | JBoolean (b : bool)
  | JNumber (n : JsNumber)
  | JString (s : jsstring)
  | JUint8Array (b : bytes)
  | JPublicKey (k : PublicKey)
  | JSecretKey (k : SecretKey)
  | JAddress (a : Address)
  | JObject (description : string).

(** ** Prefix codec *)

Definition versionToPrefix (version : JsValue) : result jsstring :=
  match version with
  | JNumber n =>
      if negb (JS.floor_eq n) then Err "version must be integer"
      else
        match n with
        | JInt 0 => Ok (str "genesis")
        | _ =>
            let version := JS.ToInteger n in
            if JS.and version 0x8000 =? 0x8000
            then Err "incorrect version - first bit must be zero"
            else
              let a := JS.shr (JS.and version 0x7C00) 10 in
              let b := JS.shr (JS.and version 0x03E0) 5 in
              let c := JS.and version 0x001F in
              if (a <? 1) || (26 <? a) then Err "incorrect version - first char"
              else if (b <? 1) || (26 <? b)
              then Err "incorrect version - second char"
              else if (c <? 1) || (26 <? c)
              then Err "incorrect version - third char"
              else Ok [a + 96; b + 96; c + 96]
        end
  | _ => Err "version must be number"
  end.

Definition prefixToVersion (prefix : JsValue) : result Z :=
  match prefix with
  | JString prefix =>
      if bool_decide (prefix = str "genesis") then Ok 0
      else
        match prefix with
        | [c0; c1; c2] =>
            let a := c0 - 96 in
            let b := c1 - 96 in
            let c := c2 - 96 in
            if (a <? 1) || (26 <? a) then Err "incorrect prefix - first char"
            else if (b <? 1) || (26 <? b)
            then Err "incorrect prefix - second char"
            else if (c <? 1) || (26 <? c)
            then Err "incorrect prefix - third char"
            else Ok (JS.shl a 10 + JS.shl b 5 + c)
        | _ => Err "prefix must be 3 bytes ling"
        end
  | _ => Err "prefix must be string"
  end.

(** ** SHA-256 *)

Definition sha256_hh : bytes := map JS.ToInt32
  [0x6A09E667; 0xBB67AE85; 0x3C6EF372; 0xA54FF53A;
   0x510E527F; 0x9B05688C; 0x1F83D9AB; 0x5BE0CD19].

Definition sha256_k : bytes := map JS.ToInt32
  [0x428A2F98; 0x71374491; 0xB5C0FBCF; 0xE9B5DBA5;
   0x3956C25B; 0x59F111F1; 0x923F82A4; 0xAB1C5ED5;
   0xD807AA98; 0x12835B01; 0x243185BE; 0x550C7DC3;
   0x72BE5D74; 0x80DEB1FE; 0x9BDC06A7; 0xC19BF174;
   0xE49B69C1; 0xEFBE4786; 0x0FC19DC6; 0x240CA1CC;
   0x2DE92C6F; 0x4A7484AA; 0x5CB0A9DC; 0x76F988DA;
   0x983E5152; 0xA831C66D; 0xB00327C8; 0xBF597FC7;
   0xC6E00BF3; 0xD5A79147; 0x06CA6351; 0x14292967;
   0x27B70A85; 0x2E1B2138; 0x4D2C6DFC; 0x53380D13;
   0x650A7354; 0x766A0ABB; 0x81C2C92E; 0x92722C85;
   0xA2BFE8A1; 0xA81A664B; 0xC24B8B70; 0xC76C51A3;
   0xD192E819; 0xD6990624; 0xF40E3585; 0x106AA070;
   0x19A4C116; 0x1E376C08; 0x2748774C; 0x34B0BCB5;
   0x391C0CB3; 0x4ED8AA4A; 0x5B9CCA4F; 0x682E6FF3;
   0x748F82EE; 0x78A5636F; 0x84C87814; 0x8CC70208;
   0x90BEFFFA; 0xA4506CEB; 0xBEF9A3F7; 0xC67178F2].

(** The message schedule of one block: [w[0..15]] read from the block at
    offset [j], then [w[16..63]].  [w] is an [Int32Array]. *)
Definition sha256_schedule (m : bytes) (j : Z) : bytes :=
  let w := for_loop 0 16 (fun i w => JS.put32 w i (JS.getInt32 m (j + i * 4)))
             (JS.zeros 64) in
  for_loop 16 64 (fun i w =>
    let w15 := JS.get w (i - 15) in
    let w2 := JS.get w (i - 2) in
    let s0 := JS.xor (JS.xor (JS.or (JS.ushr w15 7) (JS.shl w15 25))
                             (JS.or (JS.ushr w15 18) (JS.shl w15 14)))
                     (JS.ushr w15 3) in
    let s1 := JS.xor (JS.xor (JS.or (JS.ushr w2 17) (JS.shl w2 15))
                             (JS.or (JS.ushr w2 19) (JS.shl w2 13)))
                     (JS.ushr w2 10) in
    JS.put32 w i (JS.get w (i - 16) + s0 + JS.get w (i - 7) + s1)) w.

(** The working variables [a .. h]; they are plain numbers, wrapped only when
    a bitwise operator reads them or when they are added into [hh]. *)
Record sha256_vars : Type := mkVars {
  va : Z; vb : Z; vc : Z; vd : Z; ve : Z; vf : Z; vg : Z; vh : Z
}.

Definition sha256_round (k w : bytes) (i : Z) (v : sha256_vars) : sha256_vars :=
  let '(mkVars a b c d e f g h) := v in
  let S0 := JS.xor (JS.xor (JS.or (JS.ushr a 2) (JS.shl a 30))
                           (JS.or (JS.ushr a 13) (JS.shl a 19)))
                   (JS.or (JS.ushr a 22) (JS.shl a 10)) in
  let Ma := JS.xor (JS.xor (JS.and a b) (JS.and a c)) (JS.and b c) in
  let t2 := S0 + Ma in
  let S1 := JS.xor (JS.xor (JS.or (JS.ushr e 6) (JS.shl e 26))
                           (JS.or (JS.ushr e 11) (JS.shl e 21)))
                   (JS.or (JS.ushr e 25) (JS.shl e 7)) in
  let Ch := JS.xor (JS.and e f) (JS.and (JS.not e) g) in
  let t1 := h + S1 + Ch + JS.get k i + JS.get w i in
  mkVars (t1 + t2) a b c (d + t1) e f g.

Definition sha256_block (m : bytes) (hh : bytes) (j : Z) : bytes :=
  let w := sha256_schedule m j in
  let v0 := mkVars (JS.get hh 0) (JS.get hh 1) (JS.get hh 2) (JS.get hh 3)
                   (JS.get hh 4) (JS.get hh 5) (JS.get hh 6) (JS.get hh 7) in
  let '(mkVars a b c d e f g h) := for_loop 0 64 (sha256_round sha256_k w) v0 in
  let hh := JS.put32 hh 0 (JS.get hh 0 + a) in
  let hh := JS.put32 hh 1 (JS.get hh 1 + b) in
  let hh := JS.put32 hh 2 (JS.get hh 2 + c) in
  let hh := JS.put32 hh 3 (JS.get hh 3 + d) in
  let hh := JS.put32 hh 4 (JS.get hh 4 + e) in
  let hh := JS.put32 hh 5 (JS.get hh 5 + f) in
  let hh := JS.put32 hh 6 (JS.get hh 6 + g) in
  let hh := JS.put32 hh 7 (JS.get hh 7 + h) in
  hh.

(** The padded message [m]: the message, [0x80], zeros, and the bit length in
    the last four bytes. *)
Definition sha256_pad (message : bytes) : bytes :=
  let byteLength := Z.of_nat (length message) in
  let l := byteLength + 8 in
  let l := l + (64 - l mod 64) in
  let m := JS.zeros (Z.to_nat l) in
  let m := JS.set m message 0 in
  let m := JS.put8 m byteLength 0x80 in
  JS.setUint32 m (l - 4) (byteLength * 8).

Definition sha256 (message : bytes) : bytes :=
  let m := sha256_pad message in
  let blocks := map (fun b => b * 64) (seqZ 0 (Z.of_nat (length m) / 64)) in
  let hh := foldl (sha256_block m) sha256_hh blocks in
  for_loop 0 8 (fun i hash => JS.setUint32 hash (i * 4) (JS.get hh i))
    (JS.zeros 32).

(** ** SHA-256 as FIPS 180-4 defines it

    Written from the standard, not from the library: words are numbers of
    [0, 2^32) with addition modulo [2^32] (section 3.2), the functions are those
    of section 4.1.2, the constants are computed from the primes as section
    4.2.2 and 5.3.3 define them, and the message is padded (5.1.1), parsed
    (5.2.1) and hashed (6.2.2).  The library's [sha256] is compared with it. *)
Module FIPS180.

Definition wrap (x : Z) : Z := x mod 2 ^ 32.

Definition SHR (n x : Z) : Z := Z.shiftr x n.
Definition SHL (n x : Z) : Z := wrap (Z.shiftl x n).
Definition ROTR (n x : Z) : Z := Z.lor (SHR n x) (SHL (32 - n) x).
Definition complement (x : Z) : Z := 2 ^ 32 - 1 - x.

Definition Ch (x y z : Z) : Z := Z.lxor (Z.land x y) (Z.land (complement x) z).
Definition Maj (x y z : Z) : Z :=
  Z.lxor (Z.lxor (Z.land x y) (Z.land x z)) (Z.land y z).
Definition Sigma0 (x : Z) : Z := Z.lxor (Z.lxor (ROTR 2 x) (ROTR 13 x)) (ROTR 22 x).
Definition Sigma1 (x : Z) : Z := Z.lxor (Z.lxor (ROTR 6 x) (ROTR 11 x)) (ROTR 25 x).
Definition sigma0 (x : Z) : Z := Z.lxor (Z.lxor (ROTR 7 x) (ROTR 18 x)) (SHR 3 x).
Definition sigma1 (x : Z) : Z := Z.lxor (Z.lxor (ROTR 17 x) (ROTR 19 x)) (SHR 10 x).

(** The first sixty-four primes. *)
Definition is_prime (p : Z) : bool :=
  forallb (fun d => negb (p mod d =? 0)) (seqZ 2 (p - 2)).
Definition primes : list Z := List.filter is_prime (seqZ 2 310).

(** The integer cube root, bit by bit from bit [bits - 1] down. *)
Fixpoint root3 (bits : nat) (x r : Z) : Z :=
  match bits with
  | O => r
  | S bits =>
      let r' := r + 2 ^ Z.of_nat bits in
      if r' * r' * r' <=? x then root3 bits x r' else root3 bits x r
  end.

(** [K]: the first 32 bits of the fractional parts of the cube roots of the
    first sixty-four primes; [H0]: those of the square roots of the first
    eight. *)
Definition K : list Z := map (fun p => wrap (root3 36 (p * 2 ^ 96) 0)) primes.
Definition H0 : list Z := map (fun p => wrap (Z.sqrt (p * 2 ^ 64))) (take 8 primes).

(** The [n] big-endian bytes of a number. *)
Fixpoint big_endian (n : nat) (x : Z) : list Z :=
  match n with
  | O => []
  | S n => (x / 256 ^ Z.of_nat n) mod 256 :: big_endian n x
  end.

(** Padding a message of [l] bits: the bit 1, then [k] zero bits with
    [l + 1 + k = 448] modulo 512, then [l] as a 64-bit number.  On bytes, the
    bit 1 and the first seven zero bits are the byte [0x80]. *)
Definition pad (M : list Z) : list Z :=
  let l := 8 * Z.of_nat (length M) in
  let k := (448 - (l + 1)) mod 512 in
  M ++ [0x80] ++ replicate (Z.to_nat ((k - 7) / 8)) 0 ++ big_endian 8 l.

(** Parsing into blocks of sixteen 32-bit big-endian words. *)
Fixpoint words (bs : list Z) : list Z :=
  match bs with
  | b0 :: b1 :: b2 :: b3 :: bs =>
      (((b0 * 256 + b1) * 256 + b2) * 256 + b3) :: words bs
  | _ => []
  end.
Fixpoint blocks (n : nat) (bs : list Z) : list (list Z) :=
  match n with
  | O => []
  | S n => words (take 64 bs) :: blocks n (drop 64 bs)
  end.
Definition parse (bs : list Z) : list (list Z) := blocks (length bs / 64) bs.

(** The message schedule: [W_t] from [W_0 .. W_(t-1)]. *)
Definition W_next (W : list Z) : Z :=
  let t := length W in
  wrap (sigma1 (default 0 (W !! (t - 2)%nat)) + default 0 (W !! (t - 7)%nat)
        + sigma0 (default 0 (W !! (t - 15)%nat)) + default 0 (W !! (t - 16)%nat)).
Fixpoint schedule (n : nat) (W : list Z) : list Z :=
  match n with
  | O => W
  | S n => schedule n (W ++ [W_next W])
  end.

(** One round on the working variables [a .. h], and one block. *)
Definition round (s : Z * Z * Z * Z * Z * Z * Z * Z) (kw : Z * Z)
    : Z * Z * Z * Z * Z * Z * Z * Z :=
  let '(a, b, c, d, e, f, g, h) := s in
  let T1 := wrap (h + Sigma1 e + Ch e f g + kw.1 + kw.2) in
  let T2 := wrap (Sigma0 a + Maj a b c) in
  (wrap (T1 + T2), a, b, c, wrap (d + T1), e, f, g).

Definition compress (H : list Z) (M : list Z) : list Z :=
  match H with
  | [h0; h1; h2; h3; h4; h5; h6; h7] =>
      let '(a, b, c, d, e, f, g, h) :=
        foldl round (h0, h1, h2, h3, h4, h5, h6, h7) (zip K (schedule 48 M)) in
      [wrap (a + h0); wrap (b + h1); wrap (c + h2); wrap (d + h3);
       wrap (e + h4); wrap (f + h5); wrap (g + h6); wrap (h + h7)]
  | _ => H
  end.

Definition SHA256 (M : list Z) : list Z :=
  concat (map (big_endian 4) (foldl compress H0 (parse (pad M)))).

End FIPS180.

Definition hex_digit (c : Z) : Z :=
  if c <? 58 then c - 48 else if c <? 71 then c - 55 else c - 87.
Fixpoint hex_units (s : jsstring) : bytes :=
  match s with
  | hi :: lo :: rest => (hex_digit hi * 16 + hex_digit lo) :: hex_units rest
  | _ => []
  end.
(** The bytes written as a hexadecimal string, for test vectors. *)
Definition hex (s : string) : bytes := hex_units (str s).

(** ** UTF-8 *)

(** [Utf8Encode]: the loop over the code units, a surrogate pair consuming two. *)
Fixpoint Utf8Encode (text : jsstring) : bytes :=
  match text with
  | [] => []
  | chr :: rest =>
      if chr <? 0x80 then JS.ToUint8 chr :: Utf8Encode rest
      else if chr <? 0x800
      then JS.ToUint8 (JS.or 0xc0 (JS.shr chr 6))
             :: JS.ToUint8 (JS.or 0x80 (JS.and chr 0x3f)) :: Utf8Encode rest
      else if (chr <? 0xd800) || (0xe000 <=? chr)
      then JS.ToUint8 (JS.or 0xe0 (JS.shr chr 12))
             :: JS.ToUint8 (JS.or 0x80 (JS.and (JS.shr chr 6) 0x3f))
             :: JS.ToUint8 (JS.or 0x80 (JS.and chr 0x3f)) :: Utf8Encode rest
      else
        let quad (next : Z) : bytes :=
          let chr := 0x10000 + JS.shl (JS.and chr 0x3ff) 10 + JS.and next 0x3ff in
          [ JS.ToUint8 (JS.or 0xf0 (JS.shr chr 18));
            JS.ToUint8 (JS.or 0x80 (JS.and (JS.shr chr 12) 0x3f));
            JS.ToUint8 (JS.or 0x80 (JS.and (JS.shr chr 6) 0x3f));
            JS.ToUint8 (JS.or 0x80 (JS.and chr 0x3f)) ] in
        match rest with
        | [] => quad 0
        | next :: rest => quad next ++ Utf8Encode rest
        end
  end.

(** [Utf8Decode]; [fuel] bounds the number of sequences by the number of
    bytes.  [String.fromCharCode] keeps the low 16 bits. *)
Fixpoint Utf8Decode_from (fuel : nat) (b : bytes) : jsstring :=
  match fuel, b with
  | O, _ => []
  | _, [] => []
  | S fuel, chr :: rest =>
      if chr <? 0x80 then JS.ToUint16 chr :: Utf8Decode_from fuel rest
      else if (0xBF <? chr) && (chr <? 0xE0)
      then JS.ToUint16 (JS.or (JS.shl (JS.and chr 0x1F) 6)
                              (JS.and (JS.get rest 0) 0x3F))
             :: Utf8Decode_from fuel (drop 1 rest)
      else if (0xDF <? chr) && (chr <? 0xF0)
      then JS.ToUint16 (JS.or (JS.or (JS.shl (JS.and chr 0x0F) 12)
                                     (JS.shl (JS.and (JS.get rest 0) 0x3F) 6))
                              (JS.and (JS.get rest 1) 0x3F))
             :: Utf8Decode_from fuel (drop 2 rest)
      else
        let charCode :=
          JS.or (JS.or (JS.or (JS.shl (JS.and chr 0x07) 18)
                              (JS.shl (JS.and (JS.get rest 0) 0x3F) 12))
                       (JS.shl (JS.and (JS.get rest 1) 0x3F) 6))
                (JS.and (JS.get rest 2) 0x3F) - 0x010000 in
        JS.ToUint16 (JS.or (JS.shr charCode 10) 0xD800)
          :: JS.ToUint16 (JS.or (JS.and charCode 0x03FF) 0xDC00)
          :: Utf8Decode_from fuel (drop 3 rest)
  end.
Definition Utf8Decode (b : bytes) : jsstring := Utf8Decode_from (length b) b.

(** ** Bech32 *)

Module Bech32.

Definition _ALPHABET : jsstring := str "qpzry9x8gf2tvdw0s3jn54khce6mua7l".

(** [s.charAt (i)]: the empty string when out of range. *)
Definition charAt (s : jsstring) (i : Z) : jsstring :=
  if i <? 0 then [] else
  match s !! Z.to_nat i with
  | Some c => [c]
  | None => []
  end.

(** The object [_ALPHABET_MAP], keyed by one-character strings. *)
Definition _ALPHABET_MAP : list (jsstring * Z) :=
  [ (str "0", 15); (str "2", 10); (str "3", 17); (str "4", 21); (str "5", 20);
    (str "6", 26); (str "7", 30); (str "8", 7); (str "9", 5); (str "q", 0);
    (str "p", 1); (str "z", 2); (str "r", 3); (str "y", 4); (str "x", 6);
    (str "g", 8); (str "f", 9); (str "t", 11); (str "v", 12); (str "d", 13);
    (str "w", 14); (str "s", 16); (str "j", 18); (str "n", 19); (str "k", 22);
    (str "h", 23); (str "c", 24); (str "e", 25); (str "m", 27); (str "u", 28);
    (str "a", 29); (str "l", 31) ].

Fixpoint property (o : list (jsstring * Z)) (key : jsstring) : option Z :=
  match o with
  | [] => None
  | (k, v) :: rest => if bool_decide (k = key) then Some v else property rest key
  end.

Definition _polymodStep (pre : Z) : Z :=
  let b := JS.shr pre 25 in
  JS.xor (JS.xor (JS.xor (JS.xor (JS.xor
    (JS.shl (JS.and pre 0x1FFFFFF) 5)
    (JS.and (- (JS.and (JS.shr b 0) 1)) 0x3b6a57b2))
    (JS.and (- (JS.and (JS.shr b 1) 1)) 0x26508e6d))
    (JS.and (- (JS.and (JS.shr b 2) 1)) 0x1ea119fa))
    (JS.and (- (JS.and (JS.shr b 3) 1)) 0x3d4233dd))
    (JS.and (- (JS.and (JS.shr b 4) 1)) 0x2a1462b3).

(** The first loop of [_prefixChk], which is the one that can throw. *)
Fixpoint _prefixChk_high (prefix : jsstring) (chk : Z) : result Z :=
  match prefix with
  | [] => Ok chk
  | c :: rest =>
      if (c <? 33) || (126 <? c) then Err "Invalid prefix"
      else _prefixChk_high rest (JS.xor (_polymodStep chk) (JS.shr c 5))
  end.

Definition _prefixChk (prefix : jsstring) : result Z :=
  chk ← _prefixChk_high prefix 1;
  let chk := _polymodStep chk in
  Ok (foldl (fun chk v => JS.xor (_polymodStep chk) (JS.and v 0x1f)) chk prefix).

(** The loop [while (bits >= outBits)] of [_convert]; it gives [None] when
    [fuel] iterations do not end it. *)
Fixpoint _convert_while (fuel : nat) (value bits outBits maxV : Z)
    (result : list Z) : option (Z * list Z) :=
  if bits <? outBits then Some (bits, result)
  else
    match fuel with
    | O => None
    | S fuel =>
        let bits := bits - outBits in
        _convert_while fuel value bits outBits maxV
          (result ++ [JS.and (JS.shr value bits) maxV])
    end.

(** The state of the main loop of [_convert]: [value], [bits], [result]. *)
Definition _convert_step (inBits outBits maxV : Z)
    (st : option (Z * Z * list Z)) (d : Z) : option (Z * Z * list Z) :=
  '(value, bits, result) ← st;
  let value := JS.or (JS.shl value inBits) d in
  let bits := bits + inBits in
  '(bits, result) ← _convert_while (Z.to_nat bits) value bits outBits maxV result;
  Some (value, bits, result).

Definition _convert (data : bytes) (inBits outBits : Z) (pad : bool)
    : result (list Z) :=
  let maxV := JS.shl 1 outBits - 1 in
  match foldl (_convert_step inBits outBits maxV) (Some (0, 0, [])) data with
  | None => Err "_convert does not terminate"
  | Some (value, bits, result) =>
      if pad then
        if 0 <? bits
        then Ok (result ++ [JS.and (JS.shl value (outBits - bits)) maxV])
        else Ok result
      else
        if inBits <=? bits then Err "Excess padding"
        else if negb (JS.and (JS.shl value (outBits - bits)) maxV =? 0)
        then Err "Non-zero padding"
        else Ok result
  end.

(** [s.lastIndexOf (c)] for a one-character [c]; [-1] when absent. *)
Fixpoint lastIndexOf_from (s : jsstring) (c : Z) (i : Z) (found : Z) : Z :=
  match s with
  | [] => found
  | x :: rest => lastIndexOf_from rest c (i + 1) (if x =? c then i else found)
  end.
Definition lastIndexOf (s : jsstring) (c : Z) : Z := lastIndexOf_from s c 0 (-1).

Section WithCaseMap.
Context {cm : CaseMap}.

Definition _encode (prefix : jsstring) (words : list Z) : result jsstring :=
  let prefix := toLowerCase prefix in
  chk ← _prefixChk prefix;
  let result := prefix ++ str "1" in
  let '(chk, result) :=
    foldl (fun '(chk, result) word =>
             (JS.xor (_polymodStep chk) word, result ++ charAt _ALPHABET word))
          (chk, result) words in
  let chk := for_loop 0 6 (fun _ chk => _polymodStep chk) chk in
  let chk := JS.xor chk 1 in
  Ok (for_loop 0 6 (fun i result =>
        let v := JS.and (JS.shr chk ((5 - i) * 5)) 0x1f in
        result ++ charAt _ALPHABET v) result).

(** The loop of [_decode] over [wordChars]: state [chk], [words]. *)
Definition _decode_step (len : Z) (st : result (Z * list Z)) (ic : Z * Z)
    : result (Z * list Z) :=
  '(chk, words) ← st;
  let '(i, c) := ic in
  match property _ALPHABET_MAP [c] with
  | None => Err "Unknown character"
  | Some v =>
      let chk := JS.xor (_polymodStep chk) v in
      if len <=? i + 6 then Ok (chk, words) else Ok (chk, words ++ [v])
  end.

(** [_decode (str)].  The message of an error is its fixed text: the code
    appends the string, the prefix or the character at hand to it (as in
    ['Mixed-case string ' + str]), and so do [_decode_step] and
    [_prefixChk_high] above. *)
Definition _decode (str_ : jsstring) : result (jsstring * bytes) :=
  let lowered := toLowerCase str_ in
  let uppered := toUpperCase str_ in
  if bool_decide (str_ <> lowered) && bool_decide (str_ <> uppered)
  then Err "Mixed-case string"
  else
    let str_ := lowered in
    let split := lastIndexOf str_ 49 in
    if split =? -1 then Err "No separator character"
    else if split =? 0 then Err "Missing prefix"
    else
      let prefix := take (Z.to_nat split) str_ in
      let wordChars := drop (Z.to_nat (split + 1)) str_ in
      if (length wordChars <? 6)%nat then Err "Data too short"
      else
        chk ← _prefixChk prefix;
        '(chk, words) ←
          foldl (_decode_step (Z.of_nat (length wordChars))) (Ok (chk, []))
            (zip (seqZ 0 (Z.of_nat (length wordChars))) wordChars);
        if negb (chk =? 1) then Err "Invalid checksum"
        else Ok (prefix, map JS.ToUint8 words).

Definition encode (b : bytes) : result jsstring :=
  prefix ← versionToPrefix (JNumber (JInt (JS.getUint16 b 0)));
  let data := JS.subarray b 2 (length b) in
  words ← _convert data 8 5 true;
  _encode prefix words.

Definition decode (bech32 : jsstring) : result bytes :=
  raw ← _decode bech32;
  let '(prefix, words) := raw in
  b ← _convert words 5 8 false;
  if negb (length b =? 32)%nat then Err "invalid data length"
  else
    let res := JS.zeros 34 in
    let res := JS.set res (map JS.ToUint8 b) 2 in
    version ← prefixToVersion (JString prefix);
    Ok (JS.setUint16 res 0 version).

End WithCaseMap.

End Bech32.

(** ** Ed25519 (derived from TweetNaCl)

    A [Float64Array] cell holds an integer here; the integers stay far below
    [2^53] in absolute value, where the arithmetic of doubles is exact, so the
    cells are integers with [+], [-], [*] and [Math.floor (v / k)] as [v / k]. *)

Module Ed25519.

Abbreviation gf := (list Z) (only parsing).

Definition _D : gf :=
  [
   0x78a3; 0x1359; 0x4dca; 0x75eb; 0xd8ab; 0x4141; 0x0a4d; 0x0070;
   0xe898; 0x7779; 0x4079; 0x8cc7; 0xfe73; 0x2b6f; 0x6cee; 0x5203 ].
Definition _D2 : gf :=
  [
   0xf159; 0x26b2; 0x9b94; 0xebd6; 0xb156; 0x8283; 0x149a; 0x00e0;
   0xd130; 0xeef3; 0x80f2; 0x198e; 0xfce7; 0x56df; 0xd9dc; 0x2406 ].
Definition _gf0 : gf := JS.zeros 16.
Definition _gf1 : gf := [1; 0; 0; 0; 0; 0; 0; 0; 0; 0; 0; 0; 0; 0; 0; 0].
Definition _L : list Z :=
  [
   0xed; 0xd3; 0xf5; 0x5c; 0x1a; 0x63; 0x12; 0x58;
   0xd6; 0x9c; 0xf7; 0xa2; 0xde; 0xf9; 0xde; 0x14;
   0; 0; 0; 0; 0; 0; 0; 0;
   0; 0; 0; 0; 0; 0; 0; 0x10 ].
Definition _I : gf :=
  [
   0xa0b0; 0x4a0e; 0x1b27; 0xc4ee; 0xe478; 0xad2f; 0x1806; 0x2f43;
   0xd7a7; 0x3dfb; 0x0099; 0x2b4d; 0xdf0b; 0x4fc1; 0x2480; 0x2b83 ].
Definition _X : gf :=
  [
   0xd51a; 0x8f25; 0x2d60; 0xc956; 0xa7b2; 0x9525; 0xc760; 0x692c;
   0xdc5c; 0xfdd6; 0xe231; 0xc0a4; 0x53fe; 0xcd6e; 0x36d3; 0x2169 ].
Definition _Y : gf :=
  [
   0x6658; 0x6666; 0x6666; 0x6666; 0x6666; 0x6666; 0x6666; 0x6666;
   0x6666; 0x6666; 0x6666; 0x6666; 0x6666; 0x6666; 0x6666; 0x6666 ].

Definition PUBLIC_KEY_BYTES : nat := 32.
Definition SECRET_KEY_BYTES : nat := 64.
Definition SEED_BYTES : nat := 32.
Definition SIGNATURE_BYTES : nat := 64.

(** *** SHA-512 on pairs of 32-bit halves *)

Definition _K : list Z :=
  [
   0x428a2f98; 0xd728ae22; 0x71374491; 0x23ef65cd;
   0xb5c0fbcf; 0xec4d3b2f; 0xe9b5dba5; 0x8189dbbc;
   0x3956c25b; 0xf348b538; 0x59f111f1; 0xb605d019;
   0x923f82a4; 0xaf194f9b; 0xab1c5ed5; 0xda6d8118;
   0xd807aa98; 0xa3030242; 0x12835b01; 0x45706fbe;
   0x243185be; 0x4ee4b28c; 0x550c7dc3; 0xd5ffb4e2;
   0x72be5d74; 0xf27b896f; 0x80deb1fe; 0x3b1696b1;
   0x9bdc06a7; 0x25c71235; 0xc19bf174; 0xcf692694;
   0xe49b69c1; 0x9ef14ad2; 0xefbe4786; 0x384f25e3;
   0x0fc19dc6; 0x8b8cd5b5; 0x240ca1cc; 0x77ac9c65;
   0x2de92c6f; 0x592b0275; 0x4a7484aa; 0x6ea6e483;
   0x5cb0a9dc; 0xbd41fbd4; 0x76f988da; 0x831153b5;
   0x983e5152; 0xee66dfab; 0xa831c66d; 0x2db43210;
   0xb00327c8; 0x98fb213f; 0xbf597fc7; 0xbeef0ee4;
   0xc6e00bf3; 0x3da88fc2; 0xd5a79147; 0x930aa725;
   0x06ca6351; 0xe003826f; 0x14292967; 0x0a0e6e70;
   0x27b70a85; 0x46d22ffc; 0x2e1b2138; 0x5c26c926;
   0x4d2c6dfc; 0x5ac42aed; 0x53380d13; 0x9d95b3df;
   0x650a7354; 0x8baf63de; 0x766a0abb; 0x3c77b2a8;
   0x81c2c92e; 0x47edaee6; 0x92722c85; 0x1482353b;
   0xa2bfe8a1; 0x4cf10364; 0xa81a664b; 0xbc423001;
   0xc24b8b70; 0xd0f89791; 0xc76c51a3; 0x0654be30;
   0xd192e819; 0xd6ef5218; 0xd6990624; 0x5565a910;
   0xf40e3585; 0x5771202a; 0x106aa070; 0x32bbd1b8;
   0x19a4c116; 0xb8d2d0c8; 0x1e376c08; 0x5141ab53;
   0x2748774c; 0xdf8eeb99; 0x34b0bcb5; 0xe19b48a8;
   0x391c0cb3; 0xc5c95a63; 0x4ed8aa4a; 0xe3418acb;
   0x5b9cca4f; 0x7763e373; 0x682e6ff3; 0xd6b2b8a3;
   0x748f82ee; 0x5defb2fc; 0x78a5636f; 0x43172f60;
   0x84c87814; 0xa1f0ab72; 0x8cc70208; 0x1a6439ec;
   0x90befffa; 0x23631e28; 0xa4506ceb; 0xde82bde9;
   0xbef9a3f7; 0xb2c67915; 0xc67178f2; 0xe372532b;
   0xca273ece; 0xea26619c; 0xd186b8c7; 0x21c0c207;
   0xeada7dd6; 0xcde0eb1e; 0xf57d4f7f; 0xee6ed178;
   0x06f067aa; 0x72176fba; 0x0a637dc5; 0xa2c898a6;
   0x113f9804; 0xbef90dae; 0x1b710b35; 0x131c471b;
   0x28db77f5; 0x23047d84; 0x32caab7b; 0x40c72493;
   0x3c9ebe0a; 0x15c9bebc; 0x431d67c4; 0x9c100d4c;
   0x4cc5d4be; 0xcb3e42b6; 0x597f299c; 0xfc657e2a;
   0x5fcb6fab; 0x3ad6faec; 0x6c44198c; 0x4a475817 ].

(** The four 16-bit columns [a], [b], [c], [d] in which the code adds 64-bit
    words given as halves [h] (high) and [l] (low). *)
Record columns : Type := mkColumns { col_a : Z; col_b : Z; col_c : Z; col_d : Z }.

(** [a = l & 0xffff; b = l >>> 16; c = h & 0xffff; d = h >>> 16] *)
Definition col_init (h l : Z) : columns :=
  mkColumns (JS.and l 0xffff) (JS.ushr l 16) (JS.and h 0xffff) (JS.ushr h 16).

(** [a += l & 0xffff; b += l >>> 16; c += h & 0xffff; d += h >>> 16] *)
Definition col_add (x : columns) (h l : Z) : columns :=
  mkColumns (col_a x + JS.and l 0xffff) (col_b x + JS.ushr l 16)
            (col_c x + JS.and h 0xffff) (col_d x + JS.ushr h 16).

(** [b += a >>> 16; c += b >>> 16; d += c >>> 16] *)
Definition col_carry (x : columns) : columns :=
  let b := col_b x + JS.ushr (col_a x) 16 in
  let c := col_c x + JS.ushr b 16 in
  let d := col_d x + JS.ushr c 16 in
  mkColumns (col_a x) b c d.

(** [(c & 0xffff) | (d << 16)] and [(a & 0xffff) | (b << 16)] *)
Definition col_high (x : columns) : Z :=
  JS.or (JS.and (col_c x) 0xffff) (JS.shl (col_d x) 16).
Definition col_low (x : columns) : Z :=
  JS.or (JS.and (col_a x) 0xffff) (JS.shl (col_b x) 16).

(** The state of the 80 rounds of a block: [ah0 .. ah7], [al0 .. al7] and the
    sixteen-word window [wh], [wl]. *)
Record hash_state : Type := mkHashState {
  hs_ah : list Z; hs_al : list Z; hs_wh : list Z; hs_wl : list Z
}.

(** The update of [wh[j]], [wl[j]] when [i % 16 === 15]. *)
Definition schedule_word (j : Z) (w : list Z * list Z) : list Z * list Z :=
  let '(wh, wl) := w in
  let x := col_init (JS.get wh j) (JS.get wl j) in
  let x := col_add x (JS.get wh ((j + 9) mod 16)) (JS.get wl ((j + 9) mod 16)) in
  let th := JS.get wh ((j + 1) mod 16) in
  let tl := JS.get wl ((j + 1) mod 16) in
  let h := JS.xor (JS.xor (JS.or (JS.ushr th 1) (JS.shl tl (32 - 1)))
                          (JS.or (JS.ushr th 8) (JS.shl tl (32 - 8))))
                  (JS.ushr th 7) in
  let l := JS.xor (JS.xor (JS.or (JS.ushr tl 1) (JS.shl th (32 - 1)))
                          (JS.or (JS.ushr tl 8) (JS.shl th (32 - 8))))
                  (JS.or (JS.ushr tl 7) (JS.shl th (32 - 7))) in
  let x := col_add x h l in
  let th := JS.get wh ((j + 14) mod 16) in
  let tl := JS.get wl ((j + 14) mod 16) in
  let h := JS.xor (JS.xor (JS.or (JS.ushr th 19) (JS.shl tl (32 - 19)))
                          (JS.or (JS.ushr tl (61 - 32)) (JS.shl th (32 - (61 - 32)))))
                  (JS.ushr th 6) in
  let l := JS.xor (JS.xor (JS.or (JS.ushr tl 19) (JS.shl th (32 - 19)))
                          (JS.or (JS.ushr th (61 - 32)) (JS.shl tl (32 - (61 - 32)))))
                  (JS.or (JS.ushr tl 6) (JS.shl th (32 - 6))) in
  let x := col_carry (col_add x h l) in
  (JS.put32 wh j (col_high x), JS.put32 wl j (col_low x)).

Definition hash_round (i : Z) (s : hash_state) : hash_state :=
  let '(mkHashState ah al wh wl) := s in
  let ah0 := JS.get ah 0 in let ah1 := JS.get ah 1 in
  let ah2 := JS.get ah 2 in let ah3 := JS.get ah 3 in
  let ah4 := JS.get ah 4 in let ah5 := JS.get ah 5 in
  let ah6 := JS.get ah 6 in let ah7 := JS.get ah 7 in
  let al0 := JS.get al 0 in let al1 := JS.get al 1 in
  let al2 := JS.get al 2 in let al3 := JS.get al 3 in
  let al4 := JS.get al 4 in let al5 := JS.get al 5 in
  let al6 := JS.get al 6 in let al7 := JS.get al 7 in
  let x := col_init ah7 al7 in
  let h := JS.xor (JS.xor (JS.or (JS.ushr ah4 14) (JS.shl al4 (32 - 14)))
                          (JS.or (JS.ushr ah4 18) (JS.shl al4 (32 - 18))))
                  (JS.or (JS.ushr al4 (41 - 32)) (JS.shl ah4 (32 - (41 - 32)))) in
  let l := JS.xor (JS.xor (JS.or (JS.ushr al4 14) (JS.shl ah4 (32 - 14)))
                          (JS.or (JS.ushr al4 18) (JS.shl ah4 (32 - 18))))
                  (JS.or (JS.ushr ah4 (41 - 32)) (JS.shl al4 (32 - (41 - 32)))) in
  let x := col_add x h l in
  let h := JS.xor (JS.and ah4 ah5) (JS.and (JS.not ah4) ah6) in
  let l := JS.xor (JS.and al4 al5) (JS.and (JS.not al4) al6) in
  let x := col_add x h l in
  let x := col_add x (JS.get _K (i * 2)) (JS.get _K (i * 2 + 1)) in
  let x := col_add x (JS.get wh (i mod 16)) (JS.get wl (i mod 16)) in
  let x := col_carry x in
  let th := col_high x in
  let tl := col_low x in
  let x := col_init th tl in
  let h := JS.xor (JS.xor (JS.or (JS.ushr ah0 28) (JS.shl al0 (32 - 28)))
                          (JS.or (JS.ushr al0 (34 - 32)) (JS.shl ah0 (32 - (34 - 32)))))
                  (JS.or (JS.ushr al0 (39 - 32)) (JS.shl ah0 (32 - (39 - 32)))) in
  let l := JS.xor (JS.xor (JS.or (JS.ushr al0 28) (JS.shl ah0 (32 - 28)))
                          (JS.or (JS.ushr ah0 (34 - 32)) (JS.shl al0 (32 - (34 - 32)))))
                  (JS.or (JS.ushr ah0 (39 - 32)) (JS.shl al0 (32 - (39 - 32)))) in
  let x := col_add x h l in
  let h := JS.xor (JS.xor (JS.and ah0 ah1) (JS.and ah0 ah2)) (JS.and ah1 ah2) in
  let l := JS.xor (JS.xor (JS.and al0 al1) (JS.and al0 al2)) (JS.and al1 al2) in
  let x := col_carry (col_add x h l) in
  let bh7 := col_high x in
  let bl7 := col_low x in
  let x := col_carry (col_add (col_init ah3 al3) th tl) in
  let bh3 := col_high x in
  let bl3 := col_low x in
  let ah := [bh7; ah0; ah1; ah2; bh3; ah4; ah5; ah6] in
  let al := [bl7; al0; al1; al2; bl3; al4; al5; al6] in
  let '(wh, wl) :=
    if i mod 16 =? 15 then for_loop 0 16 schedule_word (wh, wl) else (wh, wl) in
  mkHashState ah al wh wl.

(** One iteration of [while (n >= 128)]: the block of [m] at [pos]. *)
Definition hash_block (m : bytes) (hhl : list Z * list Z) (pos : Z)
    : list Z * list Z :=
  let '(hh, hl) := hhl in
  let '(wh, wl) :=
    for_loop 0 16 (fun i '(wh, wl) =>
      let j := 8 * i + pos in
      (JS.put32 wh i
         (JS.or (JS.or (JS.or (JS.shl (JS.get m (j + 0)) 24)
                              (JS.shl (JS.get m (j + 1)) 16))
                       (JS.shl (JS.get m (j + 2)) 8))
                (JS.get m (j + 3))),
       JS.put32 wl i
         (JS.or (JS.or (JS.or (JS.shl (JS.get m (j + 4)) 24)
                              (JS.shl (JS.get m (j + 5)) 16))
                       (JS.shl (JS.get m (j + 6)) 8))
                (JS.get m (j + 7)))))
      (JS.zeros 16, JS.zeros 16) in
  let s := for_loop 0 80 hash_round (mkHashState hh hl wh wl) in
  for_loop 0 8 (fun k '(hh, hl) =>
    let x := col_init (JS.get (hs_ah s) k) (JS.get (hs_al s) k) in
    let x := col_carry (col_add x (JS.get hh k) (JS.get hl k)) in
    (JS.put32 hh k (col_high x), JS.put32 hl k (col_low x))) (hh, hl).

(** [_cryptoHashBlocksHl (hh, hl, m, n)]: the new [hh], [hl]; the returned
    remainder of [n] is not used by the callers. *)
Definition _cryptoHashBlocksHl (hh hl : list Z) (m : bytes) (n : Z)
    : list Z * list Z :=
  foldl (hash_block m) (hh, hl) (map (fun b => b * 128) (seqZ 0 (n / 128))).

Definition _ts64 (x : bytes) (i : Z) (h l : Z) : bytes :=
  let x := JS.put8 x i (JS.and (JS.shr h 24) 0xff) in
  let x := JS.put8 x (i + 1) (JS.and (JS.shr h 16) 0xff) in
  let x := JS.put8 x (i + 2) (JS.and (JS.shr h 8) 0xff) in
  let x := JS.put8 x (i + 3) (JS.and h 0xff) in
  let x := JS.put8 x (i + 4) (JS.and (JS.shr l 24) 0xff) in
  let x := JS.put8 x (i + 5) (JS.and (JS.shr l 16) 0xff) in
  let x := JS.put8 x (i + 6) (JS.and (JS.shr l 8) 0xff) in
  JS.put8 x (i + 7) (JS.and l 0xff).

(** [_cryptoHash (out, m, n)]: the 64 bytes written to [out]. *)
Definition _cryptoHash (m : bytes) (n : Z) : bytes :=
  let b := n in
  let hh := map JS.ToInt32
    [0x6a09e667; 0xbb67ae85; 0x3c6ef372; 0xa54ff53a;
     0x510e527f; 0x9b05688c; 0x1f83d9ab; 0x5be0cd19] in
  let hl := map JS.ToInt32
    [0xf3bcc908; 0x84caa73b; 0xfe94f82b; 0x5f1d36f1;
     0xade682d1; 0x2b3e6c1f; 0xfb41bd6b; 0x137e2179] in
  let '(hh, hl) := _cryptoHashBlocksHl hh hl m n in
  let n := n mod 128 in
  let x := for_loop 0 n (fun i x => JS.put8 x i (JS.get m (b - n + i)))
             (JS.zeros 256) in
  let x := JS.put8 x n 128 in
  let n := 256 - 128 * (if n <? 112 then 1 else 0) in
  let x := JS.put8 x (n - 9) 0 in
  let x := _ts64 x (n - 8) (JS.ToInt32 (b / 0x20000000)) (JS.shl b 3) in
  let '(hh, hl) := _cryptoHashBlocksHl hh hl x n in
  for_loop 0 8 (fun i out => _ts64 out (8 * i) (JS.get hh i) (JS.get hl i))
    (JS.zeros 64).

(** *** Field elements: sixteen limbs of sixteen bits *)

(** A [gf] is a [Float64Array] of sixteen cells that hold integers.  The
    functions below compute on integers: they are the code's while every sum
    and product stays within [2^53] in magnitude, where doubles are exact.
    That is so for the limbs the library passes around, which [_fnM] leaves
    below [2^17] and [_fnA], [_fnZ] below [2^19]; beyond it the code rounds
    and these definitions do not, so the theorems about them bound the limbs
    of their arguments. *)

Definition _set25519 (a : gf) : gf :=
  for_loop 0 16 (fun i r => JS.put r i (JS.get a i)) (JS.zeros 16).

Definition _car25519 (o : gf) : gf :=
  let '(o, c) :=
    for_loop 0 16 (fun i '(o, c) =>
      let v := JS.get o i + c + 65535 in
      let c := v / 65536 in
      (JS.put o i (v - c * 65536), c)) (o, 1) in
  JS.put o 0 (JS.get o 0 + (c - 1 + 37 * (c - 1))).

(** [p[i] ^= t; q[i] ^= t] with [t = c & (p[i] ^ q[i])]. *)
Definition _sel25519 (p q : gf) (b : Z) : gf * gf :=
  let c := JS.not (b - 1) in
  for_loop 0 16 (fun i '(p, q) =>
    let t := JS.and c (JS.xor (JS.get p i) (JS.get q i)) in
    (JS.put p i (JS.xor (JS.get p i) t), JS.put q i (JS.xor (JS.get q i) t)))
    (p, q).

Definition _fnA (a b : gf) : gf :=
  for_loop 0 16 (fun i o => JS.put o i (JS.get a i + JS.get b i)) (JS.zeros 16).

Definition _fnZ (a b : gf) : gf :=
  for_loop 0 16 (fun i o => JS.put o i (JS.get a i - JS.get b i)) (JS.zeros 16).

Definition _fnM (a b : gf) : gf :=
  let t := JS.zeros 31 in
  let t := for_loop 0 16 (fun i t =>
             for_loop 0 16 (fun j t =>
               JS.put t (i + j) (JS.get t (i + j) + JS.get a i * JS.get b j)) t) t in
  let t := for_loop 0 15 (fun i t =>
             JS.put t i (JS.get t i + 38 * JS.get t (i + 16))) t in
  let o := for_loop 0 16 (fun i o => JS.put o i (JS.get t i)) (JS.zeros 16) in
  _car25519 (_car25519 o).

Definition _fnS (a : gf) : gf := _fnM a a.

Definition _inv25519 (i : gf) : gf :=
  let c := _set25519 i in
  let c := for_down 253 0 (fun a c =>
             let c := _fnS c in
             if negb (a =? 2) && negb (a =? 4) then _fnM c i else c) c in
  _set25519 c.

Definition _pow2523 (i : gf) : gf :=
  let c := _set25519 i in
  let c := for_down 250 0 (fun a c =>
             let c := _fnS c in
             if negb (a =? 1) then _fnM c i else c) c in
  _set25519 c.

(** [_pack25519 (o, n)]: the 32 bytes written to [o]. *)
Definition _pack25519 (n : gf) : bytes :=
  let t := _set25519 n in
  let t := _car25519 (_car25519 (_car25519 t)) in
  let '(t, m) :=
    for_loop 0 2 (fun j '(t, m) =>
      let m := JS.put m 0 (JS.get t 0 - 0xffed) in
      let m := for_loop 1 15 (fun i m =>
                 let m := JS.put m i
                   (JS.get t i - 0xffff
                    - JS.and (JS.shr (JS.get m (i - 1)) 16) 1) in
                 JS.put m (i - 1) (JS.and (JS.get m (i - 1)) 0xffff)) m in
      let m := JS.put m 15
                 (JS.get t 15 - 0x7fff - JS.and (JS.shr (JS.get m 14) 16) 1) in
      let b := JS.and (JS.shr (JS.get m 15) 16) 1 in
      let m := JS.put m 14 (JS.and (JS.get m 14) 0xffff) in
      _sel25519 t m (1 - b)) (t, JS.zeros 16) in
  for_loop 0 16 (fun i o =>
    let o := JS.put8 o (2 * i) (JS.and (JS.get t i) 0xff) in
    JS.put8 o (2 * i + 1) (JS.shr (JS.get t i) 8)) (JS.zeros 32).

Definition _cryptoVerify32 (x y : bytes) : Z :=
  let d := for_loop 0 32 (fun i d =>
             JS.or d (JS.xor (JS.get x i) (JS.get y i))) 0 in
  JS.and 1 (JS.ushr (d - 1) 8) - 1.

Definition _neq25519 (a b : gf) : Z :=
  _cryptoVerify32 (_pack25519 a) (_pack25519 b).

Definition _par25519 (a : gf) : Z := JS.and (JS.get (_pack25519 a) 0) 1.

Definition _unpack25519 (n : bytes) : gf :=
  let o := for_loop 0 16 (fun i o =>
             JS.put o i (JS.get n (2 * i) + JS.shl (JS.get n (2 * i + 1)) 8))
             (JS.zeros 16) in
  JS.put o 15 (JS.and (JS.get o 15) 0x7fff).

(** *** Points: arrays [p[0] .. p[3]] of field elements *)

Record point : Type := mkPoint { pt0 : gf; pt1 : gf; pt2 : gf; pt3 : gf }.

(** [_add (p, q)]: the new contents of [p]. *)
Definition _add (p q : point) : point :=
  let a := _fnZ (pt1 p) (pt0 p) in
  let t := _fnZ (pt1 q) (pt0 q) in
  let a := _fnM a t in
  let b := _fnA (pt0 p) (pt1 p) in
  let t := _fnA (pt0 q) (pt1 q) in
  let b := _fnM b t in
  let c := _fnM (pt3 p) (pt3 q) in
  let c := _fnM c _D2 in
  let d := _fnM (pt2 p) (pt2 q) in
  let d := _fnA d d in
  let e := _fnZ b a in
  let f := _fnZ d c in
  let g := _fnA d c in
  let h := _fnA b a in
  mkPoint (_fnM e f) (_fnM h g) (_fnM g f) (_fnM e h).

Definition _cswap (p q : point) (b : Z) : point * point :=
  let '(p0, q0) := _sel25519 (pt0 p) (pt0 q) b in
  let '(p1, q1) := _sel25519 (pt1 p) (pt1 q) b in
  let '(p2, q2) := _sel25519 (pt2 p) (pt2 q) b in
  let '(p3, q3) := _sel25519 (pt3 p) (pt3 q) b in
  (mkPoint p0 p1 p2 p3, mkPoint q0 q1 q2 q3).

(** [_pack (r, p)]: the 32 bytes written to [r]. *)
Definition _pack (p : point) : bytes :=
  let zi := _inv25519 (pt2 p) in
  let tx := _fnM (pt0 p) zi in
  let ty := _fnM (pt1 p) zi in
  let r := _pack25519 ty in
  JS.put8 r 31 (JS.xor (JS.get r 31) (JS.shl (_par25519 tx) 7)).

(** [_scalarmult (p, q, s)]: the new contents of [p]. *)
Definition _scalarmult (q : point) (s : bytes) : point :=
  let p := mkPoint (_set25519 _gf0) (_set25519 _gf1) (_set25519 _gf1)
                   (_set25519 _gf0) in
  fst (for_down 255 0 (fun i '(p, q) =>
    let b := JS.and (JS.shr (JS.get s (JS.ToInt32 (i / 8))) (JS.and i 7)) 1 in
    let '(p, q) := _cswap p q b in
    let q := _add q p in
    let p := _add p p in
    _cswap p q b) (p, q)).

Definition _scalarbase (s : bytes) : point :=
  let q := mkPoint (_set25519 _X) (_set25519 _Y) (_set25519 _gf1)
                   (_fnM _X _Y) in
  _scalarmult q s.

(** *** Scalars modulo the group order *)

(** [_modL (r, x)]: the 32 bytes written to [r]. *)
Definition _modL (x : list Z) : bytes :=
  let x := for_down 63 32 (fun i x =>
    let '(x, carry) :=
      for_loop (i - 32) (i - 12) (fun j '(x, carry) =>
        let x := JS.put x j
                   (JS.get x j
                    + (carry - 16 * JS.get x i * JS.get _L (j - (i - 32)))) in
        let carry := (JS.get x j + 128) / 256 in
        (JS.put x j (JS.get x j - carry * 256), carry)) (x, 0) in
    let x := JS.put x (i - 12) (JS.get x (i - 12) + carry) in
    JS.put x i 0) x in
  let '(x, carry) :=
    for_loop 0 32 (fun j '(x, carry) =>
      let x := JS.put x j
                 (JS.get x j
                  + (carry - JS.shr (JS.get x 31) 4 * JS.get _L j)) in
      let carry := JS.shr (JS.get x j) 8 in
      (JS.put x j (JS.and (JS.get x j) 255), carry)) (x, 0) in
  let x := for_loop 0 32 (fun j x =>
             JS.put x j (JS.get x j - carry * JS.get _L j)) x in
  snd (for_loop 0 32 (fun i '(x, r) =>
    let x := JS.put x (i + 1) (JS.get x (i + 1) + JS.shr (JS.get x i) 8) in
    (x, JS.put8 r i (JS.and (JS.get x i) 255))) (x, JS.zeros 32)).

(** [_reduce (r)]: the new contents of the 64-byte [r]. *)
Definition _reduce (r : bytes) : bytes :=
  let x := for_loop 0 64 (fun i x => JS.put x i (JS.get r i)) (JS.zeros 64) in
  JS.set (JS.zeros 64) (_modL x) 0.

(** *** Signatures *)

(** [d[0] &= 248; d[31] &= 127; d[31] |= 64] *)
Definition clamp (d : bytes) : bytes :=
  let d := JS.put8 d 0 (JS.and (JS.get d 0) 248) in
  let d := JS.put8 d 31 (JS.and (JS.get d 31) 127) in
  JS.put8 d 31 (JS.or (JS.get d 31) 64).

(** [_cryptoSign (sm, m, n, sk)]: the new contents of [sm], which has
    [n + 64] bytes. *)
Definition _cryptoSign (m : bytes) (n : Z) (sk : bytes) : bytes :=
  let sm := JS.zeros (Z.to_nat (64 + n)) in
  let d := clamp (_cryptoHash sk 32) in
  let sm := for_loop 0 n (fun i sm => JS.put8 sm (64 + i) (JS.get m i)) sm in
  let sm := for_loop 0 32 (fun i sm => JS.put8 sm (32 + i) (JS.get d (32 + i))) sm in
  let r := _cryptoHash (JS.subarray sm 32 (length sm)) (n + 32) in
  let r := _reduce r in
  let p := _scalarbase r in
  let sm := JS.set sm (_pack p) 0 in
  let sm := for_loop 32 64 (fun i sm => JS.put8 sm i (JS.get sk i)) sm in
  let h := _cryptoHash sm (n + 64) in
  let h := _reduce h in
  let x := JS.zeros 64 in
  let x := for_loop 0 32 (fun i x => JS.put x i (JS.get r i)) x in
  let x := for_loop 0 32 (fun i x =>
             for_loop 0 32 (fun j x =>
               JS.put x (i + j) (JS.get x (i + j) + JS.get h i * JS.get d j)) x) x in
  JS.set sm (_modL x) 32.

(** [_cryptoSignKeypair (pk, sk)]: the new contents of [pk] and [sk]. *)
Definition _cryptoSignKeypair (sk : bytes) : bytes * bytes :=
  let d := clamp (_cryptoHash sk 32) in
  let p := _scalarbase d in
  let pk := _pack p in
  (pk, for_loop 0 32 (fun i sk => JS.put8 sk (i + 32) (JS.get pk i)) sk).

(** [_unpackneg (r, p)]: the point written to [r] when the call returns [0],
    nothing when it returns [-1]. *)
Definition _unpackneg (p : bytes) : option point :=
  let r2 := _set25519 _gf1 in
  let r1 := _unpack25519 p in
  let num := _fnS r1 in
  let den := _fnM num _D in
  let num := _fnZ num r2 in
  let den := _fnA r2 den in
  let den2 := _fnS den in
  let den4 := _fnS den2 in
  let den6 := _fnM den4 den2 in
  let t := _fnM den6 num in
  let t := _fnM t den in
  let t := _pow2523 t in
  let t := _fnM t num in
  let t := _fnM t den in
  let t := _fnM t den in
  let r0 := _fnM t den in
  let chk := _fnS r0 in
  let chk := _fnM chk den in
  let r0 := if negb (_neq25519 chk num =? 0) then _fnM r0 _I else r0 in
  let chk := _fnS r0 in
  let chk := _fnM chk den in
  if negb (_neq25519 chk num =? 0) then None
  else
    let r0 := if _par25519 r0 =? JS.shr (JS.get p 31) 7
              then _fnZ _gf0 r0 else r0 in
    Some (mkPoint r0 r1 r2 (_fnM r0 r1)).

(** [_cryptoSignOpen (m, sm, n, pk)]: the returned number. *)
Definition _cryptoSignOpen (sm : bytes) (n : Z) (pk : bytes) : Z :=
  match _unpackneg pk with
  | None => -1
  | Some q =>
      let m := JS.zeros (length sm) in
      let m := for_loop 0 n (fun i m => JS.put8 m i (JS.get sm i)) m in
      let m := for_loop 0 32 (fun i m => JS.put8 m (i + 32) (JS.get pk i)) m in
      let h := _cryptoHash m n in
      let h := _reduce h in
      let p := _scalarmult q h in
      let q := _scalarbase (JS.subarray sm 32 (length sm)) in
      let p := _add p q in
      let t := _pack p in
      if negb (_cryptoVerify32 sm t =? 0) then -1 else n
  end.

Definition sign (message secretKey : bytes) : bytes :=
  let signedMsg :=
    _cryptoSign message (Z.of_nat (length message)) secretKey in
  JS.subarray signedMsg 0 SIGNATURE_BYTES.

Definition verify (signature message publicKey : bytes) : bool :=
  let sm := JS.zeros (SIGNATURE_BYTES + length message) in
  let sm := for_loop 0 (Z.of_nat SIGNATURE_BYTES) (fun i sm =>
              JS.put8 sm i (JS.get signature i)) sm in
  let sm := for_loop 0 (Z.of_nat (length message)) (fun i sm =>
              JS.put8 sm (i + Z.of_nat SIGNATURE_BYTES) (JS.get message i)) sm in
  0 <=? _cryptoSignOpen sm (Z.of_nat (length sm)) publicKey.

Definition secretKeyFromSeed (seed : bytes) : bytes :=
  let sk := JS.zeros SECRET_KEY_BYTES in
  let sk := for_loop 0 32 (fun i sk => JS.put8 sk i (JS.get seed i)) sk in
  snd (_cryptoSignKeypair sk).

Definition publicKeyFromSecretKey (secretKey : bytes) : bytes :=
  JS.set (JS.zeros PUBLIC_KEY_BYTES) (JS.subarray secretKey 32 64) 0.

End Ed25519.

(** ** PublicKey and SecretKey *)

Definition PublicKey_LENGTH : nat := Ed25519.PUBLIC_KEY_BYTES.
Definition PublicKey_SIGNATURE_LENGTH : nat := Ed25519.SIGNATURE_BYTES.
Definition SecretKey_LENGTH : nat := Ed25519.SECRET_KEY_BYTES.

(** [new PublicKey (bytes)] *)
Definition PublicKey_new (b : JsValue) : result PublicKey :=
  match b with
  | JUint8Array b =>
      if negb (length b =? PublicKey_LENGTH)%nat
      then Err "bytes must be 32 bytes length"
      else Ok (mkPublicKey (JS.set (JS.zeros PublicKey_LENGTH) b 0))
  | _ => Err "bytes must be Uint8Array"
  end.

Definition PublicKey_signatureLength (k : PublicKey) : nat :=
  PublicKey_SIGNATURE_LENGTH.

Definition PublicKey_bytes (k : PublicKey) : bytes :=
  JS.set (JS.zeros (length (publicKey_bytes k))) (publicKey_bytes k) 0.

Definition PublicKey_verifySignature (k : PublicKey) (signature message : JsValue)
    : result bool :=
  match signature with
  | JUint8Array signature =>
      if negb (length signature =? PublicKey_SIGNATURE_LENGTH)%nat
      then Err "signature length must be 64 bytes"
      else
        match message with
        | JUint8Array message =>
            Ok (Ed25519.verify signature message (publicKey_bytes k))
        | _ => Err "message type must be Uint8Array"
        end
  | _ => Err "signature type must be Uint8Array"
  end.

(** [new SecretKey (bytes)] *)
Definition SecretKey_new (b : JsValue) : result SecretKey :=
  match b with
  | JUint8Array b =>
      if negb (length b =? SecretKey_LENGTH)%nat
      then Err "bytes length must be 64 bytes"
      else Ok (mkSecretKey (JS.set (JS.zeros SecretKey_LENGTH) b 0))
  | _ => Err "bytes type must be Uint8Array"
  end.

Definition SecretKey_bytes (k : SecretKey) : bytes :=
  JS.set (JS.zeros (length (secretKey_bytes k))) (secretKey_bytes k) 0.

Definition SecretKey_publicKey (k : SecretKey) : result PublicKey :=
  PublicKey_new
    (JUint8Array (Ed25519.publicKeyFromSecretKey (secretKey_bytes k))).

Definition SecretKey_sign (k : SecretKey) (message : JsValue) : result bytes :=
  match message with
  | JUint8Array message => Ok (Ed25519.sign message (secretKey_bytes k))
  | _ => Err "message type must be Uint8Array"
  end.

Definition SecretKey_fromSeed (seed : JsValue) : result SecretKey :=
  match seed with
  | JUint8Array seed =>
      if (128 <? length seed)%nat
      then Err "seed length must be not greater than 128 bytes"
      else if (length seed =? Ed25519.SEED_BYTES)%nat
      then SecretKey_new (JUint8Array (Ed25519.secretKeyFromSeed seed))
      else SecretKey_new (JUint8Array (Ed25519.secretKeyFromSeed (sha256 seed)))
  | _ => Err "seed must be Uint8Array"
  end.

(** ** Address *)

Definition Address_LENGTH : nat := 34.
Definition Address_Genesis : Z := 0.
Definition Address_Umi : Z := 21929.

Definition Address_version (a : Address) : Z :=
  JS.getUint16 (address_bytes a) 0.

(** The numeric operand of [version & 0x7FFF]; the setter has already thrown
    for anything but a number. *)
Definition number_operand (v : JsValue) : Z :=
  match v with
  | JNumber n => JS.ToInteger n
  | _ => 0
  end.

(** [set version (version)] *)
Definition Address_set_version (a : Address) (version : JsValue)
    : result Address :=
  _ ← versionToPrefix version;
  Ok (mkAddress
        (JS.setUint16 (address_bytes a) 0
           (JS.and (number_operand version) 0x7FFF))).

(** [new Address (bytes)] *)
Definition Address_new (b : JsValue) : result Address :=
  let this := mkAddress (JS.zeros Address_LENGTH) in
  match b with
  | JUndefined => Address_set_version this (JNumber (JInt Address_Umi))
  | JUint8Array b =>
      if negb (length b =? Address_LENGTH)%nat
      then Err "bytes length must be 34 bytes"
      else Ok (mkAddress (JS.set (address_bytes this) b 0))
  | _ => Err "bytes type must be Uint8Array"
  end.

Definition Address_bytes (a : Address) : bytes :=
  JS.set (JS.zeros (length (address_bytes a))) (address_bytes a) 0.

Definition Address_setVersion (a : Address) (version : JsValue) : result Address :=
  Address_set_version a version.

Definition Address_publicKey (a : Address) : result PublicKey :=
  PublicKey_new
    (JUint8Array (JS.subarray (address_bytes a) 2 (length (address_bytes a)))).

(** [set publicKey (publicKey)] *)
Definition Address_set_publicKey (a : Address) (publicKey : JsValue)
    : result Address :=
  match publicKey with
  | JPublicKey publicKey =>
      Ok (mkAddress (JS.set (address_bytes a) (PublicKey_bytes publicKey) 2))
  | _ => Err "publicKey type must be PublicKey"
  end.

Definition Address_setPublicKey (a : Address) (publicKey : JsValue)
    : result Address :=
  Address_set_publicKey a publicKey.

Definition Address_prefix (a : Address) : result jsstring :=
  versionToPrefix (JNumber (JInt (Address_version a))).

(** [set prefix (prefix)] *)
Definition Address_set_prefix (a : Address) (prefix : JsValue) : result Address :=
  version ← prefixToVersion prefix;
  Address_set_version a (JNumber (JInt version)).

Definition Address_setPrefix (a : Address) (prefix : JsValue) : result Address :=
  Address_set_prefix a prefix.

(** [Address.fromKey (key)] *)
Definition Address_fromKey (key : JsValue) : result Address :=
  match key with
  | JSecretKey key =>
      this ← Address_new JUndefined;
      publicKey ← SecretKey_publicKey key;
      Address_setPublicKey this (JPublicKey publicKey)
  | JPublicKey key =>
      this ← Address_new JUndefined;
      Address_setPublicKey this (JPublicKey key)
  | _ => Err "key type must be PublicKey or SecretKey"
  end.

Section AddressBech32.
Context {cm : CaseMap}.

Definition Address_bech32 (a : Address) : result jsstring :=
  Bech32.encode (address_bytes a).

(** [set bech32 (bech32)] *)
Definition Address_set_bech32 (a : Address) (bech32 : JsValue) : result Address :=
  match bech32 with
  | JString bech32 =>
      b ← Bech32.decode bech32;
      Ok (mkAddress (JS.set (address_bytes a) b 0))
  | _ => Err "bech32 type must be a string"
  end.

Definition Address_setBech32 (a : Address) (bech32 : JsValue) : result Address :=
  Address_set_bech32 a bech32.

(** [Address.fromBech32 (bech32)] *)
Definition Address_fromBech32 (bech32 : JsValue) : result Address :=
  this ← Address_new JUndefined;
  Address_setBech32 this bech32.

End AddressBech32.

(** ** Transaction *)

Definition Transaction_LENGTH : nat := 150.
Definition Transaction_Genesis : Z := 0.
Definition Transaction_Basic : Z := 1.
Definition Transaction_CreateStructure : Z := 2.
Definition Transaction_UpdateStructure : Z := 3.
Definition Transaction_UpdateProfitAddress : Z := 4.
Definition Transaction_UpdateFeeAddress : Z := 5.
Definition Transaction_CreateTransitAddress : Z := 6.
Definition Transaction_DeleteTransitAddress : Z := 7.

(** [Object.prototype.hasOwnProperty.call (this._fieldsMap, field)] *)
Definition hasField (tx : Transaction) (field : string) : bool :=
  bool_decide (is_Some (tx_fieldsMap tx !! field)).

Fixpoint _checkFields (tx : Transaction) (fields : list string) : result unit :=
  match fields with
  | [] => Ok ()
  | field :: fields =>
      if negb (hasField tx field) then Err (field +:+ " must be set")
      else _checkFields tx fields
  end.

Definition _setFields (tx : Transaction) (fields : list string) : Transaction :=
  mkTransaction (tx_bytes tx)
    (foldl (fun m field => <[field := true]> m) (tx_fieldsMap tx) fields).

Definition with_bytes (tx : Transaction) (b : bytes) : Transaction :=
  mkTransaction b (tx_fieldsMap tx).

(** [new Transaction (bytes)] *)
Definition Transaction_new (b : JsValue) : result Transaction :=
  let this := mkTransaction (JS.zeros Transaction_LENGTH) ∅ in
  match b with
  | JUndefined => Ok this
  | JUint8Array b =>
      if negb (length b =? Transaction_LENGTH)%nat
      then Err "bytes length must be 150 bytes"
      else
        Ok (_setFields (with_bytes this (JS.set (tx_bytes this) b 0))
              ["version"; "sender"; "recipient"; "value"; "prefix";
               "name"; "profitPercent"; "feePercent"; "nonce"; "signature"])
  | _ => Err "bytes type must be Uint8Array"
  end.

Definition Transaction_bytes (tx : Transaction) : bytes :=
  JS.set (JS.zeros (length (tx_bytes tx))) (tx_bytes tx) 0.

Definition Transaction_hash (tx : Transaction) : bytes := sha256 (tx_bytes tx).

Definition Transaction_version (tx : Transaction) : result Z :=
  _ ← _checkFields tx ["version"];
  Ok (JS.get (tx_bytes tx) 0).

(** [set version (version)] *)
Definition Transaction_set_version (tx : Transaction) (version : JsValue)
    : result Transaction :=
  if hasField tx "version" then Err "could not update version"
  else
    match version with
    | JNumber n =>
        if negb (JS.floor_eq n) then Err "version type must be integer"
        else if JS.lt n Transaction_Genesis
                || JS.gt n Transaction_DeleteTransitAddress
        then Err "incorrect version"
        else
          Ok (_setFields
                (with_bytes tx (JS.put8 (tx_bytes tx) 0 (JS.ToInteger n)))
                ["version"])
    | _ => Err "version type must be number"
    end.

Definition Transaction_setVersion := Transaction_set_version.

Definition Transaction_sender (tx : Transaction) : result Address :=
  _ ← _checkFields tx ["sender"];
  Address_new (JUint8Array (JS.subarray (tx_bytes tx) 1 35)).

(** [set sender (address)] *)
Definition Transaction_set_sender (tx : Transaction) (address : JsValue)
    : result Transaction :=
  _ ← _checkFields tx ["version"];
  match address with
  | JAddress address =>
      version ← Transaction_version tx;
      if (version =? Transaction_Genesis)
         && negb (Address_version address =? Address_Genesis)
      then Err "address version must be genesis"
      else if negb (version =? Transaction_Genesis)
              && (Address_version address =? Address_Genesis)
      then Err "address version must not be genesis"
      else
        Ok (_setFields
              (with_bytes tx (JS.set (tx_bytes tx) (Address_bytes address) 1))
              ["sender"])
  | _ => Err "address type must be Address"
  end.

Definition Transaction_setSender := Transaction_set_sender.

Definition Transaction_recipient (tx : Transaction) : result Address :=
  _ ← _checkFields tx ["version"];
  version ← Transaction_version tx;
  if (version =? Transaction_CreateStructure)
     || (version =? Transaction_UpdateStructure)
  then Err "recipient unavailable for this transaction type"
  else
    _ ← _checkFields tx ["recipient"];
    Address_new (JUint8Array (JS.subarray (tx_bytes tx) 35 69)).

(** [set recipient (address)] *)
Definition Transaction_set_recipient (tx : Transaction) (address : JsValue)
    : result Transaction :=
  _ ← _checkFields tx ["version"];
  version ← Transaction_version tx;
  if (version =? Transaction_CreateStructure)
     || (version =? Transaction_UpdateStructure)
  then Err "recipient unavailable for this transaction type"
  else
    match address with
    | JAddress address =>
        if Address_version address =? Address_Genesis
        then Err "recipient version must not be genesis"
        else if (version =? Transaction_Genesis)
                && negb (Address_version address =? Address_Umi)
        then Err "recipient version must be umi"
        else if negb (version =? Transaction_Genesis)
                && negb (version =? Transaction_Basic)
                && (Address_version address =? Address_Umi)
        then Err "recipient version must not be umi"
        else
          Ok (_setFields
                (with_bytes tx (JS.set (tx_bytes tx) (Address_bytes address) 35))
                ["recipient"])
    | _ => Err "recipient type must be Address"
    end.

Definition Transaction_setRecipient := Transaction_set_recipient.

(** The 64-bit big-endian field at [offset], read by [value] and [nonce]:
    [getUint32 (offset) * 4294967296 + getUint32 (offset + 4)]. *)
Definition read_u64 (b : bytes) (offset : Z) : Z :=
  JS.getUint32 b offset * 4294967296 + JS.getUint32 b (offset + 4).

(** ... and written by their setters:
    [setInt32 (offset + 4, v | 0)] then
    [setInt32 (offset, (v - getUint32 (offset + 4)) / 4294967296)]. *)
Definition write_u64 (b : bytes) (offset : Z) (v : Z) : bytes :=
  let b := JS.setInt32 b (offset + 4) (JS.ToInt32 v) in
  JS.setInt32 b offset (Z.quot (v - JS.getUint32 b (offset + 4)) 4294967296).

Definition Transaction_value (tx : Transaction) : result Z :=
  _ ← _checkFields tx ["version"];
  version ← Transaction_version tx;
  if negb (version =? Transaction_Genesis) && negb (version =? Transaction_Basic)
  then Err "value unavailable for this transaction type"
  else
    _ ← _checkFields tx ["value"];
    if 0x001f <? JS.getUint16 (tx_bytes tx) 69
    then Err "value is not safe integer"
    else Ok (read_u64 (tx_bytes tx) 69).

(** [set value (value)] *)
Definition Transaction_set_value (tx : Transaction) (value : JsValue)
    : result Transaction :=
  _ ← _checkFields tx ["version"];
  version ← Transaction_version tx;
  if negb (version =? Transaction_Genesis) && negb (version =? Transaction_Basic)
  then Err "value unavailable for this transaction type"
  else
    match value with
    | JNumber n =>
        if negb (JS.floor_eq n) then Err "value must be integer"
        else if JS.lt n 1 || JS.gt n 9007199254740991
        then Err "value must be between 1 and 9007199254740991"
        else
          Ok (_setFields
                (with_bytes tx (write_u64 (tx_bytes tx) 69 (JS.ToInteger n)))
                ["value"])
    | _ => Err "value must be number"
    end.

Definition Transaction_setValue := Transaction_set_value.

Definition Transaction_prefix (tx : Transaction) : result jsstring :=
  _ ← _checkFields tx ["version"];
  version ← Transaction_version tx;
  if negb (version =? Transaction_CreateStructure)
     && negb (version =? Transaction_UpdateStructure)
  then Err "prefix unavailable for this transaction type"
  else
    _ ← _checkFields tx ["prefix"];
    versionToPrefix (JNumber (JInt (JS.getUint16 (tx_bytes tx) 35))).

(** [set prefix (prefix)] *)
Definition Transaction_set_prefix (tx : Transaction) (prefix : JsValue)
    : result Transaction :=
  _ ← _checkFields tx ["version"];
  version ← Transaction_version tx;
  if negb (version =? Transaction_CreateStructure)
     && negb (version =? Transaction_UpdateStructure)
  then Err "prefix unavailable for this transaction type"
  else
    v ← prefixToVersion prefix;
    Ok (_setFields (with_bytes tx (JS.setUint16 (tx_bytes tx) 35 v)) ["prefix"]).

Definition Transaction_setPrefix := Transaction_set_prefix.

Definition Transaction_name (tx : Transaction) : result jsstring :=
  _ ← _checkFields tx ["version"];
  version ← Transaction_version tx;
  if negb (version =? Transaction_CreateStructure)
     && negb (version =? Transaction_UpdateStructure)
  then Err "name unavailable for this transaction type"
  else
    _ ← _checkFields tx ["name"];
    let txt := JS.subarray (tx_bytes tx) (41 + 1)
                 (41 + 1 + Z.to_nat (JS.get (tx_bytes tx) 41)) in
    Ok (Utf8Decode txt).

(** [set name (name)] *)
Definition Transaction_set_name (tx : Transaction) (name : JsValue)
    : result Transaction :=
  _ ← _checkFields tx ["version"];
  version ← Transaction_version tx;
  if negb (version =? Transaction_CreateStructure)
     && negb (version =? Transaction_UpdateStructure)
  then Err "name unavailable for this transaction type"
  else
    match name with
    | JString name =>
        let txt := Utf8Encode name in
        if (36 <=? length txt)%nat then Err "name is too long"
        else
          let b := JS.put8 (tx_bytes tx) 41 (Z.of_nat (length txt)) in
          Ok (_setFields (with_bytes tx (JS.set b txt (41 + 1))) ["name"])
    | _ => Err "name type must be a string"
    end.

Definition Transaction_setName := Transaction_set_name.

Definition Transaction_profitPercent (tx : Transaction) : result Z :=
  _ ← _checkFields tx ["version"];
  version ← Transaction_version tx;
  if negb (version =? Transaction_CreateStructure)
     && negb (version =? Transaction_UpdateStructure)
  then Err "profitPercent unavailable for this transaction type"
  else
    _ ← _checkFields tx ["profitPercent"];
    Ok (JS.getUint16 (tx_bytes tx) 37).

(** [set profitPercent (percent)] *)
Definition Transaction_set_profitPercent (tx : Transaction) (percent : JsValue)
    : result Transaction :=
  _ ← _checkFields tx ["version"];
  version ← Transaction_version tx;
  if negb (version =? Transaction_CreateStructure)
     && negb (version =? Transaction_UpdateStructure)
  then Err "profitPercent unavailable for this transaction type"
  else
    match percent with
    | JNumber n =>
        if negb (JS.floor_eq n) then Err "percent must be integer"
        else if JS.lt n 100 || JS.gt n 500
        then Err "percent value must be between 100 and 500"
        else
          Ok (_setFields
                (with_bytes tx (JS.setUint16 (tx_bytes tx) 37 (JS.ToInteger n)))
                ["profitPercent"])
    | _ => Err "percent must be number"
    end.

Definition Transaction_setProfitPercent := Transaction_set_profitPercent.

Definition Transaction_feePercent (tx : Transaction) : result Z :=
  _ ← _checkFields tx ["version"];
  version ← Transaction_version tx;
  if negb (version =? Transaction_CreateStructure)
     && negb (version =? Transaction_UpdateStructure)
  then Err "feePercent unavailable for this transaction type"
  else
    _ ← _checkFields tx ["feePercent"];
    Ok (JS.getUint16 (tx_bytes tx) 39).

(** [set feePercent (percent)] *)
Definition Transaction_set_feePercent (tx : Transaction) (percent : JsValue)
    : result Transaction :=
  _ ← _checkFields tx ["version"];
  version ← Transaction_version tx;
  if negb (version =? Transaction_CreateStructure)
     && negb (version =? Transaction_UpdateStructure)
  then Err "feePercent unavailable for this transaction type"
  else
    match percent with
    | JNumber n =>
        if negb (JS.floor_eq n) then Err "percent type must be integer"
        else if JS.lt n 0 || JS.gt n 2000
        then Err "percent value must be between 100 and 500"
        else
          Ok (_setFields
                (with_bytes tx (JS.setUint16 (tx_bytes tx) 39 (JS.ToInteger n)))
                ["feePercent"])
    | _ => Err "percent type must be number"
    end.

Definition Transaction_setFeePercent := Transaction_set_feePercent.

Definition Transaction_nonce (tx : Transaction) : result Z :=
  _ ← _checkFields tx ["nonce"];
  if 0x001f <? JS.getUint16 (tx_bytes tx) 77
  then Err "nonce is not safe integer"
  else Ok (read_u64 (tx_bytes tx) 77).

(** [set nonce (nonce)] *)
Definition Transaction_set_nonce (tx : Transaction) (nonce : JsValue)
    : result Transaction :=
  match nonce with
  | JNumber n =>
      if negb (JS.floor_eq n) then Err "nonce type must be integer"
      else if JS.lt n 0 || JS.gt n 9007199254740991
      then Err "nonce value must be between 0 and 9007199254740991"
      else
        Ok (_setFields
              (with_bytes tx (write_u64 (tx_bytes tx) 77 (JS.ToInteger n)))
              ["nonce"])
  | _ => Err "nonce type must be number"
  end.

Definition Transaction_setNonce := Transaction_set_nonce.

(** [this.sender.publicKey.signatureLength] *)
Definition sender_signatureLength (tx : Transaction) : result nat :=
  sender ← Transaction_sender tx;
  publicKey ← Address_publicKey sender;
  Ok (PublicKey_signatureLength publicKey).

Definition Transaction_signature (tx : Transaction) : result bytes :=
  _ ← _checkFields tx ["signature"];
  len ← sender_signatureLength tx;
  Ok (JS.set (JS.zeros len) (JS.subarray (tx_bytes tx) 85 (85 + len)) 0).

(** [set signature (signature)] *)
Definition Transaction_set_signature (tx : Transaction) (signature : JsValue)
    : result Transaction :=
  _ ← _checkFields tx ["version"; "sender"];
  match signature with
  | JUint8Array signature =>
      len ← sender_signatureLength tx;
      if negb (length signature =? len)%nat
      then Err "incorrect signature length"
      else
        Ok (_setFields (with_bytes tx (JS.set (tx_bytes tx) signature 85))
              ["signature"])
  | _ => Err "signature type must be Uint8Array"
  end.

Definition Transaction_setSignature := Transaction_set_signature.

Definition Transaction_sign (tx : Transaction) (secretKey : JsValue)
    : result Transaction :=
  _ ← _checkFields tx ["version"; "sender"];
  match secretKey with
  | JSecretKey secretKey =>
      let msg := JS.subarray (tx_bytes tx) 0 85 in
      signature ← SecretKey_sign secretKey (JUint8Array msg);
      Transaction_set_signature tx (JUint8Array signature)
  | _ => Err "secretKey type must be SecretKey"
  end.

Definition Transaction_verify (tx : Transaction) : result bool :=
  _ ← _checkFields tx ["version"; "sender"; "signature"];
  let msg := JS.subarray (tx_bytes tx) 0 85 in
  sender ← Transaction_sender tx;
  publicKey ← Address_publicKey sender;
  signature ← Transaction_signature tx;
  PublicKey_verifySignature publicKey (JUint8Array signature) (JUint8Array msg).

(** ** Vocabulary of the statements *)

Definition is_byte (x : Z) : Prop := 0 <= x < 256.

(** The bytes of a list as one big-endian number, and the [n] bytes at [off]. *)
Definition be_value (b : bytes) : Z := foldl (fun acc x => acc * 256 + x) 0 b.
Definition be_at (b : bytes) (off n : nat) : Z := be_value (take n (drop off b)).

(** The eight big-endian bytes of a number. *)
Definition be64 (z : Z) : bytes :=
  [ z / 2 ^ 56 mod 256; z / 2 ^ 48 mod 256; z / 2 ^ 40 mod 256;
    z / 2 ^ 32 mod 256; z / 2 ^ 24 mod 256; z / 2 ^ 16 mod 256;
    z / 2 ^ 8 mod 256; z mod 256 ].

(** A transaction buffer: 150 cells of a [Uint8Array]. *)
Definition tx_wf (tx : Transaction) : Prop :=
  length (tx_bytes tx) = Transaction_LENGTH /\ Forall is_byte (tx_bytes tx).

(** The field setters and getters of a transaction, as calls. *)
Inductive Setter : Type :=
  | SetVersion | SetSender | SetRecipient | SetValue | SetPrefix | SetName
  | SetProfitPercent | SetFeePercent | SetNonce | SetSignature.

Inductive Getter : Type :=
  | GetVersion | GetSender | GetRecipient | GetValue | GetPrefix | GetName
  | GetProfitPercent | GetFeePercent | GetNonce | GetSignature.

Definition run_setter (s : Setter) (tx : Transaction) (arg : JsValue)
    : result Transaction :=
  match s with
  | SetVersion => Transaction_set_version tx arg
  | SetSender => Transaction_set_sender tx arg
  | SetRecipient => Transaction_set_recipient tx arg
  | SetValue => Transaction_set_value tx arg
  | SetPrefix => Transaction_set_prefix tx arg
  | SetName => Transaction_set_name tx arg
  | SetProfitPercent => Transaction_set_profitPercent tx arg
  | SetFeePercent => Transaction_set_feePercent tx arg
  | SetNonce => Transaction_set_nonce tx arg
  | SetSignature => Transaction_set_signature tx arg
  end.

(** Whether the getter throws. *)
Definition getter_fails (g : Getter) (tx : Transaction) : bool :=
  match g with
  | GetVersion => is_err (Transaction_version tx)
  | GetSender => is_err (Transaction_sender tx)
  | GetRecipient => is_err (Transaction_recipient tx)
  | GetValue => is_err (Transaction_value tx)
  | GetPrefix => is_err (Transaction_prefix tx)
  | GetName => is_err (Transaction_name tx)
  | GetProfitPercent => is_err (Transaction_profitPercent tx)
  | GetFeePercent => is_err (Transaction_feePercent tx)
  | GetNonce => is_err (Transaction_nonce tx)
  | GetSignature => is_err (Transaction_signature tx)
  end.

(** The transactions created empty on which the version setter has not
    succeeded so far: a setter that throws leaves the object as it was. *)
Inductive version_never_set : Transaction -> Prop :=
  | never_set_new tx :
      Transaction_new JUndefined = Ok tx -> version_never_set tx
  | never_set_call tx s arg tx' :
      version_never_set tx -> s <> SetVersion ->
      run_setter s tx arg = Ok tx' -> version_never_set tx'.


(** The three 5-bit fields of a 16-bit version word, and the words that stand
    for a prefix: 0, or high bit zero and every field in [1, 26]. *)
Definition version_field (v : Z) (i : Z) : Z := (v / 2 ^ (5 * i)) mod 32.
Definition legal_version (v : Z) : Prop :=
  v = 0
  \/ (v / 2 ^ 15 = 0
      /\ 1 <= version_field v 2 <= 26
      /\ 1 <= version_field v 1 <= 26
      /\ 1 <= version_field v 0 <= 26).

#[global] Instance is_byte_dec (x : Z) : Decision (is_byte x).
Proof. unfold is_byte. apply _. Defined.
#[global] Instance legal_version_dec (v : Z) : Decision (legal_version v).
Proof. unfold legal_version. apply _. Defined.

(** An address buffer: 34 cells of a [Uint8Array]. *)
Definition address_wf (a : Address) : Prop :=
  length (address_bytes a) = Address_LENGTH /\ Forall is_byte (address_bytes a).

(** A key whose buffer is that of a [Uint8Array]. *)
Definition key_wf (key : JsValue) : Prop :=
  match key with
  | JPublicKey k => Forall is_byte (publicKey_bytes k)
  | JSecretKey k => Forall is_byte (secretKey_bytes k)
  | _ => True
  end.

(** The setters of an address, as calls. *)
Inductive AddressSetter : Type :=
  | ASetVersion | ASetPublicKey | ASetPrefix | ASetBech32.

Definition run_address_setter `{cm : CaseMap} (s : AddressSetter) (a : Address)
    (arg : JsValue) : result Address :=
  match s with
  | ASetVersion => Address_set_version a arg
  | ASetPublicKey => Address_set_publicKey a arg
  | ASetPrefix => Address_set_prefix a arg
  | ASetBech32 => Address_set_bech32 a arg
  end.

(** The addresses made by a constructor other than the one copying raw bytes
    whose first byte has bit 7 set, and then changed by setters; a setter other
    than that of the public key also brings any address among them. *)
Inductive masked_address `{cm : CaseMap} : Address -> Prop :=
  | masked_empty a :
      Address_new JUndefined = Ok a -> masked_address a
  | masked_raw b a :
      Forall is_byte b -> JS.get b 0 < 128 ->
      Address_new (JUint8Array b) = Ok a -> masked_address a
  | masked_key key a :
      key_wf key -> Address_fromKey key = Ok a -> masked_address a
  | masked_bech32 s a :
      Address_fromBech32 s = Ok a -> masked_address a
  | masked_call a s arg a' :
      masked_address a -> key_wf arg ->
      run_address_setter s a arg = Ok a' -> masked_address a'
  | masked_reset a s arg a' :
      address_wf a -> s <> ASetPublicKey ->
      run_address_setter s a arg = Ok a' -> masked_address a'.

(** The Bech32 checksum polynomial step on numbers below [2^30], with the
    generator constants selected by the bits of the top five. *)
Definition select (b : Z) (i : Z) (g : Z) : Z := if Z.testbit b i then g else 0.
Definition generator (b : Z) : Z :=
  Z.lxor (Z.lxor (Z.lxor (Z.lxor (select b 0 0x3b6a57b2) (select b 1 0x26508e6d))
                         (select b 2 0x1ea119fa))
                 (select b 3 0x3d4233dd))
         (select b 4 0x2a1462b3).
Definition polymod_step (x : Z) : Z :=
  Z.lxor (Z.shiftl (Z.land x 0x1FFFFFF) 5) (generator (Z.shiftr x 25)).
(** Feeding 5-bit values into the checksum. *)
Definition polymod (chk : Z) (values : list Z) : Z :=
  foldl (fun chk v => Z.lxor (polymod_step chk) v) chk values.

(** The six 5-bit digits of a number below [2^30], most significant first. *)
Definition digits6 (m : Z) : list Z :=
  [ m / 2 ^ 25 mod 32; m / 2 ^ 20 mod 32; m / 2 ^ 15 mod 32;
    m / 2 ^ 10 mod 32; m / 2 ^ 5 mod 32; m mod 32 ].


(** The number written by a list of [k]-bit digits, most significant first. *)
Definition digits_from (k : Z) (acc : Z) (ds : list Z) : Z :=
  foldl (fun acc d => acc * 2 ^ k + d) acc ds.
Definition digits_value (k : Z) (ds : list Z) : Z := digits_from k 0 ds.

(** The loop invariant of [_convert] after [n] input digits that write [N]:
    the digits pushed so far followed by the low [bits] bits of [value] write
    [N]. *)
Definition convert_inv (inBits outBits : Z) (N : Z) (n : nat)
    (st : Z * Z * list Z) : Prop :=
  let '(value, bits, result) := st in
  0 <= bits < outBits
  /\ -2147483648 <= value < 2147483648
  /\ Forall (fun d => 0 <= d < 2 ^ outBits) result
  /\ digits_value outBits result * 2 ^ bits + value mod 2 ^ bits = N
  /\ Z.of_nat (length result) * outBits + bits = inBits * Z.of_nat n.

(** The character of the Bech32 alphabet that stands for a 5-bit value. *)
Definition alphabet_char (w : Z) : Z :=
  default 0 (Bech32._ALPHABET !! Z.to_nat w).

(** The characters that [_prefixChk] accepts, and lower-case letters. *)
Definition prefix_char (c : Z) : Prop := 33 <= c <= 126.
Definition lower_letter (c : Z) : Prop := 97 <= c <= 122.

(** A string mixes cases when it is neither its lower-case nor its upper-case
    form. *)
Definition mixed_case `{cm : CaseMap} (t : jsstring) : Prop :=
  t <> toLowerCase t /\ t <> toUpperCase t.

(** The transaction that results from writing a 64-byte signature. *)
Definition with_signature (tx : Transaction) (sig : bytes) : Transaction :=
  _setFields
    (with_bytes tx (take 85 (tx_bytes tx) ++ sig ++ drop 149 (tx_bytes tx)))
    ["signature"].

(** The working variables of the library as words. *)
Definition vars_words (v : sha256_vars) : Z * Z * Z * Z * Z * Z * Z * Z :=
  (FIPS180.wrap (va v), FIPS180.wrap (vb v), FIPS180.wrap (vc v),
   FIPS180.wrap (vd v), FIPS180.wrap (ve v), FIPS180.wrap (vf v),
   FIPS180.wrap (vg v), FIPS180.wrap (vh v)).

(** A 32-bit word of the standard. *)
Definition word32 (x : Z) : Prop := 0 <= x < 4294967296.

(** The body of the second loop of [sha256_schedule]. *)
Definition sha256_schedule_step (i : Z) (w : bytes) : bytes :=
  let w15 := JS.get w (i - 15) in
  let w2 := JS.get w (i - 2) in
  let s0 := JS.xor (JS.xor (JS.or (JS.ushr w15 7) (JS.shl w15 25))
                           (JS.or (JS.ushr w15 18) (JS.shl w15 14)))
                   (JS.ushr w15 3) in
  let s1 := JS.xor (JS.xor (JS.or (JS.ushr w2 17) (JS.shl w2 15))
                           (JS.or (JS.ushr w2 19) (JS.shl w2 13)))
                   (JS.ushr w2 10) in
  JS.put32 w i (JS.get w (i - 16) + s0 + JS.get w (i - 7) + s1).

(** ** Vocabulary: the fields of a transaction *)

(** The field that a setter marks as set ... *)
Definition setter_field (s : Setter) : string :=
  match s with
  | SetVersion => "version"
  | SetSender => "sender"
  | SetRecipient => "recipient"
  | SetValue => "value"
  | SetPrefix => "prefix"
  | SetName => "name"
  | SetProfitPercent => "profitPercent"
  | SetFeePercent => "feePercent"
  | SetNonce => "nonce"
  | SetSignature => "signature"
  end.

(** ... and the cells [(off, len)], that is [off .. off + len - 1], of the
    buffer that it may write. *)
Definition setter_cells (s : Setter) : nat * nat :=
  match s with
  | SetVersion => (0, 1)
  | SetSender => (1, 34)
  | SetRecipient => (35, 34)
  | SetValue => (69, 8)
  | SetPrefix => (35, 2)
  | SetName => (41, 36)
  | SetProfitPercent => (37, 2)
  | SetFeePercent => (39, 2)
  | SetNonce => (77, 8)
  | SetSignature => (85, 64)
  end%nat.

(** An argument whose buffer, if it has one, is that of a typed array of the
    length its class gives it. *)
Definition arg_wf (arg : JsValue) : Prop :=
  match arg with
  | JUint8Array l => Forall is_byte l
  | JAddress a => address_wf a
  | _ => True
  end.

(** [b'] has the length of [b] and differs from it only inside the cells
    [off .. off + len - 1]. *)
Definition same_outside (off len : nat) (b b' : bytes) : Prop :=
  length b' = length b
  /\ forall i : nat, (i < off \/ off + len <= i)%nat -> b' !! i = b !! i.

(** The getter of the field that a setter writes. *)
Definition getter_of (s : Setter) : Getter :=
  match s with
  | SetVersion => GetVersion
  | SetSender => GetSender
  | SetRecipient => GetRecipient
  | SetValue => GetValue
  | SetPrefix => GetPrefix
  | SetName => GetName
  | SetProfitPercent => GetProfitPercent
  | SetFeePercent => GetFeePercent
  | SetNonce => GetNonce
  | SetSignature => GetSignature
  end.

(** The fields that a transaction of version [v] has: the recipient unless it
    is a CreateStructure or UpdateStructure transaction, the value if it is a
    Genesis or Basic one, the prefix, name and percents if it is a
    CreateStructure or UpdateStructure one; the others whatever the version. *)
Definition field_available (s : Setter) (v : Z) : bool :=
  match s with
  | SetRecipient =>
      negb (v =? Transaction_CreateStructure)
      && negb (v =? Transaction_UpdateStructure)
  | SetValue => (v =? Transaction_Genesis) || (v =? Transaction_Basic)
  | SetPrefix | SetName | SetProfitPercent | SetFeePercent =>
      (v =? Transaction_CreateStructure) || (v =? Transaction_UpdateStructure)
  | _ => true
  end.

(** ** Vocabulary: strings *)

(** A well-formed UTF-16 string: code units below [2^16], every high surrogate
    followed by a low surrogate, and no other surrogate. *)
Inductive utf16_wf : jsstring -> Prop :=
  | utf16_nil : utf16_wf []
  | utf16_unit c s :
      0 <= c < 0xD800 \/ 0xE000 <= c < 0x10000 ->
      utf16_wf s -> utf16_wf (c :: s)
  | utf16_pair hi lo s :
      0xD800 <= hi < 0xDC00 -> 0xDC00 <= lo < 0xE000 ->
      utf16_wf s -> utf16_wf (hi :: lo :: s).

(** ** The field of Ed25519 *)

(** The prime [2^255 - 19]. *)
Definition p25519 : Z := 2 ^ 255 - 19.

(** The number that a list of 16-bit limbs writes, least significant first;
    a limb may be any integer. *)
Definition limbs (a : list Z) : Z := foldr (fun x acc => x + 65536 * acc) 0 a.

(** Two numbers that are the same element of the field. *)
Definition same_mod_p (x y : Z) : Prop := x mod p25519 = y mod p25519.

(** The number that a list of bytes writes, least significant first. *)
Definition le_bytes (b : bytes) : Z := foldr (fun x acc => x + 256 * acc) 0 b.

(** A number that a bitwise operator of JavaScript leaves as it is. *)
Definition int32 (x : Z) : Prop := -2147483648 <= x < 2147483648.

#[global] Instance int32_dec (x : Z) : Decision (int32 x).
Proof. unfold int32. apply _. Defined.

(** A field element as the bitwise code can take it: sixteen limbs that
    are 32-bit integers. *)
Definition gf_int32 (a : Ed25519.gf) : Prop :=
  length a = 16%nat /\ Forall int32 a.

Definition point_int32 (p : Ed25519.point) : Prop :=
  gf_int32 (Ed25519.pt0 p) /\ gf_int32 (Ed25519.pt1 p)
  /\ gf_int32 (Ed25519.pt2 p) /\ gf_int32 (Ed25519.pt3 p).

(** A field element in normal form: sixteen limbs in [0, 2^16); its number
    is below [2^256]. *)
Definition gf_normal (t : Ed25519.gf) : Prop :=
  length t = 16%nat /\ Forall (fun x => 0 <= x < 65536) t.

(** The limbs of the prime, as [_pack25519] subtracts them. *)
Definition p_limbs : list Z := 0xffed :: replicate 14 0xffff ++ [0x7fff].

(** Sixteen limbs of magnitude at most [2^k].  The limbs of the code are
    doubles, and the functions of the field are modelled on integers: they
    are the code's while every sum and product stays within [2^53], and the
    bound on the limbs says for which arguments that is so. *)
Definition gf_bounded (k : Z) (a : Ed25519.gf) : Prop :=
  length a = 16%nat /\ Forall (fun x => - 2 ^ k <= x <= 2 ^ k) a.

(** Sixteen limbs that [_car25519] carries without rounding: a limb, the
    carry into it and [65535] add up to less than [2^53]. *)
Definition gf_exact (a : Ed25519.gf) : Prop := gf_bounded 52 a.

(** Sixteen limbs as [_fnM] leaves them: in [0, 2^16), but for the first,
    which the last carry can move by [38]. *)
Definition gf_reduced (a : Ed25519.gf) : Prop :=
  length a = 16%nat /\ Forall (fun x => - 38 <= x < 65574) a.

(** ** SHA-512 as FIPS 180-4 writes it *)

(** The standard on 64-bit words: sections 2.2.2 (operations), 4.1.3
    (functions), 4.2.3 (constants), 5.1.2 (padding), 5.2.2 (parsing), 5.3.5
    (initial hash value) and 6.4.2 (computation). *)
Module FIPS180_512.

Definition wrap (x : Z) : Z := x mod 2 ^ 64.

Definition SHR (n x : Z) : Z := Z.shiftr x n.
Definition SHL (n x : Z) : Z := wrap (Z.shiftl x n).
Definition ROTR (n x : Z) : Z := Z.lor (SHR n x) (SHL (64 - n) x).
Definition complement (x : Z) : Z := 2 ^ 64 - 1 - x.

Definition Ch (x y z : Z) : Z := Z.lxor (Z.land x y) (Z.land (complement x) z).
Definition Maj (x y z : Z) : Z :=
  Z.lxor (Z.lxor (Z.land x y) (Z.land x z)) (Z.land y z).
Definition Sigma0 (x : Z) : Z := Z.lxor (Z.lxor (ROTR 28 x) (ROTR 34 x)) (ROTR 39 x).
Definition Sigma1 (x : Z) : Z := Z.lxor (Z.lxor (ROTR 14 x) (ROTR 18 x)) (ROTR 41 x).
Definition sigma0 (x : Z) : Z := Z.lxor (Z.lxor (ROTR 1 x) (ROTR 8 x)) (SHR 7 x).
Definition sigma1 (x : Z) : Z := Z.lxor (Z.lxor (ROTR 19 x) (ROTR 61 x)) (SHR 6 x).

(** The first eighty primes. *)
Definition primes : list Z := List.filter FIPS180.is_prime (seqZ 2 408).

(** [K]: the first 64 bits of the fractional parts of the cube roots of the
    first eighty primes; [H0]: those of the square roots of the first eight. *)
Definition K : list Z :=
  map (fun p => wrap (FIPS180.root3 68 (p * 2 ^ 192) 0)) primes.
Definition H0 : list Z := map (fun p => wrap (Z.sqrt (p * 2 ^ 128))) (take 8 primes).

(** Padding a message of [l] bits: the bit 1, then [k] zero bits with
    [l + 1 + k = 896] modulo 1024, then [l] as a 128-bit number.  On bytes,
    the bit 1 and the first seven zero bits are the byte [0x80]. *)
Definition pad (M : list Z) : list Z :=
  let l := 8 * Z.of_nat (length M) in
  let k := (896 - (l + 1)) mod 1024 in
  M ++ [0x80] ++ replicate (Z.to_nat ((k - 7) / 8)) 0 ++ FIPS180.big_endian 16 l.

(** Parsing into blocks of sixteen 64-bit big-endian words. *)
Fixpoint words (bs : list Z) : list Z :=
  match bs with
  | b0 :: b1 :: b2 :: b3 :: b4 :: b5 :: b6 :: b7 :: bs =>
      (((((((b0 * 256 + b1) * 256 + b2) * 256 + b3) * 256 + b4) * 256 + b5)
          * 256 + b6) * 256 + b7) :: words bs
  | _ => []
  end.
Fixpoint blocks (n : nat) (bs : list Z) : list (list Z) :=
  match n with
  | O => []
  | S n => words (take 128 bs) :: blocks n (drop 128 bs)
  end.
Definition parse (bs : list Z) : list (list Z) := blocks (length bs / 128) bs.

(** The message schedule: [W_t] from [W_0 .. W_(t-1)]. *)
Definition W_next (W : list Z) : Z :=
  let t := length W in
  wrap (sigma1 (default 0 (W !! (t - 2)%nat)) + default 0 (W !! (t - 7)%nat)
        + sigma0 (default 0 (W !! (t - 15)%nat)) + default 0 (W !! (t - 16)%nat)).
Fixpoint schedule (n : nat) (W : list Z) : list Z :=
  match n with
  | O => W
  | S n => schedule n (W ++ [W_next W])
  end.

(** One round on the working variables [a .. h], and one block. *)
Definition round (s : Z * Z * Z * Z * Z * Z * Z * Z) (kw : Z * Z)
    : Z * Z * Z * Z * Z * Z * Z * Z :=
  let '(a, b, c, d, e, f, g, h) := s in
  let T1 := wrap (h + Sigma1 e + Ch e f g + kw.1 + kw.2) in
  let T2 := wrap (Sigma0 a + Maj a b c) in
  (wrap (T1 + T2), a, b, c, wrap (d + T1), e, f, g).

Definition compress (H : list Z) (M : list Z) : list Z :=
  match H with
  | [h0; h1; h2; h3; h4; h5; h6; h7] =>
      let '(a, b, c, d, e, f, g, h) :=
        foldl round (h0, h1, h2, h3, h4, h5, h6, h7) (zip K (schedule 64 M)) in
      [wrap (a + h0); wrap (b + h1); wrap (c + h2); wrap (d + h3);
       wrap (e + h4); wrap (f + h5); wrap (g + h6); wrap (h + h7)]
  | _ => H
  end.

Definition SHA512 (M : list Z) : list Z :=
  concat (map (FIPS180.big_endian 8) (foldl compress H0 (parse (pad M)))).

End FIPS180_512.

(** The 64-bit word that the code keeps as two 32-bit halves. *)
Definition w64 (h l : Z) : Z := FIPS180.wrap h * 2 ^ 32 + FIPS180.wrap l.

(** The halves of a 64-bit word, as an [Int32Array] holds them. *)
Definition hi32 (x : Z) : Z := JS.ToInt32 (x / 2 ^ 32).
Definition lo32 (x : Z) : Z := JS.ToInt32 x.

(** A 64-bit word. *)
Definition word64 (x : Z) : Prop := 0 <= x < 2 ^ 64.

(** The number that four columns stand for, and columns that [n] additions of
    halves can have filled. *)
Definition col_val (x : Ed25519.columns) : Z :=
  Ed25519.col_a x + Ed25519.col_b x * 2 ^ 16 + Ed25519.col_c x * 2 ^ 32
  + Ed25519.col_d x * 2 ^ 48.
Definition col_ok (n : Z) (x : Ed25519.columns) : Prop :=
  0 <= Ed25519.col_a x < n * 65536 /\ 0 <= Ed25519.col_b x < n * 65536
  /\ 0 <= Ed25519.col_c x < n * 65536 /\ 0 <= Ed25519.col_d x < n * 65536.

(** The working variables [a .. h] of a round, as 64-bit words. *)
Definition vars64 (ah al : list Z) : Z * Z * Z * Z * Z * Z * Z * Z :=
  (w64 (JS.get ah 0) (JS.get al 0), w64 (JS.get ah 1) (JS.get al 1),
   w64 (JS.get ah 2) (JS.get al 2), w64 (JS.get ah 3) (JS.get al 3),
   w64 (JS.get ah 4) (JS.get al 4), w64 (JS.get ah 5) (JS.get al 5),
   w64 (JS.get ah 6) (JS.get al 6), w64 (JS.get ah 7) (JS.get al 7)).

(** Sixteen 64-bit words as the two arrays [wh], [wl] hold them. *)
Definition win (ws : list Z) : list Z * list Z := (map hi32 ws, map lo32 ws).

(** The cells of the sliding window while the words [16 r ..] of the
    schedule [Ws] are replaced by the words [16 (r + 1) ..]: the first [j]
    cells have been replaced. *)
Definition window (Ws : list Z) (r j : nat) : list Z :=
  map (fun k => default 0 (Ws !! (16 * r + k + (if (k <? j)%nat then 16 else 0))%nat))
      (seq 0 16).

(** A list of words that follows the recurrence of the message schedule from
    its seventeenth word on. *)
Definition is_schedule (Ws : list Z) : Prop :=
  forall t : nat, (16 <= t < length Ws)%nat ->
    Ws !! t = Some (FIPS180_512.W_next (take t Ws)).
Example sha256_zero150 :
  sha256 (JS.zeros 150)
  = hex "1d83518b897b14e2943990eff655838246cc0207a7c95a5f3dfccc2e395f8bbf".
Proof. vm_compute. reflexivity. Qed.
Example sha256_abc :
  sha256 (str "abc")
  = hex "ba7816bf8f01cfea414140de5dae2223b00361a396177a9cb410ff61f20015ad".
Proof. vm_compute. reflexivity. Qed.

Example bech32_encode_zero :
  Bech32.encode (cm := asciiCase) (JS.zeros 34)
  = Ok (str "genesis1qqqqqqqqqqqqqqqqqqqqqqqqqqqqqqqqqqqqqqqqqqqqqqqqqqqqkxaddc").
Proof. vm_compute. reflexivity. Qed.
Example bech32_decode_aaa :
  Bech32.decode (cm := asciiCase)
    (str "aaa1qqqqqqqqqqqqqqqqqqqqqqqqqqqqqqqqqqqqqqqqqqqqqqqqqqqq48c9jj")
  = Ok ([4; 33] ++ JS.zeros 32).
Proof. vm_compute. reflexivity. Qed.
Example bech32_encode_umi :
  Bech32.encode (cm := asciiCase) ([85; 169] ++ JS.zeros 32)
  = Ok (str "umi1qqqqqqqqqqqqqqqqqqqqqqqqqqqqqqqqqqqqqqqqqqqqqqqqqqqqr5zcpj").
Proof. vm_compute. reflexivity. Qed.

Example sha512_abc :
  Ed25519._cryptoHash (str "abc") 3 = hex "ddaf35a193617abacc417349ae20413112e6fa4e89a97ea20a9eeee64b55d39a2192992a274fc1a836ba3c23a3feebbd454d4423643ce80e2a9ac94fa54ca49f".
Proof. vm_compute. reflexivity. Qed.
Example sha512_zero200 :
  Ed25519._cryptoHash (JS.zeros 200) 200 = hex "72686058f765941bfda046f7890a4b70d0c7a40a14baa73ebb1fdcd47cddc9072e5452f183b2f419b471c5b0c7d7ce074bf0b8ed004ebf418c7059737e6c093d".
Proof. vm_compute. reflexivity. Qed.
Example sha512_zero112 :
  Ed25519._cryptoHash (JS.zeros 112) 112 = hex "2be2e788c8a8adeaa9c89a7f78904cacea6e39297d75e0573a73c756234534d6627ab4156b48a6657b29ab8beb73334040ad39ead81446bb09c70704ec707952".
Proof. vm_compute. reflexivity. Qed.



(** The standard's test vectors, and its constants against the library's. *)
Example fips_sha256_abc :
  FIPS180.SHA256 (str "abc")
  = hex "ba7816bf8f01cfea414140de5dae2223b00361a396177a9cb410ff61f20015ad".
Proof. vm_compute. reflexivity. Qed.

Example fips_sha256_empty :
  FIPS180.SHA256 []
  = hex "e3b0c44298fc1c149afbf4c8996fb92427ae41e4649b934ca495991b7852b855".
Proof. vm_compute. reflexivity. Qed.

Example fips_sha256_two_blocks :
  FIPS180.SHA256 (str "abcdbcdecdefdefgefghfghighijhijkijkljklmklmnlmnomnopnopq")
  = hex "248d6a61d20638b8e5c026930c3e6039a33ce45964ff2167f6ecedd419db06c1".
Proof. vm_compute. reflexivity. Qed.

(** * Properties *)

(** ** Typed arrays *)

Lemma put_length a i v : length (JS.put a i v) = length a.
Proof. unfold JS.put. destruct (i <? 0); [done|apply length_insert]. Qed.

Lemma put8_length a i v : length (JS.put8 a i v) = length a.
Proof. apply put_length. Qed.

Lemma set_length a src off :
  (off <= length a)%nat -> length (JS.set a src off) = length a.
Proof.
  intros H. unfold JS.set.
  rewrite !length_app, !length_take, length_drop. lia.
Qed.

Lemma setUint16_length a i v : length (JS.setUint16 a i v) = length a.
Proof. unfold JS.setUint16. by rewrite !put_length. Qed.

Lemma setUint32_length a i v : length (JS.setUint32 a i v) = length a.
Proof. unfold JS.setUint32. by rewrite !put_length. Qed.

Lemma zeros_length n : length (JS.zeros n) = n.
Proof. apply length_replicate. Qed.

Lemma set_zeros_copy (b : bytes) : JS.set (JS.zeros (length b)) b 0 = b.
Proof.
  unfold JS.set. rewrite zeros_length. simpl.
  rewrite Nat.sub_0_r, firstn_all, drop_ge by (rewrite zeros_length; lia).
  apply app_nil_r.
Qed.

Lemma set_zeros_copy_n (b : bytes) n :
  length b = n -> JS.set (JS.zeros n) b 0 = b.
Proof. intros <-. apply set_zeros_copy. Qed.

Lemma get_app_l (l1 l2 : bytes) i :
  0 <= i < Z.of_nat (length l1) -> JS.get (l1 ++ l2) i = JS.get l1 i.
Proof.
  intros H. unfold JS.get. replace (i <? 0) with false by lia.
  rewrite lookup_app_l by lia. done.
Qed.

Lemma get_app_r (l1 l2 : bytes) i :
  Z.of_nat (length l1) <= i ->
  JS.get (l1 ++ l2) i = JS.get l2 (i - Z.of_nat (length l1)).
Proof.
  intros H. unfold JS.get.
  replace (i <? 0) with false by lia.
  replace (i - Z.of_nat (length l1) <? 0) with false by lia.
  rewrite lookup_app_r by lia. do 2 f_equal. lia.
Qed.

Lemma put_app_l (l1 l2 : bytes) i v :
  0 <= i < Z.of_nat (length l1) -> JS.put (l1 ++ l2) i v = JS.put l1 i v ++ l2.
Proof.
  intros H. unfold JS.put. replace (i <? 0) with false by lia.
  apply insert_app_l. lia.
Qed.

Lemma put_app_r (l1 l2 : bytes) i v :
  Z.of_nat (length l1) <= i ->
  JS.put (l1 ++ l2) i v = l1 ++ JS.put l2 (i - Z.of_nat (length l1)) v.
Proof.
  intros H. unfold JS.put.
  replace (i <? 0) with false by lia.
  replace (i - Z.of_nat (length l1) <? 0) with false by lia.
  rewrite insert_app_r_alt by lia. do 2 f_equal. lia.
Qed.

Lemma get_cons_0 x (l : bytes) : JS.get (x :: l) 0 = x.
Proof. reflexivity. Qed.

Lemma get_cons_S x (l : bytes) i : 0 < i -> JS.get (x :: l) i = JS.get l (i - 1).
Proof.
  intros H. unfold JS.get.
  replace (i <? 0) with false by lia. replace (i - 1 <? 0) with false by lia.
  replace (Z.to_nat i) with (S (Z.to_nat (i - 1))) by lia. done.
Qed.

Lemma put_cons_0 x (l : bytes) v : JS.put (x :: l) 0 v = v :: l.
Proof. reflexivity. Qed.

Lemma put_cons_S x (l : bytes) i v :
  0 < i -> JS.put (x :: l) i v = x :: JS.put l (i - 1) v.
Proof.
  intros H. unfold JS.put.
  replace (i <? 0) with false by lia. replace (i - 1 <? 0) with false by lia.
  replace (Z.to_nat i) with (S (Z.to_nat (i - 1))) by lia. done.
Qed.

Lemma get_nil i : JS.get [] i = 0.
Proof. unfold JS.get. destruct (i <? 0); [done|]. by rewrite lookup_nil. Qed.

Lemma get_byte (b : bytes) i : Forall is_byte b -> is_byte (JS.get b i).
Proof.
  intros H. unfold JS.get. destruct (i <? 0); [unfold is_byte; lia|].
  destruct (b !! Z.to_nat i) as [x|] eqn:E; simpl; [|unfold is_byte; lia].
  eapply Forall_lookup_1; eauto.
Qed.

(** ** [ToUint32], [ToInt32] and the bitwise operators as arithmetic *)

Lemma ToUint32_mod z : JS.ToUint32 z = z mod 4294967296.
Proof. unfold JS.ToUint32. change 4294967295 with (Z.ones 32). apply Z.land_ones. lia. Qed.

Lemma ToUint16_mod z : JS.ToUint16 z = z mod 65536.
Proof. unfold JS.ToUint16. change 65535 with (Z.ones 16). apply Z.land_ones. lia. Qed.

Lemma ToUint8_mod z : JS.ToUint8 z = z mod 256.
Proof. unfold JS.ToUint8. change 255 with (Z.ones 8). apply Z.land_ones. lia. Qed.

Lemma ToUint8_byte z : is_byte (JS.ToUint8 z).
Proof. rewrite ToUint8_mod. unfold is_byte. apply Z.mod_pos_bound. lia. Qed.

Lemma ToUint8_small z : 0 <= z < 256 -> JS.ToUint8 z = z.
Proof. intros. rewrite ToUint8_mod. apply Z.mod_small. lia. Qed.

Lemma ToInt32_small z : -2147483648 <= z < 2147483648 -> JS.ToInt32 z = z.
Proof.
  intros H. unfold JS.ToInt32. cbv zeta. rewrite ToUint32_mod.
  destruct (Z.ltb_spec (z mod 4294967296) 2147483648) as [Hlt|Hge].
  - destruct (Z.le_gt_cases 0 z).
    + apply Z.mod_small. lia.
    + exfalso. Z.div_mod_to_equations. lia.
  - destruct (Z.le_gt_cases 0 z).
    + rewrite Z.mod_small in Hge; lia.
    + Z.div_mod_to_equations. lia.
Qed.

Lemma ToInt32_range z : -2147483648 <= JS.ToInt32 z < 2147483648.
Proof.
  unfold JS.ToInt32. cbv zeta. rewrite ToUint32_mod.
  pose proof (Z.mod_pos_bound z 4294967296 ltac:(lia)).
  destruct (Z.ltb_spec (z mod 4294967296) 2147483648); lia.
Qed.

Lemma ToUint32_ToInt32 z : JS.ToUint32 (JS.ToInt32 z) = JS.ToUint32 z.
Proof.
  unfold JS.ToInt32. cbv zeta. rewrite !ToUint32_mod.
  destruct (Z.ltb_spec (z mod 4294967296) 2147483648).
  - apply Z.mod_mod. lia.
  - replace (z mod 4294967296 - 4294967296)
      with (z mod 4294967296 + (-1) * 4294967296) by lia.
    rewrite Z.mod_add by lia. apply Z.mod_mod. lia.
Qed.

Lemma shiftr_div z n : 0 <= n -> Z.shiftr z n = z / 2 ^ n.
Proof. intros. by apply Z.shiftr_div_pow2. Qed.

Lemma land_255 z : Z.land z 255 = z mod 256.
Proof. change 255 with (Z.ones 8). apply Z.land_ones. lia. Qed.

(** ** The big-endian accessors *)

Lemma split_at (b : bytes) (off n : nat) :
  (off + n <= length b)%nat ->
  b = take off b ++ take n (drop off b) ++ drop (off + n) b
  /\ length (take off b) = off /\ length (take n (drop off b)) = n.
Proof.
  intros H. split; [|split].
  - rewrite <- (take_drop off b) at 1. f_equal.
    rewrite <- (take_drop n (drop off b)) at 1. by rewrite drop_drop.
  - rewrite length_take. lia.
  - rewrite length_take, length_drop. lia.
Qed.

Lemma setUint32_at (l1 l3 : bytes) m0 m1 m2 m3 v :
  JS.setUint32 (l1 ++ m0 :: m1 :: m2 :: m3 :: l3) (Z.of_nat (length l1)) v
  = l1 ++ (JS.ToUint32 v / 2 ^ 24) :: (JS.ToUint32 v / 2 ^ 16 mod 256)
       :: (JS.ToUint32 v / 2 ^ 8 mod 256) :: (JS.ToUint32 v mod 256) :: l3.
Proof.
  unfold JS.setUint32. cbv zeta.
  rewrite !put_app_r by lia.
  replace (Z.of_nat (length l1) - Z.of_nat (length l1)) with 0 by lia.
  replace (Z.of_nat (length l1) + 1 - Z.of_nat (length l1)) with 1 by lia.
  replace (Z.of_nat (length l1) + 2 - Z.of_nat (length l1)) with 2 by lia.
  replace (Z.of_nat (length l1) + 3 - Z.of_nat (length l1)) with 3 by lia.
  rewrite !land_255, !shiftr_div by lia. reflexivity.
Qed.

Lemma getUint32_at (l1 l3 : bytes) m0 m1 m2 m3 :
  JS.getUint32 (l1 ++ m0 :: m1 :: m2 :: m3 :: l3) (Z.of_nat (length l1))
  = m0 * 16777216 + m1 * 65536 + m2 * 256 + m3.
Proof.
  unfold JS.getUint32. rewrite !get_app_r by lia.
  replace (Z.of_nat (length l1) - Z.of_nat (length l1)) with 0 by lia.
  replace (Z.of_nat (length l1) + 1 - Z.of_nat (length l1)) with 1 by lia.
  replace (Z.of_nat (length l1) + 2 - Z.of_nat (length l1)) with 2 by lia.
  replace (Z.of_nat (length l1) + 3 - Z.of_nat (length l1)) with 3 by lia.
  reflexivity.
Qed.

Lemma getUint16_at (l1 l3 : bytes) m0 m1 :
  JS.getUint16 (l1 ++ m0 :: m1 :: l3) (Z.of_nat (length l1)) = m0 * 256 + m1.
Proof.
  unfold JS.getUint16. rewrite !get_app_r by lia.
  replace (Z.of_nat (length l1) - Z.of_nat (length l1)) with 0 by lia.
  replace (Z.of_nat (length l1) + 1 - Z.of_nat (length l1)) with 1 by lia.
  reflexivity.
Qed.

Lemma setUint16_at (l1 l3 : bytes) m0 m1 v :
  JS.setUint16 (l1 ++ m0 :: m1 :: l3) (Z.of_nat (length l1)) v
  = l1 ++ (JS.ToUint16 v / 2 ^ 8) :: (JS.ToUint16 v mod 256) :: l3.
Proof.
  unfold JS.setUint16. cbv zeta.
  rewrite !put_app_r by lia.
  replace (Z.of_nat (length l1) - Z.of_nat (length l1)) with 0 by lia.
  replace (Z.of_nat (length l1) + 1 - Z.of_nat (length l1)) with 1 by lia.
  rewrite !land_255, !shiftr_div by lia. reflexivity.
Qed.

Lemma u32_bytes u :
  0 <= u < 4294967296 ->
  u / 2 ^ 24 * 16777216 + u / 2 ^ 16 mod 256 * 65536 + u / 2 ^ 8 mod 256 * 256
    + u mod 256 = u.
Proof. intros H. change (2 ^ 24) with 16777216. change (2 ^ 16) with 65536.
  change (2 ^ 8) with 256. Z.div_mod_to_equations. lia. Qed.

(** [write_u64] stores the eight big-endian bytes of a number below [2^53]. *)
Lemma write_u64_at (l1 l3 : bytes) m0 m1 m2 m3 m4 m5 m6 m7 z :
  0 <= z < 2 ^ 53 ->
  write_u64 (l1 ++ [m0; m1; m2; m3; m4; m5; m6; m7] ++ l3)
    (Z.of_nat (length l1)) z
  = l1 ++ be64 z ++ l3.
Proof.
  intros Hz. unfold write_u64. cbv zeta. simpl app.
  change (l1 ++ m0 :: m1 :: m2 :: m3 :: m4 :: m5 :: m6 :: m7 :: l3)
    with (l1 ++ [m0; m1; m2; m3] ++ m4 :: m5 :: m6 :: m7 :: l3).
  rewrite (app_assoc l1).
  replace (Z.of_nat (length l1) + 4)
    with (Z.of_nat (length (l1 ++ [m0; m1; m2; m3])))
    by (rewrite length_app; simpl; lia).
  rewrite setUint32_at, getUint32_at.
  rewrite ToUint32_ToInt32, u32_bytes
    by (rewrite ToUint32_mod; apply Z.mod_pos_bound; lia).
  rewrite <- app_assoc. simpl app.
  rewrite setUint32_at. rewrite !ToUint32_mod.
  unfold be64. f_equal. simpl app.
  assert (Hq : Z.quot (z - z mod 4294967296) 4294967296 = z / 4294967296).
  { rewrite Z.quot_div_nonneg by (Z.div_mod_to_equations; lia).
    Z.div_mod_to_equations. lia. }
  rewrite Hq.
  change (2 ^ 56) with 72057594037927936. change (2 ^ 48) with 281474976710656.
  change (2 ^ 40) with 1099511627776. change (2 ^ 32) with 4294967296.
  change (2 ^ 24) with 16777216. change (2 ^ 16) with 65536.
  change (2 ^ 8) with 256. change (2 ^ 53) with 9007199254740992 in Hz.
  repeat (apply (f_equal2 cons); [Z.div_mod_to_equations; lia|]).
  reflexivity.
Qed.

Lemma read_u64_at (l1 l3 : bytes) m0 m1 m2 m3 m4 m5 m6 m7 :
  read_u64 (l1 ++ [m0; m1; m2; m3; m4; m5; m6; m7] ++ l3) (Z.of_nat (length l1))
  = be_value [m0; m1; m2; m3; m4; m5; m6; m7].
Proof.
  unfold read_u64. simpl app.
  rewrite getUint32_at.
  change (l1 ++ m0 :: m1 :: m2 :: m3 :: m4 :: m5 :: m6 :: m7 :: l3)
    with (l1 ++ [m0; m1; m2; m3] ++ m4 :: m5 :: m6 :: m7 :: l3).
  rewrite (app_assoc l1).
  replace (Z.of_nat (length l1) + 4)
    with (Z.of_nat (length (l1 ++ [m0; m1; m2; m3])))
    by (rewrite length_app; simpl; lia).
  rewrite getUint32_at. unfold be_value. simpl. lia.
Qed.

Lemma be_value_be64 z : 0 <= z < 2 ^ 64 -> be_value (be64 z) = z.
Proof.
  intros Hz. unfold be_value, be64. simpl.
  change (2 ^ 56) with 72057594037927936. change (2 ^ 48) with 281474976710656.
  change (2 ^ 40) with 1099511627776. change (2 ^ 32) with 4294967296.
  change (2 ^ 24) with 16777216. change (2 ^ 16) with 65536.
  change (2 ^ 8) with 256. change (2 ^ 64) with 18446744073709551616 in Hz.
  Z.div_mod_to_equations. lia.
Qed.

Lemma be_at_app (l1 m l3 : bytes) (off n : nat) :
  length l1 = off -> length m = n -> be_at (l1 ++ m ++ l3) off n = be_value m.
Proof.
  intros <- <-. unfold be_at.
  by rewrite drop_app_length, take_app_length.
Qed.

Lemma take_app_exact (l1 l2 : bytes) n : length l1 = n -> take n (l1 ++ l2) = l1.
Proof. intros <-. apply take_app_length. Qed.

Lemma drop_app_exact (l1 l2 : bytes) n : length l1 = n -> drop n (l1 ++ l2) = l2.
Proof. intros <-. apply drop_app_length. Qed.

(** The window of eight cells at [off], named. *)
Lemma window8 (b : bytes) (off : nat) :
  (off + 8 <= length b)%nat ->
  exists l1 m0 m1 m2 m3 m4 m5 m6 m7 l3,
    b = l1 ++ [m0; m1; m2; m3; m4; m5; m6; m7] ++ l3
    /\ length l1 = off /\ l1 = take off b /\ l3 = drop (off + 8) b.
Proof.
  intros H. destruct (split_at b off 8 H) as (Hb & H1 & H2).
  destruct (take 8 (drop off b)) as [|m0 [|m1 [|m2 [|m3 [|m4 [|m5 [|m6 [|m7 [|]]]]]]]]]
    eqn:E; try discriminate.
  eexists _, m0, m1, m2, m3, m4, m5, m6, m7, _. eauto.
Qed.

Lemma u64_field_read (b : bytes) (off : nat) :
  (off + 8 <= length b)%nat -> Forall is_byte b ->
  read_u64 b (Z.of_nat off) = be_at b off 8
  /\ JS.getUint16 b (Z.of_nat off) = be_at b off 2
  /\ 0 <= be_at b off 8 < 2 ^ 64
  /\ (0x001f < be_at b off 2 <-> 2 ^ 53 - 1 < be_at b off 8).
Proof.
  intros Hlen Hb.
  destruct (window8 b off Hlen)
    as (l1 & m0 & m1 & m2 & m3 & m4 & m5 & m6 & m7 & l3 & E & Hl1 & _ & _).
  rewrite E in Hb |- *.
  apply Forall_app in Hb as [_ Hb]. apply Forall_app in Hb as [Hb _].
  repeat match goal with H : Forall _ (_ :: _) |- _ =>
    apply Forall_cons in H as [? H] end.
  unfold is_byte in *. clear E Hlen. subst off.
  rewrite read_u64_at.
  rewrite (be_at_app l1 _ l3 (length l1) 8) by done.
  change (l1 ++ [m0; m1; m2; m3; m4; m5; m6; m7] ++ l3)
    with (l1 ++ [m0; m1] ++ ([m2; m3; m4; m5; m6; m7] ++ l3)).
  rewrite (be_at_app l1 [m0; m1] _ (length l1) 2) by done.
  simpl app. rewrite getUint16_at.
  unfold be_value; simpl.
  change (2 ^ 64) with 18446744073709551616.
  change (2 ^ 53) with 9007199254740992.
  repeat split; lia.
Qed.

Lemma u64_field_write (b : bytes) (off : nat) z :
  (off + 8 <= length b)%nat -> 0 <= z < 2 ^ 53 ->
  write_u64 b (Z.of_nat off) z = take off b ++ be64 z ++ drop (off + 8) b.
Proof.
  intros Hlen Hz.
  destruct (window8 b off Hlen)
    as (l1 & m0 & m1 & m2 & m3 & m4 & m5 & m6 & m7 & l3 & E & Hl1 & <- & <-).
  rewrite E at 1. rewrite <- Hl1 at 1. by apply write_u64_at.
Qed.

Lemma be64_length z : length (be64 z) = 8%nat.
Proof. reflexivity. Qed.

Lemma be64_bytes z : Forall is_byte (be64 z).
Proof.
  unfold be64. repeat apply Forall_cons_2; try apply Forall_nil_2;
    unfold is_byte; apply Z.mod_pos_bound; lia.
Qed.

Lemma u64_field_write_read (b : bytes) (off : nat) z :
  (off + 8 <= length b)%nat -> 0 <= z < 2 ^ 53 ->
  length (write_u64 b (Z.of_nat off) z) = length b
  /\ read_u64 (write_u64 b (Z.of_nat off) z) (Z.of_nat off) = z
  /\ JS.getUint16 (write_u64 b (Z.of_nat off) z) (Z.of_nat off) <= 0x001f
  /\ (Forall is_byte b -> Forall is_byte (write_u64 b (Z.of_nat off) z)).
Proof.
  intros Hlen Hz. rewrite u64_field_write by done.
  assert (Hl1 : length (take off b) = off) by (rewrite length_take; lia).
  assert (Hl3 : length (drop (off + 8) b) = (length b - off - 8)%nat)
    by (rewrite length_drop; lia).
  set (l1 := take off b) in *. set (l3 := drop (off + 8) b) in *.
  split; [rewrite !length_app, be64_length; lia|].
  assert (Hb : Forall is_byte b -> Forall is_byte (l1 ++ be64 z ++ l3)).
  { intros Hb. apply Forall_app; split; [by apply Forall_take|].
    apply Forall_app; split; [apply be64_bytes|by apply Forall_drop]. }
  clearbody l1 l3. rewrite <- Hl1.
  change (2 ^ 53) with 9007199254740992 in Hz.
  repeat split; [| |done].
  - unfold be64. rewrite read_u64_at.
    apply (be_value_be64 z). change (2 ^ 64) with 18446744073709551616. lia.
  - unfold be64. simpl app. rewrite getUint16_at.
    change (2 ^ 56) with 72057594037927936. change (2 ^ 48) with 281474976710656.
    Z.div_mod_to_equations. lia.
Qed.

(** ** Masks and shifts as arithmetic *)

Lemma land_shiftl_mask v m n :
  0 <= n -> Z.land v (Z.shiftl m n) = Z.shiftl (Z.land (Z.shiftr v n) m) n.
Proof.
  intros Hn. apply Z.bits_inj'. intros i Hi.
  rewrite Z.land_spec. destruct (Z.lt_ge_cases i n).
  - rewrite !Z.shiftl_spec_low by lia. apply andb_false_r.
  - rewrite !Z.shiftl_spec by lia. rewrite Z.land_spec, Z.shiftr_spec by lia.
    do 2 f_equal. lia.
Qed.

(** [v & (ones k << n)] keeps the [k]-bit field at position [n]. *)
Lemma land_field v k n :
  0 <= k -> 0 <= n ->
  Z.land v (Z.shiftl (Z.ones k) n) = (v / 2 ^ n) mod 2 ^ k * 2 ^ n.
Proof.
  intros Hk Hn. rewrite land_shiftl_mask by done.
  rewrite Z.land_ones, Z.shiftr_div_pow2, Z.shiftl_mul_pow2 by done. reflexivity.
Qed.

Lemma land_ones' v k : 0 <= k -> Z.land v (Z.ones k) = v mod 2 ^ k.
Proof. apply Z.land_ones. Qed.

Lemma and_small a b :
  -2147483648 <= a < 2147483648 -> -2147483648 <= b < 2147483648 ->
  JS.and a b = Z.land a b.
Proof. intros. unfold JS.and. by rewrite !ToInt32_small. Qed.

Lemma or_small a b :
  -2147483648 <= a < 2147483648 -> -2147483648 <= b < 2147483648 ->
  JS.or a b = Z.lor a b.
Proof. intros. unfold JS.or. by rewrite !ToInt32_small. Qed.

Lemma xor_small a b :
  -2147483648 <= a < 2147483648 -> -2147483648 <= b < 2147483648 ->
  JS.xor a b = Z.lxor a b.
Proof. intros. unfold JS.xor. by rewrite !ToInt32_small. Qed.

Lemma shr_small a n :
  -2147483648 <= a < 2147483648 -> 0 <= n < 32 -> JS.shr a n = a / 2 ^ n.
Proof.
  intros Ha Hn. unfold JS.shr. rewrite ToInt32_small by done.
  change 31 with (Z.ones 5). rewrite Z.land_ones by lia.
  rewrite Z.mod_small by (change (2 ^ 5) with 32; lia).
  apply Z.shiftr_div_pow2. lia.
Qed.

Lemma shl_small a n :
  0 <= n < 32 -> -2147483648 <= a * 2 ^ n < 2147483648 ->
  -2147483648 <= a < 2147483648 -> JS.shl a n = a * 2 ^ n.
Proof.
  intros Hn Hr Ha. unfold JS.shl. rewrite (ToInt32_small a) by done.
  change 31 with (Z.ones 5). rewrite Z.land_ones by lia.
  rewrite (Z.mod_small n) by (change (2 ^ 5) with 32; lia).
  rewrite Z.shiftl_mul_pow2 by lia. by apply ToInt32_small.
Qed.

(** Bounds of the bitwise operators on non-negative numbers. *)
Lemma fits_iff x k : 0 <= k -> 0 <= x < 2 ^ k <-> Z.land x (Z.ones k) = x.
Proof.
  intros Hk. rewrite Z.land_ones by done. split.
  - intros H. by apply Z.mod_small.
  - intros <-. apply Z.mod_pos_bound. by apply Z.pow_pos_nonneg.
Qed.

Lemma land_bound a b k : 0 <= k -> 0 <= b < 2 ^ k -> 0 <= Z.land a b < 2 ^ k.
Proof.
  intros Hk Hb. apply fits_iff in Hb; [|done]. apply fits_iff; [done|].
  by rewrite <- Z.land_assoc, Hb.
Qed.

Lemma lor_bound a b k :
  0 <= k -> 0 <= a < 2 ^ k -> 0 <= b < 2 ^ k -> 0 <= Z.lor a b < 2 ^ k.
Proof.
  intros Hk Ha Hb. apply fits_iff in Ha, Hb; try done. apply fits_iff; [done|].
  by rewrite Z.land_lor_distr_l, Ha, Hb.
Qed.

Lemma land_lxor_distr_l a b c :
  Z.land (Z.lxor a b) c = Z.lxor (Z.land a c) (Z.land b c).
Proof.
  apply Z.bits_inj'. intros i _.
  rewrite Z.land_spec, !Z.lxor_spec, !Z.land_spec.
  by destruct (Z.testbit a i), (Z.testbit b i), (Z.testbit c i).
Qed.

Lemma lxor_bound a b k :
  0 <= k -> 0 <= a < 2 ^ k -> 0 <= b < 2 ^ k -> 0 <= Z.lxor a b < 2 ^ k.
Proof.
  intros Hk Ha Hb. apply fits_iff in Ha, Hb; try done. apply fits_iff; [done|].
  by rewrite land_lxor_distr_l, Ha, Hb.
Qed.
(** ** The fields map *)

Lemma hasField_setFields_one tx g f :
  hasField (_setFields tx [g]) f = bool_decide (f = g) || hasField tx f.
Proof.
  unfold hasField, _setFields; simpl.
  destruct (decide (f = g)) as [->|Hne].
  - rewrite lookup_insert_eq, bool_decide_eq_true_2 by eauto.
    by rewrite bool_decide_eq_true_2.
  - rewrite lookup_insert_ne by congruence.
    by rewrite (bool_decide_eq_false_2 (f = g)).
Qed.

Lemma checkFields_missing tx f fs :
  hasField tx f = false -> _checkFields tx (f :: fs) = Err (f +:+ " must be set").
Proof. intros H; simpl; by rewrite H. Qed.

Lemma checkFields_present tx f fs :
  hasField tx f = true -> _checkFields tx (f :: fs) = _checkFields tx fs.
Proof. intros H; simpl; by rewrite H. Qed.

Lemma tx_bytes_setFields tx fs : tx_bytes (_setFields tx fs) = tx_bytes tx.
Proof. reflexivity. Qed.

(** ** The version setter of a transaction *)

(** What the version setter does with an integer from 0 to 7 on a transaction
    whose version is not set yet. *)
Lemma version_setter_ok tx z :
  hasField tx "version" = false -> 0 <= z <= 7 ->
  Transaction_set_version tx (JNumber (JInt z))
  = Ok (_setFields (with_bytes tx (JS.put (tx_bytes tx) 0 z)) ["version"]).
Proof.
  intros Hunset Hz. unfold Transaction_set_version. rewrite Hunset.
  simpl. unfold Transaction_Genesis, Transaction_DeleteTransitAddress.
  replace (z <? 0) with false by lia. replace (7 <? z) with false by lia.
  simpl. unfold JS.put8. do 4 f_equal.
  unfold JS.ToUint8. change 255 with (Z.ones 8).
  rewrite Z.land_ones by lia. apply Z.mod_small; lia.
Qed.

(** C9.  The version setter accepts exactly the integers 0 to 7: whatever the
    state of the transaction, any other argument (not a number, not an integer,
    or out of range) makes it fail; on a transaction whose version is not set
    yet, each integer from 0 to 7 is accepted, written to byte 0 and marked as
    set. *)
Theorem version_setter_accepts_exactly_0_to_7 (tx : Transaction) (v : JsValue) :
  ((forall z : Z, v = JNumber (JInt z) -> ~ (0 <= z <= 7)) ->
     is_err (Transaction_set_version tx v) = true)
  /\ (hasField tx "version" = false ->
      forall z : Z, v = JNumber (JInt z) -> 0 <= z <= 7 ->
        exists tx', Transaction_set_version tx v = Ok tx'
          /\ tx_bytes tx' = JS.put (tx_bytes tx) 0 z
          /\ hasField tx' "version" = true
          /\ Transaction_version tx' = Ok (JS.get (tx_bytes tx') 0)).
Proof.
  split.
  - intros Hbad. unfold Transaction_set_version.
    destruct (hasField tx "version"); [reflexivity|].
    destruct v as [| |b|n|s|b|k|k|a|d]; try reflexivity.
    destruct n as [z|fl| |neg]; try reflexivity.
    + simpl. unfold Transaction_Genesis, Transaction_DeleteTransitAddress.
      destruct (z <? 0) eqn:E1; [reflexivity|].
      destruct (7 <? z) eqn:E2; [reflexivity|].
      exfalso. apply (Hbad z eq_refl). lia.
    + simpl. destruct neg; reflexivity.
  - intros Hunset z -> Hz. rewrite version_setter_ok by done.
    eexists; split; [reflexivity|].
    split; [reflexivity|split].
    + rewrite hasField_setFields_one. reflexivity.
    + unfold Transaction_version.
      rewrite checkFields_present by (rewrite hasField_setFields_one; reflexivity).
      reflexivity.
Qed.

Lemma version_setter_witness :
  is_err (Transaction_set_version (mkTransaction (JS.zeros 150) ∅)
            (JNumber (JInt 8))) = true
  /\ exists tx',
       Transaction_set_version (mkTransaction (JS.zeros 150) ∅)
         (JNumber (JInt 3)) = Ok tx'
       /\ tx_bytes tx' = JS.put (JS.zeros 150) 0 3
       /\ hasField tx' "version" = true
       /\ Transaction_version tx' = Ok (JS.get (tx_bytes tx') 0).
Proof.
  split.
  - apply (proj1 (version_setter_accepts_exactly_0_to_7
                    (mkTransaction (JS.zeros 150) ∅) (JNumber (JInt 8)))).
    intros z Hz. injection Hz as <-. lia.
  - refine (proj2 (version_setter_accepts_exactly_0_to_7
                     (mkTransaction (JS.zeros 150) ∅) (JNumber (JInt 3)))
              _ 3 eq_refl _); [vm_compute; reflexivity|lia].
Defined.

(** ** Which fields can be touched before the version is set *)

(** Before the version is set, every setter but those of version and nonce
    throws. *)
Lemma setter_needs_version tx s arg :
  hasField tx "version" = false -> s <> SetVersion -> s <> SetNonce ->
  run_setter s tx arg = Err "version must be set".
Proof.
  intros H Hv Hn.
  destruct s; try congruence; simpl;
    unfold Transaction_set_sender, Transaction_set_recipient,
      Transaction_set_value, Transaction_set_prefix, Transaction_set_name,
      Transaction_set_profitPercent, Transaction_set_feePercent,
      Transaction_set_signature;
    by rewrite (checkFields_missing _ _ _ H).
Qed.

(** What a successful call of the nonce setter does. *)
Lemma nonce_setter_ok tx arg tx' :
  Transaction_set_nonce tx arg = Ok tx' ->
  exists z, arg = JNumber (JInt z) /\ 0 <= z <= 9007199254740991
    /\ tx' = _setFields (with_bytes tx (write_u64 (tx_bytes tx) 77 z)) ["nonce"].
Proof.
  unfold Transaction_set_nonce. destruct arg as [| |b0|n|s0|b0|k0|k0|a0|d0]; try discriminate.
  destruct n as [z|fl| |neg]; try discriminate; simpl.
  - destruct (z <? 0) eqn:E1; [discriminate|].
    destruct (9007199254740991 <? z) eqn:E2; [discriminate|].
    intros [= <-]. exists z. repeat split; lia.
  - destruct neg; discriminate.
Qed.

Lemma nonce_setter_accepts tx z :
  0 <= z <= 9007199254740991 ->
  Transaction_set_nonce tx (JNumber (JInt z))
  = Ok (_setFields (with_bytes tx (write_u64 (tx_bytes tx) 77 z)) ["nonce"]).
Proof.
  intros Hz. unfold Transaction_set_nonce. simpl.
  replace (z <? 0) with false by lia.
  replace (9007199254740991 <? z) with false by lia. reflexivity.
Qed.

(** The state of a transaction whose version was never set: no field but the
    nonce is marked, and the nonce bytes hold a number below [2^53]. *)
Lemma version_never_set_inv tx :
  version_never_set tx ->
  (forall f, f <> "nonce" -> hasField tx f = false)
  /\ length (tx_bytes tx) = 150%nat
  /\ JS.getUint16 (tx_bytes tx) 77 <= 0x001f.
Proof.
  induction 1 as [tx Hnew|tx s arg tx' _ IH Hs Hrun].
  - injection Hnew as <-. split; [|split].
    + intros f _. reflexivity.
    + reflexivity.
    + vm_compute; discriminate.
  - destruct IH as (Hf & Hlen & Hn).
    assert (s = SetNonce \/ s <> SetNonce) as [->|Hns]
      by (destruct s; (by left) || (by right)).
    + simpl in Hrun. apply nonce_setter_ok in Hrun as (z & -> & Hz & ->).
      destruct (u64_field_write_read (tx_bytes tx) 77 z) as (Hl & _ & Hu & _);
        [lia|change (2 ^ 53) with 9007199254740992; lia|].
      change (Z.of_nat 77) with 77 in *.
      repeat split.
      * intros f Hne. rewrite hasField_setFields_one.
        rewrite bool_decide_eq_false_2 by done. by apply Hf.
      * simpl. lia.
      * simpl. lia.
    + rewrite setter_needs_version in Hrun; [discriminate|by apply Hf|done|done].
Qed.

(** C7, as amended.  On a transaction created empty whose version has not been
    set: every getter throws, except that the nonce getter works once the nonce
    has been set; every setter other than those of version and nonce throws;
    the nonce setter does not look at the version and accepts every integer of
    [0, 2^53 - 1], after which the nonce getter returns it; the version setter
    accepts 0 ... 7. *)
Theorem before_version_only_version_and_nonce (tx : Transaction) :
  version_never_set tx ->
  (forall g, g <> GetNonce -> getter_fails g tx = true)
  /\ (getter_fails GetNonce tx = negb (hasField tx "nonce"))
  /\ (forall s arg, s <> SetVersion -> s <> SetNonce ->
        is_err (run_setter s tx arg) = true)
  /\ (forall z, 0 <= z <= 9007199254740991 ->
        exists tx', run_setter SetNonce tx (JNumber (JInt z)) = Ok tx'
          /\ version_never_set tx' /\ Transaction_nonce tx' = Ok z)
  /\ (forall z, 0 <= z <= 7 ->
        is_ok (run_setter SetVersion tx (JNumber (JInt z))) = true).
Proof.
  intros Hfresh.
  destruct (version_never_set_inv tx Hfresh) as (Hf & Hlen & Hn16).
  assert (Hv : hasField tx "version" = false) by (by apply Hf).
  repeat split.
  - intros g Hg.
    destruct g; try congruence; simpl;
      unfold Transaction_version, Transaction_sender, Transaction_recipient,
        Transaction_value, Transaction_prefix, Transaction_name,
        Transaction_profitPercent, Transaction_feePercent,
        Transaction_signature;
      try (by rewrite (checkFields_missing _ _ _ Hv)).
    + rewrite (checkFields_missing tx "sender") by (by apply Hf). reflexivity.
    + rewrite (checkFields_missing tx "signature") by (by apply Hf). reflexivity.
  - simpl. unfold Transaction_nonce. simpl.
    destruct (hasField tx "nonce"); [|reflexivity]. simpl.
    replace (31 <? JS.getUint16 (tx_bytes tx) 77) with false by lia.
    reflexivity.
  - intros s arg Hs Hns. by rewrite setter_needs_version.
  - intros z Hz. unfold run_setter. rewrite nonce_setter_accepts by done.
    eexists; split; [reflexivity|].
    split.
    + eapply (never_set_call tx SetNonce); [done|done|].
      unfold run_setter. by apply nonce_setter_accepts.
    + unfold Transaction_nonce.
      rewrite checkFields_present by (rewrite hasField_setFields_one; reflexivity).
      simpl _checkFields. cbn [mbind result_bind].
      rewrite tx_bytes_setFields. simpl tx_bytes.
      destruct (u64_field_write_read (tx_bytes tx) 77 z) as (_ & Hr & Hu & _);
        [lia|change (2 ^ 53) with 9007199254740992; lia|].
      change (Z.of_nat 77) with 77 in *.
      replace (31 <? JS.getUint16 (write_u64 (tx_bytes tx) 77 z) 77)
        with false by lia.
      by rewrite Hr.
  - intros z Hz. unfold run_setter. by rewrite version_setter_ok.
Qed.

(** C7, as stated, fails: on the empty transaction the nonce setter succeeds
    although the version was never set, and the nonce can then be read. *)
Lemma nonce_is_writable_before_version :
  let tx := mkTransaction (JS.zeros 150) ∅ in
  Transaction_new JUndefined = Ok tx
  /\ hasField tx "version" = false
  /\ is_err (run_setter SetNonce tx (JNumber (JInt 5))) = false
  /\ (tx' ← run_setter SetNonce tx (JNumber (JInt 5));
      Ok (hasField tx' "version", getter_fails GetNonce tx', Transaction_nonce tx'))
     = Ok (false, false, Ok 5).
Proof. vm_compute. repeat split. Qed.

Lemma before_version_witness :
  getter_fails GetNonce (mkTransaction (JS.zeros 150) ∅)
  = negb (hasField (mkTransaction (JS.zeros 150) ∅) "nonce").
Proof.
  exact (proj1 (proj2 (before_version_only_version_and_nonce
    (mkTransaction (JS.zeros 150) ∅) (never_set_new _ eq_refl)))).
Defined.

(** ** The recipient setter *)

Lemma version_getter tx :
  hasField tx "version" = true ->
  _checkFields tx ["version"] = Ok ()
  /\ Transaction_version tx = Ok (JS.get (tx_bytes tx) 0).
Proof.
  intros H. unfold Transaction_version. rewrite checkFields_present by done.
  split; reflexivity.
Qed.

(** C5, as amended.  On a transaction whose version is set, the recipient
    setter accepts an address exactly when the transaction is not
    CreateStructure or UpdateStructure, the address is not a Genesis-version
    address (whatever the transaction), it is a Umi-version address if the
    transaction is Genesis, and it is not a Umi-version address unless the
    transaction is Genesis or Basic. *)
Theorem recipient_setter_accepts (tx : Transaction) (addr : Address) :
  hasField tx "version" = true ->
  is_ok (Transaction_set_recipient tx (JAddress addr)) = true
  <-> (JS.get (tx_bytes tx) 0 <> Transaction_CreateStructure
       /\ JS.get (tx_bytes tx) 0 <> Transaction_UpdateStructure
       /\ Address_version addr <> Address_Genesis
       /\ (JS.get (tx_bytes tx) 0 = Transaction_Genesis ->
           Address_version addr = Address_Umi)
       /\ (Address_version addr = Address_Umi ->
           JS.get (tx_bytes tx) 0 = Transaction_Genesis
           \/ JS.get (tx_bytes tx) 0 = Transaction_Basic)).
Proof.
  intros Hv. destruct (version_getter tx Hv) as [Hc Hg].
  unfold Transaction_set_recipient. rewrite Hc, Hg. cbn [mbind result_bind].
  unfold Transaction_CreateStructure, Transaction_UpdateStructure,
    Transaction_Genesis, Transaction_Basic, Address_Genesis, Address_Umi.
  set (v := JS.get (tx_bytes tx) 0). set (a := Address_version addr).
  destruct (Z.eqb_spec v 2); [simpl; split; [discriminate|tauto]|].
  destruct (Z.eqb_spec v 3); [simpl; split; [discriminate|tauto]|].
  destruct (Z.eqb_spec a 0); [simpl; split; [discriminate|tauto]|].
  destruct (Z.eqb_spec v 0), (Z.eqb_spec a 21929), (Z.eqb_spec v 1); simpl;
    split; try discriminate; try tauto; try lia; intros _; repeat split;
    try done; try lia; auto.
Qed.

Lemma recipient_setter_witness :
  is_ok (Transaction_set_recipient
           (mkTransaction (1 :: JS.zeros 149) {["version" := true]})
           (JAddress (mkAddress ([85; 169] ++ JS.zeros 32)))) = true.
Proof.
  apply (recipient_setter_accepts
           (mkTransaction (1 :: JS.zeros 149) {["version" := true]})
           (mkAddress ([85; 169] ++ JS.zeros 32))).
  - vm_compute. reflexivity.
  - vm_compute. repeat split; try discriminate. intros _. by right.
Defined.

(** C5, as stated, fails: a Genesis transaction accepts a Umi recipient, which
    is not a Genesis-version address, and rejects a Genesis-version one. *)
Lemma genesis_transaction_takes_umi_recipient :
  let tx := mkTransaction (JS.zeros 150) {["version" := true]} in
  let umi := mkAddress ([85; 169] ++ JS.zeros 32) in
  let genesis := mkAddress (JS.zeros 34) in
  Transaction_version tx = Ok Transaction_Genesis
  /\ Address_version umi = Address_Umi
  /\ Address_version umi <> Address_Genesis
  /\ is_ok (Transaction_set_recipient tx (JAddress umi)) = true
  /\ Address_version genesis = Address_Genesis
  /\ Transaction_set_recipient tx (JAddress genesis)
     = Err "recipient version must not be genesis".
Proof. vm_compute. repeat split; discriminate. Qed.

(** ** The value and nonce fields *)

Lemma value_setter_ok tx z :
  hasField tx "version" = true ->
  JS.get (tx_bytes tx) 0 = 0 \/ JS.get (tx_bytes tx) 0 = 1 ->
  1 <= z <= 9007199254740991 ->
  Transaction_set_value tx (JNumber (JInt z))
  = Ok (_setFields (with_bytes tx (write_u64 (tx_bytes tx) 69 z)) ["value"]).
Proof.
  intros Hv Hver Hz. destruct (version_getter tx Hv) as [Hc Hg].
  unfold Transaction_set_value. rewrite Hc, Hg. cbn [mbind result_bind].
  unfold Transaction_Genesis, Transaction_Basic.
  replace (negb (JS.get (tx_bytes tx) 0 =? 0) && negb (JS.get (tx_bytes tx) 0 =? 1))
    with false by (destruct Hver as [-> | ->]; reflexivity).
  simpl. replace (z <? 1) with false by lia.
  replace (9007199254740991 <? z) with false by lia. reflexivity.
Qed.

Lemma value_setter_rejects tx arg :
  (forall z, arg = JNumber (JInt z) -> ~ (1 <= z <= 9007199254740991)) ->
  is_err (Transaction_set_value tx arg) = true.
Proof.
  intros Hbad. unfold Transaction_set_value.
  destruct (_checkFields tx ["version"]); [|reflexivity]. cbn [mbind result_bind].
  destruct (Transaction_version tx) as [v|]; [|reflexivity]. cbn [mbind result_bind].
  destruct (negb (v =? Transaction_Genesis) && negb (v =? Transaction_Basic));
    [reflexivity|].
  destruct arg as [| |b0|n|s0|b0|k0|k0|a0|d0]; try reflexivity.
  destruct n as [z|fl| |neg]; try reflexivity; simpl.
  - destruct (z <? 1) eqn:E1; [reflexivity|].
    destruct (9007199254740991 <? z) eqn:E2; [reflexivity|].
    exfalso. apply (Hbad z eq_refl). lia.
  - destruct neg; reflexivity.
Qed.

Lemma value_getter tx :
  hasField tx "version" = true ->
  JS.get (tx_bytes tx) 0 = 0 \/ JS.get (tx_bytes tx) 0 = 1 ->
  hasField tx "value" = true ->
  Transaction_value tx
  = if 0x001f <? JS.getUint16 (tx_bytes tx) 69
    then Err "value is not safe integer"
    else Ok (read_u64 (tx_bytes tx) 69).
Proof.
  intros Hv Hver Hval. destruct (version_getter tx Hv) as [Hc Hg].
  unfold Transaction_value. rewrite Hc, Hg. cbn [mbind result_bind].
  unfold Transaction_Genesis, Transaction_Basic.
  replace (negb (JS.get (tx_bytes tx) 0 =? 0)
           && negb (JS.get (tx_bytes tx) 0 =? 1))
    with false by (destruct Hver as [-> | ->]; reflexivity).
  rewrite checkFields_present by done. reflexivity.
Qed.

Lemma nonce_getter tx :
  hasField tx "nonce" = true ->
  Transaction_nonce tx
  = if 0x001f <? JS.getUint16 (tx_bytes tx) 77
    then Err "nonce is not safe integer"
    else Ok (read_u64 (tx_bytes tx) 77).
Proof.
  intros Hn. unfold Transaction_nonce.
  rewrite checkFields_present by done. reflexivity.
Qed.

(** C6, as amended.  On a Genesis or Basic transaction the value setter throws
    for every argument that is not an integer of [1, 2^53 - 1], and stores each
    such integer as eight big-endian bytes at offset 69, after which the getter
    returns it.  The value getter (of a Genesis or Basic transaction whose value
    is marked as set) and the nonce getter (of any transaction whose nonce is
    marked as set) throw exactly when the stored big-endian 64-bit number is
    above [2^53 - 1], which is when the first two stored bytes, as a big-endian
    number, are above [0x001f]; otherwise they return the stored number. *)
Theorem value_and_nonce_ranges (tx : Transaction) :
  tx_wf tx ->
  (hasField tx "version" = true ->
   JS.get (tx_bytes tx) 0 = Transaction_Genesis
   \/ JS.get (tx_bytes tx) 0 = Transaction_Basic ->
     (forall arg,
        (forall z, arg = JNumber (JInt z) -> ~ (1 <= z <= 2 ^ 53 - 1)) ->
        is_err (Transaction_set_value tx arg) = true)
     /\ (forall z, 1 <= z <= 2 ^ 53 - 1 ->
           exists tx', Transaction_set_value tx (JNumber (JInt z)) = Ok tx'
             /\ tx_bytes tx' = take 69 (tx_bytes tx) ++ be64 z ++ drop 77 (tx_bytes tx)
             /\ hasField tx' "value" = true
             /\ Transaction_value tx' = Ok z)
     /\ (hasField tx "value" = true ->
         Transaction_value tx
         = if 2 ^ 53 - 1 <? be_at (tx_bytes tx) 69 8
           then Err "value is not safe integer"
           else Ok (be_at (tx_bytes tx) 69 8)))
  /\ (hasField tx "nonce" = true ->
      Transaction_nonce tx
      = if 2 ^ 53 - 1 <? be_at (tx_bytes tx) 77 8
        then Err "nonce is not safe integer"
        else Ok (be_at (tx_bytes tx) 77 8))
  /\ (2 ^ 53 - 1 < be_at (tx_bytes tx) 69 8 <-> 0x001f < be_at (tx_bytes tx) 69 2)
  /\ (2 ^ 53 - 1 < be_at (tx_bytes tx) 77 8 <-> 0x001f < be_at (tx_bytes tx) 77 2).
Proof.
  intros [Hlen Hb]. unfold Transaction_LENGTH in Hlen.
  destruct (u64_field_read (tx_bytes tx) 69) as (Hr69 & Hu69 & _ & Hi69);
    [lia|done|].
  destruct (u64_field_read (tx_bytes tx) 77) as (Hr77 & Hu77 & _ & Hi77);
    [lia|done|].
  change (Z.of_nat 69) with 69 in *. change (Z.of_nat 77) with 77 in *.
  change (2 ^ 53 - 1) with 9007199254740991 in *.
  unfold Transaction_Genesis, Transaction_Basic.
  split; [|split; [|split; [by symmetry|by symmetry]]].
  - intros Hv Hver. split; [|split].
    + intros arg Hbad. by apply value_setter_rejects.
    + intros z Hz. rewrite value_setter_ok by done.
      eexists; split; [reflexivity|].
      assert (Hz' : 0 <= z < 2 ^ 53)
        by (change (2 ^ 53) with 9007199254740992; lia).
      destruct (u64_field_write_read (tx_bytes tx) 69 z) as (Hl & Hr & Hu & _);
        [lia|done|].
      pose proof (u64_field_write (tx_bytes tx) 69 z ltac:(lia) Hz') as Hw.
      change (Z.of_nat 69) with 69 in *. change (69 + 8)%nat with 77%nat in Hw.
      split; [exact Hw|]. split; [by rewrite hasField_setFields_one|].
      rewrite value_getter.
      * rewrite tx_bytes_setFields. simpl tx_bytes.
        replace (31 <? JS.getUint16 (write_u64 (tx_bytes tx) 69 z) 69)
          with false by lia.
        by rewrite Hr.
      * by rewrite hasField_setFields_one.
      * rewrite tx_bytes_setFields. simpl tx_bytes. rewrite Hw.
        rewrite get_app_l by (rewrite length_take; lia).
        replace (JS.get (take 69 (tx_bytes tx)) 0) with (JS.get (tx_bytes tx) 0);
          [done|].
        unfold JS.get. simpl. by rewrite lookup_take_lt by lia.
      * by rewrite hasField_setFields_one.
    + intros Hval. rewrite value_getter by done. rewrite Hr69, Hu69.
      destruct (Z.ltb_spec 31 (be_at (tx_bytes tx) 69 2)),
        (Z.ltb_spec 9007199254740991 (be_at (tx_bytes tx) 69 8));
        try reflexivity; lia.
  - intros Hn. rewrite nonce_getter by done. rewrite Hr77, Hu77.
    destruct (Z.ltb_spec 31 (be_at (tx_bytes tx) 77 2)),
      (Z.ltb_spec 9007199254740991 (be_at (tx_bytes tx) 77 8));
      try reflexivity; lia.
Qed.

Lemma value_and_nonce_witness :
  let tx := mkTransaction (1 :: JS.zeros 149)
              {["version" := true; "nonce" := true]} in
  (exists tx', Transaction_set_value tx (JNumber (JInt 5)) = Ok tx'
     /\ tx_bytes tx' = take 69 (tx_bytes tx) ++ be64 5 ++ drop 77 (tx_bytes tx)
     /\ hasField tx' "value" = true
     /\ Transaction_value tx' = Ok 5)
  /\ Transaction_nonce tx
     = if 2 ^ 53 - 1 <? be_at (tx_bytes tx) 77 8
       then Err "nonce is not safe integer"
       else Ok (be_at (tx_bytes tx) 77 8).
Proof.
  intros tx.
  assert (Hwf : tx_wf tx).
  { split; [reflexivity|].
    exact (bool_decide_unpack (Forall is_byte (1 :: JS.zeros 149)) I). }
  pose proof (value_and_nonce_ranges tx Hwf) as (Hval & Hnonce & _).
  split.
  - refine (proj1 (proj2 (Hval _ (or_intror eq_refl))) 5 _);
      [vm_compute; reflexivity|lia].
  - apply Hnonce. vm_compute. reflexivity.
Defined.

(** C6, as stated, fails at 0: the value setter rejects it. *)
Lemma value_setter_rejects_zero :
  let tx := mkTransaction (1 :: JS.zeros 149) {["version" := true]} in
  Transaction_version tx = Ok Transaction_Basic
  /\ 0 <= 0 <= 2 ^ 53 - 1
  /\ Transaction_set_value tx (JNumber (JInt 0))
     = Err "value must be between 1 and 9007199254740991".
Proof. vm_compute. repeat split; discriminate. Qed.

(** ** Prefix codec *)

Lemma str_genesis : str "genesis" = [103; 101; 110; 101; 115; 105; 115].
Proof. reflexivity. Qed.

(** A version word other than zero, cut into its high bit and three fields. *)
Lemma versionToPrefix_word v :
  0 < v < 65536 ->
  versionToPrefix (JNumber (JInt v))
  = if v / 2 ^ 15 =? 1 then Err "incorrect version - first bit must be zero"
    else if (version_field v 2 <? 1) || (26 <? version_field v 2)
    then Err "incorrect version - first char"
    else if (version_field v 1 <? 1) || (26 <? version_field v 1)
    then Err "incorrect version - second char"
    else if (version_field v 0 <? 1) || (26 <? version_field v 0)
    then Err "incorrect version - third char"
    else Ok [version_field v 2 + 96; version_field v 1 + 96;
             version_field v 0 + 96].
Proof.
  intros Hv. destruct v as [|p|p]; try lia.
  unfold versionToPrefix. cbn [JS.floor_eq negb JS.ToInteger].
  set (v := Z.pos p) in *.
  assert (Hr : forall m, 0 <= m < 65536 -> JS.and v m = Z.land v m)
    by (intros; apply and_small; lia).
  rewrite !Hr by lia.
  change 32768 with (Z.shiftl (Z.ones 1) 15).
  change 31744 with (Z.shiftl (Z.ones 5) 10).
  change 992 with (Z.shiftl (Z.ones 5) 5).
  change 31 with (Z.shiftl (Z.ones 5) 0).
  rewrite !land_field by lia.
  change (2 ^ 1) with 2. change (2 ^ 5) with 32. change (2 ^ 0) with 1.
  change (2 ^ 15) with 32768. change (2 ^ 10) with 1024.
  unfold version_field.
  change (2 ^ (5 * 2)) with 1024. change (2 ^ (5 * 1)) with 32.
  change (2 ^ (5 * 0)) with 1.
  assert (H15 : 0 <= v / 32768 < 2) by (Z.div_mod_to_equations; lia).
  rewrite (Z.mod_small (v / 32768)) by lia.
  pose proof (Z.mod_pos_bound (v / 1024) 32 ltac:(lia)).
  pose proof (Z.mod_pos_bound (v / 32) 32 ltac:(lia)).
  pose proof (Z.mod_pos_bound (v / 1) 32 ltac:(lia)).
  rewrite !shr_small by lia.
  change (2 ^ 10) with 1024. change (2 ^ 5) with 32.
  rewrite !Z.div_mul by lia. rewrite Z.mul_1_r.
  replace (v / 32768 * 32768 =? Z.shiftl (Z.ones 1) 15) with (v / 32768 =? 1)
    by (change (Z.shiftl (Z.ones 1) 15) with 32768; lia).
  reflexivity.
Qed.

Lemma prefixToVersion_letters a b c :
  1 <= a <= 26 -> 1 <= b <= 26 -> 1 <= c <= 26 ->
  prefixToVersion (JString [a + 96; b + 96; c + 96])
  = Ok (a * 1024 + b * 32 + c).
Proof.
  intros Ha Hb Hc. unfold prefixToVersion.
  rewrite bool_decide_eq_false_2 by (rewrite str_genesis; discriminate).
  replace (a + 96 - 96) with a by lia. replace (b + 96 - 96) with b by lia.
  replace (c + 96 - 96) with c by lia.
  replace (a <? 1) with false by lia. replace (26 <? a) with false by lia.
  replace (b <? 1) with false by lia. replace (26 <? b) with false by lia.
  replace (c <? 1) with false by lia. replace (26 <? c) with false by lia.
  simpl orb. cbv iota.
  rewrite !shl_small by (change (2 ^ 10) with 1024; change (2 ^ 5) with 32; lia).
  reflexivity.
Qed.

(** A legal version word other than 0 and its three-letter prefix. *)
Lemma versionToPrefix_legal v :
  0 < v < 65536 -> legal_version v ->
  versionToPrefix (JNumber (JInt v))
  = Ok [version_field v 2 + 96; version_field v 1 + 96; version_field v 0 + 96]
  /\ v = version_field v 2 * 1024 + version_field v 1 * 32 + version_field v 0.
Proof.
  intros Hv [->|(Hh & Ha & Hb & Hc)]; [lia|].
  rewrite versionToPrefix_word by done. rewrite Hh.
  replace (version_field v 2 <? 1) with false by lia.
  replace (26 <? version_field v 2) with false by lia.
  replace (version_field v 1 <? 1) with false by lia.
  replace (26 <? version_field v 1) with false by lia.
  replace (version_field v 0 <? 1) with false by lia.
  replace (26 <? version_field v 0) with false by lia.
  split; [reflexivity|].
  unfold version_field in *.
  change (2 ^ (5 * 2)) with 1024 in *. change (2 ^ (5 * 1)) with 32 in *.
  change (2 ^ (5 * 0)) with 1 in *. change (2 ^ 15) with 32768 in *.
  Z.div_mod_to_equations. lia.
Qed.

Lemma versionToPrefix_illegal v :
  0 <= v < 65536 -> ~ legal_version v ->
  is_err (versionToPrefix (JNumber (JInt v))) = true.
Proof.
  intros Hv Hill. assert (v <> 0) by (intros ->; apply Hill; by left).
  rewrite versionToPrefix_word by lia.
  assert (H15 : 0 <= v / 2 ^ 15 < 2)
    by (change (2 ^ 15) with 32768; Z.div_mod_to_equations; lia).
  destruct (Z.eqb_spec (v / 2 ^ 15) 1); [reflexivity|].
  destruct (Z.ltb_spec (version_field v 2) 1); [reflexivity|].
  destruct (Z.ltb_spec 26 (version_field v 2)); [reflexivity|].
  destruct (Z.ltb_spec (version_field v 1) 1); [reflexivity|].
  destruct (Z.ltb_spec 26 (version_field v 1)); [reflexivity|].
  destruct (Z.ltb_spec (version_field v 0) 1); [reflexivity|].
  destruct (Z.ltb_spec 26 (version_field v 0)); [reflexivity|].
  exfalso. apply Hill. right. repeat split; lia.
Qed.

(** C4.  For every 16-bit version word [v]: if [v] is 0, or its high bit is
    zero and its three 5-bit fields are in [1, 26], then [versionToPrefix]
    gives a prefix that [prefixToVersion] turns back into [v]; for every other
    [v], [versionToPrefix] throws, and so does the composition. *)
Theorem prefix_codec_roundtrip (v : Z) :
  0 <= v < 65536 ->
  (legal_version v ->
     exists p, versionToPrefix (JNumber (JInt v)) = Ok p
       /\ prefixToVersion (JString p) = Ok v)
  /\ (~ legal_version v ->
      is_err (versionToPrefix (JNumber (JInt v))) = true
      /\ is_err (p ← versionToPrefix (JNumber (JInt v));
                 prefixToVersion (JString p)) = true).
Proof.
  intros Hv. split.
  - intros Hl. destruct (Z.eq_dec v 0) as [->|Hne].
    + exists (str "genesis"). split; reflexivity.
    + destruct (versionToPrefix_legal v) as [Hp Hdec]; [lia|done|].
      eexists. split; [exact Hp|].
      destruct Hl as [->|(_ & Ha & Hb & Hc)]; [done|].
      rewrite prefixToVersion_letters by done. by rewrite <- Hdec.
  - intros Hill. pose proof (versionToPrefix_illegal v Hv Hill) as He.
    split; [done|].
    destruct (versionToPrefix (JNumber (JInt v))); [discriminate|reflexivity].
Qed.

Lemma prefix_codec_witness :
  exists p, versionToPrefix (JNumber (JInt 21929)) = Ok p
    /\ prefixToVersion (JString p) = Ok 21929.
Proof.
  apply (prefix_codec_roundtrip 21929); [lia|].
  right. vm_compute. repeat split; discriminate.
Defined.

(** The version word that [prefixToVersion] returns has its high bit zero. *)
Lemma prefixToVersion_range p v :
  prefixToVersion p = Ok v -> 0 <= v < 32768.
Proof.
  unfold prefixToVersion. destruct p as [| |b0|n|s|b0|k0|k0|a0|d0]; try discriminate.
  destruct (bool_decide (s = str "genesis")); [intros [= <-]; lia|].
  destruct s as [|c0 [|c1 [|c2 [|]]]]; try discriminate.
  destruct (Z.ltb_spec (c0 - 96) 1); [discriminate|].
  destruct (Z.ltb_spec 26 (c0 - 96)); [discriminate|].
  destruct (Z.ltb_spec (c1 - 96) 1); [discriminate|].
  destruct (Z.ltb_spec 26 (c1 - 96)); [discriminate|].
  destruct (Z.ltb_spec (c2 - 96) 1); [discriminate|].
  destruct (Z.ltb_spec 26 (c2 - 96)); [discriminate|].
  simpl orb. cbv iota.
  rewrite !shl_small by (change (2 ^ 10) with 1024; change (2 ^ 5) with 32; lia).
  change (2 ^ 10) with 1024; change (2 ^ 5) with 32.
  intros [= <-]. lia.
Qed.

(** ** The version word of an address *)

Lemma set_front (a b : bytes) :
  length b = length a -> JS.set a b 0 = b.
Proof.
  intros H. unfold JS.set. simpl. rewrite Nat.sub_0_r, <- H.
  rewrite firstn_all, drop_ge by lia. apply app_nil_r.
Qed.

Lemma set_bytes a src off :
  Forall is_byte a -> Forall is_byte src -> Forall is_byte (JS.set a src off).
Proof.
  intros Ha Hs. unfold JS.set.
  apply Forall_app; split; [by apply Forall_take|].
  apply Forall_app; split; [by apply Forall_take|by apply Forall_drop].
Qed.

Lemma zeros_bytes n : Forall is_byte (JS.zeros n).
Proof. apply Forall_replicate. unfold is_byte. lia. Qed.

Lemma put_bytes a i v : Forall is_byte a -> is_byte v -> Forall is_byte (JS.put a i v).
Proof.
  intros Ha Hv. unfold JS.put. destruct (i <? 0); [done|].
  by apply Forall_insert.
Qed.

Lemma setUint16_bytes a i v :
  Forall is_byte a -> Forall is_byte (JS.setUint16 a i v).
Proof.
  intros Ha. unfold JS.setUint16. cbv zeta.
  rewrite ToUint16_mod, land_255, shiftr_div by lia.
  pose proof (Z.mod_pos_bound v 65536 ltac:(lia)).
  apply put_bytes; [apply put_bytes; [done|]|].
  - unfold is_byte. change (2 ^ 8) with 256. Z.div_mod_to_equations. lia.
  - unfold is_byte. apply Z.mod_pos_bound. lia.
Qed.

(** Writing a version word below [2^15] at offset 0 leaves bit 7 of byte 0
    zero. *)
Lemma setUint16_front (a : bytes) v :
  (2 <= length a)%nat -> 0 <= v < 32768 ->
  JS.get (JS.setUint16 a 0 v) 0 < 128
  /\ 0 <= JS.get (JS.setUint16 a 0 v) 0
  /\ JS.getUint16 (JS.setUint16 a 0 v) 0 = v.
Proof.
  intros Hlen Hv. destruct a as [|x0 [|x1 rest]]; simpl in Hlen; try lia.
  pose proof (setUint16_at [] rest x0 x1 v) as Hs.
  change (Z.of_nat (length (@nil Z))) with 0 in Hs. simpl app in Hs. rewrite Hs.
  pose proof (getUint16_at [] rest (JS.ToUint16 v / 2 ^ 8) (JS.ToUint16 v mod 256))
    as Hg.
  change (Z.of_nat (length (@nil Z))) with 0 in Hg. simpl app in Hg. rewrite Hg.
  rewrite get_cons_0, ToUint16_mod, (Z.mod_small v) by lia.
  change (2 ^ 8) with 256. Z.div_mod_to_equations. lia.
Qed.

Lemma version_word_of_bytes (b : bytes) :
  (2 <= length b)%nat -> Forall is_byte b -> JS.get b 0 < 128 ->
  0 <= JS.getUint16 b 0 < 32768
  /\ Z.testbit (JS.getUint16 b 0) 15 = false.
Proof.
  intros Hlen Hb H0. destruct b as [|x0 [|x1 rest]]; simpl in Hlen; try lia.
  apply Forall_cons in Hb as [Hx0 Hb]. apply Forall_cons in Hb as [Hx1 _].
  unfold JS.getUint16. rewrite get_cons_0 in *.
  rewrite get_cons_S, get_cons_0 by lia. unfold is_byte in *.
  assert (Hr : 0 <= x0 * 256 + x1 < 32768) by lia.
  split; [done|].
  apply Z.bits_above_log2; [lia|].
  destruct (Z.eq_dec (x0 * 256 + x1) 0) as [->|]; [simpl; lia|].
  apply Z.log2_lt_pow2; [lia|]. change (2 ^ 15) with 32768. lia.
Qed.

Lemma address_version_setter a version a' :
  address_wf a -> Address_set_version a version = Ok a' ->
  address_wf a' /\ JS.get (address_bytes a') 0 < 128.
Proof.
  intros [Hlen Hb]. unfold Address_set_version.
  destruct (versionToPrefix version); [|discriminate].
  cbn [mbind result_bind]. intros [= <-]. simpl address_bytes.
  unfold Address_LENGTH in *.
  set (v := JS.and (number_operand version) 32767).
  assert (Hv : 0 <= v < 32768).
  { unfold v, JS.and. change (JS.ToInt32 32767) with 32767.
    apply (land_bound _ 32767 15); lia. }
  destruct (setUint16_front (address_bytes a) v ltac:(lia) Hv) as (H1 & _ & _).
  split; [split|done].
  - unfold Address_LENGTH. simpl address_bytes. by rewrite setUint16_length.
  - by apply setUint16_bytes.
Qed.

Lemma address_new_empty a :
  Address_new JUndefined = Ok a ->
  address_wf a /\ JS.get (address_bytes a) 0 < 128.
Proof.
  unfold Address_new. apply address_version_setter.
  split; [reflexivity|apply zeros_bytes].
Qed.

Lemma address_publicKey_setter a arg a' :
  address_wf a -> key_wf arg -> Address_set_publicKey a arg = Ok a' ->
  address_wf a' /\ JS.get (address_bytes a') 0 = JS.get (address_bytes a) 0.
Proof.
  intros [Hlen Hb] Hk. unfold Address_set_publicKey.
  destruct arg; try discriminate. intros [= <-]. simpl address_bytes.
  unfold Address_LENGTH in *. simpl in Hk.
  split; [split|].
  - unfold Address_LENGTH. simpl address_bytes. rewrite set_length; [done|lia].
  - apply set_bytes; [done|]. unfold PublicKey_bytes. by rewrite set_zeros_copy.
  - unfold JS.set. rewrite get_app_l by (rewrite length_take; lia).
    unfold JS.get. simpl. by rewrite lookup_take_lt by lia.
Qed.

Section AddressInvariant.
Context {cm : CaseMap}.

Lemma decode_shape s b :
  Bech32.decode s = Ok b ->
  length b = 34%nat /\ Forall is_byte b /\ JS.get b 0 < 128.
Proof.
  unfold Bech32.decode.
  destruct (Bech32._decode s) as [[prefix words]|]; [|discriminate].
  cbn [mbind result_bind].
  destruct (Bech32._convert words 5 8 false) as [bs|]; [|discriminate].
  cbn [mbind result_bind].
  destruct (negb (length bs =? 32)%nat); [discriminate|].
  destruct (prefixToVersion (JString prefix)) as [v|] eqn:Ev; [|discriminate].
  cbn [mbind result_bind]. intros [= <-].
  apply prefixToVersion_range in Ev.
  assert (Hlen : length (JS.set (JS.zeros 34) (map JS.ToUint8 bs) 2) = 34%nat)
    by (rewrite set_length; rewrite zeros_length; lia).
  destruct (setUint16_front (JS.set (JS.zeros 34) (map JS.ToUint8 bs) 2) v)
    as (H1 & _ & _); [lia|done|].
  split; [by rewrite setUint16_length|split; [|done]].
  apply setUint16_bytes, set_bytes; [apply zeros_bytes|].
  apply Forall_map, Forall_true. intros x. apply ToUint8_byte.
Qed.

Lemma address_bech32_setter a arg a' :
  address_wf a -> Address_set_bech32 a arg = Ok a' ->
  address_wf a' /\ JS.get (address_bytes a') 0 < 128.
Proof.
  intros [Hlen Hb]. unfold Address_set_bech32.
  destruct arg; try discriminate.
  destruct (Bech32.decode s) as [b|] eqn:Ed; [|discriminate].
  cbn [mbind result_bind]. intros [= <-]. simpl address_bytes.
  apply decode_shape in Ed as (Hl & Hbb & H0).
  unfold Address_LENGTH in *.
  rewrite set_front by lia. split; [split|]; done.
Qed.

Lemma address_setter_masks a s arg a' :
  address_wf a -> s <> ASetPublicKey -> run_address_setter s a arg = Ok a' ->
  address_wf a' /\ JS.get (address_bytes a') 0 < 128.
Proof.
  intros Hwf Hs. destruct s; try done; simpl.
  - by apply address_version_setter.
  - unfold Address_set_prefix. destruct (prefixToVersion arg); [|discriminate].
    cbn [mbind result_bind]. by apply address_version_setter.
  - by apply address_bech32_setter.
Qed.

Lemma masked_address_inv a :
  masked_address a -> address_wf a /\ JS.get (address_bytes a) 0 < 128.
Proof.
  induction 1 as [a Hn|b a Hb H0 Hn|key a Hk Hn|s a Hn|a s arg a' _ IH Hk Hrun
                  |a s arg a' Hwf Hs Hrun].
  - by apply address_new_empty.
  - unfold Address_new in Hn.
    destruct (Nat.eqb_spec (length b) Address_LENGTH) as [Hl|]; [|discriminate].
    simpl in Hn. injection Hn as <-. simpl address_bytes.
    rewrite set_front by (by rewrite zeros_length). split; [split|]; done.
  - unfold Address_fromKey in Hn.
    destruct key as [| |b0|n|s0|b0|k0|k0|a0|d0]; try discriminate.
    + destruct (Address_new JUndefined) as [this|] eqn:En; [|discriminate].
      cbn [mbind result_bind] in Hn.
      apply address_new_empty in En as [Hwf H0].
      unfold Address_setPublicKey in Hn.
      destruct (address_publicKey_setter this (JPublicKey k0) a Hwf Hk Hn)
        as [Hwf' E]. split; [done|by rewrite E].
    + destruct (Address_new JUndefined) as [this|] eqn:En; [|discriminate].
      cbn [mbind result_bind] in Hn.
      apply address_new_empty in En as [Hwf H0].
      destruct (SecretKey_publicKey k0) as [pk|] eqn:Epk; [|discriminate].
      cbn [mbind result_bind] in Hn. unfold Address_setPublicKey in Hn.
      assert (Hpk : key_wf (JPublicKey pk)).
      { unfold SecretKey_publicKey, PublicKey_new in Epk.
        destruct (negb _) in Epk; [discriminate|]. injection Epk as <-.
        simpl. apply set_bytes; [apply zeros_bytes|].
        unfold Ed25519.publicKeyFromSecretKey.
        apply set_bytes; [apply zeros_bytes|].
        unfold JS.subarray. by apply Forall_take, Forall_drop. }
      destruct (address_publicKey_setter this (JPublicKey pk) a Hwf Hpk Hn)
        as [Hwf' E]. split; [done|by rewrite E].
  - unfold Address_fromBech32 in Hn.
    destruct (Address_new JUndefined) as [this|] eqn:En; [|discriminate].
    cbn [mbind result_bind] in Hn. apply address_new_empty in En as [Hwf _].
    by eapply address_bech32_setter.
  - destruct IH as [Hwf H0].
    assert (s = ASetPublicKey \/ s <> ASetPublicKey) as [->|Hs]
      by (destruct s; (by left) || (by right)).
    + simpl in Hrun.
      destruct (address_publicKey_setter a arg a' Hwf Hk Hrun) as [Hwf' E].
      split; [done|by rewrite E].
    + by eapply address_setter_masks.
  - by eapply address_setter_masks.
Qed.

(** C8, as amended.  For every address constructed empty, from a key, from
    Bech32, or from 34 raw bytes whose first byte has bit 7 clear, and after any
    sequence of setter calls, the buffer has 34 bytes and the high bit of its
    big-endian version word (bit 7 of byte 0) is zero; the same holds after a
    successful call of the version, prefix or bech32 setter on any address.  An
    address constructed from raw bytes keeps the bytes as given. *)
Theorem address_high_bit_zero (a : Address) :
  masked_address a ->
  length (address_bytes a) = 34%nat
  /\ Z.testbit (JS.get (address_bytes a) 0) 7 = false
  /\ Z.testbit (Address_version a) 15 = false
  /\ 0 <= Address_version a < 32768.
Proof.
  intros H. destruct (masked_address_inv a H) as [[Hlen Hb] H0].
  unfold Address_LENGTH in Hlen.
  destruct (version_word_of_bytes (address_bytes a)) as [Hr Ht]; [lia|done|done|].
  split; [done|]. split; [|split; [done|exact Hr]].
  pose proof (get_byte (address_bytes a) 0 Hb) as Hb0. unfold is_byte in Hb0.
  apply Z.bits_above_log2; [lia|].
  destruct (Z.eq_dec (JS.get (address_bytes a) 0) 0) as [->|]; [simpl; lia|].
  apply Z.log2_lt_pow2; [lia|]. change (2 ^ 7) with 128. lia.
Qed.

End AddressInvariant.

Lemma address_high_bit_witness :
  length (address_bytes (mkAddress ([85; 169] ++ JS.zeros 32))) = 34%nat
  /\ Z.testbit (JS.get (address_bytes (mkAddress ([85; 169] ++ JS.zeros 32))) 0) 7
     = false
  /\ Z.testbit (Address_version (mkAddress ([85; 169] ++ JS.zeros 32))) 15 = false
  /\ 0 <= Address_version (mkAddress ([85; 169] ++ JS.zeros 32)) < 32768.
Proof.
  apply (address_high_bit_zero (cm := asciiCase)).
  apply masked_empty. vm_compute. reflexivity.
Defined.

(** C8, as stated, fails: an address constructed from 34 raw bytes whose first
    byte is [0x80] keeps the high bit of its version word. *)
Lemma raw_address_keeps_high_bit :
  let a := mkAddress (128 :: JS.zeros 33) in
  Address_new (JUint8Array (128 :: JS.zeros 33)) = Ok a
  /\ Z.testbit (JS.get (address_bytes a) 0) 7 = true
  /\ Address_version a = 32768
  /\ Z.testbit (Address_version a) 15 = true.
Proof. vm_compute. repeat split. Qed.

(** ** The Bech32 checksum *)

Lemma forallb_range (P : Z -> bool) n :
  forallb P (seqZ 0 n) = true -> forall x, 0 <= x < n -> P x = true.
Proof.
  intros H x Hx. rewrite forallb_forall in H. apply H.
  apply list_elem_of_In, elem_of_seqZ. lia.
Qed.

Lemma lxor_swap4 a b c d :
  Z.lxor (Z.lxor a b) (Z.lxor c d) = Z.lxor (Z.lxor a c) (Z.lxor b d).
Proof.
  apply Z.bits_inj'. intros i _. rewrite !Z.lxor_spec.
  by destruct (Z.testbit a i), (Z.testbit b i), (Z.testbit c i), (Z.testbit d i).
Qed.

Lemma select_bound b i g : 0 <= g < 2 ^ 30 -> 0 <= select b i g < 2 ^ 30.
Proof. unfold select. destruct (Z.testbit b i); lia. Qed.

Lemma generator_bound b : 0 <= generator b < 2 ^ 30.
Proof.
  unfold generator.
  repeat (apply lxor_bound; [lia| |]); apply select_bound;
    change (2 ^ 30) with 1073741824; lia.
Qed.

Lemma generator_lxor b c :
  0 <= b < 32 -> 0 <= c < 32 ->
  generator (Z.lxor b c) = Z.lxor (generator b) (generator c).
Proof.
  intros Hb Hc.
  assert (H : forallb (fun b => forallb (fun c =>
                generator (Z.lxor b c) =? Z.lxor (generator b) (generator c))
              (seqZ 0 32)) (seqZ 0 32) = true) by (vm_compute; reflexivity).
  pose proof (forallb_range _ _ H b Hb) as H1. cbv beta in H1.
  pose proof (forallb_range _ _ H1 c Hc) as H2. cbv beta in H2. lia.
Qed.

Lemma polymod_step_bound x : 0 <= polymod_step x < 2 ^ 30.
Proof.
  unfold polymod_step. apply lxor_bound; [lia| |apply generator_bound].
  change 33554431 with (Z.ones 25). rewrite Z.land_ones, Z.shiftl_mul_pow2 by lia.
  pose proof (Z.mod_pos_bound x (2 ^ 25) ltac:(lia)).
  change (2 ^ 30) with (2 ^ 25 * 2 ^ 5). nia.
Qed.

Lemma shiftr25_bound x : 0 <= x < 2 ^ 30 -> 0 <= Z.shiftr x 25 < 32.
Proof.
  intros H. rewrite Z.shiftr_div_pow2 by lia.
  change (2 ^ 30) with 1073741824 in H. change (2 ^ 25) with 33554432.
  Z.div_mod_to_equations. lia.
Qed.

(** The step is linear for exclusive or. *)
Lemma polymod_step_lxor x y :
  0 <= x < 2 ^ 30 -> 0 <= y < 2 ^ 30 ->
  polymod_step (Z.lxor x y) = Z.lxor (polymod_step x) (polymod_step y).
Proof.
  intros Hx Hy. unfold polymod_step.
  rewrite land_lxor_distr_l, Z.shiftl_lxor, Z.shiftr_lxor.
  rewrite generator_lxor by (by apply shiftr25_bound).
  apply lxor_swap4.
Qed.

Lemma polymod_step_small x : 0 <= x < 2 ^ 25 -> polymod_step x = x * 32.
Proof.
  intros Hx. unfold polymod_step.
  change 33554431 with (Z.ones 25). rewrite Z.land_ones by lia.
  rewrite Z.mod_small, Z.shiftr_div_pow2, Z.div_small by lia.
  change (generator 0) with 0. rewrite Z.lxor_0_r, Z.shiftl_mul_pow2 by lia.
  reflexivity.
Qed.

Lemma lxor_low a v k :
  0 <= k -> 0 <= v < 2 ^ k -> Z.lxor (a * 2 ^ k) v = a * 2 ^ k + v.
Proof.
  intros Hk Hv. symmetry. apply Z.add_nocarry_lxor.
  apply Z.bits_inj'. intros i Hi. rewrite Z.land_spec, Z.bits_0.
  destruct (Z.lt_ge_cases i k).
  - rewrite Z.mul_pow2_bits_low by lia. reflexivity.
  - destruct (Z.eq_dec v 0) as [->|]; [rewrite Z.bits_0; apply andb_false_r|].
    rewrite (Z.bits_above_log2 v i); [apply andb_false_r|lia|].
    apply Z.log2_lt_pow2; [lia|].
    eapply Z.lt_le_trans; [apply Hv|]. apply Z.pow_le_mono_r; lia.
Qed.

Lemma polymod_bound chk values :
  0 <= chk < 2 ^ 30 -> Forall (fun v => 0 <= v < 32) values ->
  0 <= polymod chk values < 2 ^ 30.
Proof.
  intros Hc Hv. revert chk Hc. induction Hv as [|v vs Hv _ IH]; intros chk Hc.
  - done.
  - simpl. apply IH. apply lxor_bound; [lia|apply polymod_step_bound|].
    change (2 ^ 30) with 1073741824. lia.
Qed.

(** Feeding values into the exclusive or of two states. *)
Lemma polymod_lxor a b values :
  0 <= a < 2 ^ 30 -> 0 <= b < 2 ^ 30 -> Forall (fun v => 0 <= v < 32) values ->
  polymod (Z.lxor a b) values
  = Z.lxor (polymod a (replicate (length values) 0)) (polymod b values).
Proof.
  intros Ha Hb Hv. revert a b Ha Hb.
  induction Hv as [|v vs Hv _ IH]; intros a b Ha Hb; [done|].
  cbn [length replicate polymod foldl]. fold (polymod (Z.lxor (polymod_step (Z.lxor a b)) v) vs).
  fold (polymod (Z.lxor (polymod_step a) 0) (replicate (length vs) 0)).
  fold (polymod (Z.lxor (polymod_step b) v) vs).
  rewrite polymod_step_lxor by done.
  rewrite Z.lxor_0_r, Z.lxor_assoc. rewrite IH; [done| |].
  - apply polymod_step_bound.
  - apply lxor_bound; [lia|apply polymod_step_bound|].
    change (2 ^ 30) with 1073741824. lia.
Qed.

Lemma digits6_bound m : Forall (fun v => 0 <= v < 32) (digits6 m).
Proof.
  unfold digits6. repeat apply Forall_cons_2; try apply Forall_nil_2;
    apply Z.mod_pos_bound; lia.
Qed.

Lemma polymod_digits6 m : 0 <= m < 2 ^ 30 -> polymod 0 (digits6 m) = m.
Proof.
  intros Hm. unfold polymod, digits6. cbn [foldl].
  change (2 ^ 30) with 1073741824 in Hm.
  change (2 ^ 25) with 33554432. change (2 ^ 20) with 1048576.
  change (2 ^ 15) with 32768. change (2 ^ 10) with 1024. change (2 ^ 5) with 32.
  pose proof (Z.mod_pos_bound (m / 33554432) 32 ltac:(lia)) as H0.
  pose proof (Z.mod_pos_bound (m / 1048576) 32 ltac:(lia)) as H1.
  pose proof (Z.mod_pos_bound (m / 32768) 32 ltac:(lia)) as H2.
  pose proof (Z.mod_pos_bound (m / 1024) 32 ltac:(lia)) as H3.
  pose proof (Z.mod_pos_bound (m / 32) 32 ltac:(lia)) as H4.
  pose proof (Z.mod_pos_bound m 32 ltac:(lia)) as H5.
  change (polymod_step 0) with 0. rewrite Z.lxor_0_l.
  set (d0 := (m / 33554432) mod 32) in *. set (d1 := (m / 1048576) mod 32) in *.
  set (d2 := (m / 32768) mod 32) in *. set (d3 := (m / 1024) mod 32) in *.
  set (d4 := (m / 32) mod 32) in *. set (d5 := m mod 32) in *.
  assert (Hstep : forall x v, 0 <= x < 2 ^ 25 -> 0 <= v < 32 ->
            Z.lxor (polymod_step x) v = x * 32 + v).
  { intros x v Hx Hv. rewrite polymod_step_small by done.
    apply (lxor_low x v 5); [lia|done]. }
  change (2 ^ 25) with 33554432 in Hstep.
  rewrite (Hstep d0 d1) by lia.
  rewrite (Hstep (d0 * 32 + d1) d2) by lia.
  rewrite (Hstep ((d0 * 32 + d1) * 32 + d2) d3) by lia.
  rewrite (Hstep (((d0 * 32 + d1) * 32 + d2) * 32 + d3) d4) by lia.
  rewrite (Hstep ((((d0 * 32 + d1) * 32 + d2) * 32 + d3) * 32 + d4) d5) by lia.
  unfold d0, d1, d2, d3, d4, d5. Z.div_mod_to_equations. lia.
Qed.

(** The checksum digits make the checksum come out as 1. *)
Lemma polymod_checksum chk :
  0 <= chk < 2 ^ 30 ->
  polymod chk (digits6 (Z.lxor (polymod chk (replicate 6 0)) 1)) = 1.
Proof.
  intros Hc. set (c6 := polymod chk (replicate 6 0)).
  assert (Hc6 : 0 <= c6 < 2 ^ 30).
  { apply polymod_bound; [done|]. apply Forall_replicate. lia. }
  assert (Hm : 0 <= Z.lxor c6 1 < 2 ^ 30).
  { apply lxor_bound; [lia|done|change (2 ^ 30) with 1073741824; lia]. }
  rewrite <- (Z.lxor_0_r chk) at 1.
  rewrite polymod_lxor; [|done|lia|apply digits6_bound].
  change (length (digits6 (Z.lxor c6 1))) with 6%nat. fold c6.
  rewrite polymod_digits6 by done.
  rewrite <- Z.lxor_assoc, Z.lxor_nilpotent. reflexivity.
Qed.

(** The code's step is the step above. *)
Lemma select_js b i g :
  0 <= b < 32 -> 0 <= i < 5 -> 0 <= g < 2 ^ 30 ->
  JS.and (- JS.and (JS.shr b i) 1) g = select b i g.
Proof.
  intros Hb Hi Hg. change (2 ^ 30) with 1073741824 in Hg.
  rewrite shr_small by lia.
  assert (Hq : 0 <= b / 2 ^ i < 32).
  { split; [apply Z.div_pos; lia|].
    apply Z.div_lt_upper_bound; [lia|].
    assert (1 <= 2 ^ i) by (apply (Z.pow_le_mono_r 2 0 i); lia). nia. }
  rewrite (and_small (b / 2 ^ i) 1) by lia.
  change 1 with (Z.ones 1) at 1. rewrite Z.land_ones by lia.
  change (2 ^ 1) with 2.
  rewrite <- Z.shiftr_div_pow2 by lia.
  rewrite <- Z.bit0_mod, Z.shiftr_spec by lia.
  unfold select. rewrite Z.add_0_l.
  destruct (Z.testbit b i); simpl Z.b2z.
  - rewrite and_small by lia. apply Z.land_m1_l.
  - rewrite and_small by lia. reflexivity.
Qed.

Lemma polymodStep_eq x :
  0 <= x < 2 ^ 30 -> Bech32._polymodStep x = polymod_step x.
Proof.
  intros Hx. unfold Bech32._polymodStep, polymod_step. cbv zeta.
  pose proof (shiftr25_bound x Hx) as Hb.
  change (2 ^ 30) with 1073741824 in Hx.
  assert (Eb : JS.shr x 25 = Z.shiftr x 25).
  { rewrite shr_small by lia. by rewrite Z.shiftr_div_pow2 by lia. }
  rewrite Eb. rewrite !select_js by (change (2 ^ 30) with 1073741824; lia).
  rewrite (and_small x) by lia.
  assert (Hs : 0 <= Z.shiftl (Z.land x 33554431) 5 < 2 ^ 30).
  { change 33554431 with (Z.ones 25).
    rewrite Z.land_ones, Z.shiftl_mul_pow2 by lia.
    pose proof (Z.mod_pos_bound x (2 ^ 25) ltac:(lia)).
    change (2 ^ 30) with (2 ^ 25 * 2 ^ 5). nia. }
  assert (El : JS.shl (Z.land x 33554431) 5 = Z.shiftl (Z.land x 33554431) 5).
  { rewrite Z.shiftl_mul_pow2 in * by lia.
    change (2 ^ 30) with 1073741824 in Hs.
    assert (0 <= Z.land x 33554431 < 33554432)
      by (apply (land_bound x 33554431 25); lia).
    apply shl_small; lia. }
  rewrite El.
  set (b := Z.shiftr x 25) in *. set (s := Z.shiftl (Z.land x 33554431) 5) in *.
  pose proof (select_bound b 0 0x3b6a57b2 ltac:(change (2 ^ 30) with 1073741824; lia)).
  pose proof (select_bound b 1 0x26508e6d ltac:(change (2 ^ 30) with 1073741824; lia)).
  pose proof (select_bound b 2 0x1ea119fa ltac:(change (2 ^ 30) with 1073741824; lia)).
  pose proof (select_bound b 3 0x3d4233dd ltac:(change (2 ^ 30) with 1073741824; lia)).
  pose proof (select_bound b 4 0x2a1462b3 ltac:(change (2 ^ 30) with 1073741824; lia)).
  assert (Hxor : forall u v, 0 <= u < 2 ^ 30 -> 0 <= v < 2 ^ 30 ->
            JS.xor u v = Z.lxor u v /\ 0 <= Z.lxor u v < 2 ^ 30).
  { intros u v Hu Hv. split; [|by apply lxor_bound].
    change (2 ^ 30) with 1073741824 in *. apply xor_small; lia. }
  unfold generator.
  destruct (Hxor s (select b 0 0x3b6a57b2)) as [-> H0']; [done|done|].
  destruct (Hxor _ (select b 1 0x26508e6d) H0') as [-> H1']; [done|].
  destruct (Hxor _ (select b 2 0x1ea119fa) H1') as [-> H2']; [done|].
  destruct (Hxor _ (select b 3 0x3d4233dd) H2') as [-> H3']; [done|].
  destruct (Hxor _ (select b 4 0x2a1462b3) H3') as [-> H4']; [done|].
  rewrite !Z.lxor_assoc. reflexivity.
Qed.

(** ** Regrouping bits: [_convert] *)

Lemma ToInt32_mod z k :
  0 <= k <= 32 -> JS.ToInt32 z mod 2 ^ k = z mod 2 ^ k.
Proof.
  intros Hk. unfold JS.ToInt32. cbv zeta. rewrite ToUint32_mod.
  assert (Hd : (2 ^ k | 4294967296)).
  { exists (2 ^ (32 - k)). rewrite <- Z.pow_add_r by lia.
    replace (32 - k + k) with 32 by lia. reflexivity. }
  assert (Hp : 0 < 2 ^ k) by (apply Z.pow_pos_nonneg; lia).
  destruct (z mod 4294967296 <? 2147483648).
  - by apply Z.mod_mod_divide.
  - pose proof Hd as [q Hq].
    replace (z mod 4294967296 - 4294967296)
      with (z mod 4294967296 + (- q) * 2 ^ k) by lia.
    rewrite Z.mod_add by lia. by apply Z.mod_mod_divide.
Qed.

Lemma digits_from_app k acc ds1 ds2 :
  digits_from k acc (ds1 ++ ds2) = digits_from k (digits_from k acc ds1) ds2.
Proof. apply foldl_app. Qed.

Lemma digits_value_snoc k ds d :
  digits_value k (ds ++ [d]) = digits_value k ds * 2 ^ k + d.
Proof. unfold digits_value. by rewrite digits_from_app. Qed.

Lemma digits_from_shift k acc ds :
  0 <= k ->
  digits_from k acc ds
  = acc * 2 ^ (k * Z.of_nat (length ds)) + digits_value k ds.
Proof.
  intros Hk. revert acc. induction ds as [|d ds IH] using rev_ind; intros acc.
  - simpl. rewrite Z.mul_0_r. simpl. unfold digits_value. simpl. lia.
  - rewrite digits_from_app, digits_value_snoc. simpl digits_from at 1.
    rewrite IH, length_app. simpl length.
    replace (k * Z.of_nat (length ds + 1)) with (k * Z.of_nat (length ds) + k)
      by lia.
    rewrite Z.pow_add_r by lia. ring.
Qed.

Lemma digits_value_bound k ds :
  0 <= k -> Forall (fun d => 0 <= d < 2 ^ k) ds ->
  0 <= digits_value k ds < 2 ^ (k * Z.of_nat (length ds)).
Proof.
  intros Hk. induction ds as [|d ds IH] using rev_ind; intros Hds.
  - unfold digits_value. simpl. rewrite Z.mul_0_r. simpl. lia.
  - apply Forall_app in Hds as [Hds Hd]. apply Forall_cons in Hd as [Hd _].
    specialize (IH Hds). rewrite digits_value_snoc, length_app. simpl length.
    replace (k * Z.of_nat (length ds + 1)) with (k * Z.of_nat (length ds) + k)
      by lia.
    rewrite Z.pow_add_r by lia.
    assert (0 < 2 ^ k) by (apply Z.pow_pos_nonneg; lia). nia.
Qed.

(** Two digit strings of the same length that write the same number. *)
Lemma digits_value_inj k ds1 ds2 :
  0 <= k -> length ds1 = length ds2 ->
  Forall (fun d => 0 <= d < 2 ^ k) ds1 -> Forall (fun d => 0 <= d < 2 ^ k) ds2 ->
  digits_value k ds1 = digits_value k ds2 -> ds1 = ds2.
Proof.
  intros Hk. revert ds2.
  induction ds1 as [|d1 ds1 IH] using rev_ind; intros ds2 Hlen H1 H2 Hv.
  - destruct ds2; [done|discriminate].
  - destruct ds2 as [|d2 ds2 _] using rev_ind;
      [rewrite length_app in Hlen; simpl in Hlen; lia|].
    rewrite !length_app in Hlen. simpl in Hlen.
    apply Forall_app in H1 as [H1 Hd1]. apply Forall_cons in Hd1 as [Hd1 _].
    apply Forall_app in H2 as [H2 Hd2]. apply Forall_cons in Hd2 as [Hd2 _].
    rewrite !digits_value_snoc in Hv.
    assert (0 < 2 ^ k) by (apply Z.pow_pos_nonneg; lia).
    assert (E : digits_value k ds1 = digits_value k ds2).
    { apply (f_equal (fun x => x / 2 ^ k)) in Hv.
      rewrite !Z.div_add_l, !(Z.div_small _ (2 ^ k)) in Hv by lia. lia. }
    assert (d1 = d2) as -> by lia.
    f_equal. apply IH; [lia|done|done|done].
Qed.

Section Convert.
Variables inBits outBits : Z.
Hypothesis HinBits : 1 <= inBits.
Hypothesis HoutBits : 1 <= outBits.
Hypothesis Hsum : inBits + outBits <= 31.

Let maxV : Z := JS.shl 1 outBits - 1.

Lemma maxV_ones : maxV = Z.ones outBits.
Proof.
  unfold maxV. rewrite shl_small; [|lia| |lia].
  - rewrite Z.ones_equiv. lia.
  - assert (2 ^ outBits <= 2 ^ 30) by (apply Z.pow_le_mono_r; lia).
    assert (0 < 2 ^ outBits) by (apply Z.pow_pos_nonneg; lia).
    change (2 ^ 30) with 1073741824 in *. lia.
Qed.

Lemma pow_small k : 0 <= k <= 31 -> 0 < 2 ^ k <= 2147483648.
Proof.
  intros Hk. split; [apply Z.pow_pos_nonneg; lia|].
  change 2147483648 with (2 ^ 31). apply Z.pow_le_mono_r; lia.
Qed.

(** The digit that the loop pushes: bits [bits .. bits + outBits) of [value]. *)
Lemma pushed_digit value bits :
  -2147483648 <= value < 2147483648 -> 0 <= bits <= 31 ->
  JS.and (JS.shr value bits) maxV = (value / 2 ^ bits) mod 2 ^ outBits.
Proof.
  intros Hv Hb. rewrite maxV_ones.
  pose proof (pow_small bits Hb) as Hp.
  destruct (Z.eq_dec bits 31) as [->|Hne].
  - unfold JS.shr, JS.and. rewrite (ToInt32_small value) by done.
    change (Z.land 31 31) with 31. rewrite Z.shiftr_div_pow2 by lia.
    assert (Hq : -1 <= value / 2 ^ 31 < 1)
      by (change (2 ^ 31) with 2147483648; Z.div_mod_to_equations; lia).
    rewrite !ToInt32_small; [apply Z.land_ones; lia|..].
    + pose proof (pow_small outBits ltac:(lia)). rewrite Z.ones_equiv. lia.
    + lia.
  - rewrite shr_small by lia.
    assert (Hq : -2147483648 <= value / 2 ^ bits < 2147483648)
      by (Z.div_mod_to_equations; nia).
    rewrite and_small; [apply Z.land_ones; lia|done|].
    pose proof (pow_small outBits ltac:(lia)). rewrite Z.ones_equiv. lia.
Qed.

Lemma mod_split value a b :
  0 <= a -> 0 <= b ->
  value mod 2 ^ (a + b) = (value / 2 ^ a) mod 2 ^ b * 2 ^ a + value mod 2 ^ a.
Proof.
  intros Ha Hb. rewrite Z.pow_add_r by done.
  assert (0 < 2 ^ a) by (apply Z.pow_pos_nonneg; lia).
  assert (0 < 2 ^ b) by (apply Z.pow_pos_nonneg; lia).
  rewrite Z.rem_mul_r by lia. lia.
Qed.

(** The inner loop: it ends within [fuel] iterations and keeps the number
    written by the digits and the pending bits. *)
Lemma convert_while_spec fuel value bits result :
  -2147483648 <= value < 2147483648 ->
  0 <= bits <= 31 -> (Z.to_nat bits <= fuel)%nat ->
  Forall (fun d => 0 <= d < 2 ^ outBits) result ->
  exists bits' result',
    Bech32._convert_while fuel value bits outBits maxV result = Some (bits', result')
    /\ 0 <= bits' < outBits
    /\ Forall (fun d => 0 <= d < 2 ^ outBits) result'
    /\ digits_value outBits result' * 2 ^ bits' + value mod 2 ^ bits'
       = digits_value outBits result * 2 ^ bits + value mod 2 ^ bits
    /\ Z.of_nat (length result') * outBits + bits'
       = Z.of_nat (length result) * outBits + bits.
Proof.
  intros Hv. revert bits result.
  induction fuel as [|fuel IH]; intros bits result Hb Hf Hr.
  - assert (bits = 0) as -> by lia. simpl.
    replace (0 <? outBits) with true by lia.
    exists 0, result. repeat split; try done; lia.
  - simpl. destruct (Z.ltb_spec bits outBits) as [Hlt|Hge].
    + exists bits, result. repeat split; try done; lia.
    + destruct (IH (bits - outBits)
                  (result ++ [JS.and (JS.shr value (bits - outBits)) maxV]))
        as (bits' & result' & E & Hb' & Hr' & Hd & Hl); [lia|lia| |].
      { apply Forall_app; split; [done|]. apply Forall_cons; split; [|done].
        rewrite pushed_digit by lia. apply Z.mod_pos_bound.
        apply Z.pow_pos_nonneg; lia. }
      exists bits', result'. split; [done|]. split; [done|]. split; [done|].
      rewrite Hd, Hl, digits_value_snoc, length_app, pushed_digit by lia.
      simpl length. split; [|lia].
      pose proof (mod_split value (bits - outBits) outBits ltac:(lia) ltac:(lia))
        as Hs.
      replace (bits - outBits + outBits) with bits in Hs by lia. rewrite Hs.
      replace (2 ^ bits) with (2 ^ (bits - outBits) * 2 ^ outBits)
        by (rewrite <- Z.pow_add_r by lia; f_equal; lia).
      ring.
Qed.

(** Shifting the next input digit into [value]. *)
Lemma shifted_in value bits d :
  -2147483648 <= value < 2147483648 -> 0 <= bits -> bits + inBits <= 31 ->
  0 <= d < 2 ^ inBits ->
  -2147483648 <= JS.or (JS.shl value inBits) d < 2147483648
  /\ JS.or (JS.shl value inBits) d mod 2 ^ (bits + inBits)
     = value mod 2 ^ bits * 2 ^ inBits + d.
Proof.
  intros Hv Hb Hbi Hd.
  pose proof (pow_small inBits ltac:(lia)) as Hpi.
  unfold JS.shl. rewrite (ToInt32_small value) by done.
  change 31 with (Z.ones 5). rewrite Z.land_ones by lia.
  rewrite (Z.mod_small inBits) by (change (2 ^ 5) with 32; lia).
  rewrite Z.shiftl_mul_pow2 by lia.
  set (a := JS.ToInt32 (value * 2 ^ inBits)).
  pose proof (ToInt32_range (value * 2 ^ inBits)) as Ha. fold a in Ha.
  assert (Hamod : a mod 2 ^ inBits = 0).
  { unfold a. rewrite ToInt32_mod by lia. apply Z.mod_mul. lia. }
  assert (Ea : a = a / 2 ^ inBits * 2 ^ inBits)
    by (Z.div_mod_to_equations; lia).
  assert (Hland : Z.land (a / 2 ^ inBits * 2 ^ inBits) d = 0).
  { apply Z.bits_inj'. intros i Hi. rewrite Z.land_spec, Z.bits_0.
    destruct (Z.lt_ge_cases i inBits);
      [rewrite Z.mul_pow2_bits_low by lia; reflexivity|].
    destruct (Z.eq_dec d 0) as [->|]; [rewrite Z.bits_0; apply andb_false_r|].
    rewrite (Z.bits_above_log2 d i); [apply andb_false_r|lia|].
    apply Z.log2_lt_pow2; [lia|].
    eapply Z.lt_le_trans; [apply Hd|]. apply Z.pow_le_mono_r; lia. }
  assert (Eor : JS.or a d = a + d).
  { rewrite or_small by lia. rewrite Ea at 1.
    rewrite <- Z.lxor_lor by exact Hland.
    rewrite <- Z.add_nocarry_lxor by exact Hland. lia. }
  rewrite Eor. split.
  { assert (HPQ : 2 ^ inBits * 2 ^ (31 - inBits) = 2147483648).
    { rewrite <- Z.pow_add_r by lia. replace (inBits + (31 - inBits)) with 31 by lia.
      reflexivity. }
    assert (0 < 2 ^ (31 - inBits)) by (apply Z.pow_pos_nonneg; lia).
    set (q := a / 2 ^ inBits) in *. set (P := 2 ^ inBits) in *.
    set (Q := 2 ^ (31 - inBits)) in *.
    assert (q < Q) by nia. assert (q + 1 <= Q) by lia.
    assert ((q + 1) * P <= Q * P) by (apply Z.mul_le_mono_nonneg_r; lia).
    lia. }
  assert (Hp : 0 < 2 ^ bits) by (apply Z.pow_pos_nonneg; lia).
  rewrite <- Z.add_mod_idemp_l by (apply Z.pow_nonzero; lia).
  unfold a. rewrite ToInt32_mod by lia.
  rewrite Z.pow_add_r by lia.
  rewrite Z.mul_mod_distr_r by lia.
  apply Z.mod_small.
  pose proof (Z.mod_pos_bound value (2 ^ bits) Hp). nia.
Qed.

Lemma convert_step_spec N n st d :
  convert_inv inBits outBits N n st -> 0 <= d < 2 ^ inBits ->
  exists st',
    Bech32._convert_step inBits outBits maxV (Some st) d = Some st'
    /\ convert_inv inBits outBits (N * 2 ^ inBits + d) (S n) st'.
Proof.
  destruct st as [[value bits] result]. intros (Hb & Hv & Hr & HN & Hl) Hd.
  unfold Bech32._convert_step. cbn [mbind option_bind].
  destruct (shifted_in value bits d Hv ltac:(lia) ltac:(lia) Hd) as [Hv' Hm].
  destruct (convert_while_spec (Z.to_nat (bits + inBits))
              (JS.or (JS.shl value inBits) d) (bits + inBits) result)
    as (bits' & result' & E & Hb' & Hr' & Hd' & Hl'); [done|lia|lia|done|].
  rewrite E. cbn [mbind option_bind]. eexists. split; [reflexivity|].
  unfold convert_inv. repeat split; try done; try lia.
  rewrite Hd', Hm, Z.pow_add_r by lia. rewrite <- HN. ring.
Qed.

Lemma convert_fold_spec ds :
  forall N n st,
  convert_inv inBits outBits N n st ->
  Forall (fun d => 0 <= d < 2 ^ inBits) ds ->
  exists st',
    foldl (Bech32._convert_step inBits outBits maxV) (Some st) ds = Some st'
    /\ convert_inv inBits outBits (digits_from inBits N ds)
         (n + length ds) st'.
Proof.
  induction ds as [|d ds IH]; intros N n st Hinv Hds.
  - exists st. split; [done|]. by rewrite Nat.add_0_r.
  - apply Forall_cons in Hds as [Hd Hds].
    destruct (convert_step_spec N n st d Hinv Hd) as (st1 & E1 & Hinv1).
    destruct (IH _ _ _ Hinv1 Hds) as (st' & E' & Hinv').
    exists st'. cbn [foldl]. rewrite E1. split; [done|].
    simpl length. by replace (n + S (length ds))%nat with (S n + length ds)%nat by lia.
Qed.

(** The main loop of [_convert] from its initial state. *)
Lemma convert_loop_spec ds :
  Forall (fun d => 0 <= d < 2 ^ inBits) ds ->
  exists st',
    foldl (Bech32._convert_step inBits outBits maxV) (Some (0, 0, [])) ds = Some st'
    /\ convert_inv inBits outBits (digits_value inBits ds) (length ds) st'.
Proof.
  intros Hds.
  destruct (convert_fold_spec ds 0 0%nat (0, 0, [])) as (st' & E & Hinv);
    [|done|by exists st'].
  unfold convert_inv. split; [lia|]. split; [lia|]. split; [done|].
  split; [reflexivity|]. simpl. lia.
Qed.

End Convert.

(** The low bits of [value] shifted up and masked, as the padding code does. *)
Lemma shifted_pad value s k :
  -2147483648 <= value < 2147483648 -> 0 <= s -> 0 <= k -> s + k <= 31 ->
  JS.and (JS.shl value s) (Z.ones (s + k)) = value mod 2 ^ k * 2 ^ s.
Proof.
  intros Hv Hs Hk Hsk. unfold JS.shl. rewrite (ToInt32_small value) by done.
  change 31 with (Z.ones 5). rewrite Z.land_ones by lia.
  rewrite (Z.mod_small s) by (change (2 ^ 5) with 32; lia).
  rewrite Z.shiftl_mul_pow2 by lia.
  pose proof (ToInt32_range (value * 2 ^ s)).
  assert (0 < 2 ^ (s + k) <= 2147483648).
  { split; [apply Z.pow_pos_nonneg; lia|].
    change 2147483648 with (2 ^ 31). apply Z.pow_le_mono_r; lia. }
  rewrite and_small; [|done|rewrite Z.ones_equiv; lia].
  rewrite Z.land_ones, ToInt32_mod by lia.
  rewrite (Z.add_comm s k), Z.pow_add_r by lia.
  assert (0 < 2 ^ s) by (apply Z.pow_pos_nonneg; lia).
  assert (0 < 2 ^ k) by (apply Z.pow_pos_nonneg; lia).
  rewrite Z.mul_mod_distr_r by lia. reflexivity.
Qed.

(** Thirty-two bytes become fifty-two 5-bit words, the last padded with four
    zero bits. *)
Lemma convert_8_5 (data : bytes) :
  Forall is_byte data -> length data = 32%nat ->
  exists ws, Bech32._convert data 8 5 true = Ok ws
    /\ length ws = 52%nat
    /\ Forall (fun w => 0 <= w < 32) ws
    /\ digits_value 5 ws = digits_value 8 data * 16.
Proof.
  intros Hd Hlen.
  destruct (convert_loop_spec 8 5 ltac:(lia) ltac:(lia) ltac:(lia) data Hd)
    as ([[value bits] result] & E & Hb & Hv & Hr & HN & Hl).
  rewrite Hlen in Hl.
  assert (bits = 1 /\ length result = 51%nat) as [-> Hlr] by lia.
  unfold Bech32._convert. rewrite E. cbn [Z.ltb Z.compare].
  eexists. split; [reflexivity|].
  change (JS.shl 1 5 - 1) with (Z.ones (4 + 1)). change (5 - 1) with 4.
  rewrite shifted_pad by lia.
  split; [rewrite length_app; simpl; lia|]. split.
  - apply Forall_app; split; [done|]. apply Forall_cons; split; [|done].
    change (2 ^ 1) with 2. change (2 ^ 4) with 16. Z.div_mod_to_equations. lia.
  - rewrite digits_value_snoc, <- HN.
    change (2 ^ 5) with 32. change (2 ^ 4) with 16. change (2 ^ 1) with 2. ring.
Qed.

(** ... and back. *)
Lemma convert_5_8 (ws : list Z) (data : bytes) :
  length ws = 52%nat -> Forall (fun w => 0 <= w < 32) ws ->
  Forall is_byte data -> length data = 32%nat ->
  digits_value 5 ws = digits_value 8 data * 16 ->
  Bech32._convert ws 5 8 false = Ok data.
Proof.
  intros Hlw Hw Hd Hld Hv.
  destruct (convert_loop_spec 5 8 ltac:(lia) ltac:(lia) ltac:(lia) ws Hw)
    as ([[value bits] result] & E & Hb & Hvr & Hr & HN & Hl).
  rewrite Hlw in Hl.
  assert (bits = 4 /\ length result = 32%nat) as [-> Hlr] by lia.
  change (2 ^ 4) with 16 in HN.
  assert (Hm : value mod 16 = 0 /\ digits_value 8 result = digits_value 8 data)
    by (rewrite Hv in HN; Z.div_mod_to_equations; lia).
  destruct Hm as [Hm0 Hdv].
  unfold Bech32._convert. rewrite E. cbn [Z.leb Z.compare].
  change (JS.shl 1 8 - 1) with (Z.ones (4 + 4)). change (8 - 4) with 4.
  rewrite shifted_pad by lia. change (2 ^ 4) with 16. rewrite Hm0.
  simpl. f_equal.
  apply (digits_value_inj 8); [lia|lia|done|done|done].
Qed.

(** ** Bech32 strings *)

Lemma alphabet_facts w :
  0 <= w < 32 ->
  Bech32.charAt Bech32._ALPHABET w = [alphabet_char w]
  /\ Bech32.property Bech32._ALPHABET_MAP [alphabet_char w] = Some w
  /\ alphabet_char w <> 49
  /\ is_ascii (alphabet_char w)
  /\ lower_unit (alphabet_char w) = alphabet_char w.
Proof.
  intros Hw.
  assert (H : forallb (fun w =>
      bool_decide (Bech32.charAt Bech32._ALPHABET w = [alphabet_char w])
      && bool_decide (Bech32.property Bech32._ALPHABET_MAP [alphabet_char w] = Some w)
      && negb (alphabet_char w =? 49)
      && (0 <=? alphabet_char w) && (alphabet_char w <? 128)
      && (lower_unit (alphabet_char w) =? alphabet_char w)) (seqZ 0 32) = true)
    by (vm_compute; reflexivity).
  pose proof (forallb_range _ _ H w Hw) as Hc. cbv beta in Hc.
  repeat (apply andb_prop in Hc as [Hc ?]).
  apply bool_decide_eq_true in Hc.
  repeat match goal with H : bool_decide _ = true |- _ =>
    apply bool_decide_eq_true in H end.
  unfold is_ascii. repeat split; try done; try lia.
Qed.

(** Every key of [_ALPHABET_MAP] is a character of the alphabet. *)
Lemma alphabet_map_inv c v :
  Bech32.property Bech32._ALPHABET_MAP [c] = Some v ->
  0 <= v < 32 /\ c = alphabet_char v.
Proof.
  unfold Bech32._ALPHABET_MAP. cbn [Bech32.property].
  repeat match goal with
  | |- context [bool_decide (?k = [c])] =>
      let k' := eval vm_compute in k in change k with k';
      destruct (decide (k' = [c])) as [E|E];
        [rewrite (bool_decide_eq_true_2 _ E); injection E as <-;
         intros [= <-]; vm_compute; repeat split; congruence
        |rewrite (bool_decide_eq_false_2 _ E); clear E]
  end.
  discriminate.
Qed.

Lemma lower_letter_facts c :
  lower_letter c ->
  prefix_char c /\ is_ascii c /\ lower_unit c = c /\ c <> 49.
Proof.
  unfold lower_letter, prefix_char, is_ascii, lower_unit. intros H.
  replace (c <=? 90) with false by lia. rewrite andb_false_r. lia.
Qed.

(** *** [_prefixChk] *)

Lemma xor_digit chk v :
  0 <= chk < 2 ^ 30 -> 0 <= v < 32 ->
  JS.xor (Bech32._polymodStep chk) v = Z.lxor (polymod_step chk) v
  /\ 0 <= Z.lxor (polymod_step chk) v < 2 ^ 30.
Proof.
  intros Hc Hv. rewrite polymodStep_eq by done.
  pose proof (polymod_step_bound chk) as Hb.
  split; [|apply lxor_bound; [lia|done|change (2 ^ 30) with 1073741824; lia]].
  change (2 ^ 30) with 1073741824 in *. apply xor_small; lia.
Qed.

Lemma prefixChk_high_ok p chk :
  Forall prefix_char p -> 0 <= chk < 2 ^ 30 ->
  exists chk', Bech32._prefixChk_high p chk = Ok chk' /\ 0 <= chk' < 2 ^ 30.
Proof.
  intros Hp. revert chk. induction Hp as [|c p Hc _ IH]; intros chk Hchk.
  - by exists chk.
  - unfold prefix_char in Hc. simpl.
    replace (c <? 33) with false by lia. replace (126 <? c) with false by lia.
    simpl. rewrite shr_small by lia. change (2 ^ 5) with 32.
    assert (0 <= c / 32 < 32) by (Z.div_mod_to_equations; lia).
    destruct (xor_digit chk (c / 32) Hchk ltac:(done)) as [-> Hb]. by apply IH.
Qed.

Lemma prefixChk_low_bound p chk :
  Forall prefix_char p -> 0 <= chk < 2 ^ 30 ->
  0 <= foldl (fun chk v => JS.xor (Bech32._polymodStep chk) (JS.and v 0x1f)) chk p
     < 2 ^ 30.
Proof.
  intros Hp. revert chk. induction Hp as [|c p Hc _ IH]; intros chk Hchk.
  - done.
  - unfold prefix_char in Hc. simpl. apply IH.
    rewrite (and_small c 31) by lia.
    pose proof (land_bound c 31 5 ltac:(lia) ltac:(change (2 ^ 5) with 32; lia)) as Hv.
    change (2 ^ 5) with 32 in Hv.
    by destruct (xor_digit chk (Z.land c 31) Hchk Hv) as [-> Hb].
Qed.

Lemma prefixChk_ok p :
  Forall prefix_char p ->
  exists chk, Bech32._prefixChk p = Ok chk /\ 0 <= chk < 2 ^ 30.
Proof.
  intros Hp. unfold Bech32._prefixChk.
  destruct (prefixChk_high_ok p 1 Hp ltac:(change (2 ^ 30) with 1073741824; lia))
    as (c1 & -> & Hc1).
  cbn [mbind result_bind]. eexists. split; [reflexivity|].
  apply prefixChk_low_bound; [done|].
  rewrite polymodStep_eq by done. apply polymod_step_bound.
Qed.

Lemma prefixChk_high_inv p chk chk' :
  Bech32._prefixChk_high p chk = Ok chk' -> Forall prefix_char p.
Proof.
  revert chk. induction p as [|c p IH]; intros chk; [done|]. simpl.
  destruct (Z.ltb_spec c 33); [discriminate|].
  destruct (Z.ltb_spec 126 c); [discriminate|]. simpl.
  intros Hok. apply Forall_cons; split; [unfold prefix_char; lia|by eapply IH].
Qed.

Lemma prefixChk_inv p chk :
  Bech32._prefixChk p = Ok chk -> Forall prefix_char p.
Proof.
  unfold Bech32._prefixChk.
  destruct (Bech32._prefixChk_high p 1) eqn:E; [|discriminate].
  intros _. by eapply prefixChk_high_inv.
Qed.

(** *** [lastIndexOf] *)

Lemma lastIndexOf_from_app l1 l2 c i found :
  Bech32.lastIndexOf_from (l1 ++ l2) c i found
  = Bech32.lastIndexOf_from l2 c (i + Z.of_nat (length l1))
      (Bech32.lastIndexOf_from l1 c i found).
Proof.
  revert i found. induction l1 as [|x l1 IH]; intros i found.
  - simpl. by rewrite Z.add_0_r.
  - simpl app. simpl Bech32.lastIndexOf_from. rewrite IH.
    simpl length. f_equal. lia.
Qed.

Lemma lastIndexOf_from_absent l c i found :
  Forall (fun x => x <> c) l -> Bech32.lastIndexOf_from l c i found = found.
Proof.
  intros H. revert i found. induction H as [|x l Hx _ IH]; intros i found; [done|].
  simpl. rewrite IH. by replace (x =? c) with false by lia.
Qed.

Lemma lastIndexOf_separator (p rest : list Z) c :
  Forall (fun x => x <> c) rest ->
  Bech32.lastIndexOf (p ++ c :: rest) c = Z.of_nat (length p).
Proof.
  intros Hr. unfold Bech32.lastIndexOf. rewrite lastIndexOf_from_app.
  simpl. rewrite Z.eqb_refl. by apply lastIndexOf_from_absent.
Qed.

Lemma lastIndexOf_from_found l c i found r :
  Bech32.lastIndexOf_from l c i found = r ->
  r = found \/ (i <= r < i + Z.of_nat (length l) /\ l !! Z.to_nat (r - i) = Some c).
Proof.
  revert i found. induction l as [|x l IH]; intros i found; [by left|].
  simpl Bech32.lastIndexOf_from. intros H. apply IH in H as [H|[Hr Hl]].
  - destruct (Z.eqb_spec x c) as [->|]; [|by left].
    right. subst r. simpl length. split; [lia|].
    by rewrite Z.sub_diag.
  - right. simpl length. split; [lia|].
    replace (Z.to_nat (r - i)) with (S (Z.to_nat (r - (i + 1)))) by lia. done.
Qed.

(** *** Encoding and decoding a string *)

Lemma for_loop_6 {S : Type} (f : Z -> S -> S) (x : S) :
  for_loop 0 6 f x = f 5 (f 4 (f 3 (f 2 (f 1 (f 0 x))))).
Proof. reflexivity. Qed.

Lemma map_fixed (f : Z -> Z) (s : list Z) :
  Forall (fun c => f c = c) s -> map f s = s.
Proof. induction 1 as [|c s Hc _ IH]; [done|]. simpl. by rewrite Hc, IH. Qed.

Lemma map_fixed_inv (f : Z -> Z) (s : list Z) :
  map f s = s -> Forall (fun c => f c = c) s.
Proof.
  induction s as [|c s IH]; [done|]. simpl. intros [= Hc Hs].
  apply Forall_cons; split; [done|by apply IH].
Qed.

Lemma encode_words_loop ws chk result :
  0 <= chk < 2 ^ 30 -> Forall (fun w => 0 <= w < 32) ws ->
  foldl (fun '(chk, result) word =>
           (JS.xor (Bech32._polymodStep chk) word,
            result ++ Bech32.charAt Bech32._ALPHABET word))
        (chk, result) ws
  = (polymod chk ws, result ++ map alphabet_char ws).
Proof.
  intros Hc Hw. revert chk result Hc.
  induction Hw as [|w ws Hw _ IH]; intros chk result Hc.
  - simpl. by rewrite app_nil_r.
  - cbn [foldl map polymod].
    destruct (xor_digit chk w Hc Hw) as [-> Hb].
    destruct (alphabet_facts w Hw) as (-> & _).
    rewrite IH by done. by rewrite <- app_assoc.
Qed.

Lemma polymod_zeros6 chk :
  0 <= chk < 2 ^ 30 ->
  for_loop 0 6 (fun _ chk => Bech32._polymodStep chk) chk
  = polymod chk (replicate 6 0)
  /\ 0 <= polymod chk (replicate 6 0) < 2 ^ 30.
Proof.
  intros Hc. rewrite for_loop_6. cbn [replicate polymod foldl].
  rewrite !Z.lxor_0_r.
  pose proof (polymod_step_bound chk).
  pose proof (polymod_step_bound (polymod_step chk)).
  pose proof (polymod_step_bound (polymod_step (polymod_step chk))).
  pose proof (polymod_step_bound (polymod_step (polymod_step (polymod_step chk)))).
  pose proof (polymod_step_bound
    (polymod_step (polymod_step (polymod_step (polymod_step chk))))).
  rewrite (polymodStep_eq chk) by done.
  rewrite (polymodStep_eq (polymod_step chk)) by done.
  rewrite (polymodStep_eq (polymod_step (polymod_step chk))) by done.
  rewrite (polymodStep_eq (polymod_step (polymod_step (polymod_step chk))))
    by done.
  rewrite (polymodStep_eq
    (polymod_step (polymod_step (polymod_step (polymod_step chk))))) by done.
  rewrite polymodStep_eq by done.
  split; [done|apply polymod_step_bound].
Qed.

Lemma checksum_digit m k :
  0 <= m < 2 ^ 30 -> 0 <= k <= 25 ->
  JS.and (JS.shr m k) 0x1f = (m / 2 ^ k) mod 32.
Proof.
  intros Hm Hk. change (2 ^ 30) with 1073741824 in Hm.
  rewrite shr_small by lia.
  assert (0 < 2 ^ k) by (apply Z.pow_pos_nonneg; lia).
  assert (0 <= m / 2 ^ k <= m) by (split; [apply Z.div_pos; lia|apply Z.div_le_upper_bound; nia]).
  rewrite and_small by lia. change 31 with (Z.ones 5).
  by rewrite Z.land_ones by lia.
Qed.

Section WithCaseMapAscii.
Context {cm : CaseMap}.
Hypothesis Hcm : CaseMapAscii cm.

Lemma toLowerCase_fixed (s : list Z) :
  Forall is_ascii s -> Forall (fun c => lower_unit c = c) s -> toLowerCase s = s.
Proof.
  intros Ha Hl. destruct (Hcm s Ha) as [-> _]. by apply map_fixed.
Qed.

(** The string that [_encode] builds for a lower-case prefix. *)
Lemma encode_string (p : list Z) (ws : list Z) :
  Forall lower_letter p -> Forall (fun w => 0 <= w < 32) ws ->
  exists chk,
    Bech32._prefixChk p = Ok chk /\ 0 <= chk < 2 ^ 30
    /\ Bech32._encode p ws
       = Ok (p ++ [49] ++ map alphabet_char ws
               ++ map alphabet_char
                    (digits6 (Z.lxor (polymod (polymod chk ws) (replicate 6 0)) 1))).
Proof.
  intros Hp Hw.
  assert (Hp' : Forall (fun c => prefix_char c /\ is_ascii c
                                 /\ lower_unit c = c /\ c <> 49) p)
    by (eapply Forall_impl; [exact Hp|apply lower_letter_facts]).
  assert (Hlow : toLowerCase p = p).
  { apply toLowerCase_fixed; eapply Forall_impl; try exact Hp'; cbv beta; tauto. }
  destruct (prefixChk_ok p) as (chk & Echk & Hchk);
    [eapply Forall_impl; [exact Hp'|cbv beta; tauto]|].
  exists chk. split; [done|]. split; [done|].
  unfold Bech32._encode. rewrite Hlow, Echk. cbn [mbind result_bind].
  rewrite encode_words_loop by done.
  pose proof (polymod_bound chk ws Hchk Hw) as Hc1.
  destruct (polymod_zeros6 (polymod chk ws) Hc1) as [-> Hc6].
  set (c6 := polymod (polymod chk ws) (replicate 6 0)) in *.
  assert (Hm : JS.xor c6 1 = Z.lxor c6 1 /\ 0 <= Z.lxor c6 1 < 2 ^ 30).
  { split; [change (2 ^ 30) with 1073741824 in *; apply xor_small; lia|].
    apply lxor_bound; [lia|done|change (2 ^ 30) with 1073741824; lia]. }
  destruct Hm as [-> Hm]. set (m := Z.lxor c6 1) in *.
  rewrite for_loop_6. f_equal.
  change ((5 - 0) * 5) with 25. change ((5 - 1) * 5) with 20.
  change ((5 - 2) * 5) with 15. change ((5 - 3) * 5) with 10.
  change ((5 - 4) * 5) with 5. change ((5 - 5) * 5) with 0.
  rewrite !checksum_digit by lia.
  pose proof (digits6_bound m) as Hd. unfold digits6 in *.
  change (2 ^ 0) with 1. rewrite Z.div_1_r.
  repeat match goal with H : Forall _ (_ :: _) |- _ =>
    apply Forall_cons in H as [? H] end.
  repeat match goal with
  | |- context [Bech32.charAt Bech32._ALPHABET ?w] =>
      let E := fresh in
      destruct (alphabet_facts w ltac:(done)) as (E & _); rewrite E; clear E
  end.
  change (str "1") with [49]. simpl map.
  rewrite <- !app_assoc. reflexivity.
Qed.

(** The loop of [_decode] over the characters of values that are pushed
    (those before the last six) and over the last six. *)
Lemma decode_loop_pushed len ws k chk words :
  0 <= chk < 2 ^ 30 -> Forall (fun w => 0 <= w < 32) ws ->
  k + Z.of_nat (length ws) + 6 <= len ->
  foldl (Bech32._decode_step len) (Ok (chk, words))
    (zip (seqZ k (Z.of_nat (length ws))) (map alphabet_char ws))
  = Ok (polymod chk ws, words ++ ws).
Proof.
  intros Hc Hw. revert k chk words Hc.
  induction Hw as [|w ws Hw _ IH]; intros k chk words Hc Hk.
  - simpl. by rewrite app_nil_r.
  - simpl length in *. rewrite Nat2Z.inj_succ, seqZ_cons by lia.
    cbn [map zip zip_with foldl].
    unfold Bech32._decode_step at 2. cbn [mbind result_bind].
    destruct (alphabet_facts w Hw) as (_ & -> & _).
    destruct (xor_digit chk w Hc Hw) as [-> Hb].
    replace (len <=? k + 6) with false by lia.
    replace (Z.pred (Z.succ (Z.of_nat (length ws)))) with (Z.of_nat (length ws))
      by lia.
    rewrite IH by (try done; lia). cbn [polymod foldl].
    by rewrite <- app_assoc.
Qed.

Lemma decode_loop_tail len cs k chk words :
  0 <= chk < 2 ^ 30 -> Forall (fun w => 0 <= w < 32) cs ->
  len <= k + 6 ->
  foldl (Bech32._decode_step len) (Ok (chk, words))
    (zip (seqZ k (Z.of_nat (length cs))) (map alphabet_char cs))
  = Ok (polymod chk cs, words).
Proof.
  intros Hc Hw. revert k chk words Hc.
  induction Hw as [|w cs Hw _ IH]; intros k chk words Hc Hk.
  - done.
  - simpl length in *. rewrite Nat2Z.inj_succ, seqZ_cons by lia.
    cbn [map zip zip_with foldl].
    unfold Bech32._decode_step at 2. cbn [mbind result_bind].
    destruct (alphabet_facts w Hw) as (_ & -> & _).
    destruct (xor_digit chk w Hc Hw) as [-> Hb].
    replace (len <=? k + 6) with true by lia.
    replace (Z.pred (Z.succ (Z.of_nat (length cs)))) with (Z.of_nat (length cs))
      by lia.
    by rewrite IH by (try done; lia).
Qed.

Lemma polymod_app chk l1 l2 :
  polymod chk (l1 ++ l2) = polymod (polymod chk l1) l2.
Proof. apply foldl_app. Qed.

(** Decoding a string whose last six values complete the checksum. *)
Lemma decode_string (p : list Z) (ws cs : list Z) chk :
  p <> [] -> Forall lower_letter p ->
  Forall (fun w => 0 <= w < 32) ws -> Forall (fun w => 0 <= w < 32) cs ->
  length cs = 6%nat ->
  Bech32._prefixChk p = Ok chk -> 0 <= chk < 2 ^ 30 ->
  polymod (polymod chk ws) cs = 1 ->
  Bech32._decode (p ++ [49] ++ map alphabet_char ws ++ map alphabet_char cs)
  = Ok (p, ws).
Proof.
  intros Hne Hp Hw Hcs Hlcs Echk Hchk Hsum.
  assert (Hp' : Forall (fun c => prefix_char c /\ is_ascii c
                                 /\ lower_unit c = c /\ c <> 49) p)
    by (eapply Forall_impl; [exact Hp|apply lower_letter_facts]).
  assert (Hal : forall l, Forall (fun w => 0 <= w < 32) l ->
            Forall (fun c => c <> 49 /\ is_ascii c /\ lower_unit c = c)
              (map alphabet_char l)).
  { intros l Hl. apply Forall_map. eapply Forall_impl; [exact Hl|].
    intros w Hw0. destruct (alphabet_facts w Hw0) as (_ & _ & ? & ? & ?). done. }
  pose proof (Hal ws Hw) as Hws. pose proof (Hal cs Hcs) as Hcs'.
  assert (Hlw : length (map alphabet_char ws) = length ws) by apply length_map.
  assert (Hlc : length (map alphabet_char cs) = 6%nat)
    by (by rewrite length_map).
  set (wchars := map alphabet_char ws) in *.
  set (cchars := map alphabet_char cs) in *.
  assert (Hrest : Forall (fun c => c <> 49 /\ is_ascii c /\ lower_unit c = c)
                    (wchars ++ cchars))
    by (apply Forall_app; split; done).
  set (s := p ++ [49] ++ wchars ++ cchars).
  assert (Hs : Forall (fun c => is_ascii c /\ lower_unit c = c) s).
  { unfold s. apply Forall_app; split;
      [eapply Forall_impl; [exact Hp'|cbv beta; tauto]|].
    apply Forall_app; split;
      [apply Forall_cons; split; [by unfold is_ascii|done]|].
    eapply Forall_impl; [exact Hrest|cbv beta; tauto]. }
  assert (Hlow : toLowerCase s = s).
  { apply toLowerCase_fixed; eapply Forall_impl; try exact Hs; cbv beta; tauto. }
  unfold Bech32._decode. rewrite Hlow.
  rewrite (bool_decide_eq_false_2 (s <> s)) by (intros H; by apply H).
  cbn [andb].
  assert (Hsplit : Bech32.lastIndexOf s 49 = Z.of_nat (length p)).
  { unfold s. change (p ++ [49] ++ wchars ++ cchars)
      with (p ++ 49 :: (wchars ++ cchars)).
    apply lastIndexOf_separator.
    eapply Forall_impl; [exact Hrest|cbv beta; tauto]. }
  rewrite Hsplit.
  assert (0 < length p)%nat by (destruct p; [done|simpl; lia]).
  replace (Z.of_nat (length p) =? -1) with false by lia.
  replace (Z.of_nat (length p) =? 0) with false by lia.
  rewrite Nat2Z.id.
  replace (Z.to_nat (Z.of_nat (length p) + 1)) with (length p + 1)%nat by lia.
  unfold s. rewrite take_app_length.
  rewrite (app_assoc p [49]).
  rewrite drop_app_length' by (rewrite length_app; simpl; lia).
  rewrite length_app, Hlw, Hlc.
  replace (length ws + 6 <? 6)%nat with false by (symmetry; apply Nat.ltb_ge; lia).
  rewrite Echk. cbn [mbind result_bind].
  rewrite Nat2Z.inj_add, seqZ_app by lia. rewrite zip_with_app
    by (rewrite length_seqZ; lia).
  rewrite foldl_app. unfold wchars, cchars.
  change (Z.of_nat 6) with 6.
  rewrite (decode_loop_pushed _ ws 0 chk []); [|exact Hchk|exact Hw|lia].
  rewrite Z.add_0_l.
  pose proof (polymod_bound chk ws Hchk Hw) as Hc1.
  replace 6 with (Z.of_nat (length cs)) at 2 by lia.
  rewrite (decode_loop_tail _ cs); [|exact Hc1|exact Hcs|lia].
  cbn [mbind result_bind]. rewrite Hsum.
  cbn [Z.eqb negb app]. do 2 f_equal. apply map_fixed.
  eapply Forall_impl; [exact Hw|]. intros w Hw0. cbv beta in Hw0.
  apply ToUint8_small. lia.
Qed.

End WithCaseMapAscii.

(** ** Bech32 round trip *)

Lemma genesis_letters : Forall lower_letter (str "genesis").
Proof. rewrite str_genesis. repeat constructor; unfold lower_letter; lia. Qed.

(** The prefix of a legal version word. *)
Lemma prefix_of_legal v :
  0 <= v < 65536 -> legal_version v ->
  exists p, versionToPrefix (JNumber (JInt v)) = Ok p
    /\ Forall lower_letter p /\ p <> []
    /\ prefixToVersion (JString p) = Ok v.
Proof.
  intros Hv Hl. destruct (Z.eq_dec v 0) as [->|Hne].
  - exists (str "genesis"). split; [done|]. split; [apply genesis_letters|].
    split; [by rewrite str_genesis|done].
  - destruct (versionToPrefix_legal v) as [Hp Hdec]; [lia|done|].
    destruct Hl as [->|(_ & Ha & Hb & Hc)]; [done|].
    eexists. split; [exact Hp|]. split; [|split; [done|]].
    + repeat constructor; unfold lower_letter; lia.
    + rewrite prefixToVersion_letters by done. by rewrite <- Hdec.
Qed.

Lemma address_new_umi :
  Address_new JUndefined = Ok (mkAddress ([85; 169] ++ JS.zeros 32)).
Proof. reflexivity. Qed.

Section Roundtrip.
Context {cm : CaseMap}.
Hypothesis Hcm : CaseMapAscii cm.

(** C3.  For every 34-byte address buffer whose first two bytes, read as a
    big-endian number, are a legal version word, encoding to Bech32 succeeds and
    decoding the resulting string gives the buffer back; so does
    [Address.fromBech32] applied to the [bech32] of the address. *)
Theorem bech32_roundtrip (b : bytes) :
  length b = 34%nat -> Forall is_byte b -> legal_version (JS.getUint16 b 0) ->
  exists s,
    Bech32.encode b = Ok s
    /\ Bech32.decode s = Ok b
    /\ Address_bech32 (mkAddress b) = Ok s
    /\ Address_fromBech32 (JString s) = Ok (mkAddress b).
Proof.
  intros Hlen Hb Hl.
  destruct b as [|b0 [|b1 data]]; try discriminate.
  simpl in Hlen. assert (Hld : length data = 32%nat) by lia.
  apply Forall_cons in Hb as [Hb0 Hb]. apply Forall_cons in Hb as [Hb1 Hd].
  unfold is_byte in Hb0, Hb1.
  assert (Ev : JS.getUint16 (b0 :: b1 :: data) 0 = b0 * 256 + b1) by reflexivity.
  rewrite Ev in Hl. set (v := b0 * 256 + b1) in *.
  assert (Hv : 0 <= v < 65536) by (unfold v; lia).
  destruct (prefix_of_legal v Hv Hl) as (p & Ep & Hp & Hne & Epv).
  destruct (convert_8_5 data Hd Hld) as (ws & Ews & Hlw & Hw & Hdv).
  destruct (encode_string Hcm p ws Hp Hw) as (chk & Echk & Hchk & Eenc).
  set (cs := digits6 (Z.lxor (polymod (polymod chk ws) (replicate 6 0)) 1)) in *.
  assert (Hcs : Forall (fun w => 0 <= w < 32) cs) by apply digits6_bound.
  assert (Hsum : polymod (polymod chk ws) cs = 1).
  { apply polymod_checksum. by apply polymod_bound. }
  assert (Hlcs : length cs = 6%nat) by reflexivity.
  clearbody cs.
  set (s := p ++ [49] ++ map alphabet_char ws ++ map alphabet_char cs) in *.
  assert (Eencode : Bech32.encode (b0 :: b1 :: data) = Ok s).
  { unfold Bech32.encode. rewrite Ev, Ep. cbn [mbind result_bind].
    replace (JS.subarray (b0 :: b1 :: data) 2 (length (b0 :: b1 :: data)))
      with data.
    - rewrite Ews. cbn [mbind result_bind]. exact Eenc.
    - unfold JS.subarray. simpl length. simpl drop.
      replace (S (S (length data)) - 2)%nat with (length data) by lia.
      by rewrite firstn_all. }
  assert (Edecode : Bech32.decode s = Ok (b0 :: b1 :: data)).
  { unfold Bech32.decode, s.
    rewrite (decode_string Hcm p ws cs chk) by done.
    cbn [mbind result_bind].
    rewrite (convert_5_8 ws data) by done. cbn [mbind result_bind].
    rewrite Hld. cbn [Nat.eqb negb]. rewrite Epv. cbn [mbind result_bind].
    f_equal.
    assert (Em : map JS.ToUint8 data = data).
    { apply map_fixed. eapply Forall_impl; [exact Hd|].
      intros x Hx. by apply ToUint8_small. }
    rewrite Em. unfold JS.set. rewrite zeros_length.
    change (take 2 (JS.zeros 34)) with [0; 0].
    rewrite drop_ge by (rewrite zeros_length; lia).
    rewrite firstn_all2 by lia. rewrite app_nil_r.
    pose proof (setUint16_at [] data 0 0 v) as Hs.
    change (Z.of_nat (length (@nil Z))) with 0 in Hs. simpl app in Hs.
    simpl app. rewrite Hs, ToUint16_mod, (Z.mod_small v) by lia.
    change (2 ^ 8) with 256.
    f_equal; [|f_equal]; unfold v; Z.div_mod_to_equations; lia. }
  exists s. split; [done|]. split; [done|]. split; [done|].
  unfold Address_fromBech32. rewrite address_new_umi. cbn [mbind result_bind].
  unfold Address_setBech32, Address_set_bech32. rewrite Edecode.
  cbn [mbind result_bind]. simpl address_bytes.
  rewrite set_front; [done|]. simpl. lia.
Qed.

End Roundtrip.

Lemma asciiCase_ascii : CaseMapAscii asciiCase.
Proof. intros s _. split; reflexivity. Qed.

Lemma bech32_roundtrip_witness :
  exists s,
    Bech32.encode (cm := asciiCase) ([85; 169] ++ JS.zeros 32) = Ok s
    /\ Bech32.decode (cm := asciiCase) s = Ok ([85; 169] ++ JS.zeros 32)
    /\ Address_bech32 (cm := asciiCase) (mkAddress ([85; 169] ++ JS.zeros 32)) = Ok s
    /\ Address_fromBech32 (cm := asciiCase) (JString s)
       = Ok (mkAddress ([85; 169] ++ JS.zeros 32)).
Proof.
  apply (bech32_roundtrip (cm := asciiCase)).
  - intros s _. split; reflexivity.
  - reflexivity.
  - exact (bool_decide_unpack (Forall is_byte ([85; 169] ++ JS.zeros 32)) I).
  - exact (bool_decide_unpack
             (legal_version (JS.getUint16 ([85; 169] ++ JS.zeros 32) 0)) I).
Defined.

(** ** Bech32 decoding and letter case *)

Lemma decode_step_err len msg l :
  foldl (Bech32._decode_step len) (Err msg) l = Err msg.
Proof. induction l as [|ic l IH]; [done|]. simpl. exact IH. Qed.

(** If the loop of [_decode] ends normally, every character was a key of
    [_ALPHABET_MAP]. *)
Lemma decode_fold_chars len l st r :
  foldl (Bech32._decode_step len) st l = Ok r -> Forall is_ascii (l.*2).
Proof.
  revert st. induction l as [|[i c] l IH]; intros st; [done|].
  cbn [foldl]. intros H.
  destruct st as [[chk words]|msg];
    [|simpl in H; by rewrite decode_step_err in H].
  unfold Bech32._decode_step at 2 in H. cbn [mbind result_bind] in H.
  destruct (Bech32.property Bech32._ALPHABET_MAP [c]) as [v|] eqn:Ev;
    [|by rewrite decode_step_err in H].
  apply alphabet_map_inv in Ev as [Hv ->].
  destruct (alphabet_facts v Hv) as (_ & _ & _ & Ha & Hl).
  cbn [fmap list_fmap snd]. apply Forall_cons; split; [done|]. by eapply IH.
Qed.

Lemma upper_unit_facts c :
  is_ascii c -> lower_unit c = c ->
  is_ascii (upper_unit c) /\ lower_unit (upper_unit c) = c
  /\ upper_unit (upper_unit c) = upper_unit c.
Proof.
  unfold is_ascii, lower_unit, upper_unit. intros Ha Hl.
  destruct (Z.leb_spec 65 c), (Z.leb_spec c 90), (Z.leb_spec 97 c),
    (Z.leb_spec c 122); simpl in *; try lia;
    repeat match goal with
    | |- context [?a <=? ?b] => destruct (Z.leb_spec a b); simpl; try lia
    end.
Qed.

Section CaseInsensitive.
Context {cm : CaseMap}.
Hypothesis Hcm : CaseMapAscii cm.

Lemma decode_mixed t :
  mixed_case t -> Bech32.decode t = Err "Mixed-case string".
Proof.
  intros [Hl Hu]. unfold Bech32.decode, Bech32._decode.
  by rewrite !bool_decide_eq_true_2.
Qed.

Lemma decode_ok_not_mixed t b : Bech32.decode t = Ok b -> ~ mixed_case t.
Proof. intros H Hm. by rewrite decode_mixed in H. Qed.

(** Decoding looks at the case of a string only to reject mixed case. *)
Lemma decode_same_letters t1 t2 :
  ~ mixed_case t1 -> ~ mixed_case t2 -> toLowerCase t1 = toLowerCase t2 ->
  Bech32.decode t1 = Bech32.decode t2.
Proof.
  intros H1 H2 E.
  assert (Hb : forall t, ~ mixed_case t ->
            bool_decide (t <> toLowerCase t) && bool_decide (t <> toUpperCase t)
            = false).
  { intros t Ht. unfold mixed_case in Ht.
    destruct (decide (t <> toLowerCase t)) as [Hl|Hl];
      [|by rewrite (bool_decide_eq_false_2 _ Hl)].
    destruct (decide (t <> toUpperCase t)) as [Hu|Hu]; [tauto|].
    rewrite (bool_decide_eq_false_2 _ Hu). apply andb_false_r. }
  unfold Bech32.decode, Bech32._decode. by rewrite !Hb, E.
Qed.

(** A string in lower-case form that decodes is made of ASCII characters. *)
Lemma decode_ok_ascii s b :
  s = toLowerCase s -> Bech32.decode s = Ok b -> Forall is_ascii s.
Proof.
  intros Hlow. unfold Bech32.decode, Bech32._decode. rewrite <- Hlow.
  rewrite (bool_decide_eq_false_2 (s <> s)) by (intros H; by apply H).
  cbn [andb].
  destruct (Z.eqb_spec (Bech32.lastIndexOf s 49) (-1)); [discriminate|].
  destruct (Z.eqb_spec (Bech32.lastIndexOf s 49) 0); [discriminate|].
  destruct (length (drop (Z.to_nat (Bech32.lastIndexOf s 49 + 1)) s) <? 6)%nat;
    [discriminate|].
  destruct (Bech32._prefixChk (take (Z.to_nat (Bech32.lastIndexOf s 49)) s))
    as [chk|] eqn:Echk; [|discriminate].
  cbn [mbind result_bind].
  set (wordChars := drop (Z.to_nat (Bech32.lastIndexOf s 49 + 1)) s).
  destruct (foldl (Bech32._decode_step (Z.of_nat (length wordChars)))
              (Ok (chk, []))
              (zip (seqZ 0 (Z.of_nat (length wordChars))) wordChars))
    as [r|] eqn:Eloop; [|discriminate].
  intros _.
  apply prefixChk_inv in Echk. apply decode_fold_chars in Eloop.
  rewrite snd_zip in Eloop by (rewrite length_seqZ; lia).
  destruct (lastIndexOf_from_found s 49 0 (-1) _ eq_refl) as [Hf|[Hr Hc]];
    [unfold Bech32.lastIndexOf in *; lia|].
  fold (Bech32.lastIndexOf s 49) in Hr, Hc.
  set (k := Bech32.lastIndexOf s 49) in *. rewrite Z.sub_0_r in Hc.
  assert (Es : s = take (Z.to_nat k) s ++ 49 :: wordChars).
  { rewrite <- (take_drop (Z.to_nat k) s) at 1. f_equal.
    unfold wordChars. replace (Z.to_nat (k + 1)) with (S (Z.to_nat k)) by lia.
    by apply drop_S. }
  rewrite Es. apply Forall_app; split.
  - eapply Forall_impl; [exact Echk|]. intros c Hc0.
    unfold prefix_char, is_ascii in *. lia.
  - apply Forall_cons; split; [by unfold is_ascii|done].
Qed.

(** C10.  If a string decodes, its upper-case form decodes to the same 34
    bytes; more generally every string with the same letters and a uniform
    case decodes to them, and the strings with the same letters that mix upper
    and lower case are the ones rejected: for them decoding throws. *)
Theorem bech32_decode_ignores_case (s : list Z) (b : bytes) :
  Bech32.decode s = Ok b ->
  Bech32.decode (toUpperCase s) = Ok b
  /\ (forall t, toLowerCase t = toLowerCase s ->
        (~ mixed_case t -> Bech32.decode t = Ok b)
        /\ (mixed_case t -> exists msg, Bech32.decode t = Err msg)).
Proof.
  intros Hdec. pose proof (decode_ok_not_mixed s b Hdec) as Hnm.
  assert (Hsame : forall t, toLowerCase t = toLowerCase s ->
            ~ mixed_case t -> Bech32.decode t = Ok b).
  { intros t Et Ht. rewrite <- Hdec. by apply decode_same_letters. }
  split; [|intros t Et; split; [by apply Hsame|]; intros Hm; eexists;
             by apply decode_mixed].
  destruct (decide (s = toUpperCase s)) as [Hu|Hu]; [by rewrite <- Hu|].
  assert (Hl : s = toLowerCase s).
  { destruct (decide (s = toLowerCase s)) as [|Hl]; [done|].
    exfalso. by apply Hnm. }
  pose proof (decode_ok_ascii s b Hl Hdec) as Ha.
  destruct (Hcm s Ha) as [El Eu].
  assert (Hfix : Forall (fun c => lower_unit c = c) s)
    by (apply map_fixed_inv; congruence).
  assert (Hfacts : Forall (fun c => is_ascii (upper_unit c)
                            /\ lower_unit (upper_unit c) = c
                            /\ upper_unit (upper_unit c) = upper_unit c) s).
  { apply Forall_forall. intros c Hc.
    apply upper_unit_facts; [by eapply Forall_forall in Ha|].
    by eapply (proj1 (Forall_forall _ _) Hfix). }
  assert (Hau : Forall is_ascii (map upper_unit s)).
  { apply Forall_map. eapply Forall_impl; [exact Hfacts|]. cbv beta. tauto. }
  destruct (Hcm (map upper_unit s) Hau) as [El' Eu'].
  rewrite !map_map in El', Eu'.
  apply Hsame.
  - rewrite Eu, El', <- Hl. apply map_fixed.
    eapply Forall_impl; [exact Hfacts|]. cbv beta. tauto.
  - intros [_ Hmu]. apply Hmu. rewrite Eu, Eu'.
    symmetry. apply map_ext_Forall.
    eapply Forall_impl; [exact Hfacts|]. cbv beta. tauto.
Qed.

End CaseInsensitive.

Lemma bech32_case_witness :
  Bech32.decode (cm := asciiCase)
    (toUpperCase (CaseMap := asciiCase)
       (str "aaa1qqqqqqqqqqqqqqqqqqqqqqqqqqqqqqqqqqqqqqqqqqqqqqqqqqqq48c9jj"))
  = Ok ([4; 33] ++ JS.zeros 32).
Proof.
  apply (bech32_decode_ignores_case (cm := asciiCase)).
  - intros s _. split; reflexivity.
  - vm_compute. reflexivity.
Defined.

(** ** The library's SHA-256 against FIPS 180-4 *)

(** *** The 32-bit operators of JavaScript on words *)

Lemma ToUint32_wrap x : JS.ToUint32 x = FIPS180.wrap x.
Proof. apply ToUint32_mod. Qed.

Lemma wrap_range x : 0 <= FIPS180.wrap x < 4294967296.
Proof. unfold FIPS180.wrap. apply Z.mod_pos_bound. lia. Qed.

Lemma wrap_small x : 0 <= x < 4294967296 -> FIPS180.wrap x = x.
Proof. intros H. unfold FIPS180.wrap. by apply Z.mod_small. Qed.

Lemma wrap_ToInt32 x : FIPS180.wrap (JS.ToInt32 x) = FIPS180.wrap x.
Proof. rewrite <- !ToUint32_wrap. apply ToUint32_ToInt32. Qed.

(** [ToInt32] only looks at the word. *)
Lemma ToInt32_wrap x : JS.ToInt32 (FIPS180.wrap x) = JS.ToInt32 x.
Proof.
  unfold JS.ToInt32. cbv zeta. rewrite !ToUint32_wrap.
  unfold FIPS180.wrap. by rewrite Z.mod_mod by lia.
Qed.

Lemma ToInt32_eq x y :
  FIPS180.wrap x = FIPS180.wrap y -> JS.ToInt32 x = JS.ToInt32 y.
Proof. intros H. by rewrite <- (ToInt32_wrap x), H, ToInt32_wrap. Qed.

Lemma wrap_land x : FIPS180.wrap x = Z.land x (Z.ones 32).
Proof. unfold FIPS180.wrap. by rewrite Z.land_ones by lia. Qed.

Lemma wrap_xor x y :
  FIPS180.wrap (JS.xor x y) = Z.lxor (FIPS180.wrap x) (FIPS180.wrap y).
Proof.
  unfold JS.xor. rewrite <- (wrap_ToInt32 x), <- (wrap_ToInt32 y), !wrap_land.
  apply Z.bits_inj'. intros n Hn.
  rewrite !Z.lxor_spec, !Z.land_spec, !Z.lxor_spec.
  destruct (Z.testbit (Z.ones 32) n); by rewrite ?andb_true_r, ?andb_false_r.
Qed.

Lemma wrap_and x y :
  FIPS180.wrap (JS.and x y) = Z.land (FIPS180.wrap x) (FIPS180.wrap y).
Proof.
  unfold JS.and. rewrite <- (wrap_ToInt32 x), <- (wrap_ToInt32 y), !wrap_land.
  apply Z.bits_inj'. intros n Hn. rewrite !Z.land_spec.
  destruct (Z.testbit (Z.ones 32) n); by rewrite ?andb_true_r, ?andb_false_r.
Qed.

Lemma wrap_or x y :
  FIPS180.wrap (JS.or x y) = Z.lor (FIPS180.wrap x) (FIPS180.wrap y).
Proof.
  unfold JS.or. rewrite <- (wrap_ToInt32 x), <- (wrap_ToInt32 y), !wrap_land.
  apply Z.land_lor_distr_l.
Qed.

Lemma wrap_not x : FIPS180.wrap (JS.not x) = FIPS180.complement (FIPS180.wrap x).
Proof.
  unfold JS.not, FIPS180.complement. rewrite <- (wrap_ToInt32 x).
  unfold FIPS180.wrap, Z.lnot. change (2 ^ 32) with 4294967296.
  generalize (JS.ToInt32 x). intros a.
  Z.div_mod_to_equations. lia.
Qed.

Lemma ushr_SHR x n :
  0 <= n < 32 -> JS.ushr x n = FIPS180.SHR n (FIPS180.wrap x).
Proof.
  intros Hn. unfold JS.ushr, FIPS180.SHR. rewrite ToUint32_wrap.
  change 31 with (Z.ones 5). rewrite Z.land_ones by lia.
  rewrite (Z.mod_small n) by (change (2 ^ 5) with 32; lia). reflexivity.
Qed.

Lemma SHR_range x n :
  0 <= n -> 0 <= x < 4294967296 -> 0 <= FIPS180.SHR n x < 4294967296.
Proof.
  intros Hn Hx. unfold FIPS180.SHR. rewrite Z.shiftr_div_pow2 by lia.
  assert (0 < 2 ^ n) by (apply Z.pow_pos_nonneg; lia).
  split; [apply Z.div_pos; lia|].
  apply Z.div_lt_upper_bound; [lia|]. nia.
Qed.

Lemma wrap_ushr x n :
  0 <= n < 32 -> FIPS180.wrap (JS.ushr x n) = FIPS180.SHR n (FIPS180.wrap x).
Proof.
  intros Hn. rewrite ushr_SHR by done. apply wrap_small.
  apply SHR_range; [lia|apply wrap_range].
Qed.

Lemma wrap_shl x n :
  0 <= n < 32 -> FIPS180.wrap (JS.shl x n) = FIPS180.SHL n (FIPS180.wrap x).
Proof.
  intros Hn. unfold JS.shl, FIPS180.SHL. rewrite wrap_ToInt32.
  change 31 with (Z.ones 5). rewrite Z.land_ones by lia.
  rewrite (Z.mod_small n) by (change (2 ^ 5) with 32; lia).
  rewrite !Z.shiftl_mul_pow2 by lia.
  pose proof (wrap_ToInt32 x) as H. unfold FIPS180.wrap in *.
  transitivity ((x * 2 ^ n) mod 2 ^ 32).
  - rewrite <- (Z.mul_mod_idemp_l (JS.ToInt32 x)) by lia. rewrite H.
    apply Z.mul_mod_idemp_l. lia.
  - symmetry. apply Z.mul_mod_idemp_l. lia.
Qed.

Lemma wrap_rot x (n m : Z) :
  0 <= n < 32 -> m = 32 - n -> 0 <= m < 32 ->
  FIPS180.wrap (JS.or (JS.ushr x n) (JS.shl x m))
  = FIPS180.ROTR n (FIPS180.wrap x).
Proof.
  intros Hn -> Hm. unfold FIPS180.ROTR.
  by rewrite wrap_or, wrap_ushr, wrap_shl.
Qed.

(** Sums are taken modulo [2^32]. *)
Lemma wrap_add x y :
  FIPS180.wrap (x + y) = FIPS180.wrap (FIPS180.wrap x + FIPS180.wrap y).
Proof. unfold FIPS180.wrap. apply Z.add_mod. lia. Qed.

Lemma wrap_add_l x y : FIPS180.wrap (FIPS180.wrap x + y) = FIPS180.wrap (x + y).
Proof. unfold FIPS180.wrap. apply Z.add_mod_idemp_l. lia. Qed.

Lemma wrap_add_r x y : FIPS180.wrap (x + FIPS180.wrap y) = FIPS180.wrap (x + y).
Proof. unfold FIPS180.wrap. apply Z.add_mod_idemp_r. lia. Qed.

Lemma wrap_wrap x : FIPS180.wrap (FIPS180.wrap x) = FIPS180.wrap x.
Proof. unfold FIPS180.wrap. apply Z.mod_mod. lia. Qed.

(** *** One round *)

Lemma wrap_Sigma0 a :
  FIPS180.wrap
    (JS.xor (JS.xor (JS.or (JS.ushr a 2) (JS.shl a 30))
                    (JS.or (JS.ushr a 13) (JS.shl a 19)))
            (JS.or (JS.ushr a 22) (JS.shl a 10)))
  = FIPS180.Sigma0 (FIPS180.wrap a).
Proof. rewrite !wrap_xor, !wrap_rot by lia. reflexivity. Qed.

Lemma wrap_Sigma1 e :
  FIPS180.wrap
    (JS.xor (JS.xor (JS.or (JS.ushr e 6) (JS.shl e 26))
                    (JS.or (JS.ushr e 11) (JS.shl e 21)))
            (JS.or (JS.ushr e 25) (JS.shl e 7)))
  = FIPS180.Sigma1 (FIPS180.wrap e).
Proof. rewrite !wrap_xor, !wrap_rot by lia. reflexivity. Qed.

Lemma wrap_sigma0 w :
  FIPS180.wrap
    (JS.xor (JS.xor (JS.or (JS.ushr w 7) (JS.shl w 25))
                    (JS.or (JS.ushr w 18) (JS.shl w 14)))
            (JS.ushr w 3))
  = FIPS180.sigma0 (FIPS180.wrap w).
Proof. rewrite !wrap_xor, !wrap_rot, wrap_ushr by lia. reflexivity. Qed.

Lemma wrap_sigma1 w :
  FIPS180.wrap
    (JS.xor (JS.xor (JS.or (JS.ushr w 17) (JS.shl w 15))
                    (JS.or (JS.ushr w 19) (JS.shl w 13)))
            (JS.ushr w 10))
  = FIPS180.sigma1 (FIPS180.wrap w).
Proof. rewrite !wrap_xor, !wrap_rot, wrap_ushr by lia. reflexivity. Qed.

Lemma wrap_Maj a b c :
  FIPS180.wrap (JS.xor (JS.xor (JS.and a b) (JS.and a c)) (JS.and b c))
  = FIPS180.Maj (FIPS180.wrap a) (FIPS180.wrap b) (FIPS180.wrap c).
Proof. by rewrite !wrap_xor, !wrap_and. Qed.

Lemma wrap_Ch e f g :
  FIPS180.wrap (JS.xor (JS.and e f) (JS.and (JS.not e) g))
  = FIPS180.Ch (FIPS180.wrap e) (FIPS180.wrap f) (FIPS180.wrap g).
Proof. by rewrite wrap_xor, !wrap_and, wrap_not. Qed.

Lemma wrap_sum5 a b c d e :
  FIPS180.wrap (a + b + c + d + e)
  = FIPS180.wrap (FIPS180.wrap a + FIPS180.wrap b + FIPS180.wrap c
                  + FIPS180.wrap d + FIPS180.wrap e).
Proof.
  unfold FIPS180.wrap. change (2 ^ 32) with 4294967296.
  Z.div_mod_to_equations. lia.
Qed.

Lemma wrap_sum4 a b c d :
  FIPS180.wrap (a + b + c + d)
  = FIPS180.wrap (FIPS180.wrap a + FIPS180.wrap b + FIPS180.wrap c
                  + FIPS180.wrap d).
Proof.
  unfold FIPS180.wrap. change (2 ^ 32) with 4294967296.
  Z.div_mod_to_equations. lia.
Qed.

(** A round of the library is a round of the standard on the words. *)
Lemma round_refines (k w : bytes) i v :
  vars_words (sha256_round k w i v)
  = FIPS180.round (vars_words v)
      (FIPS180.wrap (JS.get k i), FIPS180.wrap (JS.get w i)).
Proof.
  destruct v as [a b c d e f g h]. unfold sha256_round, vars_words, FIPS180.round.
  cbn [va vb vc vd ve vf vg vh fst snd].
  match goal with
  | |- (FIPS180.wrap (?t1 + ?t2), _, _, _, _, _, _, _) = _ =>
      assert (HT1 : FIPS180.wrap t1
                    = FIPS180.wrap (FIPS180.wrap h + FIPS180.Sigma1 (FIPS180.wrap e)
                        + FIPS180.Ch (FIPS180.wrap e) (FIPS180.wrap f) (FIPS180.wrap g)
                        + FIPS180.wrap (JS.get k i) + FIPS180.wrap (JS.get w i)))
        by (by rewrite wrap_sum5, wrap_Sigma1, wrap_Ch);
      assert (HT2 : FIPS180.wrap t2
                    = FIPS180.wrap (FIPS180.Sigma0 (FIPS180.wrap a)
                        + FIPS180.Maj (FIPS180.wrap a) (FIPS180.wrap b) (FIPS180.wrap c)))
        by (by rewrite wrap_add, wrap_Sigma0, wrap_Maj);
      rewrite (wrap_add t1 t2), (wrap_add d t1), HT1, HT2
  end.
  reflexivity.
Qed.

(** *** Loops *)

Lemma for_loop_step {S : Type} lo hi (body : Z -> S -> S) s :
  lo < hi -> for_loop lo hi body s = for_loop (lo + 1) hi body (body lo s).
Proof.
  intros H. unfold for_loop. rewrite seqZ_cons by lia. simpl.
  do 2 f_equal; lia.
Qed.

Lemma for_loop_done {S : Type} lo hi (body : Z -> S -> S) s :
  hi <= lo -> for_loop lo hi body s = s.
Proof. intros H. unfold for_loop. by rewrite seqZ_nil by lia. Qed.

Lemma get_nat (l : bytes) k : 0 <= k -> JS.get l k = default 0 (l !! Z.to_nat k).
Proof. intros H. unfold JS.get. by replace (k <? 0) with false by lia. Qed.

Lemma get_map (f : Z -> Z) (l : bytes) k :
  0 <= k < Z.of_nat (length l) -> JS.get (map f l) k = f (JS.get l k).
Proof.
  intros H. rewrite !get_nat by lia. rewrite list_lookup_fmap.
  destruct (lookup_lt_is_Some_2 l (Z.to_nat k)) as [x ->]; [lia|]. reflexivity.
Qed.

Lemma get_word32 (l : list Z) k :
  Forall word32 l -> word32 (JS.get l k).
Proof.
  intros H. unfold JS.get. destruct (k <? 0); [unfold word32; lia|].
  destruct (l !! Z.to_nat k) as [x|] eqn:E; simpl; [|unfold word32; lia].
  eapply Forall_lookup_1; eauto.
Qed.

Lemma get_take_drop (m : bytes) (j n : nat) k :
  0 <= k < Z.of_nat n ->
  JS.get (take n (drop j m)) k = JS.get m (Z.of_nat j + k).
Proof.
  intros H. rewrite !get_nat by lia.
  rewrite lookup_take_lt by lia. rewrite lookup_drop.
  do 2 f_equal. lia.
Qed.

(** *** The message schedule *)

Lemma words_range_fuel (n : nat) (bs : list Z) :
  (length bs <= n)%nat -> Forall is_byte bs -> Forall word32 (FIPS180.words bs).
Proof.
  revert bs. induction n as [n IH] using lt_wf_ind. intros bs Hn Hb.
  destruct bs as [|b0 [|b1 [|b2 [|b3 bs]]]]; try apply Forall_nil_2.
  simpl. inversion Hb as [|? ? H0 Hb1]; subst.
  inversion Hb1 as [|? ? H1 Hb2]; subst. inversion Hb2 as [|? ? H2 Hb3]; subst.
  inversion Hb3 as [|? ? H3 Hb4]; subst.
  apply Forall_cons_2.
  - unfold is_byte, word32 in *. lia.
  - apply (IH (length bs)); [simpl in Hn; lia|done|done].
Qed.

Lemma words_range (bs : list Z) :
  Forall is_byte bs -> Forall word32 (FIPS180.words bs).
Proof. by apply (words_range_fuel (length bs)). Qed.

Lemma words_length (n : nat) (bs : list Z) :
  length bs = (4 * n)%nat -> length (FIPS180.words bs) = n.
Proof.
  revert bs. induction n as [|n IH]; intros bs H.
  - by destruct bs.
  - destruct bs as [|b0 [|b1 [|b2 [|b3 bs]]]]; simpl in H; try lia.
    simpl. f_equal. apply IH. lia.
Qed.

(** Reading the words of a block with [getUint32]. *)
Lemma getUint32_words (n : nat) (bs : bytes) :
  length bs = (4 * n)%nat ->
  map (fun i => JS.getUint32 bs (i * 4)) (seqZ 0 (Z.of_nat n)) = FIPS180.words bs.
Proof.
  revert bs. induction n as [|n IH]; intros bs H.
  - by destruct bs.
  - destruct bs as [|b0 [|b1 [|b2 [|b3 bs]]]]; simpl in H; try lia.
    rewrite seqZ_cons by lia. cbn [map FIPS180.words]. f_equal.
    + change (JS.getUint32 (b0 :: b1 :: b2 :: b3 :: bs) (0 * 4))
        with (b0 * 16777216 + b1 * 65536 + b2 * 256 + b3). lia.
    + rewrite <- (IH bs) by lia.
      replace (Z.pred (Z.of_nat (S n))) with (Z.of_nat n) by lia.
      rewrite <- (fmap_add_seqZ 1 0). rewrite <- list_fmap_compose.
      apply list_fmap_ext. intros k i Hk.
      apply lookup_seqZ in Hk as [-> Hk]. cbn [compose].
      unfold JS.getUint32.
      rewrite !(get_cons_S b0), !(get_cons_S b1), !(get_cons_S b2),
        !(get_cons_S b3) by lia.
      repeat f_equal; lia.
Qed.

Lemma schedule_init (g : Z -> Z) :
  for_loop 0 16 (fun i w => JS.put w i (g i)) (JS.zeros 64)
  = map g (seqZ 0 16) ++ JS.zeros 48.
Proof. reflexivity. Qed.

Lemma schedule_step (W : list Z) (n : nat) :
  (16 <= length W)%nat -> Forall word32 W ->
  sha256_schedule_step (Z.of_nat (length W)) (map JS.ToInt32 W ++ JS.zeros (S n))
  = map JS.ToInt32 (W ++ [FIPS180.W_next W]) ++ JS.zeros n.
Proof.
  intros Hlen HW. unfold sha256_schedule_step. cbv zeta.
  set (t := length W) in *.
  assert (Hget : forall d : Z, 1 <= d <= 16 ->
            JS.get (map JS.ToInt32 W ++ JS.zeros (S n)) (Z.of_nat t - d)
            = JS.ToInt32 (default 0 (W !! (t - Z.to_nat d)%nat))).
  { intros d Hd. rewrite get_app_l by (rewrite length_map; lia).
    rewrite get_map by lia. rewrite get_nat by lia.
    do 3 f_equal. lia. }
  assert (Hw : forall d : nat, word32 (default 0 (W !! (t - d)%nat))).
  { intros d. destruct (W !! (t - d)%nat) as [x|] eqn:E; simpl.
    - eapply Forall_lookup_1; eauto.
    - unfold word32. lia. }
  rewrite !Hget by lia.
  change (Z.to_nat 2) with 2%nat. change (Z.to_nat 7) with 7%nat.
  change (Z.to_nat 15) with 15%nat. change (Z.to_nat 16) with 16%nat.
  unfold JS.put32. rewrite put_app_r by (rewrite length_map; lia).
  rewrite length_map. fold t. rewrite Z.sub_diag. cbn [JS.zeros replicate].
  rewrite put_cons_0. rewrite fmap_app, <- app_assoc. cbn [fmap list_fmap app].
  do 2 f_equal. apply ToInt32_eq.
  unfold FIPS180.W_next. fold t. rewrite wrap_wrap.
  set (w2 := default 0 (W !! (t - 2)%nat)) in *.
  set (w7 := default 0 (W !! (t - 7)%nat)) in *.
  set (w15 := default 0 (W !! (t - 15)%nat)) in *.
  set (w16 := default 0 (W !! (t - 16)%nat)) in *.
  rewrite wrap_sum4, wrap_sigma0, wrap_sigma1, !wrap_ToInt32.
  rewrite !(wrap_small w2), !(wrap_small w7), !(wrap_small w15), !(wrap_small w16)
    by apply Hw.
  f_equal. lia.
Qed.

Lemma W_next_range W : word32 (FIPS180.W_next W).
Proof. unfold FIPS180.W_next. cbv zeta. apply wrap_range. Qed.

Lemma schedule_loop (n : nat) (W : list Z) :
  (16 <= length W)%nat -> Forall word32 W ->
  for_loop (Z.of_nat (length W)) (Z.of_nat (length W + n)) sha256_schedule_step
    (map JS.ToInt32 W ++ JS.zeros n)
  = map JS.ToInt32 (FIPS180.schedule n W)
  /\ Forall word32 (FIPS180.schedule n W)
  /\ length (FIPS180.schedule n W) = (length W + n)%nat.
Proof.
  revert W. induction n as [|n IH]; intros W Hlen HW.
  - rewrite for_loop_done by lia. simpl. rewrite app_nil_r. auto with lia.
  - rewrite for_loop_step by lia. rewrite schedule_step by done.
    assert (Hl : length (W ++ [FIPS180.W_next W]) = S (length W))
      by (rewrite length_app; simpl; lia).
    destruct (IH (W ++ [FIPS180.W_next W])) as (E & HR & HL).
    + lia.
    + apply Forall_app_2; [done|]. apply Forall_singleton, W_next_range.
    + rewrite Hl in E, HL. cbn [FIPS180.schedule].
      replace (Z.of_nat (length W) + 1) with (Z.of_nat (S (length W))) by lia.
      replace (Z.of_nat (length W + S n)) with (Z.of_nat (S (length W) + n)) by lia.
      rewrite E. split; [done|]. split; [done|lia].
Qed.

Lemma ToInt32_idem x : JS.ToInt32 (JS.ToInt32 x) = JS.ToInt32 x.
Proof. apply ToInt32_eq, wrap_ToInt32. Qed.

(** The schedule of the block at offset [j]. *)
Lemma schedule_refines (m : bytes) (j : nat) :
  (j + 64 <= length m)%nat -> Forall is_byte m ->
  let M := FIPS180.words (take 64 (drop j m)) in
  sha256_schedule m (Z.of_nat j) = map JS.ToInt32 (FIPS180.schedule 48 M)
  /\ Forall word32 (FIPS180.schedule 48 M)
  /\ length (FIPS180.schedule 48 M) = 64%nat.
Proof.
  intros Hj Hm M.
  assert (Hblk : length (take 64 (drop j m)) = (4 * 16)%nat)
    by (rewrite length_take, length_drop; lia).
  assert (HM : length M = 16%nat) by (by apply words_length).
  assert (HMr : Forall word32 M).
  { apply words_range. apply Forall_take, Forall_drop, Hm. }
  destruct (schedule_loop 48 M) as (E & HR & HL); [lia|done|].
  rewrite HM in E, HL. split; [|split; [done|exact HL]].
  rewrite <- E. unfold sha256_schedule. cbv zeta.
  change (for_loop 16 64 ?f ?w) with (for_loop 16 64 sha256_schedule_step w).
  change (Z.of_nat 16) with 16. change (Z.of_nat (16 + 48)) with 64. f_equal.
  change (for_loop 0 16 _ (JS.zeros 64))
    with (for_loop 0 16
            (fun i w => JS.put w i
               (JS.ToInt32 (JS.ToInt32 (JS.getUint32 m (Z.of_nat j + i * 4)))))
            (JS.zeros 64)).
  rewrite (schedule_init
             (fun i => JS.ToInt32 (JS.ToInt32 (JS.getUint32 m (Z.of_nat j + i * 4))))).
  change (JS.zeros 48) with (JS.zeros 48). f_equal.
  unfold M. rewrite <- (getUint32_words 16) by done.
  rewrite <- list_fmap_compose. apply list_fmap_ext. intros k i Hk.
  apply lookup_seqZ in Hk as [-> Hk]. cbn [compose].
  rewrite ToInt32_idem. f_equal. unfold JS.getUint32.
  rewrite !get_take_drop by lia. rewrite !Z.add_assoc. reflexivity.
Qed.

(** *** The rounds of a block *)

Lemma rounds_refine (k2 w2 k1 w1 : list Z) v :
  length k1 = length w1 -> length k2 = length w2 ->
  vars_words (for_loop (Z.of_nat (length k1)) (Z.of_nat (length k1 + length k2))
                (sha256_round (k1 ++ k2) (w1 ++ w2)) v)
  = foldl FIPS180.round (vars_words v)
      (zip (map FIPS180.wrap k2) (map FIPS180.wrap w2)).
Proof.
  revert w2 k1 w1 v. induction k2 as [|x k2 IH]; intros w2 k1 w1 v H1 H2.
  - rewrite for_loop_done by (simpl; lia). reflexivity.
  - destruct w2 as [|y w2]; [discriminate|]. simpl in H2.
    rewrite for_loop_step by (simpl; lia).
    cbn [map zip zip_with foldl].
    assert (Hstep : vars_words (sha256_round (k1 ++ x :: k2) (w1 ++ y :: w2)
                                  (Z.of_nat (length k1)) v)
                    = FIPS180.round (vars_words v) (FIPS180.wrap x, FIPS180.wrap y)).
    { rewrite round_refines.
      rewrite (get_app_r k1), (get_app_r w1) by lia.
      by rewrite H1, !Z.sub_diag, !get_cons_0. }
    rewrite <- Hstep.
    rewrite <- (IH w2 (k1 ++ [x]) (w1 ++ [y]))
      by (rewrite ?length_app; simpl; lia).
    rewrite <- !app_assoc. cbn [app].
    rewrite !length_app. cbn [length].
    replace (Z.of_nat (length k1 + 1)) with (Z.of_nat (length w1) + 1) by lia.
    replace (Z.of_nat (length k1 + 1 + length k2))
      with (Z.of_nat (length k1 + S (length k2))) by lia.
    rewrite <- H1. reflexivity.
Qed.

(** The constants of the library are those the standard defines. *)
Lemma K_constants :
  FIPS180.K = map FIPS180.wrap sha256_k /\ length sha256_k = 64%nat.
Proof. split; vm_compute; reflexivity. Qed.

Lemma H0_constants :
  sha256_hh = map JS.ToInt32 FIPS180.H0
  /\ length FIPS180.H0 = 8%nat
  /\ forallb (fun x => (0 <=? x) && (x <? 4294967296)) FIPS180.H0 = true.
Proof. split; [|split]; vm_compute; reflexivity. Qed.

Lemma map_wrap_ToInt32 (W : list Z) :
  Forall word32 W -> map FIPS180.wrap (map JS.ToInt32 W) = W.
Proof.
  induction 1 as [|x W Hx _ IH]; [done|]. cbn [map].
  rewrite wrap_ToInt32, wrap_small by done. by rewrite IH.
Qed.

Lemma wrap_acc h a :
  FIPS180.wrap (JS.ToInt32 h + a) = FIPS180.wrap (FIPS180.wrap a + h).
Proof.
  rewrite wrap_add_l, (wrap_add (JS.ToInt32 h)), wrap_ToInt32, <- wrap_add.
  f_equal. lia.
Qed.

Lemma rounds_block (W : list Z) v :
  length W = 64%nat -> Forall word32 W ->
  vars_words (for_loop 0 64 (sha256_round sha256_k (map JS.ToInt32 W)) v)
  = foldl FIPS180.round (vars_words v) (zip FIPS180.K W).
Proof.
  intros HWl HWr. destruct K_constants as [HK HKl].
  pose proof (rounds_refine sha256_k (map JS.ToInt32 W) [] [] v eq_refl) as H.
  rewrite HKl, length_map, HWl in H. specialize (H eq_refl).
  rewrite <- HK, map_wrap_ToInt32 in H by done. exact H.
Qed.

Lemma hh_update (T : Z -> Z) (h0 h1 h2 h3 h4 h5 h6 h7 a b c d e f g h : Z) :
  let hh := [T h0; T h1; T h2; T h3; T h4; T h5; T h6; T h7] in
  let hh := JS.put hh 0 (T (JS.get hh 0 + a)) in
  let hh := JS.put hh 1 (T (JS.get hh 1 + b)) in
  let hh := JS.put hh 2 (T (JS.get hh 2 + c)) in
  let hh := JS.put hh 3 (T (JS.get hh 3 + d)) in
  let hh := JS.put hh 4 (T (JS.get hh 4 + e)) in
  let hh := JS.put hh 5 (T (JS.get hh 5 + f)) in
  let hh := JS.put hh 6 (T (JS.get hh 6 + g)) in
  let hh := JS.put hh 7 (T (JS.get hh 7 + h)) in
  hh = [T (T h0 + a); T (T h1 + b); T (T h2 + c); T (T h3 + d);
        T (T h4 + e); T (T h5 + f); T (T h6 + g); T (T h7 + h)].
Proof. reflexivity. Qed.

(** One block: the library's chaining values are those of the standard. *)
Lemma block_refines (m : bytes) (j : nat) (H : list Z) :
  (j + 64 <= length m)%nat -> Forall is_byte m ->
  length H = 8%nat -> Forall word32 H ->
  let H' := FIPS180.compress H (FIPS180.words (take 64 (drop j m))) in
  sha256_block m (map JS.ToInt32 H) (Z.of_nat j) = map JS.ToInt32 H'
  /\ length H' = 8%nat /\ Forall word32 H'.
Proof.
  intros Hj Hm HH Hr.
  destruct H as [|h0 [|h1 [|h2 [|h3 [|h4 [|h5 [|h6 [|h7 [|]]]]]]]]];
    try discriminate HH. clear HH.
  destruct (schedule_refines m j Hj Hm) as (Hs & HWr & HWl).
  generalize dependent (FIPS180.words (take 64 (drop j m))). intros M Hs HWr HWl.
  cbv zeta in *.
  unfold sha256_block. cbv zeta. rewrite Hs. clear Hs.
  cbn [map].
  change (JS.get ?l 0) with (JS.ToInt32 h0) at 1.
  change (JS.get ?l 1) with (JS.ToInt32 h1) at 1.
  change (JS.get ?l 2) with (JS.ToInt32 h2) at 1.
  change (JS.get ?l 3) with (JS.ToInt32 h3) at 1.
  change (JS.get ?l 4) with (JS.ToInt32 h4) at 1.
  change (JS.get ?l 5) with (JS.ToInt32 h5) at 1.
  change (JS.get ?l 6) with (JS.ToInt32 h6) at 1.
  change (JS.get ?l 7) with (JS.ToInt32 h7) at 1.
  pose proof (rounds_block (FIPS180.schedule 48 M)
    (mkVars (JS.ToInt32 h0) (JS.ToInt32 h1) (JS.ToInt32 h2) (JS.ToInt32 h3)
            (JS.ToInt32 h4) (JS.ToInt32 h5) (JS.ToInt32 h6) (JS.ToInt32 h7))
    HWl HWr) as Hrounds.
  assert (Hv0 : vars_words
    (mkVars (JS.ToInt32 h0) (JS.ToInt32 h1) (JS.ToInt32 h2) (JS.ToInt32 h3)
            (JS.ToInt32 h4) (JS.ToInt32 h5) (JS.ToInt32 h6) (JS.ToInt32 h7))
    = (h0, h1, h2, h3, h4, h5, h6, h7)).
  { unfold vars_words. cbn [va vb vc vd ve vf vg vh].
    repeat match goal with
    | H : Forall word32 (_ :: _) |- _ =>
        let Hx := fresh "Hx" in apply Forall_cons_1 in H as [Hx H]
    end.
    rewrite !wrap_ToInt32, !wrap_small by done. reflexivity. }
  rewrite Hv0 in Hrounds. clear Hv0.
  unfold FIPS180.compress. rewrite <- Hrounds. clear Hrounds.
  generalize (for_loop 0 64
    (sha256_round sha256_k (map JS.ToInt32 (FIPS180.schedule 48 M)))
    (mkVars (JS.ToInt32 h0) (JS.ToInt32 h1) (JS.ToInt32 h2) (JS.ToInt32 h3)
            (JS.ToInt32 h4) (JS.ToInt32 h5) (JS.ToInt32 h6) (JS.ToInt32 h7))).
  intros [a b c d e f g h].
  unfold vars_words. cbn [va vb vc vd ve vf vg vh].
  split; [|split; [reflexivity|]].
  - assert (Hacc : forall x y, JS.ToInt32 (FIPS180.wrap (FIPS180.wrap y + x))
                               = JS.ToInt32 (JS.ToInt32 x + y)).
    { intros x y. symmetry. apply ToInt32_eq. rewrite wrap_wrap. apply wrap_acc. }
    cbn [map]. rewrite !Hacc. unfold JS.put32.
    apply (hh_update JS.ToInt32).
  - repeat apply Forall_cons_2; try apply Forall_nil_2; apply wrap_range.
Qed.

(** *** All the blocks *)

Lemma blocks_refine (m : bytes) (n i : nat) (H : list Z) :
  (64 * (i + n) <= length m)%nat -> Forall is_byte m ->
  length H = 8%nat -> Forall word32 H ->
  let H' := foldl FIPS180.compress H (FIPS180.blocks n (drop (64 * i) m)) in
  foldl (sha256_block m) (map JS.ToInt32 H)
    (map (fun b => b * 64) (seqZ (Z.of_nat i) (Z.of_nat n)))
  = map JS.ToInt32 H'
  /\ length H' = 8%nat /\ Forall word32 H'.
Proof.
  revert i H. induction n as [|n IH]; intros i H Hlen Hm HH Hr; cbv zeta.
  - rewrite seqZ_nil by lia. simpl. auto.
  - rewrite seqZ_cons by lia. cbn [map foldl FIPS180.blocks].
    destruct (block_refines m (64 * i) H ltac:(lia) Hm HH Hr) as (E & HL & HR).
    cbv zeta in *.
    replace (Z.of_nat i * 64) with (Z.of_nat (64 * i)) by lia. rewrite E.
    rewrite drop_drop.
    replace (64 * i + 64)%nat with (64 * S i)%nat by lia.
    replace (Z.succ (Z.of_nat i)) with (Z.of_nat (S i)) by lia.
    replace (Z.pred (Z.of_nat (S n))) with (Z.of_nat n) by lia.
    apply IH; [lia|exact Hm|exact HL|exact HR].
Qed.

(** *** The digest *)

Lemma big_endian_4 x :
  word32 x ->
  FIPS180.big_endian 4 x
  = [x / 2 ^ 24; x / 2 ^ 16 mod 256; x / 2 ^ 8 mod 256; x mod 256].
Proof.
  intros Hx. unfold word32 in Hx. cbn [FIPS180.big_endian].
  change (256 ^ Z.of_nat 3) with 16777216. change (256 ^ Z.of_nat 2) with 65536.
  change (256 ^ Z.of_nat 1) with 256. change (256 ^ Z.of_nat 0) with 1.
  change (2 ^ 24) with 16777216. change (2 ^ 16) with 65536. change (2 ^ 8) with 256.
  rewrite Z.div_1_r. f_equal. apply Z.mod_small. Z.div_mod_to_equations. lia.
Qed.

Lemma digest_bytes (hs pre : list Z) (out : bytes) :
  Forall word32 hs -> length out = (4 * length pre)%nat ->
  for_loop (Z.of_nat (length pre)) (Z.of_nat (length pre + length hs))
    (fun i hash => JS.setUint32 hash (i * 4) (JS.get (map JS.ToInt32 (pre ++ hs)) i))
    (out ++ JS.zeros (4 * length hs))
  = out ++ concat (map (FIPS180.big_endian 4) hs).
Proof.
  revert pre out. induction hs as [|x hs IH]; intros pre out Hr Hout.
  - rewrite for_loop_done by (simpl; lia). reflexivity.
  - apply Forall_cons_1 in Hr as [Hx Hr].
    rewrite for_loop_step by (simpl; lia).
    rewrite get_map by (rewrite length_app; simpl; lia).
    rewrite get_app_r, Z.sub_diag, get_cons_0 by lia.
    replace (4 * length (x :: hs))%nat with (S (S (S (S (4 * length hs)))))
      by (simpl; lia).
    cbn [JS.zeros replicate].
    replace (Z.of_nat (length pre) * 4) with (Z.of_nat (length out)) by lia.
    rewrite setUint32_at.
    rewrite ToUint32_wrap, wrap_ToInt32, wrap_small by done.
    cbn [map concat]. rewrite big_endian_4 by done.
    specialize (IH (pre ++ [x])
      (out ++ [x / 2 ^ 24; x / 2 ^ 16 mod 256; x / 2 ^ 8 mod 256; x mod 256]) Hr).
    rewrite !length_app in IH. cbn [length] in IH.
    rewrite <- !app_assoc in IH. cbn [app] in IH.
    replace (Z.of_nat (length pre) + 1) with (Z.of_nat (length pre + 1)) by lia.
    replace (length pre + length (x :: hs))%nat
      with (length pre + 1 + length hs)%nat by (simpl; lia).
    unfold JS.zeros in *. rewrite IH by lia. reflexivity.
Qed.

(** *** Padding *)

Lemma set_prefix (msg rest : bytes) :
  JS.set (JS.zeros (length msg) ++ rest) msg 0 = msg ++ rest.
Proof.
  unfold JS.set. rewrite take_0, Nat.sub_0_r, Nat.add_0_l.
  rewrite (take_ge msg) by (rewrite length_app, zeros_length; lia).
  rewrite drop_app_length' by (by rewrite zeros_length). reflexivity.
Qed.

Lemma pad_refines (msg : bytes) :
  Z.of_nat (length msg) < 2 ^ 29 -> sha256_pad msg = FIPS180.pad msg.
Proof.
  intros Hn. change (2 ^ 29) with 536870912 in Hn.
  unfold sha256_pad, FIPS180.pad. cbv zeta.
  set (n := length msg) in *. set (N := Z.of_nat n) in *.
  assert (Hz : exists z : nat,
             N + 8 + (64 - (N + 8) mod 64) = N + 9 + Z.of_nat z
             /\ (448 - (8 * N + 1)) mod 512 = 8 * Z.of_nat z + 7).
  { exists (Z.to_nat ((55 - N) mod 64)).
    rewrite Z2Nat.id by (apply Z.mod_pos_bound; lia).
    split; Z.div_mod_to_equations; lia. }
  destruct Hz as (z & Hl & Hk). rewrite Hl, Hk.
  replace ((8 * Z.of_nat z + 7 - 7) / 8) with (Z.of_nat z)
    by (rewrite Z.add_simpl_r, Z.mul_comm, Z.div_mul; lia).
  rewrite Nat2Z.id.
  replace (Z.to_nat (N + 9 + Z.of_nat z)) with (n + (1 + (z + (4 + 4))))%nat by lia.
  unfold JS.zeros. rewrite !replicate_add. fold (JS.zeros n).
  cbn [replicate app]. unfold n at 1. rewrite set_prefix.
  unfold JS.put8. rewrite put_app_r by (fold n; lia). fold n N.
  rewrite Z.sub_diag, put_cons_0.
  change (JS.ToUint8 128) with 128.
  replace (msg ++ 128 :: replicate z 0 ++ [0; 0; 0; 0; 0; 0; 0; 0])
    with ((msg ++ 128 :: replicate z 0 ++ [0; 0; 0; 0]) ++ [0; 0; 0; 0])
    by (rewrite <- !app_assoc; cbn [app]; rewrite <- !app_assoc; reflexivity).
  replace (N + 9 + Z.of_nat z - 4)
    with (Z.of_nat (length (msg ++ 128 :: replicate z 0 ++ [0; 0; 0; 0])))
    by (rewrite length_app; cbn [length]; rewrite length_app, length_replicate;
        cbn [length]; fold n; lia).
  rewrite setUint32_at.
  rewrite ToUint32_wrap, wrap_small by lia.
  rewrite <- !app_assoc. cbn [app]. rewrite <- !app_assoc. cbn [app].
  do 3 f_equal. cbn [FIPS180.big_endian].
  change (256 ^ Z.of_nat 7) with 72057594037927936.
  change (256 ^ Z.of_nat 6) with 281474976710656.
  change (256 ^ Z.of_nat 5) with 1099511627776.
  change (256 ^ Z.of_nat 4) with 4294967296.
  change (256 ^ Z.of_nat 3) with 16777216. change (256 ^ Z.of_nat 2) with 65536.
  change (256 ^ Z.of_nat 1) with 256. change (256 ^ Z.of_nat 0) with 1.
  change (2 ^ 24) with 16777216. change (2 ^ 16) with 65536. change (2 ^ 8) with 256.
  rewrite Z.div_1_r.
  repeat (apply (f_equal2 cons); [Z.div_mod_to_equations; lia|]). reflexivity.
Qed.

Lemma big_endian_bytes n x : Forall is_byte (FIPS180.big_endian n x).
Proof.
  induction n as [|n IH]; [apply Forall_nil_2|]. cbn [FIPS180.big_endian].
  apply Forall_cons_2; [|done]. unfold is_byte. apply Z.mod_pos_bound. lia.
Qed.

Lemma pad_bytes (msg : bytes) : Forall is_byte msg -> Forall is_byte (FIPS180.pad msg).
Proof.
  intros H. unfold FIPS180.pad. cbv zeta.
  repeat apply Forall_app_2; try done.
  - apply Forall_singleton. unfold is_byte. lia.
  - apply Forall_replicate. unfold is_byte. lia.
  - apply big_endian_bytes.
Qed.

Lemma digest_length (hs : list Z) :
  length (concat (map (FIPS180.big_endian 4) hs)) = (4 * length hs)%nat.
Proof.
  induction hs as [|x hs IH]; [done|].
  cbn [map concat]. rewrite length_app, IH. cbn [length FIPS180.big_endian]. lia.
Qed.

Lemma digest_is_bytes (hs : list Z) :
  Forall is_byte (concat (map (FIPS180.big_endian 4) hs)).
Proof.
  induction hs as [|x hs IH]; [apply Forall_nil_2|].
  cbn [map concat]. apply Forall_app_2; [apply big_endian_bytes|done].
Qed.

(** The library's [sha256] against the standard, on a message of bytes that is
    shorter than [2^29] bytes. *)
Lemma sha256_refines_FIPS (msg : bytes) :
  Forall is_byte msg -> Z.of_nat (length msg) < 2 ^ 29 ->
  sha256 msg = FIPS180.SHA256 msg
  /\ length (sha256 msg) = 32%nat /\ Forall is_byte (sha256 msg).
Proof.
  intros Hb Hn.
  assert (E : sha256 msg = FIPS180.SHA256 msg
              /\ length (FIPS180.SHA256 msg) = 32%nat).
  { unfold sha256, FIPS180.SHA256, FIPS180.parse. cbv zeta.
    rewrite pad_refines by done.
    pose proof (pad_bytes msg Hb) as Hm.
    generalize dependent (FIPS180.pad msg). intros m Hm.
    destruct H0_constants as (Hhh & HH0l & HH0r).
    assert (Hr0 : Forall word32 FIPS180.H0).
    { apply (Forall_impl (fun x => Is_true ((0 <=? x) && (x <? 4294967296)))).
      - apply forallb_True. rewrite HH0r. exact I.
      - intros x Hx. apply andb_True in Hx as [H1 H2].
        apply Is_true_true in H1, H2. unfold word32. lia. }
    assert (Hfit : (64 * (0 + length m / 64) <= length m)%nat)
      by (pose proof (Nat.Div0.mul_div_le (length m) 64); lia).
    destruct (blocks_refine m (length m / 64) 0 FIPS180.H0 Hfit Hm HH0l Hr0)
      as (E & HL & HR).
    cbv zeta in *. rewrite Nat.mul_0_r, drop_0 in *.
    rewrite Hhh. change (Z.of_nat 0) with 0 in E.
    replace (Z.of_nat (length m) / 64) with (Z.of_nat (length m / 64))
      by (rewrite Nat2Z.inj_div; reflexivity).
    rewrite E.
    set (H' := foldl FIPS180.compress FIPS180.H0
                 (FIPS180.blocks (length m / 64) m)) in *.
    pose proof (digest_bytes H' [] [] HR eq_refl) as Hd.
    rewrite HL in Hd. split; [exact Hd|].
    rewrite digest_length, HL. reflexivity. }
  destruct E as [E El]. rewrite E. split; [done|]. split; [done|].
  apply digest_is_bytes.
Qed.

(** X1.  The library's [sha256] is the SHA-256 of FIPS 180-4: on every message of
    bytes shorter than [2^29] bytes (the library stores the bit length as a
    32-bit number) it returns the digest that the standard defines, which has
    32 bytes; hence the hash of a transaction is the standard SHA-256 of its
    150-byte buffer. *)
Theorem sha256_is_FIPS_180_4 (msg : bytes) :
  Forall is_byte msg -> Z.of_nat (length msg) < 2 ^ 29 ->
  sha256 msg = FIPS180.SHA256 msg
  /\ length (sha256 msg) = 32%nat
  /\ Forall is_byte (sha256 msg)
  /\ (forall tx, tx_bytes tx = msg -> Transaction_hash tx = FIPS180.SHA256 msg).
Proof.
  intros Hb Hn. destruct (sha256_refines_FIPS msg Hb Hn) as (E & Hl & Hr).
  repeat split; try done. intros tx <-. exact E.
Qed.

Lemma sha256_is_FIPS_180_4_witness :
  sha256 (str "abc") = FIPS180.SHA256 (str "abc")
  /\ length (sha256 (str "abc")) = 32%nat
  /\ Forall is_byte (sha256 (str "abc"))
  /\ (forall tx, tx_bytes tx = str "abc" ->
        Transaction_hash tx = FIPS180.SHA256 (str "abc")).
Proof.
  apply (sha256_is_FIPS_180_4 (str "abc")).
  - exact (bool_decide_unpack (Forall is_byte (str "abc")) I).
  - vm_compute. reflexivity.
Defined.

(** ** The hash of a transaction *)

(** C2.  The hash of a transaction is the SHA-256 digest, as FIPS 180-4
    defines it, of its 150-byte buffer, which is also what the [bytes] getter
    returns, and has 32 bytes; so it is for a transaction made from 150 bytes;
    for the transaction made from 150 zero bytes it is
    1d83518b897b14e2943990eff655838246cc0207a7c95a5f3dfccc2e395f8bbf. *)
Theorem transaction_hash_is_sha256 (tx : Transaction) :
  length (tx_bytes tx) = 150%nat -> Forall is_byte (tx_bytes tx) ->
  Transaction_hash tx = FIPS180.SHA256 (tx_bytes tx)
  /\ Transaction_hash tx = FIPS180.SHA256 (Transaction_bytes tx)
  /\ length (Transaction_hash tx) = 32%nat
  /\ (forall b : bytes,
        Transaction_new (JUint8Array b) = Ok tx ->
        Transaction_hash tx = FIPS180.SHA256 b)
  /\ (tx0 ← Transaction_new (JUint8Array (JS.zeros 150)); Ok (Transaction_hash tx0))
     = Ok (hex "1d83518b897b14e2943990eff655838246cc0207a7c95a5f3dfccc2e395f8bbf").
Proof.
  intros Hl Hb.
  assert (Hn : Z.of_nat (length (tx_bytes tx)) < 2 ^ 29)
    by (rewrite Hl; reflexivity).
  destruct (sha256_refines_FIPS (tx_bytes tx) Hb Hn) as (E & El & _).
  assert (Eb : Transaction_bytes tx = tx_bytes tx)
    by (unfold Transaction_bytes; by rewrite set_zeros_copy).
  split; [exact E|]. split; [by rewrite Eb|]. split; [exact El|].
  split; [|vm_compute; reflexivity].
  intros b. unfold Transaction_new.
  destruct (Nat.eqb_spec (length b) Transaction_LENGTH) as [Hlb|]; [|discriminate].
  simpl. intros [= Etx]. unfold Transaction_hash. rewrite E. f_equal.
  rewrite <- Etx. simpl tx_bytes.
  by rewrite set_front by (by rewrite zeros_length).
Qed.

Lemma transaction_hash_witness :
  let tx := _setFields (with_bytes (mkTransaction (JS.zeros 150) ∅)
              (JS.set (JS.zeros 150) (JS.zeros 150) 0))
              ["version"; "sender"; "recipient"; "value"; "prefix";
               "name"; "profitPercent"; "feePercent"; "nonce"; "signature"] in
  Transaction_new (JUint8Array (JS.zeros 150)) = Ok tx
  /\ Transaction_hash tx = FIPS180.SHA256 (tx_bytes tx)
  /\ Transaction_hash tx
     = hex "1d83518b897b14e2943990eff655838246cc0207a7c95a5f3dfccc2e395f8bbf".
Proof.
  intros tx. split; [reflexivity|].
  assert (Hl : length (tx_bytes tx) = 150%nat) by reflexivity.
  assert (Hb : Forall is_byte (tx_bytes tx))
    by exact (bool_decide_unpack (Forall is_byte (tx_bytes tx)) I).
  pose proof (transaction_hash_is_sha256 tx Hl Hb) as (E & _).
  split; [exact E|]. vm_compute. reflexivity.
Defined.

(** ** Signing and verifying a transaction *)

Lemma for_loop_invariant {S : Type} (P : S -> Prop) lo hi (body : Z -> S -> S) init :
  P init -> (forall i s, P s -> P (body i s)) -> P (for_loop lo hi body init).
Proof.
  intros H0 Hstep. unfold for_loop.
  generalize (seqZ lo (hi - lo)) as l. intros l. revert init H0.
  induction l as [|i l IH]; intros init H0; [done|].
  simpl. apply IH. by apply Hstep.
Qed.

Lemma for_loop_put8_length lo hi (f g : Z -> Z) (idx : Z -> Z) (a : bytes) :
  length (for_loop lo hi (fun i a => JS.put8 a (idx i) (f i)) a) = length a.
Proof.
  apply (for_loop_invariant (fun s => length s = length a)); [done|].
  intros i s Hs. by rewrite put8_length.
Qed.

(** The signed message has the length of the message plus 64. *)
Lemma cryptoSign_length m n sk :
  0 <= n -> length (Ed25519._cryptoSign m n sk) = Z.to_nat (64 + n).
Proof.
  intros Hn. unfold Ed25519._cryptoSign. cbv zeta.
  rewrite set_length.
  - rewrite (for_loop_put8_length 32 64 (fun i => JS.get sk i) (fun i => 0) (fun i => i)).
    rewrite set_length.
    + rewrite (for_loop_put8_length 0 32 _ (fun i => 0) (fun i => 32 + i)).
      rewrite (for_loop_put8_length 0 n (fun i => JS.get m i) (fun i => 0)
                 (fun i => 64 + i)).
      apply zeros_length.
    + lia.
  - rewrite (for_loop_put8_length 32 64 (fun i => JS.get sk i) (fun i => 0) (fun i => i)).
    rewrite set_length by lia.
    rewrite (for_loop_put8_length 0 32 _ (fun i => 0) (fun i => 32 + i)).
    rewrite (for_loop_put8_length 0 n (fun i => JS.get m i) (fun i => 0)
               (fun i => 64 + i)).
    rewrite zeros_length. lia.
Qed.

Lemma sign_length message secretKey :
  length (Ed25519.sign message secretKey) = 64%nat.
Proof.
  unfold Ed25519.sign, JS.subarray, Ed25519.SIGNATURE_BYTES. cbv zeta.
  rewrite drop_0, length_take, cryptoSign_length by lia. lia.
Qed.

(** Reading the sender of a 150-byte transaction and its public key. *)
Lemma sender_getter tx :
  length (tx_bytes tx) = 150%nat -> hasField tx "sender" = true ->
  Transaction_sender tx = Ok (mkAddress (take 34 (drop 1 (tx_bytes tx)))).
Proof.
  intros Hlen Hs. unfold Transaction_sender.
  rewrite checkFields_present by done. cbn [_checkFields mbind result_bind].
  unfold Address_new, JS.subarray. change (35 - 1)%nat with 34%nat.
  assert (Hl : length (take 34 (drop 1 (tx_bytes tx))) = 34%nat)
    by (rewrite length_take, length_drop; lia).
  rewrite Hl. cbn [Nat.eqb negb Address_LENGTH address_bytes].
  by rewrite set_front by (by rewrite zeros_length).
Qed.

Lemma address_publicKey_getter a :
  length (address_bytes a) = 34%nat ->
  Address_publicKey a = Ok (mkPublicKey (drop 2 (address_bytes a))).
Proof.
  intros Hlen. unfold Address_publicKey, PublicKey_new, JS.subarray.
  rewrite Hlen. change (34 - 2)%nat with 32%nat.
  assert (Hl : length (drop 2 (address_bytes a)) = 32%nat)
    by (rewrite length_drop; lia).
  rewrite firstn_all2 by lia. rewrite Hl.
  cbn [Nat.eqb negb PublicKey_LENGTH Ed25519.PUBLIC_KEY_BYTES].
  by rewrite set_front by (by rewrite zeros_length).
Qed.

Lemma sender_publicKey tx :
  length (tx_bytes tx) = 150%nat -> hasField tx "sender" = true ->
  (sender ← Transaction_sender tx; Address_publicKey sender)
  = Ok (mkPublicKey (take 32 (drop 3 (tx_bytes tx)))).
Proof.
  intros Hlen Hs. rewrite sender_getter by done. cbn [mbind result_bind].
  rewrite address_publicKey_getter
    by (simpl; rewrite length_take, length_drop; lia).
  simpl address_bytes. do 2 f_equal.
  rewrite !take_drop_commute, drop_drop. reflexivity.
Qed.

Lemma sender_signatureLength_ok tx :
  length (tx_bytes tx) = 150%nat -> hasField tx "sender" = true ->
  sender_signatureLength tx = Ok 64%nat.
Proof.
  intros Hlen Hs. unfold sender_signatureLength.
  pose proof (sender_publicKey tx Hlen Hs) as H.
  destruct (Transaction_sender tx) as [sender|]; [|discriminate].
  cbn [mbind result_bind] in *. by rewrite H.
Qed.

(** What the signature setter writes. *)
Lemma signature_setter tx (sig : bytes) :
  length (tx_bytes tx) = 150%nat ->
  hasField tx "version" = true -> hasField tx "sender" = true ->
  length sig = 64%nat ->
  Transaction_set_signature tx (JUint8Array sig)
  = Ok (_setFields
          (with_bytes tx (take 85 (tx_bytes tx) ++ sig ++ drop 149 (tx_bytes tx)))
          ["signature"]).
Proof.
  intros Hlen Hv Hs Hsig. unfold Transaction_set_signature.
  rewrite !checkFields_present by done. cbn [_checkFields mbind result_bind].
  rewrite sender_signatureLength_ok by done. cbn [mbind result_bind].
  rewrite Hsig. cbn [Nat.eqb negb]. do 3 f_equal.
  unfold JS.set. rewrite Hlen, Hsig. f_equal. f_equal.
  apply take_ge. lia.
Qed.

Lemma with_signature_facts tx (sig : bytes) :
  length (tx_bytes tx) = 150%nat ->
  hasField tx "version" = true -> hasField tx "sender" = true ->
  length sig = 64%nat ->
  let tx' := with_signature tx sig in
  length (tx_bytes tx') = 150%nat
  /\ hasField tx' "version" = true
  /\ hasField tx' "sender" = true
  /\ hasField tx' "signature" = true
  /\ JS.subarray (tx_bytes tx') 0 85 = take 85 (tx_bytes tx)
  /\ take 32 (drop 3 (tx_bytes tx')) = take 32 (drop 3 (tx_bytes tx))
  /\ Transaction_signature tx' = Ok sig.
Proof.
  intros Hlen Hv Hs Hsig tx'.
  assert (Hb : tx_bytes tx'
               = take 85 (tx_bytes tx) ++ sig ++ drop 149 (tx_bytes tx)).
  { unfold tx', with_signature. by rewrite tx_bytes_setFields. }
  assert (Hlen' : length (tx_bytes tx') = 150%nat).
  { rewrite Hb, !length_app, length_take, length_drop. lia. }
  assert (Hf : forall f, hasField tx f = true -> hasField tx' f = true).
  { intros f H. unfold tx', with_signature. rewrite hasField_setFields_one.
    unfold with_bytes, hasField in *. simpl. rewrite H. apply orb_true_r. }
  assert (Hfs : hasField tx' "signature" = true).
  { unfold tx', with_signature. rewrite hasField_setFields_one.
    by rewrite bool_decide_eq_true_2. }
  split; [done|]. split; [by apply Hf|]. split; [by apply Hf|].
  split; [done|]. split; [|split].
  - unfold JS.subarray. rewrite drop_0, Hb.
    change (Z.to_nat 85 - Z.to_nat 0)%nat with 85%nat.
    rewrite take_app_le by (rewrite length_take; lia).
    rewrite take_take. reflexivity.
  - rewrite Hb. rewrite drop_app_le by (rewrite length_take; lia).
    rewrite take_app_le by (rewrite length_drop, length_take; lia).
    rewrite !take_drop_commute, take_take. reflexivity.
  - unfold Transaction_signature.
    rewrite checkFields_present by done. cbn [_checkFields mbind result_bind].
    rewrite sender_signatureLength_ok by auto. cbn [mbind result_bind].
    f_equal. unfold JS.subarray. rewrite Hb.
    change (Z.to_nat 85) with 85%nat.
    rewrite drop_app_length' by (rewrite length_take; lia).
    change (85 + 64 - 85)%nat with 64%nat.
    rewrite take_app_length' by done.
    apply set_front. by rewrite zeros_length.
Qed.

(** Signing writes the Ed25519 signature of bytes 0..85. *)
Lemma sign_writes tx sk :
  length (tx_bytes tx) = 150%nat ->
  hasField tx "version" = true -> hasField tx "sender" = true ->
  Transaction_sign tx (JSecretKey sk)
  = Ok (with_signature tx
          (Ed25519.sign (take 85 (tx_bytes tx)) (secretKey_bytes sk))).
Proof.
  intros Hlen Hv Hs. unfold Transaction_sign.
  rewrite !checkFields_present by done. cbn [_checkFields mbind result_bind].
  unfold SecretKey_sign. cbn [mbind result_bind].
  replace (JS.subarray (tx_bytes tx) 0 85) with (take 85 (tx_bytes tx))
    by (unfold JS.subarray; by rewrite drop_0).
  apply signature_setter; try done. apply sign_length.
Qed.

(** Verification checks the stored signature against the sender's key. *)
Lemma verify_reads tx (sig : bytes) :
  length (tx_bytes tx) = 150%nat ->
  hasField tx "version" = true -> hasField tx "sender" = true ->
  length sig = 64%nat ->
  Transaction_verify (with_signature tx sig)
  = Ok (Ed25519.verify sig (take 85 (tx_bytes tx))
          (take 32 (drop 3 (tx_bytes tx)))).
Proof.
  intros Hlen Hv Hs Hsig.
  destruct (with_signature_facts tx sig Hlen Hv Hs Hsig)
    as (Hlen' & Hv' & Hs' & Hfs & Hmsg & Hpk & Hsg).
  generalize dependent (with_signature tx sig). intros tx' **.
  unfold Transaction_verify.
  rewrite !checkFields_present by auto. cbn [_checkFields mbind result_bind].
  pose proof (sender_publicKey tx' Hlen' Hs') as Hp.
  destruct (Transaction_sender tx') as [sender|]; [|discriminate].
  cbn [mbind result_bind] in *. rewrite Hp, Hsg, Hpk, Hmsg.
  cbn [mbind result_bind]. unfold PublicKey_verifySignature.
  cbn [publicKey_bytes PublicKey_signatureLength].
  rewrite Hsig. reflexivity.
Qed.

(** A public key that does not decompress to a curve point verifies nothing. *)
Lemma verify_bad_key (sig msg pk : bytes) :
  Ed25519._unpackneg pk = None -> Ed25519.verify sig msg pk = false.
Proof.
  intros H. unfold Ed25519.verify, Ed25519._cryptoSignOpen. cbv zeta.
  rewrite H. reflexivity.
Qed.



(** Signing with a key does not make a transaction that verifies, even when
    the trailing 32 bytes of the key are the sender's public key: they need
    not be the public key of its leading 32 bytes, nor the encoding of a curve
    point at all.  The key below ends in the sender's public key, signing with
    it succeeds, and the signed transaction does not verify. *)
Lemma signing_with_unmatched_key_does_not_verify :
  let sk := mkSecretKey (JS.zeros 32 ++ 2 :: JS.zeros 31) in
  let sender := mkAddress ([85; 169] ++ 2 :: JS.zeros 31) in
  let tx := mkTransaction (1 :: address_bytes sender ++ JS.zeros 115)
              {["version" := true; "sender" := true]} in
  SecretKey_new (JUint8Array (JS.zeros 32 ++ 2 :: JS.zeros 31)) = Ok sk
  /\ Address_fromKey (JSecretKey sk) = Ok sender
  /\ (tx0 ← Transaction_new JUndefined;
      tx1 ← Transaction_set_version tx0 (JNumber (JInt 1));
      Transaction_set_sender tx1 (JAddress sender)) = Ok tx
  /\ drop 32 (secretKey_bytes sk) = take 32 (drop 3 (tx_bytes tx))
  /\ exists tx',
       Transaction_sign tx (JSecretKey sk) = Ok tx'
       /\ Transaction_verify tx' = Ok false.
Proof.
  intros sk sender tx.
  assert (Hlen : length (tx_bytes tx) = 150%nat) by (vm_compute; reflexivity).
  assert (Hv : hasField tx "version" = true) by (vm_compute; reflexivity).
  assert (Hs : hasField tx "sender" = true) by (vm_compute; reflexivity).
  split; [vm_compute; reflexivity|]. split; [vm_compute; reflexivity|].
  split; [vm_compute; reflexivity|]. split; [vm_compute; reflexivity|].
  eexists. split; [exact (sign_writes tx sk Hlen Hv Hs)|].
  rewrite verify_reads by first [done | apply sign_length].
  apply (f_equal Ok). apply verify_bad_key. vm_compute. reflexivity.
Qed.

(** ** What the setters of a transaction write *)

Lemma same_outside_refl off len b : same_outside off len b b.
Proof. by split. Qed.

Lemma same_outside_trans off len b1 b2 b3 :
  same_outside off len b1 b2 -> same_outside off len b2 b3 ->
  same_outside off len b1 b3.
Proof.
  intros [L1 H1] [L2 H2]. split; [congruence|].
  intros i Hi. by rewrite H2, H1.
Qed.

Lemma same_outside_weaken off len off' len' b b' :
  (off' <= off)%nat -> (off + len <= off' + len')%nat ->
  same_outside off len b b' -> same_outside off' len' b b'.
Proof. intros Ho Hl [L H]. split; [done|]. intros i Hi. apply H. lia. Qed.

Lemma put_outside off len (b : bytes) i v :
  (off <= Z.to_nat i < off + len)%nat -> same_outside off len b (JS.put b i v).
Proof.
  intros Hi. unfold JS.put. destruct (i <? 0); [apply same_outside_refl|].
  split; [apply length_insert|].
  intros j Hj. apply list_lookup_insert_ne. lia.
Qed.

Lemma set_at (a src : bytes) (o : nat) :
  (o + length src <= length a)%nat ->
  JS.set a src o = take o a ++ src ++ drop (o + length src) a.
Proof. intros H. unfold JS.set. by rewrite (take_ge src) by lia. Qed.

Lemma set_outside (a src : bytes) (o : nat) :
  (o + length src <= length a)%nat ->
  same_outside o (length src) a (JS.set a src o).
Proof.
  intros H. rewrite set_at by done. split.
  - rewrite !length_app, length_take, length_drop. lia.
  - intros i [Hi|Hi].
    + rewrite lookup_app_l by (rewrite length_take; lia).
      apply lookup_take_lt. done.
    + rewrite lookup_app_r by (rewrite length_take; lia).
      rewrite lookup_app_r by (rewrite length_take; lia).
      rewrite lookup_drop, length_take. f_equal. lia.
Qed.

Lemma setUint16_outside off len (b : bytes) i v :
  0 <= i -> (off <= Z.to_nat i)%nat -> (Z.to_nat i + 2 <= off + len)%nat ->
  same_outside off len b (JS.setUint16 b i v).
Proof.
  intros. unfold JS.setUint16. cbv zeta.
  eapply same_outside_trans; apply put_outside; lia.
Qed.

Lemma setUint32_outside off len (b : bytes) i v :
  0 <= i -> (off <= Z.to_nat i)%nat -> (Z.to_nat i + 4 <= off + len)%nat ->
  same_outside off len b (JS.setUint32 b i v).
Proof.
  intros. unfold JS.setUint32. cbv zeta.
  eapply same_outside_trans;
    [eapply same_outside_trans; [eapply same_outside_trans|]|];
    apply put_outside; lia.
Qed.

Lemma write_u64_outside off len (b : bytes) i v :
  0 <= i -> (off <= Z.to_nat i)%nat -> (Z.to_nat i + 8 <= off + len)%nat ->
  same_outside off len b (write_u64 b i v).
Proof.
  intros. unfold write_u64, JS.setInt32.
  eapply same_outside_trans; apply setUint32_outside; lia.
Qed.

Lemma setUint32_bytes (a : bytes) i v :
  Forall is_byte a -> Forall is_byte (JS.setUint32 a i v).
Proof.
  intros H. unfold JS.setUint32. cbv zeta.
  pose proof (Z.land_nonneg (JS.ToUint32 v) 4294967295) as Hnn.
  assert (Hu : 0 <= JS.ToUint32 v < 4294967296).
  { rewrite ToUint32_mod. apply Z.mod_pos_bound. lia. }
  repeat apply put_bytes; try done; unfold is_byte;
    rewrite ?land_255, ?shiftr_div by lia;
    try (apply Z.mod_pos_bound; lia).
  change (2 ^ 24) with 16777216. Z.div_mod_to_equations. lia.
Qed.

Lemma write_u64_bytes (a : bytes) i v :
  Forall is_byte a -> Forall is_byte (write_u64 a i v).
Proof.
  intros H. unfold write_u64, JS.setInt32. cbv zeta.
  by do 2 apply setUint32_bytes.
Qed.

Lemma Utf8Encode_bytes_fuel (n : nat) (s : jsstring) :
  (length s <= n)%nat -> Forall is_byte (Utf8Encode s).
Proof.
  revert s. induction n as [n IH] using lt_wf_ind. intros s Hn.
  destruct s as [|chr rest]; [apply Forall_nil_2|].
  simpl in Hn. cbn [Utf8Encode].
  assert (Hrest : Forall is_byte (Utf8Encode rest))
    by (apply (IH (length rest)); lia).
  destruct (chr <? 128); [by repeat apply Forall_cons_2; try apply ToUint8_byte|].
  destruct (chr <? 2048); [by repeat apply Forall_cons_2; try apply ToUint8_byte|].
  destruct ((chr <? 55296) || (57344 <=? chr));
    [by repeat apply Forall_cons_2; try apply ToUint8_byte|].
  destruct rest as [|next rest].
  - repeat apply Forall_cons_2; try apply ToUint8_byte. apply Forall_nil_2.
  - cbn [app]. repeat apply Forall_cons_2; try apply ToUint8_byte.
    apply (IH (length rest)); simpl in Hn; lia.
Qed.

Lemma Utf8Encode_bytes (s : jsstring) : Forall is_byte (Utf8Encode s).
Proof. by apply (Utf8Encode_bytes_fuel (length s)). Qed.

Lemma Address_bytes_copy (a : Address) : Address_bytes a = address_bytes a.
Proof. apply set_zeros_copy. Qed.

Lemma sender_signatureLength_64 tx n :
  sender_signatureLength tx = Ok n -> n = 64%nat.
Proof.
  unfold sender_signatureLength.
  destruct (Transaction_sender tx) as [a|]; [|discriminate]. cbn [mbind result_bind].
  destruct (Address_publicKey a) as [k|]; [|discriminate]. cbn [mbind result_bind].
  by intros [= <-].
Qed.

Lemma setFields_fields tx nb g :
  let tx' := _setFields (with_bytes tx nb) [g] in
  tx_bytes tx' = nb
  /\ hasField tx' g = true
  /\ forall f, f <> g -> hasField tx' f = hasField tx f.
Proof.
  cbv zeta. split; [by rewrite tx_bytes_setFields|]. split.
  - rewrite hasField_setFields_one. by rewrite bool_decide_eq_true_2.
  - intros f Hf. rewrite hasField_setFields_one.
    by rewrite bool_decide_eq_false_2.
Qed.

(** What a successful call of a setter returns: the transaction with new
    contents of the buffer and one more field marked. *)
Lemma setter_result s tx arg tx' :
  run_setter s tx arg = Ok tx' ->
  exists nb,
    tx' = _setFields (with_bytes tx nb) [setter_field s]
    /\ (tx_wf tx -> arg_wf arg ->
        same_outside (setter_cells s).1 (setter_cells s).2 (tx_bytes tx) nb
        /\ Forall is_byte nb).
Proof.
  destruct s; cbn [run_setter setter_field setter_cells fst snd].
  - (* version *)
    unfold Transaction_set_version.
    destruct (hasField tx "version"); [discriminate|].
    destruct arg as [| |b0|n|s0|l0|k0|k0|a0|d0]; try discriminate.
    destruct (negb (JS.floor_eq n)); [discriminate|].
    destruct (JS.lt n _ || JS.gt n _); [discriminate|].
    intros [= <-]. eexists. split; [reflexivity|].
    intros [Hl Hb] _. split.
    + apply put_outside. lia.
    + apply put_bytes; [done|apply ToUint8_byte].
  - (* sender *)
    unfold Transaction_set_sender.
    destruct (_checkFields tx ["version"]) as [[]|]; [|discriminate]. cbn [mbind result_bind].
    destruct arg as [| |b0|n0|s0|l0|k0|k0|a|d0]; try discriminate.
    destruct (Transaction_version tx) as [v|]; [|discriminate].
    cbn [mbind result_bind].
    destruct (_ && _); [discriminate|]. destruct (_ && _); [discriminate|].
    intros [= <-]. eexists. split; [reflexivity|].
    intros [Hl Hb] [Hal Hab]. unfold Transaction_LENGTH, Address_LENGTH in *.
    rewrite Address_bytes_copy. split.
    + rewrite <- Hal. apply set_outside. lia.
    + by apply set_bytes.
  - (* recipient *)
    unfold Transaction_set_recipient.
    destruct (_checkFields tx ["version"]) as [[]|]; [|discriminate]. cbn [mbind result_bind].
    destruct (Transaction_version tx) as [v|]; [|discriminate].
    cbn [mbind result_bind].
    destruct (_ || _); [discriminate|].
    destruct arg as [| |b0|n0|s0|l0|k0|k0|a|d0]; try discriminate.
    destruct (_ =? _); [discriminate|]. destruct (_ && _); [discriminate|].
    destruct (_ && _); [discriminate|].
    intros [= <-]. eexists. split; [reflexivity|].
    intros [Hl Hb] [Hal Hab]. unfold Transaction_LENGTH, Address_LENGTH in *.
    rewrite Address_bytes_copy. split.
    + rewrite <- Hal. apply set_outside. lia.
    + by apply set_bytes.
  - (* value *)
    unfold Transaction_set_value.
    destruct (_checkFields tx ["version"]) as [[]|]; [|discriminate]. cbn [mbind result_bind].
    destruct (Transaction_version tx) as [v|]; [|discriminate].
    cbn [mbind result_bind].
    destruct (_ && _); [discriminate|].
    destruct arg as [| |b0|n|s0|l0|k0|k0|a0|d0]; try discriminate.
    destruct (negb (JS.floor_eq n)); [discriminate|].
    destruct (JS.lt n _ || JS.gt n _); [discriminate|].
    intros [= <-]. eexists. split; [reflexivity|].
    intros [Hl Hb] _. split.
    + apply write_u64_outside; lia.
    + by apply write_u64_bytes.
  - (* prefix *)
    unfold Transaction_set_prefix.
    destruct (_checkFields tx ["version"]) as [[]|]; [|discriminate]. cbn [mbind result_bind].
    destruct (Transaction_version tx) as [v|]; [|discriminate].
    cbn [mbind result_bind].
    destruct (_ && _); [discriminate|].
    destruct (prefixToVersion arg) as [w|]; [|discriminate]. cbn [mbind result_bind].
    intros [= <-]. eexists. split; [reflexivity|].
    intros [Hl Hb] _. split.
    + apply setUint16_outside; lia.
    + by apply setUint16_bytes.
  - (* name *)
    unfold Transaction_set_name.
    destruct (_checkFields tx ["version"]) as [[]|]; [|discriminate]. cbn [mbind result_bind].
    destruct (Transaction_version tx) as [v|]; [|discriminate].
    cbn [mbind result_bind].
    destruct (_ && _); [discriminate|].
    destruct arg as [| |b0|n0|name|l0|k0|k0|a0|d0]; try discriminate. cbv zeta.
    destruct (Nat.leb_spec 36 (length (Utf8Encode name))) as [|Hlen]; [discriminate|].
    intros [= <-]. eexists. split; [reflexivity|].
    intros [Hl Hb] _. unfold Transaction_LENGTH in *. split.
    + apply (same_outside_trans _ _ _
               (JS.put8 (tx_bytes tx) 41 (Z.of_nat (length (Utf8Encode name))))).
      * apply (put_outside 41 36). lia.
      * apply (same_outside_weaken (41 + 1) (length (Utf8Encode name))); [lia|lia|].
        apply set_outside. rewrite put8_length. lia.
    + apply set_bytes; [|apply Utf8Encode_bytes].
      apply put_bytes; [done|apply ToUint8_byte].
  - (* profitPercent *)
    unfold Transaction_set_profitPercent.
    destruct (_checkFields tx ["version"]) as [[]|]; [|discriminate]. cbn [mbind result_bind].
    destruct (Transaction_version tx) as [v|]; [|discriminate].
    cbn [mbind result_bind].
    destruct (_ && _); [discriminate|].
    destruct arg as [| |b0|n|s0|l0|k0|k0|a0|d0]; try discriminate.
    destruct (negb (JS.floor_eq n)); [discriminate|].
    destruct (JS.lt n _ || JS.gt n _); [discriminate|].
    intros [= <-]. eexists. split; [reflexivity|].
    intros [Hl Hb] _. split.
    + apply setUint16_outside; lia.
    + by apply setUint16_bytes.
  - (* feePercent *)
    unfold Transaction_set_feePercent.
    destruct (_checkFields tx ["version"]) as [[]|]; [|discriminate]. cbn [mbind result_bind].
    destruct (Transaction_version tx) as [v|]; [|discriminate].
    cbn [mbind result_bind].
    destruct (_ && _); [discriminate|].
    destruct arg as [| |b0|n|s0|l0|k0|k0|a0|d0]; try discriminate.
    destruct (negb (JS.floor_eq n)); [discriminate|].
    destruct (JS.lt n _ || JS.gt n _); [discriminate|].
    intros [= <-]. eexists. split; [reflexivity|].
    intros [Hl Hb] _. split.
    + apply setUint16_outside; lia.
    + by apply setUint16_bytes.
  - (* nonce *)
    unfold Transaction_set_nonce.
    destruct arg as [| |b0|n|s0|l0|k0|k0|a0|d0]; try discriminate.
    destruct (negb (JS.floor_eq n)); [discriminate|].
    destruct (JS.lt n _ || JS.gt n _); [discriminate|].
    intros [= <-]. eexists. split; [reflexivity|].
    intros [Hl Hb] _. split.
    + apply write_u64_outside; lia.
    + by apply write_u64_bytes.
  - (* signature *)
    unfold Transaction_set_signature.
    destruct (_checkFields tx ["version"; "sender"]) as [[]|]; [|discriminate].
    cbn [mbind result_bind].
    destruct arg as [| |b0|n0|s0|sig|k0|k0|a0|d0]; try discriminate.
    destruct (sender_signatureLength tx) as [n|] eqn:En; [|discriminate].
    cbn [mbind result_bind]. apply sender_signatureLength_64 in En as ->.
    destruct (Nat.eqb_spec (length sig) 64) as [Hs|]; [|discriminate].
    intros [= <-]. eexists. split; [reflexivity|].
    intros [Hl Hb] Hsig. unfold Transaction_LENGTH in *. split.
    + rewrite <- Hs. apply set_outside. lia.
    + by apply set_bytes.
Qed.

(** X2.  Every setter of a transaction writes only the cells of its own field: after
    a successful call the buffer still holds 150 bytes, every cell outside the
    cells of the field is as before, the field is marked as set and no other
    mark has changed. *)
Theorem setters_write_their_own_cells (s : Setter) (tx : Transaction)
    (arg : JsValue) (tx' : Transaction) :
  tx_wf tx -> arg_wf arg -> run_setter s tx arg = Ok tx' ->
  tx_wf tx'
  /\ (forall i : nat,
        (i < (setter_cells s).1 \/ (setter_cells s).1 + (setter_cells s).2 <= i)%nat ->
        tx_bytes tx' !! i = tx_bytes tx !! i)
  /\ hasField tx' (setter_field s) = true
  /\ (forall f, f <> setter_field s -> hasField tx' f = hasField tx f).
Proof.
  intros Hwf Harg Hrun.
  destruct (setter_result s tx arg tx' Hrun) as (nb & -> & Hnb).
  destruct (Hnb Hwf Harg) as [[Hlen Hout] Hbytes].
  destruct (setFields_fields tx nb (setter_field s)) as (Hb & Hf & Hother).
  rewrite Hb. destruct Hwf as [Hl _]. repeat split; try done. congruence.
Qed.

Lemma setters_write_their_own_cells_witness :
  let tx := mkTransaction (JS.zeros 150) ∅ in
  let tx' := _setFields (with_bytes tx (write_u64 (JS.zeros 150) 77 5)) ["nonce"] in
  tx_wf tx'
  /\ (forall i : nat,
        (i < (setter_cells SetNonce).1
         \/ (setter_cells SetNonce).1 + (setter_cells SetNonce).2 <= i)%nat ->
        tx_bytes tx' !! i = tx_bytes tx !! i)
  /\ hasField tx' (setter_field SetNonce) = true
  /\ (forall f, f <> setter_field SetNonce -> hasField tx' f = hasField tx f).
Proof.
  intros tx tx'.
  apply (setters_write_their_own_cells SetNonce tx (JNumber (JInt 5)) tx').
  - split; [reflexivity|].
    exact (bool_decide_unpack (Forall is_byte (JS.zeros 150)) I).
  - exact I.
  - reflexivity.
Defined.

(** ** Constructing a transaction from its bytes *)

(** X3.  [new Transaction (bytes)] accepts [undefined] and the typed arrays of 150
    bytes, and nothing else.  Without bytes the buffer is 150 zeros and no
    field is set; with 150 bytes the buffer is a copy of them, which the
    [bytes] getter returns, and all ten fields are set. *)
Theorem transaction_constructor (b : JsValue) :
  match b with
  | JUndefined =>
      exists tx, Transaction_new b = Ok tx
        /\ tx_bytes tx = JS.zeros 150 /\ forall f, hasField tx f = false
  | JUint8Array l =>
      if decide (length l = 150%nat)
      then exists tx, Transaction_new b = Ok tx
             /\ tx_bytes tx = l /\ Transaction_bytes tx = l
             /\ Forall (fun f => hasField tx f = true)
                  ["version"; "sender"; "recipient"; "value"; "prefix"; "name";
                   "profitPercent"; "feePercent"; "nonce"; "signature"]
             /\ Transaction_version tx = Ok (JS.get l 0)
      else Transaction_new b = Err "bytes length must be 150 bytes"
  | _ => Transaction_new b = Err "bytes type must be Uint8Array"
  end.
Proof.
  destruct b as [| |b0|n0|s0|l|k0|k0|a0|d0]; try reflexivity.
  - eexists. split; [reflexivity|]. split; [reflexivity|]. intros f. reflexivity.
  - destruct (decide (length l = 150%nat)) as [Hl|Hl].
    + unfold Transaction_new. cbv zeta. rewrite Hl. cbn [Nat.eqb negb].
      eexists. split; [reflexivity|].
      assert (Hb : JS.set (JS.zeros Transaction_LENGTH) l 0 = l)
        by (apply set_front; by rewrite zeros_length).
      rewrite tx_bytes_setFields. cbn [tx_bytes with_bytes]. rewrite Hb.
      split; [done|]. split.
      { unfold Transaction_bytes. rewrite tx_bytes_setFields.
        cbn [tx_bytes with_bytes]. apply set_zeros_copy. }
      split.
      { repeat apply Forall_cons_2; try apply Forall_nil_2; reflexivity. }
      unfold Transaction_version. rewrite checkFields_present by reflexivity.
      cbn [_checkFields mbind result_bind]. rewrite tx_bytes_setFields.
      reflexivity.
    + unfold Transaction_new. cbv zeta.
      destruct (Nat.eqb_spec (length l) Transaction_LENGTH) as [E|E];
        [by unfold Transaction_LENGTH in E|reflexivity].
Qed.

(** ** The address fields *)

Lemma address_of_cells (b : bytes) (off : nat) (a : Address) :
  (off + 34 <= length b)%nat -> length (address_bytes a) = 34%nat ->
  Address_new (JUint8Array
    (JS.subarray (JS.set b (address_bytes a) off) off (off + 34))) = Ok a.
Proof.
  intros Hb Ha. rewrite set_at by lia. unfold JS.subarray.
  replace (off + 34 - off)%nat with 34%nat by lia.
  rewrite drop_app_length' by (rewrite length_take; lia).
  rewrite take_app_length' by done.
  unfold Address_new. rewrite Ha. cbn [Nat.eqb negb Address_LENGTH address_bytes].
  rewrite set_front by (rewrite zeros_length; exact Ha). by destruct a.
Qed.

(** X4.  The sender setter takes a Genesis-version address on a Genesis transaction
    and any other address on any other transaction; the sender and recipient
    getters return the address that a successful call of the setter stored. *)
Theorem address_fields_roundtrip (tx : Transaction) (a : Address) :
  tx_wf tx -> address_wf a -> hasField tx "version" = true ->
  (is_ok (Transaction_set_sender tx (JAddress a)) = true
   <-> (JS.get (tx_bytes tx) 0 = Transaction_Genesis
        <-> Address_version a = Address_Genesis))
  /\ (forall tx', Transaction_set_sender tx (JAddress a) = Ok tx' ->
        Transaction_sender tx' = Ok a)
  /\ (forall tx', Transaction_set_recipient tx (JAddress a) = Ok tx' ->
        Transaction_recipient tx' = Ok a).
Proof.
  intros [Hl Hb] [Hal Hab] Hv. unfold Transaction_LENGTH, Address_LENGTH in *.
  destruct (version_getter tx Hv) as [Hc Hg].
  split; [|split].
  - unfold Transaction_set_sender. rewrite Hc, Hg. cbn [mbind result_bind].
    unfold Transaction_Genesis, Address_Genesis.
    destruct (Z.eqb_spec (JS.get (tx_bytes tx) 0) 0) as [E1|E1];
      destruct (Z.eqb_spec (Address_version a) 0) as [E2|E2]; cbn;
      split; try done; intros [H1 H2]; try done.
    + by specialize (H1 E1).
    + by specialize (H2 E2).
  - intros tx' Hset.
    destruct (setter_result SetSender tx (JAddress a) tx' Hset) as (nb & -> & _).
    cbn [setter_field] in *.
    revert Hset. unfold run_setter, Transaction_set_sender.
    rewrite Hc, Hg. cbn [mbind result_bind].
    destruct (_ && _); [discriminate|]. destruct (_ && _); [discriminate|].
    intros [= E]. unfold Transaction_sender.
    rewrite checkFields_present
      by (destruct (setFields_fields tx nb "sender") as (_ & H & _); exact H).
    cbn [_checkFields mbind result_bind].
    rewrite tx_bytes_setFields. cbn [tx_bytes with_bytes].
    rewrite <- E, Address_bytes_copy.
    apply (address_of_cells (tx_bytes tx) 1 a); [lia|done].
  - intros tx' Hset.
    destruct (setter_result SetRecipient tx (JAddress a) tx' Hset) as (nb & -> & _).
    cbn [setter_field] in *.
    destruct (setFields_fields tx nb "recipient") as (Hnb & Hfr & Hfo).
    revert Hset. unfold run_setter, Transaction_set_recipient.
    rewrite Hc, Hg. cbn [mbind result_bind].
    destruct (_ || _) eqn:Ev; [discriminate|].
    destruct (Address_version a =? Address_Genesis); [discriminate|].
    destruct (_ && _); [discriminate|]. destruct (_ && _); [discriminate|].
    intros [= E].
    assert (Hv' : hasField (_setFields (with_bytes tx nb) ["recipient"]) "version"
                  = true) by (rewrite Hfo; done).
    destruct (version_getter _ Hv') as [Hc' Hg'].
    unfold Transaction_recipient. rewrite Hc', Hg'. cbn [mbind result_bind].
    rewrite Hnb.
    assert (H0 : JS.get nb 0 = JS.get (tx_bytes tx) 0).
    { rewrite <- E, Address_bytes_copy, set_at by lia.
      rewrite get_app_l by (rewrite length_take; lia).
      rewrite !get_nat by lia. by rewrite lookup_take_lt by (simpl; lia). }
    rewrite H0, Ev. rewrite checkFields_present by done.
    cbn [_checkFields mbind result_bind].
    rewrite <- E, Address_bytes_copy.
    apply (address_of_cells (tx_bytes tx) 35 a); [lia|done].
Qed.

Lemma address_fields_roundtrip_witness :
  let tx := mkTransaction (1 :: JS.zeros 149) {["version" := true]} in
  let a := mkAddress ([85; 169] ++ JS.zeros 32) in
  (is_ok (Transaction_set_sender tx (JAddress a)) = true
   <-> (JS.get (tx_bytes tx) 0 = Transaction_Genesis
        <-> Address_version a = Address_Genesis))
  /\ (forall tx', Transaction_set_sender tx (JAddress a) = Ok tx' ->
        Transaction_sender tx' = Ok a)
  /\ (forall tx', Transaction_set_recipient tx (JAddress a) = Ok tx' ->
        Transaction_recipient tx' = Ok a).
Proof.
  intros tx a. apply (address_fields_roundtrip tx a).
  - split; [reflexivity|].
    exact (bool_decide_unpack (Forall is_byte (1 :: JS.zeros 149)) I).
  - split; [reflexivity|].
    exact (bool_decide_unpack (Forall is_byte ([85; 169] ++ JS.zeros 32)) I).
  - reflexivity.
Defined.

(** ** UTF-8 *)

(** The 32-bit operators on small non-negative numbers, as arithmetic. *)
Lemma js_and_ones x k :
  0 <= x < 2147483648 -> 0 <= k < 31 -> JS.and x (Z.ones k) = x mod 2 ^ k.
Proof.
  intros Hx Hk. rewrite and_small.
  - apply Z.land_ones. lia.
  - lia.
  - rewrite Z.ones_equiv.
    assert (0 < 2 ^ k <= 2 ^ 30) by (split; [apply Z.pow_pos_nonneg; lia|
      apply Z.pow_le_mono_r; lia]).
    change (2 ^ 30) with 1073741824 in *. lia.
Qed.

Lemma lor_low a v k :
  0 <= k -> 0 <= v < 2 ^ k -> Z.lor (a * 2 ^ k) v = a * 2 ^ k + v.
Proof.
  intros Hk Hv. rewrite <- lxor_low by done. symmetry. apply Z.lxor_lor.
  apply Z.bits_inj'. intros i Hi. rewrite Z.land_spec, Z.bits_0.
  destruct (Z.lt_ge_cases i k).
  - rewrite Z.mul_pow2_bits_low by lia. reflexivity.
  - destruct (Z.eq_dec v 0) as [->|]; [rewrite Z.bits_0; apply andb_false_r|].
    rewrite (Z.bits_above_log2 v i); [apply andb_false_r|lia|].
    apply Z.log2_lt_pow2; [lia|].
    eapply Z.lt_le_trans; [apply Hv|]. apply Z.pow_le_mono_r; lia.
Qed.

Lemma js_or_low c v k a :
  c = a * 2 ^ k -> 0 <= k -> 0 <= a -> 0 <= v < 2 ^ k -> c + v < 2147483648 ->
  JS.or c v = c + v.
Proof.
  intros -> Hk Ha Hv Hs.
  assert (0 < 2 ^ k) by (apply Z.pow_pos_nonneg; lia).
  rewrite or_small by nia. by apply lor_low.
Qed.

Lemma js_or_high v c k a :
  c = a * 2 ^ k -> 0 <= k -> 0 <= a -> 0 <= v < 2 ^ k -> c + v < 2147483648 ->
  JS.or v c = c + v.
Proof.
  intros -> Hk Ha Hv Hs.
  assert (0 < 2 ^ k) by (apply Z.pow_pos_nonneg; lia).
  rewrite or_small by nia. rewrite Z.lor_comm. by apply lor_low.
Qed.

Lemma ToUint16_small z : 0 <= z < 65536 -> JS.ToUint16 z = z.
Proof. intros. rewrite ToUint16_mod. by apply Z.mod_small. Qed.

(** The four shapes of a sequence that [Utf8Decode] reads. *)
Lemma decode_1 fuel b rest :
  b < 128 ->
  Utf8Decode_from (S fuel) (b :: rest) = JS.ToUint16 b :: Utf8Decode_from fuel rest.
Proof. intros H. cbn [Utf8Decode_from]. by replace (b <? 128) with true by lia. Qed.

Lemma decode_2 fuel b0 b1 rest :
  191 < b0 < 224 ->
  Utf8Decode_from (S fuel) (b0 :: b1 :: rest)
  = JS.ToUint16 (JS.or (JS.shl (JS.and b0 31) 6) (JS.and b1 63))
      :: Utf8Decode_from fuel rest.
Proof.
  intros H. cbn [Utf8Decode_from]. replace (b0 <? 128) with false by lia.
  replace ((191 <? b0) && (b0 <? 224)) with true by lia. reflexivity.
Qed.

Lemma decode_3 fuel b0 b1 b2 rest :
  223 < b0 < 240 ->
  Utf8Decode_from (S fuel) (b0 :: b1 :: b2 :: rest)
  = JS.ToUint16 (JS.or (JS.or (JS.shl (JS.and b0 15) 12)
                              (JS.shl (JS.and b1 63) 6))
                       (JS.and b2 63))
      :: Utf8Decode_from fuel rest.
Proof.
  intros H. cbn [Utf8Decode_from]. replace (b0 <? 128) with false by lia.
  replace ((191 <? b0) && (b0 <? 224)) with false by lia.
  replace ((223 <? b0) && (b0 <? 240)) with true by lia. reflexivity.
Qed.

Lemma decode_4 fuel b0 b1 b2 b3 rest :
  240 <= b0 ->
  Utf8Decode_from (S fuel) (b0 :: b1 :: b2 :: b3 :: rest)
  = let charCode :=
      JS.or (JS.or (JS.or (JS.shl (JS.and b0 7) 18)
                          (JS.shl (JS.and b1 63) 12))
                   (JS.shl (JS.and b2 63) 6))
            (JS.and b3 63) - 65536 in
    JS.ToUint16 (JS.or (JS.shr charCode 10) 55296)
      :: JS.ToUint16 (JS.or (JS.and charCode 1023) 56320)
      :: Utf8Decode_from fuel rest.
Proof.
  intros H. cbn [Utf8Decode_from]. replace (b0 <? 128) with false by lia.
  replace ((191 <? b0) && (b0 <? 224)) with false by lia.
  replace ((223 <? b0) && (b0 <? 240)) with false by lia. reflexivity.
Qed.

Ltac div_mod_lia := Z.div_mod_to_equations; lia.

Lemma js_and_mask x m k :
  m = Z.ones k -> 0 <= k < 31 -> 0 <= x < 2147483648 -> JS.and x m = x mod 2 ^ k.
Proof. intros -> Hk Hx. by apply js_and_ones. Qed.

Lemma js_shr_div x n : 0 <= x < 2147483648 -> 0 <= n < 32 -> JS.shr x n = x / 2 ^ n.
Proof. intros. apply shr_small; lia. Qed.

Lemma js_shl_mul x n :
  0 <= n < 32 -> 0 <= x -> x * 2 ^ n < 2147483648 -> JS.shl x n = x * 2 ^ n.
Proof.
  intros Hn Hx Hb. assert (0 < 2 ^ n) by (apply Z.pow_pos_nonneg; lia).
  apply shl_small; [done|nia|nia].
Qed.

(** What [Utf8Encode] writes for a code unit, by its range. *)
Lemma encode_1 c s : 0 <= c < 128 -> Utf8Encode (c :: s) = c :: Utf8Encode s.
Proof.
  intros H. cbn [Utf8Encode]. replace (c <? 128) with true by lia.
  by rewrite ToUint8_small by lia.
Qed.

Lemma encode_2 c s :
  128 <= c < 2048 ->
  Utf8Encode (c :: s) = (192 + c / 64) :: (128 + c mod 64) :: Utf8Encode s.
Proof.
  intros H. cbn [Utf8Encode]. replace (c <? 128) with false by lia.
  replace (c <? 2048) with true by lia.
  rewrite (js_shr_div c 6), (js_and_mask c 63 6) by (done || lia).
  change (2 ^ 6) with 64.
  rewrite (js_or_low 192 (c / 64) 6 3), (js_or_low 128 (c mod 64) 6 2)
    by (try reflexivity; change (2 ^ 6) with 64; div_mod_lia).
  rewrite !ToUint8_small by div_mod_lia. reflexivity.
Qed.

Lemma encode_3 c s :
  2048 <= c < 55296 \/ 57344 <= c < 65536 ->
  Utf8Encode (c :: s)
  = (224 + c / 4096) :: (128 + (c / 64) mod 64) :: (128 + c mod 64)
      :: Utf8Encode s.
Proof.
  intros H. cbn [Utf8Encode]. replace (c <? 128) with false by lia.
  replace (c <? 2048) with false by lia.
  replace ((c <? 55296) || (57344 <=? c)) with true by lia.
  rewrite (js_shr_div c 12), (js_shr_div c 6) by lia.
  change (2 ^ 12) with 4096. change (2 ^ 6) with 64.
  rewrite (js_and_mask (c / 64) 63 6), (js_and_mask c 63 6)
    by (done || lia || div_mod_lia).
  change (2 ^ 6) with 64.
  rewrite (js_or_low 224 (c / 4096) 4 14),
    (js_or_low 128 ((c / 64) mod 64) 6 2), (js_or_low 128 (c mod 64) 6 2)
    by (try reflexivity; change (2 ^ 6) with 64; change (2 ^ 4) with 16;
        div_mod_lia).
  rewrite !ToUint8_small by div_mod_lia. reflexivity.
Qed.

Lemma encode_4 hi lo s :
  55296 <= hi < 56320 -> 0 <= lo < 65536 ->
  Utf8Encode (hi :: lo :: s)
  = let chr := 65536 + (hi mod 1024) * 1024 + lo mod 1024 in
    (240 + chr / 262144) :: (128 + (chr / 4096) mod 64)
      :: (128 + (chr / 64) mod 64) :: (128 + chr mod 64) :: Utf8Encode s.
Proof.
  intros Hhi Hlo. cbn [Utf8Encode]. replace (hi <? 128) with false by lia.
  replace (hi <? 2048) with false by lia.
  replace ((hi <? 55296) || (57344 <=? hi)) with false by lia.
  cbv zeta. cbn [app].
  rewrite (js_and_mask hi 1023 10), (js_and_mask lo 1023 10) by (done || lia).
  change (2 ^ 10) with 1024.
  rewrite (js_shl_mul (hi mod 1024) 10)
    by (try lia; change (2 ^ 10) with 1024; div_mod_lia).
  change (2 ^ 10) with 1024.
  set (chr := 65536 + hi mod 1024 * 1024 + lo mod 1024).
  assert (Hchr : 65536 <= chr < 1114112) by (unfold chr; div_mod_lia).
  rewrite (js_shr_div chr 18), (js_shr_div chr 12), (js_shr_div chr 6) by lia.
  change (2 ^ 18) with 262144. change (2 ^ 12) with 4096. change (2 ^ 6) with 64.
  rewrite (js_and_mask (chr / 4096) 63 6), (js_and_mask (chr / 64) 63 6),
    (js_and_mask chr 63 6) by (done || lia || div_mod_lia).
  change (2 ^ 6) with 64.
  rewrite (js_or_low 240 (chr / 262144) 3 30),
    (js_or_low 128 ((chr / 4096) mod 64) 6 2),
    (js_or_low 128 ((chr / 64) mod 64) 6 2), (js_or_low 128 (chr mod 64) 6 2)
    by (try reflexivity; change (2 ^ 6) with 64; change (2 ^ 3) with 8;
        div_mod_lia).
  rewrite !ToUint8_small by div_mod_lia. reflexivity.
Qed.

(** What [Utf8Decode] computes from the bytes of a code unit. *)
Lemma decode_value_2 c :
  128 <= c < 2048 ->
  JS.ToUint16 (JS.or (JS.shl (JS.and (192 + c / 64) 31) 6)
                     (JS.and (128 + c mod 64) 63)) = c.
Proof.
  intros H.
  rewrite (js_and_mask (192 + c / 64) 31 5), (js_and_mask (128 + c mod 64) 63 6)
    by (done || lia || div_mod_lia).
  change (2 ^ 5) with 32. change (2 ^ 6) with 64.
  replace ((192 + c / 64) mod 32) with (c / 64) by div_mod_lia.
  replace ((128 + c mod 64) mod 64) with (c mod 64) by div_mod_lia.
  rewrite (js_shl_mul (c / 64) 6) by (try lia; change (2 ^ 6) with 64; div_mod_lia).
  rewrite (js_or_low _ (c mod 64) 6 (c / 64))
    by (try reflexivity; change (2 ^ 6) with 64; div_mod_lia).
  change (2 ^ 6) with 64. rewrite ToUint16_small by div_mod_lia. div_mod_lia.
Qed.

Lemma decode_value_3 c :
  2048 <= c < 65536 ->
  JS.ToUint16 (JS.or (JS.or (JS.shl (JS.and (224 + c / 4096) 15) 12)
                            (JS.shl (JS.and (128 + (c / 64) mod 64) 63) 6))
                     (JS.and (128 + c mod 64) 63)) = c.
Proof.
  intros H.
  rewrite (js_and_mask (224 + c / 4096) 15 4),
    (js_and_mask (128 + (c / 64) mod 64) 63 6),
    (js_and_mask (128 + c mod 64) 63 6) by (done || lia || div_mod_lia).
  change (2 ^ 4) with 16. change (2 ^ 6) with 64.
  replace ((224 + c / 4096) mod 16) with (c / 4096) by div_mod_lia.
  replace ((128 + (c / 64) mod 64) mod 64) with ((c / 64) mod 64) by div_mod_lia.
  replace ((128 + c mod 64) mod 64) with (c mod 64) by div_mod_lia.
  rewrite (js_shl_mul (c / 4096) 12), (js_shl_mul ((c / 64) mod 64) 6)
    by (try lia; change (2 ^ 12) with 4096; change (2 ^ 6) with 64; div_mod_lia).
  change (2 ^ 12) with 4096. change (2 ^ 6) with 64.
  rewrite (js_or_low (c / 4096 * 4096) ((c / 64) mod 64 * 64) 12 (c / 4096))
    by (try reflexivity; change (2 ^ 12) with 4096; div_mod_lia).
  rewrite (js_or_low _ (c mod 64) 6 (c / 4096 * 64 + (c / 64) mod 64))
    by (change (2 ^ 6) with 64; div_mod_lia).
  rewrite ToUint16_small by div_mod_lia. div_mod_lia.
Qed.

Lemma decode_value_4 chr :
  65536 <= chr < 1114112 ->
  JS.or (JS.or (JS.or (JS.shl (JS.and (240 + chr / 262144) 7) 18)
                      (JS.shl (JS.and (128 + (chr / 4096) mod 64) 63) 12))
               (JS.shl (JS.and (128 + (chr / 64) mod 64) 63) 6))
        (JS.and (128 + chr mod 64) 63) = chr.
Proof.
  intros H.
  rewrite (js_and_mask (240 + chr / 262144) 7 3),
    (js_and_mask (128 + (chr / 4096) mod 64) 63 6),
    (js_and_mask (128 + (chr / 64) mod 64) 63 6),
    (js_and_mask (128 + chr mod 64) 63 6) by (done || lia || div_mod_lia).
  change (2 ^ 3) with 8. change (2 ^ 6) with 64.
  replace ((240 + chr / 262144) mod 8) with (chr / 262144) by div_mod_lia.
  replace ((128 + (chr / 4096) mod 64) mod 64) with ((chr / 4096) mod 64)
    by div_mod_lia.
  replace ((128 + (chr / 64) mod 64) mod 64) with ((chr / 64) mod 64)
    by div_mod_lia.
  replace ((128 + chr mod 64) mod 64) with (chr mod 64) by div_mod_lia.
  rewrite (js_shl_mul (chr / 262144) 18), (js_shl_mul ((chr / 4096) mod 64) 12),
    (js_shl_mul ((chr / 64) mod 64) 6)
    by (try lia; change (2 ^ 18) with 262144; change (2 ^ 12) with 4096;
        change (2 ^ 6) with 64; div_mod_lia).
  change (2 ^ 18) with 262144. change (2 ^ 12) with 4096. change (2 ^ 6) with 64.
  rewrite (js_or_low (chr / 262144 * 262144) ((chr / 4096) mod 64 * 4096) 18
             (chr / 262144))
    by (try reflexivity; change (2 ^ 18) with 262144; div_mod_lia).
  rewrite (js_or_low _ ((chr / 64) mod 64 * 64) 12
             (chr / 262144 * 64 + (chr / 4096) mod 64))
    by (change (2 ^ 12) with 4096; div_mod_lia).
  rewrite (js_or_low _ (chr mod 64) 6
             ((chr / 262144 * 64 + (chr / 4096) mod 64) * 64 + (chr / 64) mod 64))
    by (change (2 ^ 6) with 64; div_mod_lia).
  div_mod_lia.
Qed.

Lemma decode_surrogates hi lo :
  55296 <= hi < 56320 -> 56320 <= lo < 57344 ->
  let charCode := 65536 + hi mod 1024 * 1024 + lo mod 1024 - 65536 in
  JS.ToUint16 (JS.or (JS.shr charCode 10) 55296) = hi
  /\ JS.ToUint16 (JS.or (JS.and charCode 1023) 56320) = lo.
Proof.
  intros Hhi Hlo. cbv zeta.
  replace (65536 + hi mod 1024 * 1024 + lo mod 1024 - 65536)
    with (hi mod 1024 * 1024 + lo mod 1024) by lia.
  set (cc := hi mod 1024 * 1024 + lo mod 1024).
  assert (Hcc : 0 <= cc < 1048576) by (unfold cc; div_mod_lia).
  rewrite (js_shr_div cc 10), (js_and_mask cc 1023 10) by (done || lia).
  change (2 ^ 10) with 1024.
  rewrite (js_or_high (cc / 1024) 55296 10 54),
    (js_or_high (cc mod 1024) 56320 10 55)
    by (try reflexivity; change (2 ^ 10) with 1024; div_mod_lia).
  rewrite !ToUint16_small by div_mod_lia. unfold cc. split; div_mod_lia.
Qed.

Lemma utf8_roundtrip_fuel (s : jsstring) :
  utf16_wf s ->
  forall fuel, (length (Utf8Encode s) <= fuel)%nat ->
    Utf8Decode_from fuel (Utf8Encode s) = s.
Proof.
  induction 1 as [|c s Hc _ IH|hi lo s Hhi Hlo _ IH]; intros fuel Hfuel.
  - by destruct fuel.
  - destruct (Z.lt_ge_cases c 128); [|destruct (Z.lt_ge_cases c 2048)].
    + rewrite encode_1 in * by lia. destruct fuel; simpl in Hfuel; [lia|].
      rewrite decode_1, ToUint16_small, IH by lia. reflexivity.
    + rewrite encode_2 in * by lia. destruct fuel; simpl in Hfuel; [lia|].
      rewrite decode_2 by div_mod_lia.
      rewrite decode_value_2, IH by lia. reflexivity.
    + rewrite encode_3 in * by lia. destruct fuel; simpl in Hfuel; [lia|].
      rewrite decode_3 by div_mod_lia.
      rewrite decode_value_3, IH by lia. reflexivity.
  - rewrite encode_4 in * by lia. cbv zeta in *.
    destruct fuel; simpl in Hfuel; [lia|].
    set (chr := 65536 + hi mod 1024 * 1024 + lo mod 1024) in *.
    assert (Hchr : 65536 <= chr < 1114112) by (unfold chr; div_mod_lia).
    rewrite decode_4 by div_mod_lia. cbv zeta.
    rewrite decode_value_4 by done.
    destruct (decode_surrogates hi lo Hhi Hlo) as [E1 E2]. fold chr in E1, E2.
    rewrite E1, E2, IH by lia. reflexivity.
Qed.

Lemma utf8_length (s : jsstring) :
  utf16_wf s ->
  (length s <= length (Utf8Encode s) <= 3 * length s)%nat.
Proof.
  induction 1 as [|c s Hc _ IH|hi lo s Hhi Hlo _ IH]; [simpl; lia| |].
  - destruct (Z.lt_ge_cases c 128); [|destruct (Z.lt_ge_cases c 2048)].
    + rewrite encode_1 by lia. simpl. lia.
    + rewrite encode_2 by lia. simpl. lia.
    + rewrite encode_3 by lia. simpl. lia.
  - rewrite encode_4 by lia. simpl. lia.
Qed.

Lemma utf8_decode_encode (s : jsstring) :
  utf16_wf s -> Utf8Decode (Utf8Encode s) = s.
Proof. intros H. unfold Utf8Decode. by apply utf8_roundtrip_fuel. Qed.

(** X5.  Decoding the UTF-8 bytes that [Utf8Encode] writes for a well-formed UTF-16
    string gives the string back; the encoding is a list of bytes, with one to
    three bytes for each code unit. *)
Theorem utf8_roundtrip (s : jsstring) :
  utf16_wf s ->
  Utf8Decode (Utf8Encode s) = s
  /\ Forall is_byte (Utf8Encode s)
  /\ (length s <= length (Utf8Encode s) <= 3 * length s)%nat.
Proof.
  intros H. split; [|split].
  - by apply utf8_decode_encode.
  - apply Utf8Encode_bytes.
  - by apply utf8_length.
Qed.

Lemma utf8_roundtrip_witness :
  Utf8Decode (Utf8Encode [104; 233; 8364; 55357; 56832]) = [104; 233; 8364; 55357; 56832]
  /\ Forall is_byte (Utf8Encode [104; 233; 8364; 55357; 56832])
  /\ (length [104; 233; 8364; 55357; 56832]%Z
      <= length (Utf8Encode [104; 233; 8364; 55357; 56832]%Z)
      <= 3 * length [104; 233; 8364; 55357; 56832]%Z)%nat.
Proof.
  apply (utf8_roundtrip [104; 233; 8364; 55357; 56832]).
  apply utf16_unit; [lia|]. apply utf16_unit; [lia|]. apply utf16_unit; [lia|].
  apply utf16_pair; [lia|lia|]. apply utf16_nil.
Defined.

(** ** Prefixes as text *)

Lemma prefixToVersion_inv p v :
  prefixToVersion p = Ok v ->
  exists s, p = JString s
    /\ ((s = str "genesis" /\ v = 0)
        \/ (exists a b c, s = [a + 96; b + 96; c + 96]
              /\ 1 <= a <= 26 /\ 1 <= b <= 26 /\ 1 <= c <= 26
              /\ v = a * 1024 + b * 32 + c)).
Proof.
  unfold prefixToVersion. destruct p as [| |b0|n|s|b0|k0|k0|a0|d0]; try discriminate.
  intros H. exists s. split; [done|]. revert H.
  destruct (bool_decide (s = str "genesis")) eqn:E.
  - apply bool_decide_eq_true_1 in E. intros [= <-]. by left.
  - destruct s as [|c0 [|c1 [|c2 [|]]]]; try discriminate.
    destruct (Z.ltb_spec (c0 - 96) 1); [discriminate|].
    destruct (Z.ltb_spec 26 (c0 - 96)); [discriminate|].
    destruct (Z.ltb_spec (c1 - 96) 1); [discriminate|].
    destruct (Z.ltb_spec 26 (c1 - 96)); [discriminate|].
    destruct (Z.ltb_spec (c2 - 96) 1); [discriminate|].
    destruct (Z.ltb_spec 26 (c2 - 96)); [discriminate|].
    simpl orb. cbv iota.
    rewrite !shl_small by (change (2 ^ 10) with 1024; change (2 ^ 5) with 32; lia).
    change (2 ^ 10) with 1024; change (2 ^ 5) with 32.
    intros [= <-]. right. exists (c0 - 96), (c1 - 96), (c2 - 96).
    split; [repeat f_equal; lia|]. repeat split; lia.
Qed.

Lemma letters_version a b c :
  1 <= a <= 26 -> 1 <= b <= 26 -> 1 <= c <= 26 ->
  let v := a * 1024 + b * 32 + c in
  0 < v < 32768 /\ legal_version v
  /\ version_field v 2 = a /\ version_field v 1 = b /\ version_field v 0 = c.
Proof.
  intros Ha Hb Hc v. unfold v, legal_version, version_field.
  change (2 ^ 15) with 32768. change (2 ^ (5 * 2)) with 1024.
  change (2 ^ (5 * 1)) with 32. change (2 ^ (5 * 0)) with 1.
  rewrite Z.div_1_r.
  assert (E2 : ((a * 1024 + b * 32 + c) / 1024) mod 32 = a) by div_mod_lia.
  assert (E1 : ((a * 1024 + b * 32 + c) / 32) mod 32 = b) by div_mod_lia.
  assert (E0 : (a * 1024 + b * 32 + c) mod 32 = c) by div_mod_lia.
  rewrite E2, E1, E0. split; [lia|]. split; [|done].
  right. split; [div_mod_lia|lia].
Qed.

(** Every string of three lower-case letters, and 'genesis', is a prefix. *)
Lemma prefixToVersion_accepts (s : jsstring) :
  s = str "genesis" \/ (length s = 3%nat /\ Forall lower_letter s) ->
  is_ok (prefixToVersion (JString s)) = true.
Proof.
  intros [->|[Hl Hs]]; [reflexivity|].
  destruct s as [|c0 [|c1 [|c2 [|]]]]; try discriminate.
  inversion Hs as [|? ? H0 Hs1]; subst. inversion Hs1 as [|? ? H1 Hs2]; subst.
  inversion Hs2 as [|? ? H2 _]; subst. unfold lower_letter in *.
  replace c0 with (c0 - 96 + 96) by lia. replace c1 with (c1 - 96 + 96) by lia.
  replace c2 with (c2 - 96 + 96) by lia.
  by rewrite prefixToVersion_letters by lia.
Qed.

Lemma prefixToVersion_back (p : JsValue) (v : Z) :
  prefixToVersion p = Ok v ->
  exists s, p = JString s
    /\ (s = str "genesis" \/ (length s = 3%nat /\ Forall lower_letter s))
    /\ 0 <= v < 32768 /\ legal_version v
    /\ versionToPrefix (JNumber (JInt v)) = Ok s.
Proof.
  intros H. destruct (prefixToVersion_inv p v H) as (s & -> & Hs).
  exists s. split; [done|].
  destruct Hs as [[-> ->]|(a & b & c & -> & Ha & Hb & Hc & ->)].
  - split; [by left|]. split; [lia|]. split; [by left|done].
  - destruct (letters_version a b c Ha Hb Hc) as (Hv & Hl & E2 & E1 & E0).
    cbv zeta in *.
    split; [right; split; [done|repeat constructor; unfold lower_letter; lia]|].
    split; [lia|]. split; [done|].
    destruct (versionToPrefix_legal (a * 1024 + b * 32 + c)) as [Hp _];
      [lia|done|].
    by rewrite Hp, E2, E1, E0.
Qed.

(** X6.  [prefixToVersion] accepts the string 'genesis' and the strings of three
    lower-case letters, and nothing else; the version word that it returns is
    a legal one below [2^15], and [versionToPrefix] turns it back into the
    string. *)
Theorem prefix_text_roundtrip (p : JsValue) :
  (is_ok (prefixToVersion p) = true
   <-> exists s, p = JString s
         /\ (s = str "genesis" \/ (length s = 3%nat /\ Forall lower_letter s)))
  /\ (forall v, prefixToVersion p = Ok v ->
        0 <= v < 32768 /\ legal_version v
        /\ exists s, p = JString s /\ versionToPrefix (JNumber (JInt v)) = Ok s).
Proof.
  split.
  - split.
    + destruct (prefixToVersion p) as [v|] eqn:E; [|discriminate]. intros _.
      destruct (prefixToVersion_back p v E) as (s & -> & Hs & _). by exists s.
    + intros (s & -> & Hs). by apply prefixToVersion_accepts.
  - intros v E. destruct (prefixToVersion_back p v E) as (s & -> & _ & Hv & Hl & Hp).
    split; [done|]. split; [done|]. by exists s.
Qed.

(** ** The fields of the structure transactions *)

Lemma same_outside_get off len (b b' : bytes) (i : nat) :
  same_outside off len b b' -> (i < off \/ off + len <= i)%nat ->
  JS.get b' (Z.of_nat i) = JS.get b (Z.of_nat i).
Proof.
  intros [_ H] Hi. rewrite !get_nat by lia. rewrite Nat2Z.id. by rewrite H.
Qed.

Lemma uint16_roundtrip (b : bytes) (off : nat) z :
  (off + 2 <= length b)%nat -> 0 <= z < 65536 ->
  JS.getUint16 (JS.setUint16 b (Z.of_nat off) z) (Z.of_nat off) = z.
Proof.
  intros Hb Hz. destruct (split_at b off 2 Hb) as (E & Hl1 & Hl2).
  destruct (take 2 (drop off b)) as [|m0 [|m1 [|]]]; try discriminate.
  set (l1 := take off b) in *. set (l3 := drop (off + 2) b) in *.
  clearbody l1 l3. cbn [app] in E. subst b off.
  rewrite setUint16_at, getUint16_at, ToUint16_small by done.
  change (2 ^ 8) with 256. div_mod_lia.
Qed.

(** After a setter has run on a transaction whose version is set, the version
    is still set and is the same. *)
Lemma version_kept s tx arg tx' :
  tx_wf tx -> arg_wf arg -> hasField tx "version" = true -> s <> SetVersion ->
  run_setter s tx arg = Ok tx' ->
  _checkFields tx' ["version"] = Ok ()
  /\ Transaction_version tx' = Ok (JS.get (tx_bytes tx) 0)
  /\ hasField tx' (setter_field s) = true.
Proof.
  intros Hwf Harg Hv Hs Hrun.
  destruct (setter_result s tx arg tx' Hrun) as (nb & -> & Hnb).
  destruct (Hnb Hwf Harg) as [Hout _].
  destruct (setFields_fields tx nb (setter_field s)) as (Hb & Hf & Hother).
  assert (Hv' : hasField (_setFields (with_bytes tx nb) [setter_field s]) "version"
                = true).
  { destruct (decide ("version" = setter_field s)) as [E|Hne].
    - rewrite E. exact Hf.
    - by rewrite Hother. }
  destruct (version_getter _ Hv') as [Hc Hg]. rewrite Hc, Hg, Hb.
  split; [done|]. split; [|done]. f_equal.
  apply (same_outside_get _ _ _ _ 0 Hout).
  destruct s; cbn; try lia. done.
Qed.

(** X7.  On a CreateStructure or UpdateStructure transaction the profit percent is
    an integer from 100 to 500 and the fee percent an integer from 0 to 2000:
    the setters accept exactly these, and the getters return what was set. *)
Theorem percent_fields (tx : Transaction) (arg : JsValue) :
  tx_wf tx -> hasField tx "version" = true ->
  JS.get (tx_bytes tx) 0 = Transaction_CreateStructure
  \/ JS.get (tx_bytes tx) 0 = Transaction_UpdateStructure ->
  (is_ok (Transaction_set_profitPercent tx arg) = true
   <-> exists z, arg = JNumber (JInt z) /\ 100 <= z <= 500)
  /\ (is_ok (Transaction_set_feePercent tx arg) = true
      <-> exists z, arg = JNumber (JInt z) /\ 0 <= z <= 2000)
  /\ (forall z tx', Transaction_set_profitPercent tx (JNumber (JInt z)) = Ok tx' ->
        Transaction_profitPercent tx' = Ok z)
  /\ (forall z tx', Transaction_set_feePercent tx (JNumber (JInt z)) = Ok tx' ->
        Transaction_feePercent tx' = Ok z).
Proof.
  intros Hwf Hv Hver. destruct (version_getter tx Hv) as [Hc Hg].
  assert (Havail : negb (JS.get (tx_bytes tx) 0 =? Transaction_CreateStructure)
                   && negb (JS.get (tx_bytes tx) 0 =? Transaction_UpdateStructure)
                   = false).
  { unfold Transaction_CreateStructure, Transaction_UpdateStructure in *.
    destruct Hver as [-> | ->]; reflexivity. }
  destruct Hwf as [Hl Hb]. unfold Transaction_LENGTH in Hl.
  split; [|split; [|split]].
  - unfold Transaction_set_profitPercent. rewrite Hc, Hg. cbn [mbind result_bind].
    rewrite Havail.
    destruct arg as [| |b0|n|s0|l0|k0|k0|a0|d0];
      try (split; [discriminate|intros (z & Hz & _); discriminate]).
    destruct n as [z|fl| |neg]; cbn;
      try (split; [discriminate|intros (z' & Hz & _); discriminate]).
    + destruct (Z.ltb_spec z 100); [cbn; split; [discriminate|
        intros (z' & [= <-] & Hz'); lia]|].
      destruct (Z.ltb_spec 500 z); cbn.
      * split; [discriminate|intros (z' & [= <-] & Hz'); lia].
      * split; [intros _; exists z; split; [done|lia]|done].
    + destruct neg; cbn; split; try discriminate;
        intros (z' & Hz & _); discriminate.
  - unfold Transaction_set_feePercent. rewrite Hc, Hg. cbn [mbind result_bind].
    rewrite Havail.
    destruct arg as [| |b0|n|s0|l0|k0|k0|a0|d0];
      try (split; [discriminate|intros (z & Hz & _); discriminate]).
    destruct n as [z|fl| |neg]; cbn;
      try (split; [discriminate|intros (z' & Hz & _); discriminate]).
    + destruct (Z.ltb_spec z 0); [cbn; split; [discriminate|
        intros (z' & [= <-] & Hz'); lia]|].
      destruct (Z.ltb_spec 2000 z); cbn.
      * split; [discriminate|intros (z' & [= <-] & Hz'); lia].
      * split; [intros _; exists z; split; [done|lia]|done].
    + destruct neg; cbn; split; try discriminate;
        intros (z' & Hz & _); discriminate.
  - intros z tx' Hset.
    destruct (version_kept SetProfitPercent tx (JNumber (JInt z)) tx' (conj Hl Hb) I Hv
                ltac:(discriminate) Hset) as (Hc' & Hg' & Hf').
    cbn [setter_field] in Hf'.
    unfold Transaction_profitPercent. rewrite Hc', Hg'. cbn [mbind result_bind].
    rewrite Havail, checkFields_present by done.
    cbn [_checkFields mbind result_bind].
    revert Hset. unfold Transaction_set_profitPercent.
    rewrite Hc, Hg. cbn [mbind result_bind]. rewrite Havail. cbn.
    destruct (Z.ltb_spec z 100); [discriminate|].
    destruct (Z.ltb_spec 500 z); [discriminate|]. cbn.
    intros [= <-]. rewrite tx_bytes_setFields. cbn [tx_bytes with_bytes].
    f_equal. apply (uint16_roundtrip (tx_bytes tx) 37); lia.
  - intros z tx' Hset.
    destruct (version_kept SetFeePercent tx (JNumber (JInt z)) tx' (conj Hl Hb) I Hv
                ltac:(discriminate) Hset) as (Hc' & Hg' & Hf').
    cbn [setter_field] in Hf'.
    unfold Transaction_feePercent. rewrite Hc', Hg'. cbn [mbind result_bind].
    rewrite Havail, checkFields_present by done.
    cbn [_checkFields mbind result_bind].
    revert Hset. unfold Transaction_set_feePercent.
    rewrite Hc, Hg. cbn [mbind result_bind]. rewrite Havail. cbn.
    destruct (Z.ltb_spec z 0); [discriminate|].
    destruct (Z.ltb_spec 2000 z); [discriminate|]. cbn.
    intros [= <-]. rewrite tx_bytes_setFields. cbn [tx_bytes with_bytes].
    f_equal. apply (uint16_roundtrip (tx_bytes tx) 39); lia.
Qed.

Lemma percent_fields_witness :
  let tx := mkTransaction (2 :: JS.zeros 149) {["version" := true]} in
  (is_ok (Transaction_set_profitPercent tx (JNumber (JInt 250))) = true
   <-> exists z, JNumber (JInt 250) = JNumber (JInt z) /\ 100 <= z <= 500)
  /\ (is_ok (Transaction_set_feePercent tx (JNumber (JInt 250))) = true
      <-> exists z, JNumber (JInt 250) = JNumber (JInt z) /\ 0 <= z <= 2000)
  /\ (forall z tx', Transaction_set_profitPercent tx (JNumber (JInt z)) = Ok tx' ->
        Transaction_profitPercent tx' = Ok z)
  /\ (forall z tx', Transaction_set_feePercent tx (JNumber (JInt z)) = Ok tx' ->
        Transaction_feePercent tx' = Ok z).
Proof.
  intros tx. apply (percent_fields tx (JNumber (JInt 250))).
  - split; [reflexivity|].
    exact (bool_decide_unpack (Forall is_byte (2 :: JS.zeros 149)) I).
  - reflexivity.
  - left. reflexivity.
Defined.

Lemma name_cells (b txt : bytes) :
  (42 + length txt <= length b)%nat -> (length txt < 256)%nat ->
  let b' := JS.set (JS.put8 b 41 (Z.of_nat (length txt))) txt (41 + 1) in
  JS.get b' 41 = Z.of_nat (length txt)
  /\ JS.subarray b' (41 + 1) (41 + 1 + length txt) = txt.
Proof.
  intros Hb Ht. cbv zeta.
  rewrite set_at by (rewrite put8_length; lia). split.
  - rewrite get_app_l by (rewrite length_take, put8_length; lia).
    rewrite get_nat by lia. rewrite lookup_take_lt by (simpl; lia).
    unfold JS.put8, JS.put. cbn [Z.ltb Z.compare].
    rewrite list_lookup_insert_eq by (simpl; lia). cbn [default].
    apply ToUint8_small. lia.
  - unfold JS.subarray.
    rewrite drop_app_length' by (rewrite length_take, put8_length; lia).
    replace (41 + 1 + length txt - (41 + 1))%nat with (length txt) by lia.
    by rewrite take_app_length.
Qed.

(** X8.  On a CreateStructure or UpdateStructure transaction: the prefix setter
    accepts what [prefixToVersion] accepts, and the getter returns the string
    that was set; the name setter accepts the strings whose UTF-8 encoding has
    at most 35 bytes, and the getter returns the decoding of the stored bytes,
    which is the string that was set when that is well-formed UTF-16. *)
Theorem structure_text_fields (tx : Transaction) :
  tx_wf tx -> hasField tx "version" = true ->
  JS.get (tx_bytes tx) 0 = Transaction_CreateStructure
  \/ JS.get (tx_bytes tx) 0 = Transaction_UpdateStructure ->
  (forall p, is_ok (Transaction_set_prefix tx p) = is_ok (prefixToVersion p))
  /\ (forall s tx', Transaction_set_prefix tx (JString s) = Ok tx' ->
        Transaction_prefix tx' = Ok s)
  /\ (forall s, is_ok (Transaction_set_name tx (JString s)) = true
                <-> (length (Utf8Encode s) <= 35)%nat)
  /\ (forall s tx', Transaction_set_name tx (JString s) = Ok tx' ->
        Transaction_name tx' = Ok (Utf8Decode (Utf8Encode s))
        /\ (utf16_wf s -> Transaction_name tx' = Ok s)).
Proof.
  intros Hwf Hv Hver. destruct (version_getter tx Hv) as [Hc Hg].
  assert (Havail : negb (JS.get (tx_bytes tx) 0 =? Transaction_CreateStructure)
                   && negb (JS.get (tx_bytes tx) 0 =? Transaction_UpdateStructure)
                   = false).
  { unfold Transaction_CreateStructure, Transaction_UpdateStructure in *.
    destruct Hver as [-> | ->]; reflexivity. }
  pose proof Hwf as [Hl Hb]. unfold Transaction_LENGTH in Hl.
  split; [|split; [|split]].
  - intros p. unfold Transaction_set_prefix. rewrite Hc, Hg.
    cbn [mbind result_bind]. rewrite Havail.
    by destruct (prefixToVersion p).
  - intros s tx' Hset.
    destruct (version_kept SetPrefix tx (JString s) tx' Hwf I Hv
                ltac:(discriminate) Hset) as (Hc' & Hg' & Hf').
    cbn [setter_field] in Hf'.
    unfold Transaction_prefix. rewrite Hc', Hg'. cbn [mbind result_bind].
    rewrite Havail, checkFields_present by done.
    cbn [_checkFields mbind result_bind].
    revert Hset. unfold Transaction_set_prefix.
    rewrite Hc, Hg. cbn [mbind result_bind]. rewrite Havail.
    destruct (prefixToVersion (JString s)) as [v|] eqn:Ep; [|discriminate].
    cbn [mbind result_bind]. intros [= <-].
    rewrite tx_bytes_setFields. cbn [tx_bytes with_bytes].
    destruct (prefixToVersion_back _ v Ep) as (s' & [= <-] & _ & Hvr & _ & Hp).
    rewrite (uint16_roundtrip (tx_bytes tx) 35) by lia. exact Hp.
  - intros s. unfold Transaction_set_name. rewrite Hc, Hg.
    cbn [mbind result_bind]. rewrite Havail. cbv zeta.
    destruct (Nat.leb_spec 36 (length (Utf8Encode s))); cbn; split;
      try done; lia.
  - intros s tx' Hset.
    destruct (version_kept SetName tx (JString s) tx' Hwf I Hv
                ltac:(discriminate) Hset) as (Hc' & Hg' & Hf').
    cbn [setter_field] in Hf'.
    assert (E : Transaction_name tx' = Ok (Utf8Decode (Utf8Encode s))).
    { unfold Transaction_name. rewrite Hc', Hg'. cbn [mbind result_bind].
      rewrite Havail, checkFields_present by done.
      cbn [_checkFields mbind result_bind].
      revert Hset. unfold Transaction_set_name.
      rewrite Hc, Hg. cbn [mbind result_bind]. rewrite Havail. cbv zeta.
      destruct (Nat.leb_spec 36 (length (Utf8Encode s))) as [|Hlen];
        [discriminate|].
      intros [= <-]. rewrite tx_bytes_setFields. cbn [tx_bytes with_bytes].
      destruct (name_cells (tx_bytes tx) (Utf8Encode s)) as [E1 E2]; [lia|lia|].
      cbv zeta in E1, E2. change (41 + 1)%nat with 42%nat in *.
      rewrite E1, Nat2Z.id, E2. reflexivity. }
    split; [exact E|]. intros Hs. rewrite E.
    by rewrite (utf8_decode_encode s Hs).
Qed.

Lemma structure_text_fields_witness :
  let tx := mkTransaction (2 :: JS.zeros 149) {["version" := true]} in
  (forall p, is_ok (Transaction_set_prefix tx p) = is_ok (prefixToVersion p))
  /\ (forall s tx', Transaction_set_prefix tx (JString s) = Ok tx' ->
        Transaction_prefix tx' = Ok s)
  /\ (forall s, is_ok (Transaction_set_name tx (JString s)) = true
                <-> (length (Utf8Encode s) <= 35)%nat)
  /\ (forall s tx', Transaction_set_name tx (JString s) = Ok tx' ->
        Transaction_name tx' = Ok (Utf8Decode (Utf8Encode s))
        /\ (utf16_wf s -> Transaction_name tx' = Ok s)).
Proof.
  intros tx. apply (structure_text_fields tx).
  - split; [reflexivity|].
    exact (bool_decide_unpack (Forall is_byte (2 :: JS.zeros 149)) I).
  - reflexivity.
  - left. reflexivity.
Defined.

(** ** Which fields a transaction has *)

(** X9.  On a transaction whose version is set, the setter and the getter of a
    field that the version does not have throw, the setter with the message
    '... unavailable for this transaction type' whatever its argument; the
    setter of a field that the version has (other than the sender and the
    signature, whose arguments depend on more than the version) accepts some
    argument. *)
Theorem field_availability (s : Setter) (tx : Transaction) :
  hasField tx "version" = true ->
  (field_available s (JS.get (tx_bytes tx) 0) = false ->
     (forall arg, run_setter s tx arg
        = Err (setter_field s +:+ " unavailable for this transaction type"))
     /\ getter_fails (getter_of s) tx = true)
  /\ (field_available s (JS.get (tx_bytes tx) 0) = true ->
      s <> SetVersion -> s <> SetSender -> s <> SetSignature ->
      exists arg, is_ok (run_setter s tx arg) = true).
Proof.
  intros Hv. destruct (version_getter tx Hv) as [Hc Hg].
  unfold run_setter, getter_fails, field_available, getter_of.
  unfold Transaction_set_recipient, Transaction_set_value,
    Transaction_set_prefix, Transaction_set_name,
    Transaction_set_profitPercent, Transaction_set_feePercent,
    Transaction_set_nonce,
    Transaction_recipient, Transaction_value, Transaction_prefix,
    Transaction_name, Transaction_profitPercent, Transaction_feePercent.
  unfold Transaction_Genesis, Transaction_Basic, Transaction_CreateStructure,
    Transaction_UpdateStructure.
  set (v := JS.get (tx_bytes tx) 0) in *.
  split.
  - intros Ha.
    destruct s; try discriminate Ha; cbn [setter_field getter_of];
      rewrite Hc, Hg; cbn [mbind result_bind];
      destruct (v =? 0), (v =? 1), (v =? 2), (v =? 3); try discriminate Ha;
      (split; [intros arg|]; reflexivity).
  - intros Ha Hs1 Hs2 Hs3.
    destruct s; try congruence; rewrite ?Hc, ?Hg; cbn [mbind result_bind].
    + destruct (v =? 0) eqn:E0, (v =? 1) eqn:E1, (v =? 2) eqn:E2, (v =? 3) eqn:E3;
        try discriminate Ha;
        try (exists (JAddress (mkAddress ([85; 169] ++ JS.zeros 32))); reflexivity).
      exists (JAddress (mkAddress ([4; 33] ++ JS.zeros 32))). reflexivity.
    + exists (JNumber (JInt 1)).
      destruct (v =? 0), (v =? 1); try discriminate Ha; reflexivity.
    + exists (JString (str "aaa")).
      destruct (v =? 2), (v =? 3); try discriminate Ha; reflexivity.
    + exists (JString []).
      destruct (v =? 2), (v =? 3); try discriminate Ha; reflexivity.
    + exists (JNumber (JInt 100)).
      destruct (v =? 2), (v =? 3); try discriminate Ha; reflexivity.
    + exists (JNumber (JInt 100)).
      destruct (v =? 2), (v =? 3); try discriminate Ha; reflexivity.
    + exists (JNumber (JInt 0)). reflexivity.
Qed.

Lemma field_availability_witness :
  let tx := mkTransaction (1 :: JS.zeros 149) {["version" := true]} in
  (field_available SetName (JS.get (tx_bytes tx) 0) = false ->
     (forall arg, run_setter SetName tx arg
        = Err (setter_field SetName +:+ " unavailable for this transaction type"))
     /\ getter_fails (getter_of SetName) tx = true)
  /\ (field_available SetName (JS.get (tx_bytes tx) 0) = true ->
      SetName <> SetVersion -> SetName <> SetSender -> SetName <> SetSignature ->
      exists arg, is_ok (run_setter SetName tx arg) = true).
Proof. intros tx. apply (field_availability SetName tx). reflexivity. Defined.

(** ** The signature and the nonce *)

(** X10.  On a transaction whose version and sender are set, the signature setter
    accepts the typed arrays of 64 bytes and no other; the getter then returns
    the signature that was set, and [verify] is the Ed25519 verification of it
    over the cells 0 .. 84 under the public key of the sender. *)
Theorem signature_field (tx : Transaction) (sig : bytes) :
  length (tx_bytes tx) = 150%nat ->
  hasField tx "version" = true -> hasField tx "sender" = true ->
  (is_ok (Transaction_set_signature tx (JUint8Array sig)) = true
   <-> length sig = 64%nat)
  /\ (forall tx', Transaction_set_signature tx (JUint8Array sig) = Ok tx' ->
        Transaction_signature tx' = Ok sig
        /\ Transaction_verify tx'
           = Ok (Ed25519.verify sig (take 85 (tx_bytes tx))
                   (take 32 (drop 3 (tx_bytes tx))))).
Proof.
  intros Hl Hv Hs. split.
  - unfold Transaction_set_signature.
    rewrite !checkFields_present by done. cbn [_checkFields mbind result_bind].
    rewrite sender_signatureLength_ok by done. cbn [mbind result_bind].
    destruct (Nat.eqb_spec (length sig) 64); cbn; split; done.
  - intros tx' Hset.
    assert (Hsig : length sig = 64%nat).
    { revert Hset. unfold Transaction_set_signature.
      rewrite !checkFields_present by done. cbn [_checkFields mbind result_bind].
      rewrite sender_signatureLength_ok by done. cbn [mbind result_bind].
      by destruct (Nat.eqb_spec (length sig) 64). }
    rewrite signature_setter in Hset by done. injection Hset as <-.
    fold (with_signature tx sig).
    destruct (with_signature_facts tx sig Hl Hv Hs Hsig) as (_ & _ & _ & _ & _ & _ & E).
    split; [exact E|]. by apply verify_reads.
Qed.

Lemma signature_field_witness :
  let tx := mkTransaction (1 :: JS.zeros 149)
              {["version" := true; "sender" := true]} in
  (is_ok (Transaction_set_signature tx (JUint8Array (JS.zeros 64))) = true
   <-> length (JS.zeros 64) = 64%nat)
  /\ (forall tx', Transaction_set_signature tx (JUint8Array (JS.zeros 64)) = Ok tx' ->
        Transaction_signature tx' = Ok (JS.zeros 64)
        /\ Transaction_verify tx'
           = Ok (Ed25519.verify (JS.zeros 64) (take 85 (tx_bytes tx))
                   (take 32 (drop 3 (tx_bytes tx))))).
Proof.
  intros tx. apply (signature_field tx (JS.zeros 64)); reflexivity.
Defined.

(** X11.  The nonce setter works on every transaction, whatever its version and
    whether the version is set: it accepts the integers from 0 to [2^53 - 1]
    and no other argument, stores the number as eight big-endian bytes in the
    cells 77 .. 84, and the getter then returns it. *)
Theorem nonce_field (tx : Transaction) (arg : JsValue) :
  tx_wf tx ->
  (is_ok (Transaction_set_nonce tx arg) = true
   <-> exists z, arg = JNumber (JInt z) /\ 0 <= z <= 2 ^ 53 - 1)
  /\ (forall z tx', Transaction_set_nonce tx (JNumber (JInt z)) = Ok tx' ->
        tx_bytes tx' = take 77 (tx_bytes tx) ++ be64 z ++ drop 85 (tx_bytes tx)
        /\ Transaction_nonce tx' = Ok z).
Proof.
  intros [Hl Hb]. unfold Transaction_LENGTH in Hl.
  change (2 ^ 53 - 1) with 9007199254740991. split.
  - split.
    + destruct (Transaction_set_nonce tx arg) as [tx'|] eqn:E; [|discriminate].
      intros _. apply nonce_setter_ok in E as (z & -> & Hz & _). by exists z.
    + intros (z & -> & Hz). by rewrite nonce_setter_accepts.
  - intros z tx' Hset. apply nonce_setter_ok in Hset as (z' & [= <-] & Hz & ->).
    rewrite tx_bytes_setFields. cbn [tx_bytes with_bytes].
    assert (Hz' : 0 <= z < 2 ^ 53)
      by (change (2 ^ 53) with 9007199254740992; lia).
    destruct (u64_field_write_read (tx_bytes tx) 77 z) as (_ & Hr & Hu & _);
      [lia|done|].
    pose proof (u64_field_write (tx_bytes tx) 77 z ltac:(lia) Hz') as Hw.
    change (Z.of_nat 77) with 77 in *. change (77 + 8)%nat with 85%nat in Hw.
    split; [exact Hw|].
    rewrite nonce_getter by (by rewrite hasField_setFields_one).
    rewrite tx_bytes_setFields. cbn [tx_bytes with_bytes].
    replace (31 <? JS.getUint16 (write_u64 (tx_bytes tx) 77 z) 77) with false by lia.
    by rewrite Hr.
Qed.

Lemma nonce_field_witness :
  let tx := mkTransaction (JS.zeros 150) ∅ in
  (is_ok (Transaction_set_nonce tx (JNumber (JInt 7))) = true
   <-> exists z, JNumber (JInt 7) = JNumber (JInt z) /\ 0 <= z <= 2 ^ 53 - 1)
  /\ (forall z tx', Transaction_set_nonce tx (JNumber (JInt z)) = Ok tx' ->
        tx_bytes tx' = take 77 (tx_bytes tx) ++ be64 z ++ drop 85 (tx_bytes tx)
        /\ Transaction_nonce tx' = Ok z).
Proof.
  intros tx. apply (nonce_field tx (JNumber (JInt 7))).
  split; [reflexivity|].
  exact (bool_decide_unpack (Forall is_byte (JS.zeros 150)) I).
Defined.

(** ** Bech32: from a string that decodes back to the string *)

(** If the loop of [_decode] ends normally, the characters it read are those
    of 5-bit values. *)
Lemma decode_fold_values len l st r :
  foldl (Bech32._decode_step len) st l = Ok r ->
  exists vs, l.*2 = map alphabet_char vs /\ Forall (fun w => 0 <= w < 32) vs.
Proof.
  revert st. induction l as [|[i c] l IH]; intros st.
  - intros _. by exists [].
  - cbn [foldl]. intros H.
    destruct st as [[chk words]|msg];
      [|simpl in H; by rewrite decode_step_err in H].
    unfold Bech32._decode_step at 2 in H. cbn [mbind result_bind] in H.
    destruct (Bech32.property Bech32._ALPHABET_MAP [c]) as [v|] eqn:Ev;
      [|by rewrite decode_step_err in H].
    apply alphabet_map_inv in Ev as [Hv ->].
    apply IH in H as (vs & E & Hvs).
    exists (v :: vs). cbn [fmap list_fmap snd map]. split; [by f_equal|].
    by apply Forall_cons.
Qed.

(** Six 5-bit values fed into an empty checksum are the digits of the
    result. *)
Lemma polymod_0_digits cs :
  length cs = 6%nat -> Forall (fun w => 0 <= w < 32) cs ->
  0 <= polymod 0 cs < 2 ^ 30 /\ digits6 (polymod 0 cs) = cs.
Proof.
  intros Hl Hcs.
  destruct cs as [|d0 [|d1 [|d2 [|d3 [|d4 [|d5 [|]]]]]]]; try discriminate.
  repeat match goal with H : Forall _ (_ :: _) |- _ =>
    apply Forall_cons in H as [? H] end.
  unfold polymod. cbn [foldl].
  change (polymod_step 0) with 0. rewrite Z.lxor_0_l.
  assert (Hstep : forall x v, 0 <= x < 2 ^ 25 -> 0 <= v < 32 ->
            Z.lxor (polymod_step x) v = x * 32 + v).
  { intros x v Hx Hv. rewrite polymod_step_small by done.
    apply (lxor_low x v 5); [lia|done]. }
  change (2 ^ 25) with 33554432 in Hstep.
  rewrite (Hstep d0 d1) by lia.
  rewrite (Hstep (d0 * 32 + d1) d2) by lia.
  rewrite (Hstep ((d0 * 32 + d1) * 32 + d2) d3) by lia.
  rewrite (Hstep (((d0 * 32 + d1) * 32 + d2) * 32 + d3) d4) by lia.
  rewrite (Hstep ((((d0 * 32 + d1) * 32 + d2) * 32 + d3) * 32 + d4) d5) by lia.
  change (2 ^ 30) with 1073741824. split; [lia|].
  unfold digits6.
  change (2 ^ 25) with 33554432. change (2 ^ 20) with 1048576.
  change (2 ^ 15) with 32768. change (2 ^ 10) with 1024. change (2 ^ 5) with 32.
  repeat (apply (f_equal2 cons); [Z.div_mod_to_equations; lia|]).
  reflexivity.
Qed.

(** The six values that complete a checksum are determined by what came
    before them. *)
Lemma checksum_unique a cs :
  0 <= a < 2 ^ 30 -> length cs = 6%nat -> Forall (fun w => 0 <= w < 32) cs ->
  polymod a cs = 1 ->
  cs = digits6 (Z.lxor (polymod a (replicate 6 0)) 1).
Proof.
  intros Ha Hl Hcs Hsum.
  rewrite <- (Z.lxor_0_r a) in Hsum at 1.
  rewrite polymod_lxor in Hsum; [|done|lia|done].
  rewrite Hl in Hsum.
  destruct (polymod_0_digits cs Hl Hcs) as [_ <-].
  f_equal. rewrite <- Hsum, <- Z.lxor_assoc, Z.lxor_nilpotent. reflexivity.
Qed.

(** What [_convert] from 5-bit words to bytes has read when it returns
    thirty-two bytes. *)
Lemma convert_5_8_inv (ws : list Z) (data : bytes) :
  Forall (fun w => 0 <= w < 32) ws ->
  Bech32._convert ws 5 8 false = Ok data -> length data = 32%nat ->
  length ws = 52%nat /\ Forall is_byte data
  /\ digits_value 5 ws = digits_value 8 data * 16.
Proof.
  intros Hw Hc Hld.
  destruct (convert_loop_spec 5 8 ltac:(lia) ltac:(lia) ltac:(lia) ws Hw)
    as ([[value bits] result] & E & Hb & Hvr & Hr & HN & Hl).
  unfold Bech32._convert in Hc. rewrite E in Hc.
  destruct (Z.leb_spec 5 bits) as [|Hlt]; [discriminate|].
  replace (JS.shl 1 8 - 1) with (Z.ones ((8 - bits) + bits)) in Hc
    by (by replace (8 - bits + bits) with 8 by lia).
  rewrite shifted_pad in Hc by lia.
  destruct (Z.eqb_spec (value mod 2 ^ bits * 2 ^ (8 - bits)) 0) as [Hz|];
    [|discriminate].
  injection Hc as ->. rewrite Hld in Hl.
  assert (bits = 4 /\ length ws = 52%nat) as [-> Hlw] by lia.
  split; [done|]. split; [done|].
  change (2 ^ 4) with 16 in *. change (2 ^ (8 - 4)) with 16 in Hz. lia.
Qed.

Section DecodeEncode.
Context {cm : CaseMap}.
Hypothesis Hcm : CaseMapAscii cm.

(** The parts of a string that [decode] accepts. *)
Lemma decode_parts (s : jsstring) (b : bytes) :
  Bech32.decode s = Ok b ->
  exists p ws cs chk data v,
    toLowerCase s = p ++ [49] ++ map alphabet_char ws ++ map alphabet_char cs
    /\ Forall (fun w => 0 <= w < 32) ws /\ Forall (fun w => 0 <= w < 32) cs
    /\ length cs = 6%nat
    /\ Bech32._prefixChk p = Ok chk /\ 0 <= chk < 2 ^ 30
    /\ polymod (polymod chk ws) cs = 1
    /\ Bech32._convert ws 5 8 false = Ok data /\ length data = 32%nat
    /\ prefixToVersion (JString p) = Ok v
    /\ b = JS.setUint16 (JS.set (JS.zeros 34) (map JS.ToUint8 data) 2) 0 v.
Proof.
  intros Hdec. unfold Bech32.decode in Hdec.
  destruct (Bech32._decode s) as [[prefix words]|] eqn:Ed; [|discriminate].
  cbn [mbind result_bind] in Hdec.
  destruct (Bech32._convert words 5 8 false) as [data|] eqn:Ec; [|discriminate].
  cbn [mbind result_bind] in Hdec.
  destruct (Nat.eqb_spec (length data) 32) as [Hld|]; [|discriminate].
  cbn [negb] in Hdec.
  destruct (prefixToVersion (JString prefix)) as [v|] eqn:Ev; [|discriminate].
  cbn [mbind result_bind] in Hdec. injection Hdec as <-.
  unfold Bech32._decode in Ed. set (t := toLowerCase s) in *.
  destruct (bool_decide (s <> t) && bool_decide (s <> toUpperCase s));
    [discriminate|].
  set (k := Bech32.lastIndexOf t 49) in *.
  destruct (Z.eqb_spec k (-1)) as [|Hk1]; [discriminate|].
  destruct (Z.eqb_spec k 0) as [|Hk0]; [discriminate|].
  set (wordChars := drop (Z.to_nat (k + 1)) t) in *.
  destruct (Nat.ltb_spec (length wordChars) 6) as [|Hlen]; [discriminate|].
  destruct (Bech32._prefixChk (take (Z.to_nat k) t)) as [chk|] eqn:Echk;
    [|discriminate].
  cbn [mbind result_bind] in Ed.
  destruct (foldl (Bech32._decode_step (Z.of_nat (length wordChars)))
              (Ok (chk, []))
              (zip (seqZ 0 (Z.of_nat (length wordChars))) wordChars))
    as [[chk' words0]|] eqn:Eloop; [|discriminate].
  cbn [mbind result_bind] in Ed.
  destruct (Z.eqb_spec chk' 1) as [->|]; [|discriminate].
  cbn [negb] in Ed. injection Ed as <- <-.
  (* the separator *)
  destruct (lastIndexOf_from_found t 49 0 (-1) _ eq_refl) as [Hf|[Hr Hc]];
    [unfold k, Bech32.lastIndexOf in Hk1; lia|].
  fold (Bech32.lastIndexOf t 49) in Hr, Hc. fold k in Hr, Hc.
  rewrite Z.sub_0_r in Hc.
  assert (Es : t = take (Z.to_nat k) t ++ 49 :: wordChars).
  { rewrite <- (take_drop (Z.to_nat k) t) at 1. f_equal.
    unfold wordChars. replace (Z.to_nat (k + 1)) with (S (Z.to_nat k)) by lia.
    by apply drop_S. }
  set (p := take (Z.to_nat k) t) in *.
  (* the characters after it *)
  pose proof (decode_fold_values _ _ _ _ Eloop) as (vs & Evs & Hvs).
  rewrite snd_zip in Evs by (rewrite length_seqZ; lia).
  assert (Hlv : length vs = length wordChars) by (by rewrite Evs, length_map).
  set (n := (length vs - 6)%nat).
  assert (Esplit : vs = take n vs ++ drop n vs) by (by rewrite take_drop).
  set (ws := take n vs) in *. set (cs := drop n vs) in *.
  assert (Hws : Forall (fun w => 0 <= w < 32) ws) by (by apply Forall_take).
  assert (Hcs : Forall (fun w => 0 <= w < 32) cs) by (by apply Forall_drop).
  assert (Hlws : length ws = n) by (unfold ws; rewrite length_take; lia).
  assert (Hlcs : length cs = 6%nat) by (unfold cs; rewrite length_drop; lia).
  destruct (prefixChk_ok p (prefixChk_inv _ _ Echk)) as (chk0 & Echk0 & Hchk).
  rewrite Echk in Echk0. injection Echk0 as <-.
  assert (Hloop : foldl (Bech32._decode_step (Z.of_nat (length wordChars)))
                    (Ok (chk, []))
                    (zip (seqZ 0 (Z.of_nat (length wordChars))) wordChars)
                  = Ok (polymod (polymod chk ws) cs, ws)).
  { rewrite Evs, length_map.
    replace (length vs) with (length ws + length cs)%nat by lia.
    rewrite Esplit, map_app.
    rewrite Nat2Z.inj_add, seqZ_app by lia.
    rewrite zip_with_app by (rewrite length_seqZ, length_map; lia).
    rewrite foldl_app.
    rewrite (decode_loop_pushed _ ws 0 chk []); [|exact Hchk|exact Hws|lia].
    rewrite Z.add_0_l.
    rewrite (decode_loop_tail _ cs); [|by apply polymod_bound|exact Hcs|lia].
    reflexivity. }
  rewrite Hloop in Eloop. injection Eloop as Hsum <-.
  assert (Ew : map JS.ToUint8 ws = ws).
  { apply map_fixed. eapply Forall_impl; [exact Hws|]. intros w Hw0.
    cbv beta in Hw0. apply ToUint8_small. lia. }
  rewrite Ew in Ec.
  exists p, ws, cs, chk, data, v.
  split; [by rewrite Es, Evs, Esplit, map_app|].
  done.
Qed.

(** X12.  The string that [encode] gives for the bytes that [decode] returned is the
    lower-case form of the string decoded: a string that decodes has, up to
    the case of its letters, no other spelling.  The bytes are 34 cells of a
    typed array that start with a legal version word, and the string has 62
    characters, or 66 when its prefix is [genesis]. *)
Theorem bech32_decode_then_encode (s : jsstring) (b : bytes) :
  Bech32.decode s = Ok b ->
  length b = 34%nat /\ Forall is_byte b /\ legal_version (JS.getUint16 b 0)
  /\ Bech32.encode b = Ok (toLowerCase s)
  /\ (length (toLowerCase s) = 62%nat \/ length (toLowerCase s) = 66%nat).
Proof.
  intros Hdec.
  destruct (decode_parts s b Hdec)
    as (p & ws & cs & chk & data & v & Et & Hws & Hcs & Hlcs & Echk & Hchk
        & Hsum & Ec & Hld & Ev & ->).
  destruct (convert_5_8_inv ws data Hws Ec Hld) as (Hlws & Hd & Hdv).
  destruct (prefixToVersion_back _ _ Ev) as (p' & [= <-] & Hp & Hv & Hlv & Evp).
  assert (Hpl : Forall lower_letter p /\ (length p = 3%nat \/ length p = 7%nat)).
  { destruct Hp as [->|[Hl3 Hp]]; [|by split; [|left]].
    split; [apply genesis_letters|by right]. }
  destruct Hpl as [Hpl Hlp].
  assert (Ed : map JS.ToUint8 data = data).
  { apply map_fixed. eapply Forall_impl; [exact Hd|]. intros w Hw0.
    by apply ToUint8_small. }
  rewrite Ed.
  set (res := JS.set (JS.zeros 34) data 2).
  assert (Hlres : length res = 34%nat)
    by (unfold res; rewrite set_length; rewrite zeros_length; lia).
  assert (Hres : Forall is_byte res)
    by (apply set_bytes; [apply zeros_bytes|done]).
  destruct (setUint16_front res v ltac:(lia) Hv) as (_ & _ & Eg).
  split; [by rewrite setUint16_length|].
  split; [by apply setUint16_bytes|].
  split; [by rewrite Eg|].
  split.
  - unfold Bech32.encode. rewrite Eg, Evp. cbn [mbind result_bind].
    rewrite setUint16_length, Hlres.
    assert (Esub : JS.subarray (JS.setUint16 res 0 v) 2 34 = data).
    { assert (Eres : res = 0 :: 0 :: data).
      { unfold res, JS.set. rewrite zeros_length, Hld.
        rewrite (take_ge data) by lia.
        change (drop (2 + 32) (JS.zeros 34)) with (@nil Z).
        by rewrite app_nil_r. }
      rewrite Eres. pose proof (setUint16_at [] data 0 0 v) as Hs.
      change (Z.of_nat (length (@nil Z))) with 0 in Hs. simpl app in Hs.
      rewrite Hs. unfold JS.subarray. cbn [drop]. apply take_ge. lia. }
    rewrite Esub.
    destruct (convert_8_5 data Hd Hld) as (ws' & Ews & Hlw' & Hw' & Hdv').
    rewrite Ews. cbn [mbind result_bind].
    assert (ws' = ws) as ->.
    { apply (digits_value_inj 5); [lia|lia|done|done|lia]. }
    destruct (encode_string Hcm p ws Hpl Hws) as (chk1 & Echk1 & _ & Eenc).
    rewrite Echk in Echk1. injection Echk1 as <-.
    rewrite Eenc, Et.
    by rewrite <- (checksum_unique (polymod chk ws) cs)
      by first [by apply polymod_bound|done].
  - rewrite Et, !length_app, !length_map, Hlws, Hlcs. simpl. lia.
Qed.

End DecodeEncode.

Lemma bech32_decode_then_encode_witness :
  let s := str "AAA1QQQQQQQQQQQQQQQQQQQQQQQQQQQQQQQQQQQQQQQQQQQQQQQQQQQQ48C9JJ" in
  let b := [4; 33] ++ JS.zeros 32 in
  length b = 34%nat /\ Forall is_byte b /\ legal_version (JS.getUint16 b 0)
  /\ Bech32.encode (cm := asciiCase) b = Ok (toLowerCase (CaseMap := asciiCase) s)
  /\ (length (toLowerCase (CaseMap := asciiCase) s) = 62%nat
      \/ length (toLowerCase (CaseMap := asciiCase) s) = 66%nat).
Proof.
  intros s b. apply (bech32_decode_then_encode (cm := asciiCase)).
  - intros s0 _. split; reflexivity.
  - vm_compute. reflexivity.
Defined.

(** ** The fields of an address *)

(** A mask below [2^16] sees only the low sixteen bits of a number. *)
Lemma and_wraps z m : 0 <= m < 65536 -> JS.and z m = Z.land (z mod 65536) m.
Proof.
  intros Hm. unfold JS.and. rewrite (ToInt32_small m) by lia.
  assert (E : Z.land m (Z.ones 16) = m) by (apply fits_iff; [lia|done]).
  rewrite <- E at 1. rewrite (Z.land_comm m), Z.land_assoc, Z.land_ones by lia.
  by rewrite ToInt32_mod by lia.
Qed.

Lemma and_wraps_word z m :
  0 <= m < 65536 -> JS.and z m = JS.and (z mod 65536) m.
Proof.
  intros Hm. rewrite (and_wraps z), (and_wraps (z mod 65536)) by done.
  by rewrite Z.mod_mod by lia.
Qed.

(** [versionToPrefix] looks at the low sixteen bits of a number other than 0. *)
Lemma versionToPrefix_wraps z :
  z <> 0 -> z mod 65536 <> 0 ->
  versionToPrefix (JNumber (JInt z))
  = versionToPrefix (JNumber (JInt (z mod 65536))).
Proof.
  intros Hz Hw. remember (z mod 65536) as w eqn:Ew.
  destruct z as [|p|p]; [done| |]; destruct w as [|q|q]; try done;
    unfold versionToPrefix; cbn [JS.floor_eq negb JS.ToInteger];
    rewrite ?(and_wraps_word (Z.pos p)), ?(and_wraps_word (Z.neg p)) by lia;
    rewrite <- ?Ew; reflexivity.
Qed.

Lemma versionToPrefix_multiple z :
  z <> 0 -> z mod 65536 = 0 -> is_ok (versionToPrefix (JNumber (JInt z))) = false.
Proof.
  intros Hz Hw.
  destruct z as [|p|p]; [done| |];
    unfold versionToPrefix; cbn [JS.floor_eq negb JS.ToInteger];
    rewrite ?(and_wraps_word (Z.pos p)), ?(and_wraps_word (Z.neg p)), ?Hw by lia;
    reflexivity.
Qed.

(** The numbers that [versionToPrefix] accepts. *)
Lemma versionToPrefix_accepts (version : JsValue) :
  is_ok (versionToPrefix version) = true
  <-> exists z, version = JNumber (JInt z)
        /\ (z = 0 \/ (z mod 65536 <> 0 /\ legal_version (z mod 65536))).
Proof.
  split.
  - destruct version as [| |b0|n|s0|l0|k0|k0|a0|d0]; try discriminate.
    destruct n as [z|fl| |neg]; try discriminate.
    intros Hok. exists z. split; [done|].
    destruct (Z.eq_dec z 0) as [|Hz]; [by left|right].
    destruct (Z.eq_dec (z mod 65536) 0) as [Hw|Hw];
      [by rewrite versionToPrefix_multiple in Hok|].
    split; [done|]. rewrite versionToPrefix_wraps in Hok by done.
    destruct (decide (legal_version (z mod 65536))) as [|Hill]; [done|].
    pose proof (Z.mod_pos_bound z 65536 ltac:(lia)).
    apply versionToPrefix_illegal in Hill; [|lia].
    unfold is_err in Hill. by rewrite Hok in Hill.
  - intros (z & -> & [->|[Hw Hl]]); [reflexivity|].
    assert (Hz : z <> 0) by (intros ->; by apply Hw).
    rewrite versionToPrefix_wraps by done.
    pose proof (Z.mod_pos_bound z 65536 ltac:(lia)).
    destruct (versionToPrefix_legal (z mod 65536)) as [-> _]; [lia|done|].
    reflexivity.
Qed.

(** What the version setter has written when it returns. *)
Lemma address_version_written (a : Address) (z : Z) (a' : Address) :
  address_wf a -> Address_set_version a (JNumber (JInt z)) = Ok a' ->
  address_wf a'
  /\ Address_version a' = z mod 65536
  /\ Address_prefix a' = versionToPrefix (JNumber (JInt z))
  /\ drop 2 (address_bytes a') = drop 2 (address_bytes a).
Proof.
  intros Hwf Hset.
  pose proof (address_version_setter a _ a' Hwf Hset) as [Hwf' _].
  split; [done|].
  assert (Hok : is_ok (versionToPrefix (JNumber (JInt z))) = true).
  { unfold Address_set_version in Hset.
    by destruct (versionToPrefix (JNumber (JInt z))). }
  pose proof Hok as Hacc.
  apply versionToPrefix_accepts in Hacc as (z' & [= <-] & Hacc).
  unfold Address_set_version in Hset.
  destruct (versionToPrefix (JNumber (JInt z))) as [p|] eqn:Ep; [|discriminate].
  cbn [mbind result_bind number_operand JS.ToInteger] in Hset.
  injection Hset as <-.
  destruct Hwf as [Hlen Hb]. unfold Address_LENGTH in Hlen.
  assert (Hstored : JS.and z 32767 = z mod 65536
                    /\ 0 <= z mod 65536 < 32768).
  { rewrite and_wraps by lia. change 32767 with (Z.ones 15).
    rewrite Z.land_ones by lia.
    pose proof (Z.mod_pos_bound z 65536 ltac:(lia)).
    destruct Hacc as [->|[Hw [Hl|(Hh & _)]]]; [done|done|].
    change (2 ^ 15) with 32768 in *.
    assert (z mod 65536 < 32768) by (Z.div_mod_to_equations; lia).
    rewrite Z.mod_small by lia. lia. }
  destruct Hstored as [-> Hr].
  destruct (setUint16_front (address_bytes a) (z mod 65536) ltac:(lia) Hr)
    as (_ & _ & Eg).
  unfold Address_prefix, Address_version. cbn [address_bytes].
  rewrite Eg. split; [done|]. split.
  - destruct Hacc as [->|[Hw _]]; [done|].
    rewrite <- versionToPrefix_wraps; [done| |done].
    intros ->. by apply Hw.
  - destruct (address_bytes a) as [|x0 [|x1 rest]]; simpl in Hlen; try lia.
    pose proof (setUint16_at [] rest x0 x1 (z mod 65536)) as Hs.
    change (Z.of_nat (length (@nil Z))) with 0 in Hs. simpl app in Hs.
    by rewrite Hs.
Qed.

(** X13.  The version setter takes the numbers that [versionToPrefix] accepts: 0, and
    the integers whose low sixteen bits are a legal version word other than 0,
    whatever their higher bits.  It stores those sixteen bits in the first two
    cells and leaves the public key alone; the getters then return them and
    the prefix of the number that was passed. *)
Theorem address_version_field (a : Address) (version : JsValue) :
  address_wf a ->
  (is_ok (Address_set_version a version) = true
   <-> exists z, version = JNumber (JInt z)
         /\ (z = 0 \/ (z mod 65536 <> 0 /\ legal_version (z mod 65536))))
  /\ (forall z a', Address_set_version a (JNumber (JInt z)) = Ok a' ->
        address_wf a'
        /\ Address_version a' = z mod 65536
        /\ Address_prefix a' = versionToPrefix (JNumber (JInt z))
        /\ drop 2 (address_bytes a') = drop 2 (address_bytes a)).
Proof.
  intros Hwf. split.
  - rewrite <- versionToPrefix_accepts. unfold Address_set_version.
    by destruct (versionToPrefix version).
  - intros z a'. by apply address_version_written.
Qed.

Lemma address_version_field_witness :
  let a := mkAddress (JS.zeros 34) in
  (is_ok (Address_set_version a (JNumber (JInt 87465))) = true
   <-> exists z, JNumber (JInt 87465) = JNumber (JInt z)
         /\ (z = 0 \/ (z mod 65536 <> 0 /\ legal_version (z mod 65536))))
  /\ (forall z a', Address_set_version a (JNumber (JInt z)) = Ok a' ->
        address_wf a'
        /\ Address_version a' = z mod 65536
        /\ Address_prefix a' = versionToPrefix (JNumber (JInt z))
        /\ drop 2 (address_bytes a') = drop 2 (address_bytes a)).
Proof.
  intros a. apply (address_version_field a (JNumber (JInt 87465))).
  split; [reflexivity|].
  exact (bool_decide_unpack (Forall is_byte (JS.zeros 34)) I).
Defined.

(** X14.  The prefix setter takes what [prefixToVersion] takes, the string
    [genesis] and the strings of three lower-case letters; the prefix getter
    then returns the string, the version getter its version word, and the
    public key is left alone. *)
Theorem address_prefix_field (a : Address) (prefix : JsValue) :
  address_wf a ->
  (is_ok (Address_set_prefix a prefix) = true
   <-> exists s, prefix = JString s
         /\ (s = str "genesis" \/ (length s = 3%nat /\ Forall lower_letter s)))
  /\ (forall a', Address_set_prefix a prefix = Ok a' ->
        address_wf a'
        /\ Address_prefix a' = Ok (match prefix with JString s => s | _ => [] end)
        /\ prefixToVersion prefix = Ok (Address_version a')
        /\ drop 2 (address_bytes a') = drop 2 (address_bytes a)).
Proof.
  intros Hwf.
  assert (Hset : forall v, prefixToVersion prefix = Ok v ->
            exists s a', prefix = JString s
              /\ (s = str "genesis" \/ (length s = 3%nat /\ Forall lower_letter s))
              /\ Address_set_prefix a prefix = Ok a'
              /\ address_wf a' /\ Address_version a' = v
              /\ Address_prefix a' = Ok s
              /\ drop 2 (address_bytes a') = drop 2 (address_bytes a)).
  { intros v Ev.
    destruct (prefixToVersion_back _ _ Ev) as (s & -> & Hs & Hv & Hl & Evp).
    unfold Address_set_prefix. rewrite Ev. cbn [mbind result_bind].
    destruct (Address_set_version a (JNumber (JInt v))) as [a'|] eqn:Ea.
    - destruct (address_version_written a v a' Hwf Ea) as (Hwf' & Eget & Ep & Ed).
      rewrite Z.mod_small in Eget by lia.
      exists s, a'. by rewrite Ep, Evp.
    - unfold Address_set_version in Ea. by rewrite Evp in Ea. }
  split.
  - split.
    + intros Hok. destruct (prefixToVersion prefix) as [v|] eqn:Ev.
      * destruct (Hset v eq_refl) as (s & a' & -> & Hs & _). by exists s.
      * unfold Address_set_prefix in Hok. by rewrite Ev in Hok.
    + intros (s & -> & Hs). pose proof (prefixToVersion_accepts s Hs) as Hok.
      destruct (prefixToVersion (JString s)) as [v|] eqn:Ev; [|discriminate].
      destruct (Hset v eq_refl) as (s' & a' & _ & _ & -> & _). reflexivity.
  - intros a' Ea. destruct (prefixToVersion prefix) as [v|] eqn:Ev.
    + destruct (Hset v eq_refl) as (s & a'' & -> & _ & Ea' & Hwf' & <- & Ep & Ed).
      rewrite Ea in Ea'. injection Ea' as <-. done.
    + unfold Address_set_prefix in Ea. by rewrite Ev in Ea.
Qed.

Lemma address_prefix_field_witness :
  let a := mkAddress (JS.zeros 34) in
  (is_ok (Address_set_prefix a (JString (str "umi"))) = true
   <-> exists s, JString (str "umi") = JString s
         /\ (s = str "genesis" \/ (length s = 3%nat /\ Forall lower_letter s)))
  /\ (forall a', Address_set_prefix a (JString (str "umi")) = Ok a' ->
        address_wf a'
        /\ Address_prefix a' = Ok (str "umi")
        /\ prefixToVersion (JString (str "umi")) = Ok (Address_version a')
        /\ drop 2 (address_bytes a') = drop 2 (address_bytes a)).
Proof.
  intros a. apply (address_prefix_field a (JString (str "umi"))).
  split; [reflexivity|].
  exact (bool_decide_unpack (Forall is_byte (JS.zeros 34)) I).
Defined.

(** *** The public key of an address *)

Lemma publicKey_copy (k : PublicKey) : PublicKey_bytes k = publicKey_bytes k.
Proof. unfold PublicKey_bytes. apply set_zeros_copy. Qed.

(** Writing a 32-byte key into an address. *)
Lemma address_set_key (a : Address) (k : PublicKey) :
  length (address_bytes a) = 34%nat -> length (publicKey_bytes k) = 32%nat ->
  Address_set_publicKey a (JPublicKey k)
  = Ok (mkAddress (take 2 (address_bytes a) ++ publicKey_bytes k)).
Proof.
  intros Hla Hlk. unfold Address_set_publicKey. rewrite publicKey_copy.
  unfold JS.set. rewrite Hla, Hlk. rewrite (take_ge (publicKey_bytes k)) by lia.
  rewrite (drop_ge (address_bytes a)) by lia. by rewrite app_nil_r.
Qed.

(** X15.  The public key setter takes objects of the class [PublicKey] and nothing
    else.  It writes the 32 bytes of the key after the version word, which it
    leaves alone, and the public key getter then returns an equal key; on a
    34-byte address that getter never throws. *)
Theorem address_publicKey_field (a : Address) (k : PublicKey) :
  address_wf a -> length (publicKey_bytes k) = 32%nat ->
  (exists a', Address_set_publicKey a (JPublicKey k) = Ok a'
     /\ address_bytes a' = take 2 (address_bytes a) ++ publicKey_bytes k
     /\ Address_publicKey a' = Ok k
     /\ Address_version a' = Address_version a
     /\ Address_prefix a' = Address_prefix a)
  /\ (forall arg, (forall k', arg <> JPublicKey k') ->
        Address_set_publicKey a arg = Err "publicKey type must be PublicKey")
  /\ Address_publicKey a = Ok (mkPublicKey (drop 2 (address_bytes a))).
Proof.
  intros [Hla Hb] Hlk. unfold Address_LENGTH in Hla. split; [|split].
  - eexists. split; [by apply address_set_key|]. cbn [address_bytes].
    split; [done|].
    assert (Hv : Address_version
                   (mkAddress (take 2 (address_bytes a) ++ publicKey_bytes k))
                 = Address_version a).
    { unfold Address_version. cbn [address_bytes].
      destruct (address_bytes a) as [|x0 [|x1 rest]]; simpl in Hla; try lia.
      reflexivity. }
    split; [|split; [done|unfold Address_prefix; by rewrite Hv]].
    rewrite address_publicKey_getter
      by (cbn [address_bytes]; rewrite length_app, length_take; lia).
    cbn [address_bytes].
    rewrite drop_app_length' by (rewrite length_take; lia).
    by destruct k.
  - intros arg Harg. destruct arg; try reflexivity. by destruct (Harg k0).
  - by apply address_publicKey_getter.
Qed.

Lemma address_publicKey_field_witness :
  let a := mkAddress ([85; 169] ++ JS.zeros 32) in
  let k := mkPublicKey (seqZ 1 32) in
  (exists a', Address_set_publicKey a (JPublicKey k) = Ok a'
     /\ address_bytes a' = take 2 (address_bytes a) ++ publicKey_bytes k
     /\ Address_publicKey a' = Ok k
     /\ Address_version a' = Address_version a
     /\ Address_prefix a' = Address_prefix a)
  /\ (forall arg, (forall k', arg <> JPublicKey k') ->
        Address_set_publicKey a arg = Err "publicKey type must be PublicKey")
  /\ Address_publicKey a = Ok (mkPublicKey (drop 2 (address_bytes a))).
Proof.
  intros a k. apply (address_publicKey_field a k); [|reflexivity].
  split; [reflexivity|].
  exact (bool_decide_unpack (Forall is_byte ([85; 169] ++ JS.zeros 32)) I).
Defined.

(** ** Keys *)

Lemma for_loop_snoc {S : Type} (n : nat) (body : Z -> S -> S) s :
  for_loop 0 (Z.of_nat (Datatypes.S n)) body s
  = body (Z.of_nat n) (for_loop 0 (Z.of_nat n) body s).
Proof.
  unfold for_loop. rewrite !Z.sub_0_r.
  replace (Z.of_nat (Datatypes.S n)) with (Z.of_nat n + 1) by lia.
  rewrite seqZ_app by lia. rewrite foldl_app. reflexivity.
Qed.

(** A loop that copies [n] values into the cells [off .. off + n - 1] of a
    [Uint8Array]. *)
Lemma for_loop_copy {body : Z -> bytes -> bytes} (dst : bytes) (off n : nat)
    (f : Z -> Z) :
  (forall i a, body i a = JS.put8 a (i + Z.of_nat off) (f i)) ->
  (off + n <= length dst)%nat ->
  for_loop 0 (Z.of_nat n) body dst
  = take off dst ++ map (fun i => JS.ToUint8 (f i)) (seqZ 0 (Z.of_nat n))
      ++ drop (off + n) dst.
Proof.
  intros Hbody. induction n as [|n IH]; intros Hlen.
  - rewrite for_loop_done by lia. change (seqZ 0 (Z.of_nat 0)) with (@nil Z).
    cbn [map app]. by rewrite Nat.add_0_r, take_drop.
  - rewrite for_loop_snoc, IH, Hbody by lia.
    replace (Z.of_nat (S n)) with (Z.of_nat n + 1) by lia.
    rewrite seqZ_app, map_app by lia. cbn [seqZ map].
    unfold JS.put8, JS.put. replace (Z.of_nat n + Z.of_nat off <? 0) with false by lia.
    replace (Z.to_nat (Z.of_nat n + Z.of_nat off)) with (off + n)%nat by lia.
    rewrite insert_app_r_alt by (rewrite length_take; lia).
    rewrite length_take, Nat.min_l by lia.
    rewrite insert_app_r_alt by (rewrite length_map, length_seqZ; lia).
    rewrite length_map, length_seqZ.
    replace (off + n - off - Z.to_nat (Z.of_nat n))%nat with 0%nat by lia.
    destruct (drop (off + n) dst) as [|x rest] eqn:Ed.
    { apply (f_equal length) in Ed. rewrite length_drop in Ed. simpl in Ed. lia. }
    assert (Er : drop (off + S n) dst = rest).
    { replace (off + S n)%nat with ((off + n) + 1)%nat by lia.
      by rewrite <- drop_drop, Ed. }
    rewrite Er. cbn [insert list_insert]. rewrite <- !app_assoc.
    rewrite Z.add_0_l. reflexivity.
Qed.

Lemma map_get_seqZ (l : bytes) : map (JS.get l) (seqZ 0 (Z.of_nat (length l))) = l.
Proof.
  apply list_eq. intros i. rewrite list_lookup_fmap.
  destruct (decide (i < length l)%nat) as [Hi|Hi].
  - rewrite lookup_seqZ_lt by lia. cbn [fmap option_fmap option_map].
    rewrite get_nat by lia. replace (Z.to_nat (0 + Z.of_nat i)) with i by lia.
    destruct (lookup_lt_is_Some_2 l i Hi) as [x ->]. reflexivity.
  - rewrite lookup_seqZ_ge by lia. by rewrite lookup_ge_None_2 by lia.
Qed.

(** Copying all of a list of bytes. *)
Lemma map_get_bytes (l : bytes) :
  Forall is_byte l ->
  map (fun i => JS.ToUint8 (JS.get l i)) (seqZ 0 (Z.of_nat (length l))) = l.
Proof.
  intros Hl. rewrite <- (map_map (JS.get l) JS.ToUint8), map_get_seqZ.
  apply map_fixed. eapply Forall_impl; [exact Hl|]. intros x Hx.
  by apply ToUint8_small.
Qed.

(** The packed form of a point is 32 bytes. *)
Lemma pack25519_shape (n : Ed25519.gf) :
  length (Ed25519._pack25519 n) = 32%nat /\ Forall is_byte (Ed25519._pack25519 n).
Proof.
  unfold Ed25519._pack25519. cbv zeta.
  destruct (for_loop 0 2 _ _) as [t m].
  apply (for_loop_invariant (fun o => length o = 32%nat /\ Forall is_byte o)).
  - split; [reflexivity|apply zeros_bytes].
  - intros i o [Hl Hb]. split; [by rewrite !put8_length|].
    unfold JS.put8. apply put_bytes; [apply put_bytes|]; try done;
      apply ToUint8_byte.
Qed.

Lemma pack_shape (p : Ed25519.point) :
  length (Ed25519._pack p) = 32%nat /\ Forall is_byte (Ed25519._pack p).
Proof.
  unfold Ed25519._pack. cbv zeta.
  destruct (pack25519_shape (Ed25519._fnM (Ed25519.pt1 p)
                               (Ed25519._inv25519 (Ed25519.pt2 p)))) as [Hl Hb].
  split; [by rewrite put8_length|].
  unfold JS.put8. apply put_bytes; [done|apply ToUint8_byte].
Qed.

(** The secret key made from a 32-byte seed: the seed, then the public key. *)
Lemma secretKeyFromSeed_bytes (seed : bytes) :
  Forall is_byte seed -> length seed = 32%nat ->
  Ed25519.secretKeyFromSeed seed
  = seed ++ Ed25519._pack (Ed25519._scalarbase
              (Ed25519.clamp (Ed25519._cryptoHash (seed ++ JS.zeros 32) 32))).
Proof.
  intros Hb Hl. unfold Ed25519.secretKeyFromSeed, Ed25519._cryptoSignKeypair.
  cbv zeta. cbn [snd].
  assert (E0 : for_loop 0 32 (fun i sk => JS.put8 sk i (JS.get seed i))
                 (JS.zeros Ed25519.SECRET_KEY_BYTES)
               = seed ++ JS.zeros 32).
  { change 32 with (Z.of_nat 32) at 1.
    rewrite (for_loop_copy (JS.zeros Ed25519.SECRET_KEY_BYTES) 0 32 (JS.get seed));
      [|intros i a; by rewrite Z.add_0_r
       |rewrite zeros_length; unfold Ed25519.SECRET_KEY_BYTES; lia].
    rewrite <- Hl at 1. rewrite map_get_bytes by done. reflexivity. }
  rewrite E0.
  set (pk := Ed25519._pack _).
  destruct (pack_shape (Ed25519._scalarbase
              (Ed25519.clamp (Ed25519._cryptoHash (seed ++ JS.zeros 32) 32))))
    as [Hlp Hbp]. fold pk in Hlp, Hbp.
  change 32 with (Z.of_nat 32) at 1.
  rewrite (for_loop_copy (seed ++ JS.zeros 32) 32 32 (JS.get pk));
    [|done|rewrite length_app, zeros_length; lia].
  rewrite take_app_exact by done.
  rewrite drop_ge by (rewrite length_app, zeros_length; lia).
  rewrite <- Hlp at 1. rewrite map_get_bytes by done. by rewrite app_nil_r.
Qed.

(** The public key read out of a 64-byte secret key. *)
Lemma secretKey_publicKey_bytes (sk : SecretKey) :
  length (secretKey_bytes sk) = 64%nat ->
  SecretKey_publicKey sk = Ok (mkPublicKey (drop 32 (secretKey_bytes sk))).
Proof.
  intros Hl. unfold SecretKey_publicKey, Ed25519.publicKeyFromSecretKey, JS.subarray.
  assert (Hd : length (drop 32 (secretKey_bytes sk)) = 32%nat)
    by (rewrite length_drop; lia).
  change (64 - 32)%nat with 32%nat. rewrite (take_ge _ 32) by lia.
  rewrite set_zeros_copy_n by done.
  unfold PublicKey_new. rewrite Hd. cbn [Nat.eqb negb PublicKey_LENGTH].
  by rewrite set_zeros_copy_n by done.
Qed.

(** X16.  The constructors of the key classes take typed arrays of 64 and of 32
    bytes and nothing else, and [bytes] returns the bytes that were passed.
    The public key of a secret key is its last 32 bytes; a signature made
    with the key has 64 bytes, the length that [verifySignature] asks for. *)
Theorem key_classes (b : bytes) :
  length b = 64%nat ->
  (exists sk pk,
     SecretKey_new (JUint8Array b) = Ok sk /\ SecretKey_bytes sk = b
     /\ SecretKey_publicKey sk = Ok pk
     /\ PublicKey_new (JUint8Array (drop 32 b)) = Ok pk
     /\ PublicKey_bytes pk = drop 32 b
     /\ (forall m, exists sig,
           SecretKey_sign sk (JUint8Array m) = Ok sig /\ length sig = 64%nat
           /\ PublicKey_verifySignature pk (JUint8Array sig) (JUint8Array m)
              = Ok (Ed25519.verify sig m (drop 32 b))))
  /\ (forall arg, is_ok (SecretKey_new arg) = true
        <-> exists l, arg = JUint8Array l /\ length l = 64%nat)
  /\ (forall arg, is_ok (PublicKey_new arg) = true
        <-> exists l, arg = JUint8Array l /\ length l = 32%nat)
  /\ (forall pk sig m, length sig <> 64%nat ->
        PublicKey_verifySignature pk (JUint8Array sig) m
        = Err "signature length must be 64 bytes").
Proof.
  intros Hl. split; [|split; [|split]].
  - assert (Hd : length (drop 32 b) = 32%nat) by (rewrite length_drop; lia).
    exists (mkSecretKey b), (mkPublicKey (drop 32 b)).
    split; [unfold SecretKey_new; rewrite Hl; cbn [Nat.eqb negb SecretKey_LENGTH];
            by rewrite set_zeros_copy_n|].
    split; [apply set_zeros_copy|].
    split; [by apply secretKey_publicKey_bytes|].
    split; [unfold PublicKey_new; rewrite Hd; cbn [Nat.eqb negb PublicKey_LENGTH];
            by rewrite set_zeros_copy_n|].
    split; [apply set_zeros_copy|].
    intros m. eexists. split; [reflexivity|]. split; [apply sign_length|].
    unfold PublicKey_verifySignature. by rewrite sign_length.
  - intros arg. split.
    + destruct arg as [| |b0|n|s0|l|k0|k0|a0|d0]; try discriminate.
      unfold SecretKey_new.
      destruct (Nat.eqb_spec (length l) SecretKey_LENGTH); [|discriminate].
      intros _. by exists l.
    + intros (l & -> & Hll). unfold SecretKey_new. by rewrite Hll.
  - intros arg. split.
    + destruct arg as [| |b0|n|s0|l|k0|k0|a0|d0]; try discriminate.
      unfold PublicKey_new.
      destruct (Nat.eqb_spec (length l) PublicKey_LENGTH); [|discriminate].
      intros _. by exists l.
    + intros (l & -> & Hll). unfold PublicKey_new. by rewrite Hll.
  - intros pk sig m Hs. unfold PublicKey_verifySignature.
    by destruct (Nat.eqb_spec (length sig) PublicKey_SIGNATURE_LENGTH).
Qed.

Lemma key_classes_witness :
  (exists sk pk,
     SecretKey_new (JUint8Array (seqZ 0 64)) = Ok sk
     /\ SecretKey_bytes sk = seqZ 0 64
     /\ SecretKey_publicKey sk = Ok pk
     /\ PublicKey_new (JUint8Array (drop 32 (seqZ 0 64))) = Ok pk
     /\ PublicKey_bytes pk = drop 32 (seqZ 0 64)
     /\ (forall m, exists sig,
           SecretKey_sign sk (JUint8Array m) = Ok sig /\ length sig = 64%nat
           /\ PublicKey_verifySignature pk (JUint8Array sig) (JUint8Array m)
              = Ok (Ed25519.verify sig m (drop 32 (seqZ 0 64)))))
  /\ (forall arg, is_ok (SecretKey_new arg) = true
        <-> exists l, arg = JUint8Array l /\ length l = 64%nat)
  /\ (forall arg, is_ok (PublicKey_new arg) = true
        <-> exists l, arg = JUint8Array l /\ length l = 32%nat)
  /\ (forall pk sig m, length sig <> 64%nat ->
        PublicKey_verifySignature pk (JUint8Array sig) m
        = Err "signature length must be 64 bytes").
Proof. apply (key_classes (seqZ 0 64)). reflexivity. Defined.

(** X17.  [SecretKey.fromSeed] throws for a seed of more than 128 bytes and for
    nothing else that is a typed array.  A seed of 32 bytes is used as it is
    and any other seed is replaced by its SHA-256 hash, so that a seed and its
    hash give the same key.  The key has 64 bytes: those 32 bytes, then the
    public key, which is the key that [publicKey] returns. *)
Theorem secret_key_from_seed (seed : bytes) :
  Forall is_byte seed ->
  (128 < length seed)%nat
  /\ SecretKey_fromSeed (JUint8Array seed)
     = Err "seed length must be not greater than 128 bytes"
  \/ (length seed <= 128)%nat
     /\ exists sk pk,
          let s32 := if (length seed =? 32)%nat then seed else sha256 seed in
          SecretKey_fromSeed (JUint8Array seed) = Ok sk
          /\ SecretKey_fromSeed (JUint8Array s32) = Ok sk
          /\ length (SecretKey_bytes sk) = 64%nat
          /\ take 32 (SecretKey_bytes sk) = s32
          /\ drop 32 (SecretKey_bytes sk) = PublicKey_bytes pk
          /\ SecretKey_publicKey sk = Ok pk
          /\ PublicKey_bytes pk
             = Ed25519._pack (Ed25519._scalarbase
                 (Ed25519.clamp (Ed25519._cryptoHash (s32 ++ JS.zeros 32) 32))).
Proof.
  intros Hb. destruct (Nat.ltb_spec 128 (length seed)) as [Hlong|Hshort].
  { left. split; [done|]. unfold SecretKey_fromSeed.
    by replace (128 <? length seed)%nat with true
      by (symmetry; by apply Nat.ltb_lt). }
  right. split; [done|].
  set (s32 := if (length seed =? 32)%nat then seed else sha256 seed).
  assert (Hs : Forall is_byte s32 /\ length s32 = 32%nat).
  { unfold s32. destruct (Nat.eqb_spec (length seed) 32) as [E|E]; [done|].
    destruct (sha256_refines_FIPS seed Hb) as (_ & Hl & Hr); [|done].
    change (2 ^ 29) with 536870912. lia. }
  destruct Hs as [Hsb Hsl].
  set (pkb := Ed25519._pack (Ed25519._scalarbase
                (Ed25519.clamp (Ed25519._cryptoHash (s32 ++ JS.zeros 32) 32)))).
  destruct (pack_shape (Ed25519._scalarbase
              (Ed25519.clamp (Ed25519._cryptoHash (s32 ++ JS.zeros 32) 32))))
    as [Hlp Hbp]. fold pkb in Hlp, Hbp.
  assert (Hkey : SecretKey_new (JUint8Array (Ed25519.secretKeyFromSeed s32))
                 = Ok (mkSecretKey (s32 ++ pkb))).
  { rewrite secretKeyFromSeed_bytes by done. fold pkb.
    unfold SecretKey_new. rewrite length_app, Hsl, Hlp.
    cbn [Nat.add Nat.eqb negb SecretKey_LENGTH].
    rewrite set_zeros_copy_n; [done|]. rewrite length_app.
    unfold SecretKey_LENGTH, Ed25519.SECRET_KEY_BYTES. lia. }
  assert (Hseed : SecretKey_fromSeed (JUint8Array seed)
                  = Ok (mkSecretKey (s32 ++ pkb))).
  { unfold SecretKey_fromSeed.
    replace (128 <? length seed)%nat with false
      by (symmetry; apply Nat.ltb_ge; lia).
    unfold s32 in Hkey |- *. unfold Ed25519.SEED_BYTES.
    by destruct (length seed =? 32)%nat. }
  exists (mkSecretKey (s32 ++ pkb)), (mkPublicKey pkb). cbv zeta.
  split; [done|]. split.
  { unfold SecretKey_fromSeed. rewrite Hsl. exact Hkey. }
  unfold SecretKey_bytes, PublicKey_bytes. cbn [secretKey_bytes publicKey_bytes].
  rewrite !set_zeros_copy.
  split; [rewrite length_app; lia|].
  split; [by apply take_app_exact|].
  split; [by apply drop_app_exact|].
  split; [|done].
  rewrite secretKey_publicKey_bytes
    by (cbn [secretKey_bytes]; rewrite length_app; lia).
  cbn [secretKey_bytes]. by rewrite drop_app_exact.
Qed.

Lemma secret_key_from_seed_witness :
  (128 < length [1; 2; 3])%nat
  /\ SecretKey_fromSeed (JUint8Array [1; 2; 3])
     = Err "seed length must be not greater than 128 bytes"
  \/ (length [1; 2; 3] <= 128)%nat
     /\ exists sk pk,
          let s32 := if (length [1; 2; 3] =? 32)%nat then [1; 2; 3]
                     else sha256 [1; 2; 3] in
          SecretKey_fromSeed (JUint8Array [1; 2; 3]) = Ok sk
          /\ SecretKey_fromSeed (JUint8Array s32) = Ok sk
          /\ length (SecretKey_bytes sk) = 64%nat
          /\ take 32 (SecretKey_bytes sk) = s32
          /\ drop 32 (SecretKey_bytes sk) = PublicKey_bytes pk
          /\ SecretKey_publicKey sk = Ok pk
          /\ PublicKey_bytes pk
             = Ed25519._pack (Ed25519._scalarbase
                 (Ed25519.clamp (Ed25519._cryptoHash (s32 ++ JS.zeros 32) 32))).
Proof.
  apply (secret_key_from_seed [1; 2; 3]).
  exact (bool_decide_unpack (Forall is_byte [1; 2; 3]) I).
Defined.

(** X18.  [Address.fromKey] takes a public key or a secret key and nothing else.
    From a public key it makes the address with the version word of the
    prefix [umi] followed by the 32 bytes of the key, whose public key getter
    returns an equal key; from a secret key it makes the address of the key's
    public key, its last 32 bytes. *)
Theorem address_from_key (pk : PublicKey) (sk : SecretKey) :
  length (publicKey_bytes pk) = 32%nat -> length (secretKey_bytes sk) = 64%nat ->
  (exists a, Address_fromKey (JPublicKey pk) = Ok a
     /\ address_bytes a = [85; 169] ++ publicKey_bytes pk
     /\ Address_publicKey a = Ok pk
     /\ Address_version a = Address_Umi
     /\ Address_prefix a = Ok (str "umi"))
  /\ Address_fromKey (JSecretKey sk)
     = Ok (mkAddress ([85; 169] ++ drop 32 (secretKey_bytes sk)))
  /\ (forall key, (forall k, key <> JPublicKey k) -> (forall k, key <> JSecretKey k) ->
        Address_fromKey key = Err "key type must be PublicKey or SecretKey").
Proof.
  intros Hlp Hls.
  assert (Hfrom : forall k, length (publicKey_bytes k) = 32%nat ->
            Address_fromKey (JPublicKey k)
            = Ok (mkAddress ([85; 169] ++ publicKey_bytes k))).
  { intros k Hk. unfold Address_fromKey. rewrite address_new_umi.
    cbn [mbind result_bind]. unfold Address_setPublicKey.
    by rewrite address_set_key. }
  split; [|split].
  - eexists. split; [by apply Hfrom|]. cbn [address_bytes]. split; [done|].
    split; [|split; reflexivity].
    rewrite address_publicKey_getter
      by (cbn [address_bytes]; rewrite length_app; simpl; lia).
    cbn [address_bytes app drop]. by destruct pk.
  - unfold Address_fromKey. rewrite address_new_umi. cbn [mbind result_bind].
    rewrite secretKey_publicKey_bytes by done. cbn [mbind result_bind].
    unfold Address_setPublicKey. rewrite address_set_key; [done|done|].
    cbn [publicKey_bytes]. rewrite length_drop. lia.
  - intros key Hp Hs. destruct key; try reflexivity.
    + by destruct (Hp k).
    + by destruct (Hs k).
Qed.

Lemma address_from_key_witness :
  let pk := mkPublicKey (seqZ 1 32) in
  let sk := mkSecretKey (seqZ 0 64) in
  (exists a, Address_fromKey (JPublicKey pk) = Ok a
     /\ address_bytes a = [85; 169] ++ publicKey_bytes pk
     /\ Address_publicKey a = Ok pk
     /\ Address_version a = Address_Umi
     /\ Address_prefix a = Ok (str "umi"))
  /\ Address_fromKey (JSecretKey sk)
     = Ok (mkAddress ([85; 169] ++ drop 32 (secretKey_bytes sk)))
  /\ (forall key, (forall k, key <> JPublicKey k) -> (forall k, key <> JSecretKey k) ->
        Address_fromKey key = Err "key type must be PublicKey or SecretKey").
Proof.
  intros pk sk. apply (address_from_key pk sk); reflexivity.
Defined.

(** ** Arithmetic modulo [2^255 - 19] *)

(** *** Loops that fill an array *)

Lemma for_loop_nat_ind {S : Type} (P : nat -> S -> Prop) (n : nat)
    (body : Z -> S -> S) (s : S) :
  P 0%nat s ->
  (forall i s, (i < n)%nat -> P i s -> P (Datatypes.S i) (body (Z.of_nat i) s)) ->
  P n (for_loop 0 (Z.of_nat n) body s).
Proof.
  intros H0 Hstep. induction n as [|n IH].
  - by rewrite for_loop_done by lia.
  - rewrite for_loop_snoc. apply Hstep; [lia|]. apply IH.
    intros i s' Hi. apply Hstep. lia.
Qed.

(** [for (i = 0; i < n; i++) o[i] = f (i)] on an array of [n] cells. *)
Lemma for_loop_fill (n : nat) (f : Z -> Z) (o : list Z) :
  length o = n ->
  for_loop 0 (Z.of_nat n) (fun i o => JS.put o i (f i)) o
  = map f (seqZ 0 (Z.of_nat n)).
Proof.
  intros Hlen.
  enough (H : forall k, (k <= n)%nat ->
            for_loop 0 (Z.of_nat k) (fun i o => JS.put o i (f i)) o
            = map f (seqZ 0 (Z.of_nat k)) ++ drop k o).
  { rewrite (H n) by lia. rewrite drop_ge by lia. apply app_nil_r. }
  induction k as [|k IH]; intros Hk.
  - by rewrite for_loop_done by lia.
  - rewrite for_loop_snoc, IH by lia.
    replace (Z.of_nat (S k)) with (Z.of_nat k + 1) by lia.
    rewrite seqZ_app, map_app by lia. cbn [seqZ map].
    unfold JS.put. replace (Z.of_nat k <? 0) with false by lia.
    rewrite Nat2Z.id.
    rewrite insert_app_r_alt by (rewrite length_map, length_seqZ; lia).
    rewrite length_map, length_seqZ.
    replace (k - Z.to_nat (Z.of_nat k))%nat with 0%nat by lia.
    destruct (drop k o) as [|x rest] eqn:Ed.
    { apply (f_equal length) in Ed. rewrite length_drop in Ed. simpl in Ed. lia. }
    assert (Er : drop (S k) o = rest).
    { replace (S k) with (k + 1)%nat by lia. by rewrite <- drop_drop, Ed. }
    rewrite Er. cbn [insert list_insert]. rewrite <- app_assoc.
    rewrite Z.add_0_l. reflexivity.
Qed.

Lemma map_get2_seqZ (f : Z -> Z -> Z) (a b : list Z) :
  length a = length b ->
  map (fun i => f (JS.get a i) (JS.get b i)) (seqZ 0 (Z.of_nat (length a)))
  = zip_with f a b.
Proof.
  intros Hl. apply list_eq. intros i. rewrite list_lookup_fmap, lookup_zip_with.
  destruct (decide (i < length a)%nat) as [Hi|Hi].
  - rewrite lookup_seqZ_lt by lia. cbn [fmap option_fmap option_map].
    rewrite !get_nat by lia. replace (Z.to_nat (0 + Z.of_nat i)) with i by lia.
    destruct (lookup_lt_is_Some_2 a i Hi) as [x ->].
    destruct (lookup_lt_is_Some_2 b i ltac:(lia)) as [y ->]. reflexivity.
  - rewrite lookup_seqZ_ge by lia. by rewrite (lookup_ge_None_2 a) by lia.
Qed.

Lemma map_get_take (l : list Z) (n : nat) :
  (n <= length l)%nat -> map (JS.get l) (seqZ 0 (Z.of_nat n)) = take n l.
Proof.
  intros Hn. apply list_eq. intros i. rewrite list_lookup_fmap.
  destruct (decide (i < n)%nat) as [Hi|Hi].
  - rewrite lookup_seqZ_lt by lia. cbn [fmap option_fmap option_map].
    rewrite get_nat by lia. replace (Z.to_nat (0 + Z.of_nat i)) with i by lia.
    rewrite lookup_take_lt by lia.
    destruct (lookup_lt_is_Some_2 l i ltac:(lia)) as [x ->]. reflexivity.
  - rewrite lookup_seqZ_ge by lia. by rewrite lookup_take_ge by lia.
Qed.

Lemma set25519_copy (a : Ed25519.gf) :
  length a = 16%nat -> Ed25519._set25519 a = a.
Proof.
  intros Hl. unfold Ed25519._set25519.
  change 16 with (Z.of_nat 16).
  rewrite (for_loop_fill 16 (JS.get a)) by reflexivity.
  rewrite <- Hl. apply map_get_seqZ.
Qed.

(** *** The number written by the limbs *)

Lemma limbs_cons x (a : list Z) : limbs (x :: a) = x + 65536 * limbs a.
Proof. reflexivity. Qed.

Lemma limbs_app (a b : list Z) :
  limbs (a ++ b) = limbs a + 65536 ^ Z.of_nat (length a) * limbs b.
Proof.
  induction a as [|x a IH]; [simpl; lia|].
  cbn [app length]. rewrite !limbs_cons.
  rewrite IH, Nat2Z.inj_succ, Z.pow_succ_r by lia. ring.
Qed.

Lemma limbs_zeros n : limbs (JS.zeros n) = 0.
Proof.
  unfold JS.zeros. induction n as [|n IH]; [done|].
  cbn [replicate]. rewrite limbs_cons, IH. lia.
Qed.

Lemma limbs_put (a : list Z) (k : nat) v :
  (k < length a)%nat ->
  limbs (JS.put a (Z.of_nat k) v)
  = limbs a + (v - JS.get a (Z.of_nat k)) * 65536 ^ Z.of_nat k.
Proof.
  intros Hk. unfold JS.put. replace (Z.of_nat k <? 0) with false by lia.
  rewrite get_nat by lia. rewrite Nat2Z.id.
  destruct (lookup_lt_is_Some_2 a k Hk) as [x Hx]. rewrite Hx. cbn [default].
  rewrite <- (take_drop_middle a k x Hx) at 2.
  rewrite insert_take_drop by done.
  rewrite !limbs_app. rewrite length_take, Nat.min_l by lia.
  rewrite !limbs_cons. unfold id. ring.
Qed.

Lemma limbs_take_S (a : list Z) (k : nat) :
  (k < length a)%nat ->
  limbs (take (S k) a)
  = limbs (take k a) + JS.get a (Z.of_nat k) * 65536 ^ Z.of_nat k.
Proof.
  intros Hk. rewrite get_nat by lia. rewrite Nat2Z.id.
  destruct (lookup_lt_is_Some_2 a k Hk) as [x Hx]. rewrite Hx. cbn [default].
  rewrite (take_S_r a k x Hx), limbs_app.
  rewrite length_take, Nat.min_l by lia. rewrite limbs_cons. unfold id.
  change (limbs []) with 0. ring.
Qed.

Lemma limbs_zip_add (a b : list Z) :
  length a = length b -> limbs (zip_with Z.add a b) = limbs a + limbs b.
Proof.
  revert b. induction a as [|x a IH]; intros [|y b] Hl; try discriminate; [done|].
  cbn [zip_with]. rewrite !limbs_cons, IH by (simpl in Hl; lia). ring.
Qed.

Lemma limbs_zip_sub (a b : list Z) :
  length a = length b -> limbs (zip_with Z.sub a b) = limbs a - limbs b.
Proof.
  revert b. induction a as [|x a IH]; intros [|y b] Hl; try discriminate; [done|].
  cbn [zip_with]. rewrite !limbs_cons, IH by (simpl in Hl; lia). ring.
Qed.

(** *** Addition and subtraction *)

Lemma fnA_limbs (a b : Ed25519.gf) :
  length a = 16%nat -> length b = 16%nat ->
  length (Ed25519._fnA a b) = 16%nat
  /\ limbs (Ed25519._fnA a b) = limbs a + limbs b.
Proof.
  intros Ha Hb. unfold Ed25519._fnA. change 16 with (Z.of_nat 16).
  rewrite (for_loop_fill 16 (fun i => JS.get a i + JS.get b i)) by reflexivity.
  pose proof (map_get2_seqZ Z.add a b ltac:(lia)) as E. rewrite Ha in E.
  rewrite E.
  split; [rewrite length_zip_with; lia|apply limbs_zip_add; lia].
Qed.

Lemma fnZ_limbs (a b : Ed25519.gf) :
  length a = 16%nat -> length b = 16%nat ->
  length (Ed25519._fnZ a b) = 16%nat
  /\ limbs (Ed25519._fnZ a b) = limbs a - limbs b.
Proof.
  intros Ha Hb. unfold Ed25519._fnZ. change 16 with (Z.of_nat 16).
  rewrite (for_loop_fill 16 (fun i => JS.get a i - JS.get b i)) by reflexivity.
  pose proof (map_get2_seqZ Z.sub a b ltac:(lia)) as E. rewrite Ha in E.
  rewrite E.
  split; [rewrite length_zip_with; lia|apply limbs_zip_sub; lia].
Qed.

(** *** Reading a cell after a write *)

Lemma get_put_same (a : list Z) (k : nat) v :
  (k < length a)%nat -> JS.get (JS.put a (Z.of_nat k) v) (Z.of_nat k) = v.
Proof.
  intros Hk. unfold JS.put. replace (Z.of_nat k <? 0) with false by lia.
  rewrite get_nat by lia. rewrite Nat2Z.id.
  by rewrite list_lookup_insert_eq by lia.
Qed.

Lemma get_put_other (a : list Z) (k j : nat) v :
  j <> k -> JS.get (JS.put a (Z.of_nat k) v) (Z.of_nat j) = JS.get a (Z.of_nat j).
Proof.
  intros Hk. unfold JS.put. replace (Z.of_nat k <? 0) with false by lia.
  rewrite !get_nat by lia. rewrite !Nat2Z.id.
  by rewrite list_lookup_insert_ne by lia.
Qed.

(** *** Carrying *)

Lemma limbs_bound (l : list Z) :
  Forall (fun x => 0 <= x < 65536) l ->
  0 <= limbs l < 65536 ^ Z.of_nat (length l).
Proof.
  induction 1 as [|x l Hx _ IH]; [simpl; lia|].
  rewrite limbs_cons. cbn [length]. rewrite Nat2Z.inj_succ, Z.pow_succ_r by lia.
  lia.
Qed.

Lemma Forall_get (P : Z -> Prop) (l : list Z) :
  (forall j : nat, (j < length l)%nat -> P (JS.get l (Z.of_nat j))) -> Forall P l.
Proof.
  intros H. apply Forall_lookup_2. intros i x Hx.
  specialize (H i (lookup_lt_Some _ _ _ Hx)).
  rewrite get_nat, Nat2Z.id, Hx in H by lia. exact H.
Qed.

(** [_car25519] brings every limb into [0, 2^16) and then adds to the first
    limb what was carried out of the last, multiplied by 38. *)
Lemma car25519_steps (o : Ed25519.gf) :
  length o = 16%nat ->
  exists o',
    Ed25519._car25519 o
    = JS.put o' 0 (JS.get o' 0 + 38 * (limbs o / 2 ^ 256))
    /\ length o' = 16%nat
    /\ Forall (fun x => 0 <= x < 65536) o'
    /\ limbs o' = limbs o mod 2 ^ 256.
Proof.
  intros Hl. unfold Ed25519._car25519.
  set (body := fun (i : Z) '(o, c) =>
                 let v := JS.get o i + c + 65535 in
                 let c0 := v / 65536 in
                 (JS.put o i (v - c0 * 65536), c0)).
  assert (Hinv : let st := for_loop 0 (Z.of_nat 16) body (o, 1) in
            length st.1 = 16%nat
            /\ limbs st.1 + (st.2 - 1) * 65536 ^ Z.of_nat 16 = limbs o
            /\ forall j : nat, (j < 16)%nat ->
                 0 <= JS.get st.1 (Z.of_nat j) < 65536).
  { apply (for_loop_nat_ind
             (fun i (st : list Z * Z) =>
                length st.1 = 16%nat
                /\ limbs st.1 + (st.2 - 1) * 65536 ^ Z.of_nat i = limbs o
                /\ forall j : nat, (j < i)%nat ->
                     0 <= JS.get st.1 (Z.of_nat j) < 65536)).
    - cbn [fst snd]. split; [done|]. split; [lia|]. intros j Hj. lia.
    - intros i [o' c'] Hi (Hlo & Hv & Hb). unfold body. cbv zeta. cbn [fst snd] in *.
      set (v := JS.get o' (Z.of_nat i) + c' + 65535).
      split; [by rewrite put_length|]. split.
      + rewrite limbs_put by lia. rewrite Nat2Z.inj_succ, Z.pow_succ_r by lia.
        rewrite <- Hv. unfold v. ring.
      + intros j Hj. destruct (decide (j = i)) as [->|Hne].
        * rewrite get_put_same by lia. Z.div_mod_to_equations. lia.
        * rewrite get_put_other by done. apply Hb. lia. }
  change (for_loop 0 16 body (o, 1))
    with (for_loop 0 (Z.of_nat 16) body (o, 1)).
  destruct (for_loop 0 (Z.of_nat 16) body (o, 1)) as [o' c'].
  cbv zeta in Hinv. cbn [fst snd] in Hinv. destruct Hinv as (Hlo & Hv & Hb).
  assert (Hr : Forall (fun x => 0 <= x < 65536) o')
    by (apply Forall_get; intros j Hj; apply Hb; lia).
  pose proof (limbs_bound o' Hr) as Hlim. rewrite Hlo in Hlim.
  change (65536 ^ Z.of_nat 16) with (2 ^ 256) in *.
  assert (Hc : c' - 1 = limbs o / 2 ^ 256 /\ limbs o' = limbs o mod 2 ^ 256).
  { split.
    - apply (Z.div_unique_pos (limbs o) (2 ^ 256) (c' - 1) (limbs o')); lia.
    - apply (Z.mod_unique_pos (limbs o) (2 ^ 256) (c' - 1) (limbs o')); lia. }
  destruct Hc as [Hc Hm]. exists o'. rewrite <- Hc.
  split; [do 2 f_equal; lia|done].
Qed.

(** The number after carrying: what is above [2^256] comes back multiplied
    by 38, so the number changes by a multiple of [2 * p]. *)
Lemma car25519_limbs (o : Ed25519.gf) :
  length o = 16%nat ->
  length (Ed25519._car25519 o) = 16%nat
  /\ limbs (Ed25519._car25519 o)
     = limbs o mod 2 ^ 256 + 38 * (limbs o / 2 ^ 256)
  /\ 0 <= JS.get (Ed25519._car25519 o) 0 - 38 * (limbs o / 2 ^ 256) < 65536
  /\ (forall j : nat, (1 <= j < 16)%nat ->
        0 <= JS.get (Ed25519._car25519 o) (Z.of_nat j) < 65536).
Proof.
  intros Hl. destruct (car25519_steps o Hl) as (o' & -> & Hlo & Hr & Hv).
  set (v := JS.get o' 0 + 38 * (limbs o / 2 ^ 256)).
  pose proof (limbs_put o' 0 v ltac:(lia)) as Eput.
  pose proof (get_put_same o' 0 v ltac:(lia)) as Eget.
  change (Z.of_nat 0) with 0 in Eput, Eget.
  assert (Hb : forall j : nat, (j < 16)%nat -> 0 <= JS.get o' (Z.of_nat j) < 65536).
  { intros j Hj. rewrite get_nat, Nat2Z.id by lia.
    destruct (lookup_lt_is_Some_2 o' j ltac:(lia)) as [x Hx]. rewrite Hx.
    by apply (Forall_lookup_1 _ _ _ _ Hr Hx). }
  split; [by rewrite put_length|]. split; [|split].
  - rewrite Eput, Hv. unfold v. change (65536 ^ 0) with 1. lia.
  - rewrite Eget. unfold v. pose proof (Hb 0%nat ltac:(lia)) as H0.
    change (Z.of_nat 0) with 0 in H0. lia.
  - intros j Hj. pose proof (get_put_other o' 0 j v ltac:(lia)) as Eo.
    change (Z.of_nat 0) with 0 in Eo. rewrite Eo. apply Hb. lia.
Qed.

(** *** Multiplication *)

(** The product before reduction: the 31 coefficients of the product of the
    two polynomials. *)
Lemma product_limbs (a b : Ed25519.gf) :
  length a = 16%nat -> length b = 16%nat ->
  let t := for_loop 0 16 (fun i t =>
             for_loop 0 16 (fun j t =>
               JS.put t (i + j) (JS.get t (i + j) + JS.get a i * JS.get b j)) t)
             (JS.zeros 31) in
  length t = 31%nat /\ limbs t = limbs a * limbs b.
Proof.
  intros Ha Hb. cbv zeta. change 16 with (Z.of_nat 16) at 1.
  assert (H : let t := for_loop 0 (Z.of_nat 16) (fun i t =>
             for_loop 0 16 (fun j t =>
               JS.put t (i + j) (JS.get t (i + j) + JS.get a i * JS.get b j)) t)
             (JS.zeros 31) in
            length t = 31%nat /\ limbs t = limbs (take 16 a) * limbs b).
  { apply (for_loop_nat_ind
             (fun i (t : list Z) =>
                length t = 31%nat /\ limbs t = limbs (take i a) * limbs b)).
    - split; [reflexivity|]. rewrite limbs_zeros. simpl. lia.
    - intros i t Hi [Hlt Hv]. change 16 with (Z.of_nat 16).
      assert (Hin : let t' := for_loop 0 (Z.of_nat 16) (fun j t =>
                 JS.put t (Z.of_nat i + j)
                   (JS.get t (Z.of_nat i + j) + JS.get a (Z.of_nat i) * JS.get b j)) t in
                length t' = 31%nat
                /\ limbs t' = limbs t
                     + JS.get a (Z.of_nat i) * 65536 ^ Z.of_nat i
                       * limbs (take 16 b)).
      { apply (for_loop_nat_ind
                 (fun j (t' : list Z) =>
                    length t' = 31%nat
                    /\ limbs t' = limbs t
                         + JS.get a (Z.of_nat i) * 65536 ^ Z.of_nat i
                           * limbs (take j b))).
        - split; [done|]. simpl. lia.
        - intros j t' Hj [Hlt' Hv'].
          replace (Z.of_nat i + Z.of_nat j) with (Z.of_nat (i + j)) by lia.
          split; [by rewrite put_length|].
          rewrite limbs_put by lia. rewrite Hv', limbs_take_S by lia.
          rewrite Nat2Z.inj_add, Z.pow_add_r by lia. ring. }
      cbv zeta in Hin. destruct Hin as [Hl' Hv']. split; [done|].
      rewrite (take_ge b) in Hv' by lia.
      rewrite Hv', Hv, (limbs_take_S a i) by lia. ring. }
  cbv zeta in H. by rewrite (take_ge a) in H by lia.
Qed.

(** Folding the high coefficients into the low ones, multiplied by 38. *)
Lemma fold_limbs (t : list Z) :
  length t = 31%nat ->
  let t' := for_loop 0 15 (fun i t =>
              JS.put t i (JS.get t i + 38 * JS.get t (i + 16))) t in
  length t' = 31%nat
  /\ limbs (take 16 t') = limbs t - 2 * p25519 * limbs (drop 16 t).
Proof.
  intros Hl. cbv zeta. change 15 with (Z.of_nat 15).
  assert (H : let t' := for_loop 0 (Z.of_nat 15) (fun i t =>
                JS.put t i (JS.get t i + 38 * JS.get t (i + 16))) t in
              length t' = 31%nat /\ drop 16 t' = drop 16 t
              /\ limbs t' = limbs t + 38 * limbs (take 15 (drop 16 t))).
  { apply (for_loop_nat_ind
             (fun i (t' : list Z) =>
                length t' = 31%nat /\ drop 16 t' = drop 16 t
                /\ limbs t' = limbs t + 38 * limbs (take i (drop 16 t)))).
    - split; [done|]. split; [done|]. simpl. lia.
    - intros i t' Hi (Hl' & Hd & Hv).
      split; [by rewrite put_length|]. split.
      + unfold JS.put. replace (Z.of_nat i <? 0) with false by lia.
        rewrite Nat2Z.id. rewrite drop_insert_lt by lia. exact Hd.
      + rewrite limbs_put by lia. rewrite Hv.
        rewrite limbs_take_S by (rewrite length_drop; lia).
        assert (Eg : JS.get t' (Z.of_nat i + 16) = JS.get (drop 16 t) (Z.of_nat i)).
        { rewrite <- Hd. rewrite !get_nat by lia. rewrite lookup_drop.
          do 2 f_equal. lia. }
        rewrite Eg. ring. }
  cbv zeta in H. set (t' := for_loop 0 (Z.of_nat 15) _ t) in *.
  destruct H as (Hl' & Hd & Hv). split; [done|].
  rewrite (take_ge (drop 16 t)) in Hv by (rewrite length_drop; lia).
  pose proof (limbs_app (take 16 t') (drop 16 t')) as E1.
  rewrite take_drop, length_take, Nat.min_l in E1 by lia.
  pose proof (limbs_app (take 16 t) (drop 16 t)) as E2.
  rewrite take_drop, length_take, Nat.min_l in E2 by lia.
  rewrite Hd in E1. change (65536 ^ Z.of_nat 16) with (2 ^ 256) in *.
  unfold p25519. lia.
Qed.

Lemma same_mod_p_sub x k : same_mod_p (x - k * (2 * p25519)) x.
Proof.
  unfold same_mod_p. replace (x - k * (2 * p25519)) with (x + (- (2 * k)) * p25519) by ring.
  apply Z.mod_add. unfold p25519. lia.
Qed.

Lemma same_mod_p_trans x y z : same_mod_p x y -> same_mod_p y z -> same_mod_p x z.
Proof. unfold same_mod_p. congruence. Qed.

Lemma same_mod_p_mul x x' y y' :
  same_mod_p x x' -> same_mod_p y y' -> same_mod_p (x * y) (x' * y').
Proof.
  unfold same_mod_p. intros Hx Hy.
  rewrite (Z.mul_mod x y), (Z.mul_mod x' y'), Hx, Hy by (unfold p25519; lia).
  reflexivity.
Qed.

Lemma car25519_mod (o : Ed25519.gf) :
  length o = 16%nat ->
  length (Ed25519._car25519 o) = 16%nat
  /\ same_mod_p (limbs (Ed25519._car25519 o)) (limbs o).
Proof.
  intros Hl. destruct (car25519_limbs o Hl) as (Hl' & Hv & _).
  split; [done|]. rewrite Hv.
  replace (limbs o mod 2 ^ 256 + 38 * (limbs o / 2 ^ 256))
    with (limbs o - (limbs o / 2 ^ 256) * (2 * p25519)).
  - apply same_mod_p_sub.
  - unfold p25519. pose proof (Z.div_mod (limbs o) (2 ^ 256) ltac:(lia)). lia.
Qed.

Lemma fnM_limbs (a b : Ed25519.gf) :
  length a = 16%nat -> length b = 16%nat ->
  length (Ed25519._fnM a b) = 16%nat
  /\ same_mod_p (limbs (Ed25519._fnM a b)) (limbs a * limbs b).
Proof.
  intros Ha Hb. unfold Ed25519._fnM. cbv zeta.
  pose proof (product_limbs a b Ha Hb) as Hp. cbv zeta in Hp.
  match type of Hp with
  | length ?t0 = _ /\ _ => generalize dependent t0
  end.
  intros t [Hlt Hvt].
  pose proof (fold_limbs t Hlt) as Hf. cbv zeta in Hf.
  match type of Hf with
  | length ?t0 = _ /\ _ => generalize dependent t0
  end.
  intros t' [Hlt' Hvt'].
  pose proof (for_loop_fill 16 (JS.get t') (JS.zeros 16) eq_refl) as Eo.
  change (Z.of_nat 16) with 16 in Eo at 1. rewrite Eo.
  rewrite (map_get_take t' 16) by lia.
  assert (Hlo : length (take 16 t') = 16%nat) by (rewrite length_take; lia).
  destruct (car25519_mod (take 16 t') Hlo) as [Hl1 Hv1].
  destruct (car25519_mod _ Hl1) as [Hl2 Hv2].
  split; [done|].
  eapply same_mod_p_trans; [exact Hv2|].
  eapply same_mod_p_trans; [exact Hv1|].
  rewrite Hvt', Hvt.
  replace (limbs a * limbs b - 2 * p25519 * limbs (drop 16 t))
    with (limbs a * limbs b - limbs (drop 16 t) * (2 * p25519)) by ring.
  apply same_mod_p_sub.
Qed.

(** *** Powers *)

Lemma same_mod_p_refl x : same_mod_p x x.
Proof. reflexivity. Qed.

(** A square-and-multiply loop: going down over the steps of [l], the
    number is squared, and multiplied by [limbs i] at the steps where [mult]
    holds. *)
Lemma power_loop (i : Ed25519.gf) (mult : Z -> bool) (l : list Z) :
  length i = 16%nat ->
  forall (c : Ed25519.gf) (e : Z),
  length c = 16%nat -> 0 <= e -> same_mod_p (limbs c) (limbs i ^ e) ->
  let c' := foldl (fun c a =>
              let c := Ed25519._fnM c c in
              if mult a then Ed25519._fnM c i else c) c l in
  let e' := foldl (fun e a => if mult a then 2 * e + 1 else 2 * e) e l in
  length c' = 16%nat /\ 0 <= e' /\ same_mod_p (limbs c') (limbs i ^ e').
Proof.
  intros Hi. induction l as [|a l IH]; intros c e Hc He Hv.
  { cbn [foldl]. cbv zeta. split; [exact Hc|]. split; [exact He|exact Hv]. }
  cbn [foldl]. cbv zeta.
  pose proof (fnM_limbs c c Hc Hc) as [Hl2 Hv2].
  generalize dependent (Ed25519._fnM c c). intros s Hl2 Hv2.
  assert (Hsq : same_mod_p (limbs s) (limbs i ^ (2 * e))).
  { eapply same_mod_p_trans; [exact Hv2|].
    replace (2 * e) with (e + e) by lia. rewrite Z.pow_add_r by lia.
    apply same_mod_p_mul; exact Hv. }
  destruct (mult a).
  - pose proof (fnM_limbs s i Hl2 Hi) as [Hl3 Hv3].
    generalize dependent (Ed25519._fnM s i). intros m Hl3 Hv3.
    apply IH; [exact Hl3|lia|].
    eapply same_mod_p_trans; [exact Hv3|].
    rewrite Z.pow_add_r by lia. rewrite Z.pow_1_r.
    apply same_mod_p_mul; [exact Hsq|apply same_mod_p_refl].
  - apply IH; [exact Hl2|lia|exact Hsq].
Qed.

Lemma inv25519_limbs (i : Ed25519.gf) :
  length i = 16%nat ->
  length (Ed25519._inv25519 i) = 16%nat
  /\ same_mod_p (limbs (Ed25519._inv25519 i)) (limbs i ^ (p25519 - 2)).
Proof.
  intros Hi. unfold Ed25519._inv25519, for_down, Ed25519._fnS. cbv zeta.
  rewrite (set25519_copy i) by done.
  destruct (power_loop i (fun a => negb (a =? 2) && negb (a =? 4))
              (reverse (seqZ 0 (253 - 0 + 1))) Hi i 1 Hi ltac:(lia))
    as (Hl & _ & Hv).
  { rewrite Z.pow_1_r. apply same_mod_p_refl. }
  cbv zeta in Hl, Hv. rewrite set25519_copy by exact Hl.
  split; [exact Hl|].
  replace (p25519 - 2)
    with (foldl (fun e a => if negb (a =? 2) && negb (a =? 4)
                            then 2 * e + 1 else 2 * e) 1
            (reverse (seqZ 0 (253 - 0 + 1))))
    by (vm_compute; reflexivity).
  exact Hv.
Qed.

Lemma pow2523_limbs (i : Ed25519.gf) :
  length i = 16%nat ->
  length (Ed25519._pow2523 i) = 16%nat
  /\ same_mod_p (limbs (Ed25519._pow2523 i)) (limbs i ^ ((p25519 - 5) / 8)).
Proof.
  intros Hi. unfold Ed25519._pow2523, for_down, Ed25519._fnS. cbv zeta.
  rewrite (set25519_copy i) by done.
  destruct (power_loop i (fun a => negb (a =? 1))
              (reverse (seqZ 0 (250 - 0 + 1))) Hi i 1 Hi ltac:(lia))
    as (Hl & _ & Hv).
  { rewrite Z.pow_1_r. apply same_mod_p_refl. }
  cbv zeta in Hl, Hv. rewrite set25519_copy by exact Hl.
  split; [exact Hl|].
  replace ((p25519 - 5) / 8)
    with (foldl (fun e a => if negb (a =? 1) then 2 * e + 1 else 2 * e) 1
            (reverse (seqZ 0 (250 - 0 + 1))))
    by (vm_compute; reflexivity).
  exact Hv.
Qed.

(** *** Unpacking *)

Lemma le_bytes_cons x (b : bytes) : le_bytes (x :: b) = x + 256 * le_bytes b.
Proof. reflexivity. Qed.

(** Sixteen-bit limbs made of pairs of bytes. *)
Lemma byte_pairs (k : nat) (n : bytes) :
  length n = (2 * k)%nat -> Forall is_byte n ->
  let o := map (fun i => JS.get n (2 * i) + 256 * JS.get n (2 * i + 1))
             (seqZ 0 (Z.of_nat k)) in
  limbs o = le_bytes n /\ Forall (fun x => 0 <= x < 65536) o.
Proof.
  revert n. induction k as [|k IH]; intros n Hl Hb.
  - destruct n; [|discriminate]. cbn. split; [reflexivity|constructor].
  - destruct n as [|x [|y n]]; try (simpl in Hl; lia).
    apply Forall_cons in Hb as [Hx Hb]. apply Forall_cons in Hb as [Hy Hb].
    destruct (IH n ltac:(simpl in Hl; lia) Hb) as [Hv Hr]. cbv zeta in *.
    rewrite Nat2Z.inj_succ, seqZ_cons by lia.
    replace (Z.pred (Z.succ (Z.of_nat k))) with (Z.of_nat k) by lia.
    cbn [map]. change (Z.succ 0) with (1 + 0).
    rewrite <- fmap_add_seqZ.
    change (map ?f (Z.add 1 <$> ?l)) with (map f (map (Z.add 1) l)).
    rewrite map_map.
    assert (E : map (fun i => JS.get (x :: y :: n) (2 * (1 + i))
                              + 256 * JS.get (x :: y :: n) (2 * (1 + i) + 1))
                  (seqZ 0 (Z.of_nat k))
                = map (fun i => JS.get n (2 * i) + 256 * JS.get n (2 * i + 1))
                    (seqZ 0 (Z.of_nat k))).
    { apply map_ext_Forall. apply Forall_forall. intros i Hi.
      apply elem_of_seqZ in Hi.
      rewrite (get_cons_S x), (get_cons_S y) by lia.
      rewrite (get_cons_S x), (get_cons_S y) by lia.
      do 2 f_equal; f_equal; lia. }
    rewrite E. change (2 * 0) with 0. change (0 + 1) with 1.
    rewrite get_cons_0, (get_cons_S x), get_cons_0 by lia.
    rewrite limbs_cons, !le_bytes_cons, Hv. split; [ring|].
    apply Forall_cons; split; [|exact Hr]. unfold is_byte in *. lia.
Qed.

(** [_unpack25519] reads 32 bytes as a number, least significant byte first,
    and drops its highest bit. *)
Lemma unpack25519_limbs (n : bytes) :
  Forall is_byte n -> length n = 32%nat ->
  length (Ed25519._unpack25519 n) = 16%nat
  /\ Forall (fun x => 0 <= x < 65536) (Ed25519._unpack25519 n)
  /\ limbs (Ed25519._unpack25519 n) = le_bytes n mod 2 ^ 255.
Proof.
  intros Hb Hl. unfold Ed25519._unpack25519. cbv zeta.
  pose proof (for_loop_fill 16
                (fun i => JS.get n (2 * i) + JS.shl (JS.get n (2 * i + 1)) 8)
                (JS.zeros 16) eq_refl) as Eo.
  change (Z.of_nat 16) with 16 in Eo at 1. rewrite Eo. clear Eo.
  assert (E : map (fun i => JS.get n (2 * i) + JS.shl (JS.get n (2 * i + 1)) 8)
                (seqZ 0 (Z.of_nat 16))
              = map (fun i => JS.get n (2 * i) + 256 * JS.get n (2 * i + 1))
                  (seqZ 0 (Z.of_nat 16))).
  { apply map_ext. intros i. f_equal.
    pose proof (get_byte n (2 * i + 1) Hb) as Hg. unfold is_byte in Hg.
    rewrite shl_small by (change (2 ^ 8) with 256; lia).
    change (2 ^ 8) with 256. lia. }
  rewrite E. clear E.
  destruct (byte_pairs 16 n Hl Hb) as [Hv Hr]. cbv zeta in Hv, Hr.
  assert (Hlo : length (map (fun i => JS.get n (2 * i) + 256 * JS.get n (2 * i + 1))
                          (seqZ 0 (Z.of_nat 16))) = 16%nat)
    by (rewrite length_map, length_seqZ; reflexivity).
  generalize dependent (map (fun i => JS.get n (2 * i) + 256 * JS.get n (2 * i + 1))
                          (seqZ 0 (Z.of_nat 16))).
  intros o Hv Hr Hlo. rewrite <- Hv.
  destruct (lookup_lt_is_Some_2 o 15 ltac:(lia)) as [h Hh].
  assert (Hg : JS.get o 15 = h).
  { change 15 with (Z.of_nat 15). by rewrite get_nat, Nat2Z.id, Hh by lia. }
  pose proof (Forall_lookup_1 _ _ _ _ Hr Hh) as Hhr. cbv beta in Hhr.
  rewrite Hg.
  assert (Hand : JS.and h 32767 = h mod 32768).
  { rewrite and_small by lia. change 32767 with (Z.ones 15).
    by rewrite Z.land_ones by lia. }
  rewrite Hand.
  pose proof (limbs_put o 15 (h mod 32768) ltac:(lia)) as Eput.
  change (Z.of_nat 15) with 15 in Eput. rewrite Hg in Eput.
  pose proof (limbs_app (take 15 o) (drop 15 o)) as Esplit.
  rewrite take_drop, length_take, Nat.min_l in Esplit by lia.
  rewrite (drop_S o h 15 Hh), (drop_ge o 16) in Esplit by lia.
  rewrite limbs_cons in Esplit. change (limbs []) with 0 in Esplit.
  pose proof (limbs_bound (take 15 o) ltac:(by apply Forall_take)) as Hlow.
  rewrite length_take, Nat.min_l in Hlow by lia.
  split; [by rewrite put_length|]. split.
  - unfold JS.put. cbn [Z.ltb Z.compare]. apply Forall_insert; [exact Hr|].
    Z.div_mod_to_equations. lia.
  - rewrite Eput.
    change (65536 ^ Z.of_nat 15) with (2 ^ 240) in *.
    change (65536 ^ 15) with (2 ^ 240).
    assert (HM : 0 < 2 ^ 240) by lia.
    pose proof (Z.div_mod h 32768 ltac:(lia)) as Hdm.
    pose proof (Z.mod_pos_bound h 32768 ltac:(lia)) as Hmb.
    apply (Z.mod_unique_pos (limbs o) (2 ^ 255) (h / 32768)).
    + change (2 ^ 255) with (2 ^ 240 * 32768).
      rewrite Esplit. clear Esplit Eput Hdm Hand.
      set (M := 2 ^ 240) in *. set (r := h mod 32768) in *.
      set (low := limbs (take 15 o)) in *. clearbody M r low.
      replace (low + M * (h + 65536 * 0) + (r - h) * M) with (low + M * r) by ring.
      nia.
    + change (2 ^ 255) with (2 ^ 240 * 32768).
      replace (h mod 32768 - h) with (- (32768 * (h / 32768))) by lia. ring.
Qed.

(** *** The size of the limbs *)

Lemma get_Forall (P : Z -> Prop) (l : list Z) k :
  P 0 -> Forall P l -> P (JS.get l k).
Proof.
  intros H0 H. unfold JS.get. destruct (k <? 0); [done|].
  destruct (l !! Z.to_nat k) as [x|] eqn:E; [|done].
  cbn [default]. unfold id. by apply (Forall_lookup_1 _ _ _ _ H E).
Qed.

Lemma mul_within x y A B :
  - A <= x <= A -> - B <= y <= B -> - (A * B) <= x * y <= A * B.
Proof. intros Hx Hy. nia. Qed.

Lemma limbs_magnitude (l : list Z) C :
  0 <= C -> Forall (fun x => - C <= x <= C) l ->
  - (C * (65536 ^ Z.of_nat (length l) - 1)) <= 65535 * limbs l
    <= C * (65536 ^ Z.of_nat (length l) - 1).
Proof.
  intros HC. induction 1 as [|x l Hx _ IH]; [simpl; lia|].
  rewrite limbs_cons. cbn [length]. rewrite Nat2Z.inj_succ, Z.pow_succ_r by lia.
  assert (0 < 65536 ^ Z.of_nat (length l)) by (apply Z.pow_pos_nonneg; lia).
  lia.
Qed.

(** The cells of the product before the carries: sixteen products each. *)
Lemma product_bound (a b : Ed25519.gf) A B :
  length a = 16%nat -> length b = 16%nat -> 0 <= A -> 0 <= B ->
  Forall (fun x => - A <= x <= A) a -> Forall (fun x => - B <= x <= B) b ->
  let t := for_loop 0 16 (fun i t =>
             for_loop 0 16 (fun j t =>
               JS.put t (i + j) (JS.get t (i + j) + JS.get a i * JS.get b j)) t)
             (JS.zeros 31) in
  Forall (fun x => - (16 * (A * B)) <= x <= 16 * (A * B)) t.
Proof.
  intros Ha Hb HA HB Hra Hrb. cbv zeta.
  assert (HAB : 0 <= A * B) by nia.
  assert (H : let t := for_loop 0 (Z.of_nat 16) (fun i t =>
             for_loop 0 16 (fun j t =>
               JS.put t (i + j) (JS.get t (i + j) + JS.get a i * JS.get b j)) t)
             (JS.zeros 31) in
            length t = 31%nat
            /\ forall k : nat, (k < 31)%nat ->
                 - (Z.of_nat 16 * (A * B)) <= JS.get t (Z.of_nat k)
                   <= Z.of_nat 16 * (A * B)).
  { apply (for_loop_nat_ind
             (fun i (t : list Z) =>
                length t = 31%nat
                /\ forall k : nat, (k < 31)%nat ->
                     - (Z.of_nat i * (A * B)) <= JS.get t (Z.of_nat k)
                       <= Z.of_nat i * (A * B))).
    - split; [reflexivity|]. intros k Hk.
      rewrite get_nat, Nat2Z.id by lia. unfold JS.zeros.
      rewrite lookup_replicate_2 by lia. simpl. lia.
    - intros i t Hi [Hlt Hv]. change 16 with (Z.of_nat 16).
      assert (Hin : let t' := for_loop 0 (Z.of_nat 16) (fun j t =>
                 JS.put t (Z.of_nat i + j)
                   (JS.get t (Z.of_nat i + j) + JS.get a (Z.of_nat i) * JS.get b j)) t in
                length t' = 31%nat
                /\ forall k : nat, (k < 31)%nat ->
                     let n := if ((i <=? k) && (k <? i + 16))%nat
                              then Z.of_nat (S i) else Z.of_nat i in
                     - (n * (A * B)) <= JS.get t' (Z.of_nat k) <= n * (A * B)).
      { apply (for_loop_nat_ind
                 (fun j (t' : list Z) =>
                    length t' = 31%nat
                    /\ forall k : nat, (k < 31)%nat ->
                         let n := if ((i <=? k) && (k <? i + j))%nat
                                  then Z.of_nat (S i) else Z.of_nat i in
                         - (n * (A * B)) <= JS.get t' (Z.of_nat k) <= n * (A * B))).
        - split; [done|]. intros k Hk. cbv zeta.
          replace ((i <=? k) && (k <? i + 0))%nat with false; [by apply Hv|].
          destruct (Nat.leb_spec i k), (Nat.ltb_spec k (i + 0)); simpl; lia.
        - intros j t' Hj [Hlt' Hv'].
          replace (Z.of_nat i + Z.of_nat j) with (Z.of_nat (i + j)) by lia.
          split; [by rewrite put_length|]. intros k Hk. cbv zeta.
          specialize (Hv' k Hk). cbv zeta in Hv'.
          destruct (decide (k = i + j)%nat) as [->|Hne].
          + rewrite get_put_same by lia.
            replace ((i <=? i + j) && (i + j <? i + S j))%nat with true
              by (destruct (Nat.leb_spec i (i + j)),
                    (Nat.ltb_spec (i + j) (i + S j)); simpl; lia).
            replace ((i <=? i + j) && (i + j <? i + j))%nat with false in Hv'
              by (destruct (Nat.leb_spec i (i + j)),
                    (Nat.ltb_spec (i + j) (i + j)); simpl; lia).
            pose proof (mul_within (JS.get a (Z.of_nat i)) (JS.get b (Z.of_nat j))
                          A B) as Hm.
            specialize (Hm (get_Forall (fun x => - A <= x <= A) a _
                              ltac:(cbv beta; lia) Hra)
                           (get_Forall (fun x => - B <= x <= B) b _
                              ltac:(cbv beta; lia) Hrb)).
            set (P := A * B) in *. set (ab := _ * _) in *.
            lia.
          + rewrite get_put_other by done.
            replace ((i <=? k) && (k <? i + S j))%nat
              with ((i <=? k) && (k <? i + j))%nat; [exact Hv'|].
            destruct (Nat.leb_spec i k), (Nat.ltb_spec k (i + j)),
              (Nat.ltb_spec k (i + S j)); simpl; lia. }
      cbv zeta in Hin. destruct Hin as [Hl' Hv']. split; [done|].
      intros k Hk. specialize (Hv' k Hk). cbv zeta in Hv'.
      destruct ((i <=? k) && (k <? i + 16))%nat; lia. }
  cbv zeta in H. change (Z.of_nat 16) with 16 in H. destruct H as [Hl Hv].
  apply Forall_get. intros j Hj. apply Hv. lia.
Qed.

(** The sixteen cells after the high ones are folded in. *)
Lemma fold_bound (t : list Z) C :
  length t = 31%nat -> 0 <= C -> Forall (fun x => - C <= x <= C) t ->
  let t' := for_loop 0 15 (fun i t =>
              JS.put t i (JS.get t i + 38 * JS.get t (i + 16))) t in
  Forall (fun x => - (39 * C) <= x <= 39 * C) (take 16 t').
Proof.
  intros Hl HC Hr. cbv zeta. change 15 with (Z.of_nat 15).
  assert (H : let t' := for_loop 0 (Z.of_nat 15) (fun i t =>
                JS.put t i (JS.get t i + 38 * JS.get t (i + 16))) t in
              length t' = 31%nat
              /\ forall k : nat, (k < 31)%nat ->
                   (- (39 * C) <= JS.get t' (Z.of_nat k) <= 39 * C)
                   /\ ((15 <= k)%nat -> - C <= JS.get t' (Z.of_nat k) <= C)).
  { apply (for_loop_nat_ind
             (fun i (t' : list Z) =>
                length t' = 31%nat
                /\ forall k : nat, (k < 31)%nat ->
                     (- (39 * C) <= JS.get t' (Z.of_nat k) <= 39 * C)
                     /\ ((i <= k)%nat -> - C <= JS.get t' (Z.of_nat k) <= C))).
    - split; [done|]. intros k Hk.
      pose proof (get_Forall (fun x => - C <= x <= C) t (Z.of_nat k)
                    ltac:(cbv beta; lia) Hr) as Hg.
      cbv beta in Hg. lia.
    - intros i t' Hi [Hl' Hv]. split; [by rewrite put_length|].
      intros k Hk. destruct (decide (k = i)) as [->|Hne].
      + rewrite get_put_same by lia.
        destruct (Hv i ltac:(lia)) as [_ H1].
        replace (Z.of_nat i + 16) with (Z.of_nat (i + 16)) by lia.
        destruct (Hv (i + 16)%nat ltac:(lia)) as [_ H2].
        specialize (H1 ltac:(lia)). specialize (H2 ltac:(lia)).
        split; [lia|]. intros Hc. lia.
      + rewrite get_put_other by done. destruct (Hv k Hk) as [H1 H2].
        split; [exact H1|]. intros Hc. apply H2. lia. }
  cbv zeta in H. destruct H as [Hl' Hv].
  apply Forall_get. rewrite length_take, Nat.min_l by lia. intros j Hj.
  rewrite get_nat, Nat2Z.id, lookup_take_lt by lia.
  destruct (Hv j ltac:(lia)) as [H1 _].
  rewrite get_nat, Nat2Z.id in H1 by lia. exact H1.
Qed.

(** After its two carries [_fnM] leaves limbs of sixteen bits, but for the
    first, which the last carry can move by [38]. *)
Lemma fnM_reduced (a b : Ed25519.gf) :
  gf_bounded 21 a -> gf_bounded 21 b -> gf_reduced (Ed25519._fnM a b).
Proof.
  intros [Ha Hra] [Hb Hrb]. unfold Ed25519._fnM. cbv zeta.
  pose proof (product_limbs a b Ha Hb) as Hp. cbv zeta in Hp.
  pose proof (product_bound a b (2 ^ 21) (2 ^ 21) Ha Hb ltac:(lia) ltac:(lia)
                Hra Hrb) as Hpb.
  cbv zeta in Hpb.
  match type of Hp with
  | length ?t0 = _ /\ _ => generalize dependent t0
  end.
  intros t [Hlt _] Hpb.
  pose proof (fold_limbs t Hlt) as Hf. cbv zeta in Hf.
  pose proof (fold_bound t (16 * (2 ^ 21 * 2 ^ 21)) Hlt ltac:(lia) Hpb) as Hfb.
  cbv zeta in Hfb.
  match type of Hf with
  | length ?t0 = _ /\ _ => generalize dependent t0
  end.
  intros t' [Hlt' _] Hfb.
  pose proof (for_loop_fill 16 (JS.get t') (JS.zeros 16) eq_refl) as Eo.
  change (Z.of_nat 16) with 16 in Eo at 1. rewrite Eo.
  rewrite (map_get_take t' 16) by lia.
  assert (Hlo : length (take 16 t') = 16%nat) by (rewrite length_take; lia).
  generalize dependent (take 16 t'). intros o Hob Hlo.
  pose proof (limbs_magnitude o (39 * (16 * (2 ^ 21 * 2 ^ 21))) ltac:(lia) Hob)
    as Hm.
  rewrite Hlo in Hm.
  change (65536 ^ Z.of_nat 16) with (2 ^ 256) in Hm.
  destruct (car25519_limbs o Hlo) as (Hl1 & Hv1 & _ & _).
  set (o1 := Ed25519._car25519 o) in *.
  destruct (car25519_limbs o1 Hl1) as (Hl2 & _ & H0 & Hj).
  assert (Hq : - 1 <= limbs o1 / 2 ^ 256 <= 1).
  { rewrite Hv1. clear - Hm. Z.div_mod_to_equations. lia. }
  split; [exact Hl2|]. apply Forall_get. rewrite Hl2. intros j Hj16.
  destruct j as [|j].
  - change (Z.of_nat 0) with 0. lia.
  - specialize (Hj (S j) ltac:(lia)). lia.
Qed.

Lemma reduced_bounded (a : Ed25519.gf) : gf_reduced a -> gf_bounded 21 a.
Proof.
  intros [Hl Hr]. split; [exact Hl|]. eapply Forall_impl; [exact Hr|].
  intros x Hx. cbv beta in Hx. lia.
Qed.

Lemma power_loop_bounded (i : Ed25519.gf) (mult : Z -> bool) (l : list Z) :
  gf_bounded 21 i ->
  forall c : Ed25519.gf, gf_bounded 21 c ->
  gf_bounded 21 (foldl (fun c a =>
                   let c := Ed25519._fnM c c in
                   if mult a then Ed25519._fnM c i else c) c l).
Proof.
  intros Hi. induction l as [|a l IH]; intros c Hc; [exact Hc|].
  cbn [foldl]. cbv zeta.
  pose proof (reduced_bounded _ (fnM_reduced c c Hc Hc)) as Hs.
  generalize dependent (Ed25519._fnM c c). intros s Hs.
  destruct (mult a); [|by apply IH].
  apply IH. apply reduced_bounded. by apply fnM_reduced.
Qed.

Lemma inv25519_bounded (i : Ed25519.gf) :
  gf_bounded 21 i -> gf_bounded 21 (Ed25519._inv25519 i).
Proof.
  intros Hi. unfold Ed25519._inv25519, for_down, Ed25519._fnS. cbv zeta.
  rewrite (set25519_copy i) by apply Hi.
  pose proof (power_loop_bounded i (fun a => negb (a =? 2) && negb (a =? 4))
                (reverse (seqZ 0 (253 - 0 + 1))) Hi i Hi) as H.
  rewrite set25519_copy by apply H. exact H.
Qed.

Lemma pow2523_bounded (i : Ed25519.gf) :
  gf_bounded 21 i -> gf_bounded 21 (Ed25519._pow2523 i).
Proof.
  intros Hi. unfold Ed25519._pow2523, for_down, Ed25519._fnS. cbv zeta.
  rewrite (set25519_copy i) by apply Hi.
  pose proof (power_loop_bounded i (fun a => negb (a =? 1))
                (reverse (seqZ 0 (250 - 0 + 1))) Hi i Hi) as H.
  rewrite set25519_copy by apply H. exact H.
Qed.

(** *** The operations of the field *)

(** X19.  On field elements whose limbs are at most [2^21] in magnitude, where no
    sum or product of the code passes [2^53] and its doubles are exact:
    [_fnA] and [_fnZ] add and subtract the numbers that the limbs write, limb
    by limb and without reduction; [_fnM] and [_fnS] give sixteen limbs of
    sixteen bits (up to [38] in the first) that write the product and the
    square modulo [2^255 - 19]. *)
Theorem field_operations (a b : Ed25519.gf) :
  gf_bounded 21 a -> gf_bounded 21 b ->
  (length (Ed25519._fnA a b) = 16%nat
   /\ limbs (Ed25519._fnA a b) = limbs a + limbs b)
  /\ (length (Ed25519._fnZ a b) = 16%nat
      /\ limbs (Ed25519._fnZ a b) = limbs a - limbs b)
  /\ (gf_reduced (Ed25519._fnM a b)
      /\ limbs (Ed25519._fnM a b) mod p25519 = (limbs a * limbs b) mod p25519)
  /\ (gf_reduced (Ed25519._fnS a)
      /\ limbs (Ed25519._fnS a) mod p25519 = (limbs a ^ 2) mod p25519).
Proof.
  intros Ha Hb. pose proof Ha as [Hla _]. pose proof Hb as [Hlb _].
  split; [by apply fnA_limbs|]. split; [by apply fnZ_limbs|].
  split; [split; [by apply fnM_reduced|by apply fnM_limbs]|].
  unfold Ed25519._fnS. rewrite Z.pow_2_r.
  split; [by apply fnM_reduced|by apply fnM_limbs].
Qed.

Lemma field_operations_witness :
  let a := Ed25519._D in
  let b := Ed25519._I in
  (length (Ed25519._fnA a b) = 16%nat
   /\ limbs (Ed25519._fnA a b) = limbs a + limbs b)
  /\ (length (Ed25519._fnZ a b) = 16%nat
      /\ limbs (Ed25519._fnZ a b) = limbs a - limbs b)
  /\ (gf_reduced (Ed25519._fnM a b)
      /\ limbs (Ed25519._fnM a b) mod p25519 = (limbs a * limbs b) mod p25519)
  /\ (gf_reduced (Ed25519._fnS a)
      /\ limbs (Ed25519._fnS a) mod p25519 = (limbs a ^ 2) mod p25519).
Proof.
  intros a b. apply (field_operations a b).
  - split; [reflexivity|].
    exact (bool_decide_unpack
             (Forall (fun x => - 2 ^ 21 <= x <= 2 ^ 21) Ed25519._D) I).
  - split; [reflexivity|].
    exact (bool_decide_unpack
             (Forall (fun x => - 2 ^ 21 <= x <= 2 ^ 21) Ed25519._I) I).
Defined.

(** X20.  On sixteen limbs of at most [2^52] in magnitude, where a limb, the carry
    into it and [65535] add up exactly in the code's doubles: [_car25519]
    keeps sixteen limbs and brings all but the first into [0, 2^16); the part
    of the number above [2^256] comes back into the first limb multiplied by
    38, so the number stays the same modulo [2^255 - 19]. *)
Theorem carry_keeps_the_element (o : Ed25519.gf) :
  gf_exact o ->
  length (Ed25519._car25519 o) = 16%nat
  /\ limbs (Ed25519._car25519 o)
     = limbs o mod 2 ^ 256 + 38 * (limbs o / 2 ^ 256)
  /\ limbs (Ed25519._car25519 o) mod p25519 = limbs o mod p25519
  /\ 0 <= JS.get (Ed25519._car25519 o) 0 - 38 * (limbs o / 2 ^ 256) < 65536
  /\ (forall j : nat, (1 <= j < 16)%nat ->
        0 <= JS.get (Ed25519._car25519 o) (Z.of_nat j) < 65536).
Proof.
  intros [Hl _]. destruct (car25519_limbs o Hl) as (H1 & H2 & H3 & H4).
  destruct (car25519_mod o Hl) as [_ Hm].
  split; [exact H1|]. split; [exact H2|]. split; [exact Hm|].
  split; [exact H3|exact H4].
Qed.

Lemma carry_keeps_the_element_witness :
  let o := map (fun i => 100000 * i - 7) (seqZ 0 16) in
  length (Ed25519._car25519 o) = 16%nat
  /\ limbs (Ed25519._car25519 o)
     = limbs o mod 2 ^ 256 + 38 * (limbs o / 2 ^ 256)
  /\ limbs (Ed25519._car25519 o) mod p25519 = limbs o mod p25519
  /\ 0 <= JS.get (Ed25519._car25519 o) 0 - 38 * (limbs o / 2 ^ 256) < 65536
  /\ (forall j : nat, (1 <= j < 16)%nat ->
        0 <= JS.get (Ed25519._car25519 o) (Z.of_nat j) < 65536).
Proof.
  intros o. apply (carry_keeps_the_element o). split; [reflexivity|].
  exact (bool_decide_unpack (Forall (fun x => - 2 ^ 52 <= x <= 2 ^ 52) o) I).
Defined.

(** X21.  On a field element whose limbs are at most [2^21] in magnitude, so that
    every product in the chain of squarings and multiplications is exact in
    the code's doubles: [_inv25519] raises it to the power [p - 2], which is
    how the inverse modulo the prime [p = 2^255 - 19] is computed, and
    [_pow2523] raises it to the power [(p - 5) / 8 = 2^252 - 3]; the limbs of
    both results are again at most [2^21]. *)
Theorem field_powers (a : Ed25519.gf) :
  gf_bounded 21 a ->
  (gf_bounded 21 (Ed25519._inv25519 a)
   /\ limbs (Ed25519._inv25519 a) mod p25519
      = (limbs a ^ (p25519 - 2)) mod p25519
   /\ (limbs a * limbs (Ed25519._inv25519 a)) mod p25519
      = (limbs a ^ (p25519 - 1)) mod p25519)
  /\ (gf_bounded 21 (Ed25519._pow2523 a)
      /\ limbs (Ed25519._pow2523 a) mod p25519
         = (limbs a ^ (2 ^ 252 - 3)) mod p25519).
Proof.
  intros Hb. pose proof Hb as [Ha _].
  destruct (inv25519_limbs a Ha) as [Hl1 Hv1].
  destruct (pow2523_limbs a Ha) as [Hl2 Hv2].
  split; [split; [by apply inv25519_bounded|split; [exact Hv1|]]
         |split; [by apply pow2523_bounded|exact Hv2]].
  replace (p25519 - 1) with (1 + (p25519 - 2)) by lia.
  rewrite Z.pow_add_r by (unfold p25519; lia). rewrite Z.pow_1_r.
  apply same_mod_p_mul; [apply same_mod_p_refl|exact Hv1].
Qed.

Lemma field_powers_witness :
  let a := Ed25519._D in
  (gf_bounded 21 (Ed25519._inv25519 a)
   /\ limbs (Ed25519._inv25519 a) mod p25519
      = (limbs a ^ (p25519 - 2)) mod p25519
   /\ (limbs a * limbs (Ed25519._inv25519 a)) mod p25519
      = (limbs a ^ (p25519 - 1)) mod p25519)
  /\ (gf_bounded 21 (Ed25519._pow2523 a)
      /\ limbs (Ed25519._pow2523 a) mod p25519
         = (limbs a ^ (2 ^ 252 - 3)) mod p25519).
Proof.
  intros a. apply (field_powers a). split; [reflexivity|].
  exact (bool_decide_unpack
           (Forall (fun x => - 2 ^ 21 <= x <= 2 ^ 21) Ed25519._D) I).
Defined.

(** ** Selecting and comparing in constant time *)

Lemma lxor_int32 a b : int32 a -> int32 b -> int32 (Z.lxor a b).
Proof.
  unfold int32. intros Ha Hb.
  assert (Hpos : forall x y, 0 <= x < 2147483648 -> 0 <= y < 2147483648 ->
            0 <= Z.lxor x y < 2147483648).
  { intros x y Hx Hy. apply (lxor_bound x y 31); lia. }
  destruct (Z.lt_ge_cases a 0) as [Han|Hap], (Z.lt_ge_cases b 0) as [Hbn|Hbp].
  - rewrite <- Z.lxor_lnot_lnot.
    pose proof (Hpos (Z.lnot a) (Z.lnot b)) as H. unfold Z.lnot in *. lia.
  - pose proof (Z.lnot_lxor_l a b) as E.
    pose proof (Hpos (Z.lnot a) b) as H. unfold Z.lnot in *. lia.
  - pose proof (Z.lnot_lxor_r a b) as E.
    pose proof (Hpos a (Z.lnot b)) as H. unfold Z.lnot in *. lia.
  - pose proof (Hpos a b). lia.
Qed.

(** One step of [_sel25519]: with [b = 1] the two numbers are exchanged, with
    [b = 0] they stay. *)
Lemma sel_step (b x y : Z) :
  int32 x -> int32 y -> b = 0 \/ b = 1 ->
  let t := JS.and (JS.not (b - 1)) (JS.xor x y) in
  JS.xor x t = (if b =? 1 then y else x)
  /\ JS.xor y t = (if b =? 1 then x else y).
Proof.
  intros Hx Hy Hb. cbv zeta.
  pose proof (lxor_int32 x y Hx Hy) as Hxy. unfold int32 in *.
  rewrite (xor_small x y) by lia.
  destruct Hb as [-> | ->].
  - change (JS.not (0 - 1)) with 0. change (0 =? 1) with false. cbv iota.
    rewrite and_small by lia.
    rewrite Z.land_0_l, !xor_small by lia. by rewrite !Z.lxor_0_r.
  - change (JS.not (1 - 1)) with (-1). change (1 =? 1) with true. cbv iota.
    rewrite and_small by lia.
    rewrite Z.land_m1_l, !xor_small by lia.
    split.
    + by rewrite <- Z.lxor_assoc, Z.lxor_nilpotent, Z.lxor_0_l.
    + rewrite (Z.lxor_comm x y).
      by rewrite <- Z.lxor_assoc, Z.lxor_nilpotent, Z.lxor_0_l.
Qed.

Lemma sel25519_swaps (p q : Ed25519.gf) (b : Z) :
  length p = 16%nat -> length q = 16%nat ->
  Forall int32 p -> Forall int32 q -> b = 0 \/ b = 1 ->
  Ed25519._sel25519 p q b = if b =? 1 then (q, p) else (p, q).
Proof.
  intros Hlp Hlq Hp Hq Hb. unfold Ed25519._sel25519. cbv zeta.
  change 16 with (Z.of_nat 16).
  assert (H : let r := for_loop 0 (Z.of_nat 16) (fun i '(p, q) =>
                let t := JS.and (JS.not (b - 1)) (JS.xor (JS.get p i) (JS.get q i)) in
                (JS.put p i (JS.xor (JS.get p i) t),
                 JS.put q i (JS.xor (JS.get q i) t))) (p, q) in
              r = (if b =? 1 then (take 16 q ++ drop 16 p, take 16 p ++ drop 16 q)
                   else (p, q))).
  { apply (for_loop_nat_ind
             (fun i (r : list Z * list Z) =>
                r = (if b =? 1 then (take i q ++ drop i p, take i p ++ drop i q)
                     else (p, q)))).
    - by destruct (b =? 1).
    - intros i [p' q'] Hi E. cbv zeta.
      destruct (lookup_lt_is_Some_2 p i ltac:(lia)) as [x Hx].
      destruct (lookup_lt_is_Some_2 q i ltac:(lia)) as [y Hy].
      pose proof (Forall_lookup_1 _ _ _ _ Hp Hx) as Hxi.
      pose proof (Forall_lookup_1 _ _ _ _ Hq Hy) as Hyi.
      assert (Eg : JS.get p' (Z.of_nat i) = x /\ JS.get q' (Z.of_nat i) = y).
      { rewrite !get_nat, !Nat2Z.id by lia.
        destruct (b =? 1); injection E as -> ->.
        - rewrite !lookup_app_r by (rewrite length_take; lia).
          rewrite !length_take, !Nat.min_l by lia.
          rewrite Nat.sub_diag, !lookup_drop, !Nat.add_0_r.
          by rewrite Hx, Hy.
        - by rewrite Hx, Hy. }
      destruct Eg as [-> ->].
      destruct (sel_step b x y Hxi Hyi Hb) as [-> ->].
      unfold JS.put. replace (Z.of_nat i <? 0) with false by lia.
      rewrite Nat2Z.id.
      destruct (b =? 1); injection E as -> ->.
      + f_equal.
        * rewrite insert_app_r_alt by (rewrite length_take; lia).
          rewrite length_take, Nat.min_l, Nat.sub_diag by lia.
          rewrite (drop_S p x i Hx), (take_S_r q i y Hy). cbn [insert list_insert].
          by rewrite <- app_assoc.
        * rewrite insert_app_r_alt by (rewrite length_take; lia).
          rewrite length_take, Nat.min_l, Nat.sub_diag by lia.
          rewrite (drop_S q y i Hy), (take_S_r p i x Hx). cbn [insert list_insert].
          by rewrite <- app_assoc.
      + f_equal; by apply list_insert_id. }
  cbv zeta in H. rewrite H.
  destruct (b =? 1); [|done].
  by rewrite !take_ge, !drop_ge, !app_nil_r by lia.
Qed.

(** X22.  [_sel25519] and [_cswap] exchange their two arguments when the bit is 1
    and leave them as they are when it is 0, if every limb is a 32-bit
    integer (the exchange is done with exclusive or, which cuts a number to
    32 bits). *)
Theorem conditional_swap (p q : Ed25519.point) (b : Z) :
  point_int32 p -> point_int32 q -> b = 0 \/ b = 1 ->
  Ed25519._sel25519 (Ed25519.pt0 p) (Ed25519.pt0 q) b
  = (if b =? 1 then (Ed25519.pt0 q, Ed25519.pt0 p)
     else (Ed25519.pt0 p, Ed25519.pt0 q))
  /\ Ed25519._cswap p q b = if b =? 1 then (q, p) else (p, q).
Proof.
  intros ([L0 H0] & [L1 H1] & [L2 H2] & [L3 H3])
         ([M0 K0] & [M1 K1] & [M2 K2] & [M3 K3]) Hb.
  split; [by apply sel25519_swaps|].
  unfold Ed25519._cswap.
  rewrite !sel25519_swaps by done.
  destruct p, q. by destruct (b =? 1).
Qed.

Lemma conditional_swap_witness :
  let p := Ed25519.mkPoint Ed25519._X Ed25519._Y Ed25519._gf1 Ed25519._gf0 in
  let q := Ed25519.mkPoint Ed25519._gf0 Ed25519._gf1 Ed25519._gf1 Ed25519._gf0 in
  Ed25519._sel25519 (Ed25519.pt0 p) (Ed25519.pt0 q) 1
  = (if 1 =? 1 then (Ed25519.pt0 q, Ed25519.pt0 p)
     else (Ed25519.pt0 p, Ed25519.pt0 q))
  /\ Ed25519._cswap p q 1 = if 1 =? 1 then (q, p) else (p, q).
Proof.
  intros p q.
  apply (conditional_swap p q 1); [| |by right];
    repeat split; try reflexivity;
    match goal with
    | |- Forall int32 ?l => exact (bool_decide_unpack (Forall int32 l) I)
    end.
Defined.

(** *** Comparing 32 bytes *)

Lemma take_S_eq (x y : bytes) (i : nat) a b :
  x !! i = Some a -> y !! i = Some b ->
  take (S i) x = take (S i) y <-> take i x = take i y /\ a = b.
Proof.
  intros Hx Hy. rewrite (take_S_r x i a Hx), (take_S_r y i b Hy). split.
  - intros E. apply app_inj_2 in E as [E1 E2]; [|done].
    split; [done|congruence].
  - intros [-> ->]. reflexivity.
Qed.

Lemma cryptoVerify32_compares (x y : bytes) :
  Forall is_byte x -> Forall is_byte y ->
  (32 <= length x)%nat -> (32 <= length y)%nat ->
  Ed25519._cryptoVerify32 x y
  = if bool_decide (take 32 x = take 32 y) then 0 else -1.
Proof.
  intros Hx Hy Hlx Hly. unfold Ed25519._cryptoVerify32. cbv zeta.
  change 32 with (Z.of_nat 32) at 1.
  assert (H : let d := for_loop 0 (Z.of_nat 32) (fun i d =>
                JS.or d (JS.xor (JS.get x i) (JS.get y i))) 0 in
              0 <= d < 256 /\ (d = 0 <-> take 32 x = take 32 y)).
  { apply (for_loop_nat_ind
             (fun i d => 0 <= d < 256 /\ (d = 0 <-> take i x = take i y))).
    - split; [lia|]. by rewrite !take_0.
    - intros i d Hi [Hd Heq].
      destruct (lookup_lt_is_Some_2 x i ltac:(lia)) as [a Ha].
      destruct (lookup_lt_is_Some_2 y i ltac:(lia)) as [b Hb].
      pose proof (Forall_lookup_1 _ _ _ _ Hx Ha) as Hai.
      pose proof (Forall_lookup_1 _ _ _ _ Hy Hb) as Hbi.
      unfold is_byte in Hai, Hbi.
      rewrite !get_nat, !Nat2Z.id, Ha, Hb by lia. cbn [default]. unfold id.
      rewrite xor_small by lia.
      pose proof (lxor_bound a b 8 ltac:(lia) Hai Hbi) as He.
      change (2 ^ 8) with 256 in He.
      rewrite or_small by lia.
      split; [apply (lor_bound d (Z.lxor a b) 8); [lia|done|done]|].
      rewrite (take_S_eq x y i a b Ha Hb), <- Heq.
      rewrite Z.lor_eq_0_iff, Z.lxor_eq_0_iff. reflexivity. }
  cbv zeta in H.
  generalize dependent (for_loop 0 (Z.of_nat 32) (fun i d =>
                JS.or d (JS.xor (JS.get x i) (JS.get y i))) 0).
  intros d [Hd Heq].
  destruct (decide (d = 0)) as [->|Hne].
  - rewrite bool_decide_eq_true_2 by (by apply Heq). reflexivity.
  - rewrite bool_decide_eq_false_2 by (intros E; by apply Hne, Heq).
    rewrite ushr_SHR by lia. rewrite wrap_small by lia.
    unfold FIPS180.SHR. rewrite Z.shiftr_div_pow2 by lia.
    change (2 ^ 8) with 256. rewrite Z.div_small by lia. reflexivity.
Qed.

(** X23.  [_cryptoVerify32] returns 0 when the first 32 bytes of its two arguments
    are the same, and -1 when they are not. *)
Theorem compare_32_bytes (x y : bytes) :
  Forall is_byte x -> Forall is_byte y ->
  (32 <= length x)%nat -> (32 <= length y)%nat ->
  (Ed25519._cryptoVerify32 x y = 0 <-> take 32 x = take 32 y)
  /\ (Ed25519._cryptoVerify32 x y = -1 <-> take 32 x <> take 32 y).
Proof.
  intros Hx Hy Hlx Hly. rewrite (cryptoVerify32_compares x y) by done.
  destruct (decide (take 32 x = take 32 y)) as [E|E].
  - rewrite bool_decide_eq_true_2 by done. split; split; try done.
  - rewrite bool_decide_eq_false_2 by done. split; split; try done.
Qed.

Lemma compare_32_bytes_witness :
  (Ed25519._cryptoVerify32 (seqZ 0 40) (seqZ 0 32) = 0
   <-> take 32 (seqZ 0 40) = take 32 (seqZ 0 32))
  /\ (Ed25519._cryptoVerify32 (seqZ 0 40) (seqZ 0 32) = -1
      <-> take 32 (seqZ 0 40) <> take 32 (seqZ 0 32)).
Proof.
  apply (compare_32_bytes (seqZ 0 40) (seqZ 0 32)).
  - exact (bool_decide_unpack (Forall is_byte (seqZ 0 40)) I).
  - exact (bool_decide_unpack (Forall is_byte (seqZ 0 32)) I).
  - vm_compute. lia.
  - vm_compute. lia.
Defined.

(** ** Packing a field element *)

(** *** Normal forms *)

Lemma limbs_inj (a b : list Z) :
  length a = length b ->
  Forall (fun x => 0 <= x < 65536) a -> Forall (fun x => 0 <= x < 65536) b ->
  limbs a = limbs b -> a = b.
Proof.
  intros Hl Ha. revert b Hl. induction Ha as [|x a Hx _ IH]; intros [|y b] Hl Hb E;
    try discriminate; [done|].
  apply Forall_cons in Hb as [Hy Hb]. rewrite !limbs_cons in E.
  assert (x = y /\ limbs a = limbs b) as [-> E'] by lia.
  f_equal. apply IH; [simpl in Hl; lia|done|done].
Qed.

Lemma normal_limbs (t : Ed25519.gf) : gf_normal t -> 0 <= limbs t < 2 ^ 256.
Proof.
  intros [Hl Hr]. pose proof (limbs_bound t Hr) as H. rewrite Hl in H. exact H.
Qed.

Lemma put_same (a : list Z) (k : nat) :
  (k < length a)%nat -> JS.put a (Z.of_nat k) (JS.get a (Z.of_nat k)) = a.
Proof.
  intros Hk. unfold JS.put. replace (Z.of_nat k <? 0) with false by lia.
  rewrite get_nat, Nat2Z.id by lia.
  destruct (lookup_lt_is_Some_2 a k Hk) as [x Hx]. rewrite Hx.
  by apply list_insert_id.
Qed.

(** Carrying does nothing to a normal form. *)
Lemma car25519_normal (t : Ed25519.gf) :
  gf_normal t -> Ed25519._car25519 t = t.
Proof.
  intros Hn. pose proof (normal_limbs t Hn) as Hv. destruct Hn as [Hl Hr].
  destruct (car25519_steps t Hl) as (o' & -> & Hlo & Hro & Hvo).
  rewrite Z.mod_small in Hvo by lia. rewrite Z.div_small by lia.
  assert (o' = t) as -> by (apply limbs_inj; [lia|done|done|done]).
  rewrite Z.mul_0_r, Z.add_0_r. apply (put_same t 0). lia.
Qed.

(** Three carries bring sixteen limbs that write a number of moderate size
    into normal form. *)
Lemma car3_normal (n : Ed25519.gf) :
  length n = 16%nat -> - 2 ^ 400 < limbs n < 2 ^ 400 ->
  let t := Ed25519._car25519 (Ed25519._car25519 (Ed25519._car25519 n)) in
  gf_normal t /\ same_mod_p (limbs t) (limbs n).
Proof.
  intros Hl Hb. cbv zeta.
  destruct (car25519_limbs n Hl) as (Hl1 & Hv1 & _).
  destruct (car25519_mod n Hl) as [_ Hm1].
  generalize dependent (Ed25519._car25519 n). intros t1 Hl1 Hv1 Hm1.
  destruct (car25519_limbs t1 Hl1) as (Hl2 & Hv2 & _).
  destruct (car25519_mod t1 Hl1) as [_ Hm2].
  generalize dependent (Ed25519._car25519 t1). intros t2 Hl2 Hv2 Hm2.
  destruct (car25519_mod t2 Hl2) as [_ Hm3].
  destruct (car25519_steps t2 Hl2) as (o' & E3 & Hlo & Hro & Hvo).
  assert (Hr2 : 0 <= limbs t2 < 2 ^ 256).
  { pose proof (Z.mod_pos_bound (limbs n) (2 ^ 256) ltac:(lia)) as H0.
    assert (Hq1 : - 2 ^ 144 <= limbs n / 2 ^ 256 < 2 ^ 144).
    { split.
      - apply Z.div_le_lower_bound; lia.
      - apply Z.div_lt_upper_bound; lia. }
    set (q1 := limbs n / 2 ^ 256) in *. set (r0 := limbs n mod 2 ^ 256) in *.
    clearbody q1 r0. rewrite Hv2. clear Hv2 Hm1 Hm2 Hm3.
    destruct (Z.lt_ge_cases (limbs t1) 0) as [Hneg|Hpos];
      [|destruct (Z.lt_ge_cases (limbs t1) (2 ^ 256)) as [Hin|Hbig]].
    - assert (limbs t1 / 2 ^ 256 = -1 /\ limbs t1 mod 2 ^ 256 = limbs t1 + 2 ^ 256)
        as [-> ->].
      { split; [symmetry; apply (Z.div_unique_pos _ _ _ (limbs t1 + 2 ^ 256)); lia
               |symmetry; apply (Z.mod_unique_pos _ _ (-1)); lia]. }
      lia.
    - rewrite Z.mod_small, Z.div_small by lia. lia.
    - assert (limbs t1 / 2 ^ 256 = 1 /\ limbs t1 mod 2 ^ 256 = limbs t1 - 2 ^ 256)
        as [-> ->].
      { split; [symmetry; apply (Z.div_unique_pos _ _ _ (limbs t1 - 2 ^ 256)); lia
               |symmetry; apply (Z.mod_unique_pos _ _ 1); lia]. }
      lia. }
  rewrite Z.div_small in E3 by lia. rewrite Z.mod_small in Hvo by lia.
  rewrite Z.mul_0_r, Z.add_0_r in E3.
  pose proof (put_same o' 0 ltac:(lia)) as Ep. change (Z.of_nat 0) with 0 in Ep.
  rewrite Ep in E3. rewrite E3 in *.
  split; [by split|].
  eapply same_mod_p_trans; [exact Hm3|].
  eapply same_mod_p_trans; [exact Hm2|exact Hm1].
Qed.

(** *** Subtracting the prime *)

Lemma for_loop_shift {S : Type} (lo hi : Z) (body : Z -> S -> S) (s : S) :
  for_loop lo hi body s = for_loop 0 (hi - lo) (fun i => body (i + lo)) s.
Proof.
  unfold for_loop. rewrite Z.sub_0_r.
  replace lo with (lo + 0) at 1 by lia. rewrite <- fmap_add_seqZ.
  generalize (seqZ 0 (hi - lo)). intros l. revert s.
  induction l as [|i l IH]; intros s; [done|].
  cbn [fmap list_fmap foldl]. rewrite (Z.add_comm lo i). apply IH.
Qed.

(** The borrow out of a limb and the limb that stays. *)
Lemma borrow_bit x :
  -65536 <= x < 65536 -> JS.and (JS.shr x 16) 1 = if x <? 0 then 1 else 0.
Proof.
  intros Hx. rewrite shr_small by lia. change (2 ^ 16) with 65536.
  destruct (Z.ltb_spec x 0).
  - replace (x / 65536) with (-1) by (Z.div_mod_to_equations; lia). reflexivity.
  - rewrite Z.div_small by lia. reflexivity.
Qed.

Lemma mask16 x : int32 x -> JS.and x 65535 = x mod 65536.
Proof.
  unfold int32. intros Hx. rewrite and_small by lia.
  change 65535 with (Z.ones 16). by rewrite Z.land_ones by lia.
Qed.

Lemma take_put (m : list Z) (k j : nat) v :
  (k <= j)%nat -> take k (JS.put m (Z.of_nat j) v) = take k m.
Proof.
  intros H. unfold JS.put. replace (Z.of_nat j <? 0) with false by lia.
  rewrite Nat2Z.id. by apply take_insert_ge.
Qed.

Lemma p_limbs_get (i : nat) :
  (1 <= i <= 14)%nat -> JS.get p_limbs (Z.of_nat i) = 65535.
Proof.
  intros Hi. rewrite get_nat, Nat2Z.id by lia.
  do 15 (destruct i as [|i]; [try lia; reflexivity|]). lia.
Qed.

Lemma p_limbs_value : limbs p_limbs = p25519.
Proof. vm_compute. reflexivity. Qed.

Lemma normal_get (t : Ed25519.gf) (i : nat) :
  gf_normal t -> (i < 16)%nat -> 0 <= JS.get t (Z.of_nat i) < 65536.
Proof.
  intros [Hl Hr] Hi. rewrite get_nat, Nat2Z.id by lia.
  destruct (lookup_lt_is_Some_2 t i ltac:(lia)) as [x Hx]. rewrite Hx.
  by apply (Forall_lookup_1 _ _ _ _ Hr Hx).
Qed.

(** The loop that subtracts the limbs of the prime from those of [t], with
    the borrow going up. *)
Lemma subtract_loop (t m0 : Ed25519.gf) :
  gf_normal t -> length m0 = 16%nat ->
  let m := JS.put m0 0 (JS.get t 0 - 0xffed) in
  let m := for_loop 1 15 (fun i m =>
             let m := JS.put m i
               (JS.get t i - 0xffff
                - JS.and (JS.shr (JS.get m (i - 1)) 16) 1) in
             JS.put m (i - 1) (JS.and (JS.get m (i - 1)) 0xffff)) m in
  length m = 16%nat
  /\ (forall j : nat, (j < 14)%nat -> 0 <= JS.get m (Z.of_nat j) < 65536)
  /\ -65536 <= JS.get m 14 < 65536
  /\ limbs (take 15 m) = limbs (take 15 t) - limbs (take 15 p_limbs).
Proof.
  intros Ht Hl0. cbv zeta. rewrite for_loop_shift.
  change (15 - 1) with (Z.of_nat 14).
  apply (for_loop_nat_ind
           (fun k (m : list Z) =>
              length m = 16%nat
              /\ (forall j : nat, (j < k)%nat -> 0 <= JS.get m (Z.of_nat j) < 65536)
              /\ -65536 <= JS.get m (Z.of_nat k) < 65536
              /\ limbs (take (S k) m)
                 = limbs (take (S k) t) - limbs (take (S k) p_limbs))).
  - pose proof (normal_get t 0 Ht ltac:(lia)) as H0. change (Z.of_nat 0) with 0 in *.
    pose proof (get_put_same m0 0 (JS.get t 0 - 65517) ltac:(lia)) as Eg.
    change (Z.of_nat 0) with 0 in Eg.
    split; [by rewrite put_length|]. split; [intros j Hj; lia|].
    rewrite Eg. split; [lia|].
    rewrite !(limbs_take_S _ 0) by (rewrite ?put_length; destruct Ht; simpl; lia).
    change (Z.of_nat 0) with 0. rewrite Eg. rewrite !take_0.
    change (limbs []) with 0.
    change (JS.get p_limbs 0) with 65517. ring.
  - intros k m Hk (Hl & Hlow & Hraw & Hv). cbv zeta.
    replace (Z.of_nat k + 1 - 1) with (Z.of_nat k) by lia.
    replace (Z.of_nat k + 1) with (Z.of_nat (S k)) by lia.
    pose proof (normal_get t (S k) Ht ltac:(lia)) as Htk.
    set (x := JS.get m (Z.of_nat k)) in *.
    rewrite (borrow_bit x) by lia.
    set (bw := if x <? 0 then 1 else 0).
    assert (Hbw : x mod 65536 = x + 65536 * bw).
    { unfold bw. destruct (Z.ltb_spec x 0); Z.div_mod_to_equations; lia. }
    set (v := JS.get t (Z.of_nat (S k)) - 65535 - bw).
    assert (Hvr : -65536 <= v < 65536)
      by (unfold v, bw; destruct (x <? 0); lia).
    set (m1 := JS.put m (Z.of_nat (S k)) v).
    assert (Hl1 : length m1 = 16%nat) by (unfold m1; by rewrite put_length).
    assert (Eg1 : JS.get m1 (Z.of_nat k) = x)
      by (unfold m1; rewrite get_put_other by lia; done).
    rewrite Eg1, mask16 by (unfold int32; lia).
    set (m2 := JS.put m1 (Z.of_nat k) (x mod 65536)).
    assert (Egk : JS.get m2 (Z.of_nat k) = x mod 65536)
      by (unfold m2; by rewrite get_put_same by lia).
    assert (Egs : JS.get m2 (Z.of_nat (S k)) = v).
    { unfold m2. rewrite get_put_other by lia.
      unfold m1. by rewrite get_put_same by lia. }
    split; [unfold m2; by rewrite put_length|]. split; [|split].
    + intros j Hj. destruct (decide (j = k)) as [->|Hne].
      * rewrite Egk. apply Z.mod_pos_bound. lia.
      * unfold m2, m1. rewrite !get_put_other by lia. apply Hlow. lia.
    + by rewrite Egs.
    + rewrite (limbs_take_S m2 (S k)), (limbs_take_S m2 k) by (unfold m2; rewrite put_length; lia).
      rewrite Egs, Egk.
      assert (Et : take k m2 = take k m)
        by (unfold m2, m1; by rewrite !take_put by lia).
      rewrite Et.
      rewrite (limbs_take_S m k) in Hv by lia. fold x in Hv.
      rewrite (limbs_take_S t (S k)) by (destruct Ht; lia).
      rewrite (limbs_take_S p_limbs (S k)) by (simpl; lia).
      rewrite p_limbs_get by lia.
      rewrite Hbw. unfold v.
      rewrite Nat2Z.inj_succ, Z.pow_succ_r by lia. lia.
Qed.

Lemma get_take_lt (l : list Z) (n j : nat) :
  (j < n)%nat -> JS.get (take n l) (Z.of_nat j) = JS.get l (Z.of_nat j).
Proof.
  intros H. rewrite !get_nat, !Nat2Z.id by lia. by rewrite lookup_take_lt by lia.
Qed.

(** One round of [_pack25519]: the prime is subtracted when the number is
    not below it. *)
Lemma pack_round (t m0 : Ed25519.gf) :
  gf_normal t -> length m0 = 16%nat ->
  let m := JS.put m0 0 (JS.get t 0 - 0xffed) in
  let m := for_loop 1 15 (fun i m =>
             let m := JS.put m i
               (JS.get t i - 0xffff
                - JS.and (JS.shr (JS.get m (i - 1)) 16) 1) in
             JS.put m (i - 1) (JS.and (JS.get m (i - 1)) 0xffff)) m in
  let m := JS.put m 15
             (JS.get t 15 - 0x7fff - JS.and (JS.shr (JS.get m 14) 16) 1) in
  let b := JS.and (JS.shr (JS.get m 15) 16) 1 in
  let m := JS.put m 14 (JS.and (JS.get m 14) 0xffff) in
  let r := Ed25519._sel25519 t m (1 - b) in
  gf_normal r.1 /\ length r.2 = 16%nat
  /\ limbs r.1 = if limbs t <? p25519 then limbs t else limbs t - p25519.
Proof.
  intros Ht Hl0.
  pose proof (subtract_loop t m0 Ht Hl0) as Hloop. cbv zeta in Hloop |- *.
  match type of Hloop with
  | length ?m = _ /\ _ => generalize dependent m
  end.
  intros mL (Hl & Hlow & Hraw & Hv).
  pose proof (normal_get t 15 Ht ltac:(lia)) as Ht15.
  change (Z.of_nat 15) with 15 in Ht15.
  set (x := JS.get mL 14) in *.
  rewrite (borrow_bit x) by lia.
  set (bw := if x <? 0 then 1 else 0).
  assert (Hbw : x mod 65536 = x + 65536 * bw).
  { unfold bw. destruct (Z.ltb_spec x 0); Z.div_mod_to_equations; lia. }
  set (v := JS.get t 15 - 32767 - bw).
  assert (Hvr : -32768 <= v <= 32768) by (unfold v, bw; destruct (x <? 0); lia).
  set (m1 := JS.put mL 15 v).
  assert (Hl1 : length m1 = 16%nat) by (unfold m1; by rewrite put_length).
  assert (Eg15 : JS.get m1 15 = v) by (apply (get_put_same mL 15); lia).
  assert (Eg14 : JS.get m1 14 = x) by (apply (get_put_other mL 15 14); lia).
  rewrite Eg15, Eg14, (borrow_bit v), mask16 by (unfold int32; lia).
  set (m2 := JS.put m1 14 (x mod 65536)).
  assert (Hl2 : length m2 = 16%nat) by (unfold m2; by rewrite put_length).
  assert (Eh14 : JS.get m2 14 = x mod 65536) by (apply (get_put_same m1 14); lia).
  assert (Eh15 : JS.get m2 15 = v).
  { unfold m2. rewrite (get_put_other m1 14 15) by lia. exact Eg15. }
  assert (Hcells : forall j : nat, (j < 15)%nat ->
            0 <= JS.get m2 (Z.of_nat j) < 65536).
  { intros j Hj. destruct (decide (j = 14%nat)) as [->|Hne].
    - change (Z.of_nat 14) with 14. rewrite Eh14. apply Z.mod_pos_bound. lia.
    - unfold m2, m1. rewrite (get_put_other _ 14 j), (get_put_other _ 15 j) by lia.
      apply Hlow. lia. }
  assert (Hlow2 : 0 <= limbs (take 15 m2) < 65536 ^ 15).
  { pose proof (limbs_bound (take 15 m2)) as H.
    rewrite length_take, Nat.min_l in H by lia. apply H.
    apply Forall_get. intros j Hj. rewrite length_take in Hj.
    rewrite get_take_lt by lia. apply Hcells. lia. }
  assert (Hval : limbs m2 = limbs (take 15 m2) + v * 65536 ^ 15
                 /\ limbs m2 = limbs t - p25519).
  { pose proof (limbs_take_S m2 15 ltac:(lia)) as E16.
    rewrite (take_ge m2 16) in E16 by lia.
    change (Z.of_nat 15) with 15 in E16. rewrite Eh15 in E16.
    split; [exact E16|]. rewrite E16.
    pose proof (limbs_take_S m2 14 ltac:(lia)) as E15.
    change (Z.of_nat 14) with 14 in E15. rewrite Eh14 in E15.
    assert (Et : take 14 m2 = take 14 mL).
    { unfold m2, m1. by rewrite (take_put _ 14 14), (take_put _ 14 15) by lia. }
    rewrite Et in E15.
    pose proof (limbs_take_S mL 14 ltac:(lia)) as F15.
    change (Z.of_nat 14) with 14 in F15. fold x in F15.
    pose proof (limbs_take_S t 15 ltac:(destruct Ht; lia)) as T16.
    rewrite (take_ge t 16) in T16 by (destruct Ht; lia).
    change (Z.of_nat 15) with 15 in T16.
    assert (P16 : limbs p_limbs = limbs (take 15 p_limbs) + 32767 * 65536 ^ 15)
      by (vm_compute; reflexivity).
    rewrite <- p_limbs_value, P16, T16, E15, Hbw. unfold v.
    change (65536 ^ 15) with (65536 * 65536 ^ 14). lia. }
  destruct Hval as [Hsplit Hval].
  assert (Hsign : (v <? 0) = (limbs t <? p25519)).
  { destruct (Z.ltb_spec v 0), (Z.ltb_spec (limbs t) p25519); try done; nia. }
  assert (Hint : Forall int32 m2).
  { apply Forall_get. intros j Hj. rewrite Hl2 in Hj.
    destruct (decide (j = 15%nat)) as [->|Hne].
    - change (Z.of_nat 15) with 15. rewrite Eh15. unfold int32. lia.
    - pose proof (Hcells j ltac:(lia)). unfold int32. lia. }
  assert (Hint_t : Forall int32 t).
  { destruct Ht as [_ Hr]. eapply Forall_impl; [exact Hr|].
    intros y Hy. unfold int32. cbv beta in Hy. lia. }
  cbv zeta.
  rewrite sel25519_swaps;
    [|by destruct Ht|done|done|done|destruct (v <? 0); lia].
  rewrite Hsign in *.
  destruct (Z.ltb_spec (limbs t) p25519) as [Hlt|Hge].
  - change (1 - 1 =? 1) with false. cbn [fst snd]. done.
  - change (1 - 0 =? 1) with true. cbn [fst snd].
    split; [|split; [by destruct Ht|done]].
    split; [done|]. apply Forall_get. intros j Hj. rewrite Hl2 in Hj.
    destruct (decide (j = 15%nat)) as [->|Hne].
    + change (Z.of_nat 15) with 15. rewrite Eh15.
      destruct (Z.ltb_spec v 0); [nia|lia].
    + apply Hcells. lia.
Qed.

(** *** The bytes written *)

Lemma le_bytes_app (a b : bytes) :
  le_bytes (a ++ b) = le_bytes a + 256 ^ Z.of_nat (length a) * le_bytes b.
Proof.
  induction a as [|x a IH]; [simpl; lia|].
  cbn [app length]. rewrite !le_bytes_cons.
  rewrite IH, Nat2Z.inj_succ, Z.pow_succ_r by lia. ring.
Qed.

Lemma le_bytes_take_S (a : bytes) (k : nat) :
  (k < length a)%nat ->
  le_bytes (take (S k) a)
  = le_bytes (take k a) + JS.get a (Z.of_nat k) * 256 ^ Z.of_nat k.
Proof.
  intros Hk. rewrite get_nat by lia. rewrite Nat2Z.id.
  destruct (lookup_lt_is_Some_2 a k Hk) as [x Hx]. rewrite Hx. cbn [default].
  rewrite (take_S_r a k x Hx), le_bytes_app.
  rewrite length_take, Nat.min_l by lia. rewrite le_bytes_cons. unfold id.
  change (le_bytes []) with 0. ring.
Qed.

Lemma le_bytes_bound (l : bytes) :
  Forall is_byte l -> 0 <= le_bytes l < 256 ^ Z.of_nat (length l).
Proof.
  induction 1 as [|x l Hx _ IH]; [simpl; lia|].
  rewrite le_bytes_cons. cbn [length]. rewrite Nat2Z.inj_succ, Z.pow_succ_r by lia.
  unfold is_byte in Hx. lia.
Qed.

Lemma le_bytes_inj (a b : bytes) :
  length a = length b -> Forall is_byte a -> Forall is_byte b ->
  le_bytes a = le_bytes b -> a = b.
Proof.
  intros Hl Ha. revert b Hl. induction Ha as [|x a Hx _ IH]; intros [|y b] Hl Hb E;
    try discriminate; [done|].
  apply Forall_cons in Hb as [Hy Hb]. rewrite !le_bytes_cons in E.
  unfold is_byte in Hx, Hy.
  assert (x = y /\ le_bytes a = le_bytes b) as [-> E'] by lia.
  f_equal. apply IH; [simpl in Hl; lia|done|done].
Qed.

(** The last loop of [_pack25519] writes each limb as two bytes. *)
Lemma limbs_to_bytes (t : Ed25519.gf) :
  gf_normal t ->
  let o := for_loop 0 16 (fun i o =>
             let o := JS.put8 o (2 * i) (JS.and (JS.get t i) 0xff) in
             JS.put8 o (2 * i + 1) (JS.shr (JS.get t i) 8)) (JS.zeros 32) in
  length o = 32%nat /\ Forall is_byte o /\ le_bytes o = limbs t.
Proof.
  intros Ht. cbv zeta. change 16 with (Z.of_nat 16).
  assert (H : let o := for_loop 0 (Z.of_nat 16) (fun i o =>
             let o := JS.put8 o (2 * i) (JS.and (JS.get t i) 0xff) in
             JS.put8 o (2 * i + 1) (JS.shr (JS.get t i) 8)) (JS.zeros 32) in
            length o = 32%nat /\ Forall is_byte o
            /\ le_bytes (take (2 * 16) o) = limbs (take 16 t)).
  { apply (for_loop_nat_ind
             (fun k (o : list Z) =>
                length o = 32%nat /\ Forall is_byte o
                /\ le_bytes (take (2 * k) o) = limbs (take k t))).
    - split; [reflexivity|]. split; [apply zeros_bytes|reflexivity].
    - intros k o Hk (Hl & Hb & Hv). cbv zeta.
      pose proof (normal_get t k Ht Hk) as Hx.
      set (x := JS.get t (Z.of_nat k)) in *.
      rewrite (and_small x 255) by lia. change 255 with (Z.ones 8).
      rewrite Z.land_ones by lia. change (2 ^ 8) with 256.
      rewrite shr_small by lia. change (2 ^ 8) with 256.
      unfold JS.put8.
      rewrite !ToUint8_small by (Z.div_mod_to_equations; lia).
      replace (2 * Z.of_nat k) with (Z.of_nat (2 * k)) by lia.
      replace (Z.of_nat (2 * k) + 1) with (Z.of_nat (2 * k + 1)) by lia.
      set (o1 := JS.put o (Z.of_nat (2 * k)) (x mod 256)).
      set (o2 := JS.put o1 (Z.of_nat (2 * k + 1)) (x / 256)).
      assert (Hl1 : length o1 = 32%nat) by (unfold o1; by rewrite put_length).
      assert (Hl2 : length o2 = 32%nat) by (unfold o2; by rewrite put_length).
      split; [done|]. split.
      + unfold o2, o1. apply put_bytes; [apply put_bytes; [done|]|];
          unfold is_byte; Z.div_mod_to_equations; lia.
      + replace (2 * S k)%nat with (S (S (2 * k))) by lia.
        rewrite (le_bytes_take_S o2 (S (2 * k))), (le_bytes_take_S o2 (2 * k)) by lia.
        replace (S (2 * k)) with (2 * k + 1)%nat by lia.
        assert (E1 : JS.get o2 (Z.of_nat (2 * k + 1)) = x / 256)
          by (unfold o2; by rewrite get_put_same by lia).
        assert (E0 : JS.get o2 (Z.of_nat (2 * k)) = x mod 256).
        { unfold o2. rewrite get_put_other by lia.
          unfold o1. by rewrite get_put_same by lia. }
        assert (Et : take (2 * k) o2 = take (2 * k) o)
          by (unfold o2, o1; by rewrite !take_put by lia).
        rewrite E1, E0, Et, Hv, (limbs_take_S t k) by (destruct Ht; lia).
        fold x.
        replace (256 ^ Z.of_nat (2 * k + 1)) with (256 * 65536 ^ Z.of_nat k).
        2:{ rewrite Nat2Z.inj_add, Z.pow_add_r, Nat2Z.inj_mul, Z.pow_mul_r by lia.
            change (256 ^ Z.of_nat 2) with 65536. change (256 ^ Z.of_nat 1) with 256.
            ring. }
        replace (256 ^ Z.of_nat (2 * k)) with (65536 ^ Z.of_nat k).
        2:{ rewrite Nat2Z.inj_mul, Z.pow_mul_r by lia. reflexivity. }
        pose proof (Z.div_mod x 256 ltac:(lia)). nia. }
  cbv zeta in H.
  match type of H with
  | length ?o = _ /\ _ => generalize dependent o
  end.
  intros o (Hl & Hb & Hv). split; [done|]. split; [done|].
  rewrite take_ge in Hv by lia. rewrite (take_ge t) in Hv by (destruct Ht; lia).
  exact Hv.
Qed.

(** *** [_pack25519] *)

(** The two rounds of subtraction bring a normal form below the prime. *)
Lemma reduce_twice (v : Z) :
  0 <= v < 2 ^ 256 ->
  let v1 := if v <? p25519 then v else v - p25519 in
  let v2 := if v1 <? p25519 then v1 else v1 - p25519 in
  v2 = v mod p25519.
Proof.
  intros Hv. cbv zeta. unfold p25519 in *.
  destruct (Z.ltb_spec v (2 ^ 255 - 19)) as [H1|H1].
  - replace (v <? 2 ^ 255 - 19) with true by lia. by rewrite Z.mod_small by lia.
  - destruct (Z.ltb_spec (v - (2 ^ 255 - 19)) (2 ^ 255 - 19)) as [H2|H2].
    + apply (Z.mod_unique_pos _ _ 1); lia.
    + apply (Z.mod_unique_pos _ _ 2); lia.
Qed.

Lemma pack25519_bytes (n : Ed25519.gf) :
  length n = 16%nat -> - 2 ^ 400 < limbs n < 2 ^ 400 ->
  length (Ed25519._pack25519 n) = 32%nat
  /\ Forall is_byte (Ed25519._pack25519 n)
  /\ le_bytes (Ed25519._pack25519 n) = limbs n mod p25519.
Proof.
  intros Hl Hb. unfold Ed25519._pack25519. cbv zeta.
  rewrite (set25519_copy n) by done.
  destruct (car3_normal n Hl Hb) as [Hn3 Hm3]. cbv zeta in Hn3, Hm3.
  generalize dependent (Ed25519._car25519 (Ed25519._car25519 (Ed25519._car25519 n))).
  intros t3 Hn3 Hm3.
  match goal with
  | |- context [for_loop 0 2 ?f ?s] =>
      set (round := f); change (for_loop 0 2 round s) with (round 1 (round 0 s))
  end.
  assert (Hround : forall j t m, gf_normal t -> length m = 16%nat ->
            gf_normal (round j (t, m)).1 /\ length (round j (t, m)).2 = 16%nat
            /\ limbs (round j (t, m)).1
               = if limbs t <? p25519 then limbs t else limbs t - p25519).
  { intros j t m Ht Hm. exact (pack_round t m Ht Hm). }
  destruct (Hround 0 t3 (JS.zeros 16) Hn3 eq_refl) as (Hn4 & Hl4 & Hv4).
  destruct (round 0 (t3, JS.zeros 16)) as [t4 m4]. cbn [fst snd] in Hn4, Hl4, Hv4.
  destruct (Hround 1 t4 m4 Hn4 Hl4) as (Hn5 & Hl5 & Hv5).
  destruct (round 1 (t4, m4)) as [t5 m5]. cbn [fst snd] in Hn5, Hl5, Hv5.
  clearbody round.
  destruct (limbs_to_bytes t5 Hn5) as (Ho & Hbo & Hvo). cbv zeta in Ho, Hbo, Hvo.
  split; [exact Ho|]. split; [exact Hbo|].
  rewrite Hvo, Hv5, Hv4.
  pose proof (reduce_twice (limbs t3) (normal_limbs t3 Hn3)) as Hr.
  cbv zeta in Hr. rewrite Hr. exact Hm3.
Qed.

Lemma limbs_exact_bound (l : list Z) :
  Forall (fun x => - 2 ^ 53 < x < 2 ^ 53) l ->
  - 2 ^ 53 * (2 * 65536 ^ Z.of_nat (length l) - 1) < limbs l
    < 2 ^ 53 * (2 * 65536 ^ Z.of_nat (length l) - 1).
Proof.
  induction 1 as [|x l Hx _ IH]; [simpl; lia|].
  rewrite limbs_cons. cbn [length]. rewrite Nat2Z.inj_succ, Z.pow_succ_r by lia.
  assert (0 < 65536 ^ Z.of_nat (length l)) by (apply Z.pow_pos_nonneg; lia).
  lia.
Qed.

Lemma exact_limbs (a : Ed25519.gf) :
  gf_exact a -> length a = 16%nat /\ - 2 ^ 400 < limbs a < 2 ^ 400.
Proof.
  intros [Hl Hr]. split; [done|].
  assert (Hr' : Forall (fun x => - 2 ^ 53 < x < 2 ^ 53) a).
  { eapply Forall_impl; [exact Hr|]. intros x Hx. cbv beta in Hx. lia. }
  pose proof (limbs_exact_bound a Hr') as H. rewrite Hl in H.
  change (65536 ^ Z.of_nat 16) with (2 ^ 256) in H. lia.
Qed.

Lemma normal_exact (t : Ed25519.gf) : gf_normal t -> gf_exact t.
Proof.
  intros [Hl Hr]. split; [done|]. eapply Forall_impl; [exact Hr|].
  intros x Hx. cbv beta in Hx. lia.
Qed.

Lemma par25519_parity (n : Ed25519.gf) :
  gf_exact n -> Ed25519._par25519 n = (limbs n mod p25519) mod 2.
Proof.
  intros Hn. destruct (exact_limbs n Hn) as [Hl Hb].
  destruct (pack25519_bytes n Hl Hb) as (Hlo & Hbo & Hv).
  unfold Ed25519._par25519. rewrite <- Hv.
  generalize dependent (Ed25519._pack25519 n). intros o Hlo Hbo _.
  destruct o as [|x o]; [discriminate|].
  apply Forall_cons in Hbo as [Hx _]. unfold is_byte in Hx.
  rewrite get_cons_0, le_bytes_cons, and_small by lia.
  change 1 with (Z.ones 1) at 1. rewrite Z.land_ones by lia.
  change (2 ^ 1) with 2. Z.div_mod_to_equations. lia.
Qed.

Lemma neq25519_compares (a b : Ed25519.gf) :
  gf_exact a -> gf_exact b ->
  Ed25519._neq25519 a b
  = if bool_decide (limbs a mod p25519 = limbs b mod p25519) then 0 else -1.
Proof.
  intros Ha Hb. destruct (exact_limbs a Ha) as [Hla Hba].
  destruct (exact_limbs b Hb) as [Hlb Hbb].
  destruct (pack25519_bytes a Hla Hba) as (Hl1 & Hb1 & Hv1).
  destruct (pack25519_bytes b Hlb Hbb) as (Hl2 & Hb2 & Hv2).
  unfold Ed25519._neq25519. rewrite <- Hv1, <- Hv2.
  generalize dependent (Ed25519._pack25519 a). intros x Hl1 Hb1 _.
  generalize dependent (Ed25519._pack25519 b). intros y Hl2 Hb2 _.
  rewrite cryptoVerify32_compares by first [done|lia].
  rewrite !take_ge by lia.
  destruct (decide (x = y)) as [->|Hne].
  - by rewrite !bool_decide_eq_true_2.
  - rewrite !bool_decide_eq_false_2; [done| |done].
    intros E. apply Hne. apply le_bytes_inj; [lia|done|done|done].
Qed.

(** X24.  [_pack25519] writes the canonical encoding of a field element: whatever
    sixteen limbs of at most [2^52] in magnitude write the element (the bound
    keeps the carries of the code exact in its doubles), the result is the 32
    bytes of the number reduced modulo [2^255 - 19], least significant byte
    first; unpacking them gives limbs that write the reduced number. *)
Theorem pack_is_canonical (n : Ed25519.gf) :
  gf_exact n ->
  length (Ed25519._pack25519 n) = 32%nat
  /\ Forall is_byte (Ed25519._pack25519 n)
  /\ le_bytes (Ed25519._pack25519 n) = limbs n mod p25519
  /\ limbs (Ed25519._unpack25519 (Ed25519._pack25519 n)) = limbs n mod p25519.
Proof.
  intros Hn. destruct (exact_limbs n Hn) as [Hl Hb].
  destruct (pack25519_bytes n Hl Hb) as (Hlo & Hbo & Hv).
  split; [exact Hlo|]. split; [exact Hbo|]. split; [exact Hv|].
  destruct (unpack25519_limbs _ Hbo Hlo) as (_ & _ & Hu).
  rewrite Hu, Hv. apply Z.mod_small.
  pose proof (Z.mod_pos_bound (limbs n) p25519 ltac:(unfold p25519; lia)).
  unfold p25519 in *. lia.
Qed.

Lemma pack_is_canonical_witness :
  let n := map (fun i => 70000 * i - 1) (seqZ 0 16) in
  length (Ed25519._pack25519 n) = 32%nat
  /\ Forall is_byte (Ed25519._pack25519 n)
  /\ le_bytes (Ed25519._pack25519 n) = limbs n mod p25519
  /\ limbs (Ed25519._unpack25519 (Ed25519._pack25519 n)) = limbs n mod p25519.
Proof.
  intros n. apply (pack_is_canonical n). split; [reflexivity|].
  exact (bool_decide_unpack (Forall (fun x => - 2 ^ 52 <= x <= 2 ^ 52) n) I).
Defined.

(** X25.  On limbs of at most [2^52] in magnitude (where the carries of the code
    are exact in its doubles) [_neq25519] tells whether two lists of limbs
    write the same element of the field, returning 0 when they do and -1 when
    they do not, and [_par25519] gives the parity of the reduced number. *)
Theorem field_equality_test (a b : Ed25519.gf) :
  gf_exact a -> gf_exact b ->
  Ed25519._neq25519 a b
  = (if bool_decide (limbs a mod p25519 = limbs b mod p25519) then 0 else -1)
  /\ Ed25519._par25519 a = (limbs a mod p25519) mod 2.
Proof.
  intros Ha Hb. split; [by apply neq25519_compares|by apply par25519_parity].
Qed.

Lemma field_equality_test_witness :
  let a := map (fun i => 70000 * i - 1) (seqZ 0 16) in
  let b := Ed25519._gf1 in
  Ed25519._neq25519 a b
  = (if bool_decide (limbs a mod p25519 = limbs b mod p25519) then 0 else -1)
  /\ Ed25519._par25519 a = (limbs a mod p25519) mod 2.
Proof.
  intros a b. apply (field_equality_test a b); (split; [reflexivity|]).
  - exact (bool_decide_unpack (Forall (fun x => - 2 ^ 52 <= x <= 2 ^ 52) a) I).
  - exact (bool_decide_unpack (Forall (fun x => - 2 ^ 52 <= x <= 2 ^ 52) b) I).
Defined.

(** X26.  [_unpack25519] turns 32 bytes into sixteen limbs in [0, 2^16) that write
    the number of the bytes, least significant byte first, without its highest
    bit.  Packing the result gives the bytes back when their number is below
    the prime; in general it gives the encoding of the number without its
    highest bit, reduced modulo the prime. *)
Theorem unpack_then_pack (n : bytes) :
  Forall is_byte n -> length n = 32%nat ->
  gf_normal (Ed25519._unpack25519 n)
  /\ limbs (Ed25519._unpack25519 n) = le_bytes n mod 2 ^ 255
  /\ le_bytes (Ed25519._pack25519 (Ed25519._unpack25519 n))
     = (le_bytes n mod 2 ^ 255) mod p25519
  /\ (le_bytes n < p25519 ->
      Ed25519._pack25519 (Ed25519._unpack25519 n) = n).
Proof.
  intros Hb Hl. destruct (unpack25519_limbs n Hb Hl) as (Hlu & Hru & Hvu).
  assert (Hn : gf_exact (Ed25519._unpack25519 n)) by (by apply normal_exact).
  destruct (exact_limbs _ Hn) as [_ Hbu].
  destruct (pack25519_bytes _ Hlu Hbu) as (Hlo & Hbo & Hv).
  rewrite Hvu in Hv. split; [by split|]. split; [exact Hvu|]. split; [exact Hv|].
  intros Hlt. apply le_bytes_inj; [lia|done|done|].
  rewrite Hv. pose proof (le_bytes_bound n Hb) as H0.
  unfold p25519 in *. rewrite (Z.mod_small (le_bytes n) (2 ^ 255)) by lia.
  rewrite Z.mod_small by lia. reflexivity.
Qed.

Lemma unpack_then_pack_witness :
  let n := seqZ 100 32 in
  gf_normal (Ed25519._unpack25519 n)
  /\ limbs (Ed25519._unpack25519 n) = le_bytes n mod 2 ^ 255
  /\ le_bytes (Ed25519._pack25519 (Ed25519._unpack25519 n))
     = (le_bytes n mod 2 ^ 255) mod p25519
  /\ (le_bytes n < p25519 ->
      Ed25519._pack25519 (Ed25519._unpack25519 n) = n).
Proof.
  intros n. apply (unpack_then_pack n); [|reflexivity].
  exact (bool_decide_unpack (Forall is_byte n) I).
Defined.

(** ** SHA-512 on pairs of halves against FIPS 180-4 *)

(** *** Bits of the halves *)

Lemma wrap_testbit x i :
  0 <= i -> Z.testbit (FIPS180.wrap x) i = (i <? 32) && Z.testbit x i.
Proof.
  intros Hi. unfold FIPS180.wrap. destruct (Z.ltb_spec i 32).
  - by rewrite Z.mod_pow2_bits_low by lia.
  - by rewrite Z.mod_pow2_bits_high by lia.
Qed.

Lemma ToInt32_testbit x i :
  0 <= i < 32 -> Z.testbit (JS.ToInt32 x) i = Z.testbit x i.
Proof.
  intros Hi. pose proof (wrap_testbit (JS.ToInt32 x) i ltac:(lia)) as H1.
  pose proof (wrap_testbit x i ltac:(lia)) as H2. rewrite wrap_ToInt32 in H1.
  replace (i <? 32) with true in * by lia. simpl in *. congruence.
Qed.

Lemma w64_testbit h l i :
  0 <= i ->
  Z.testbit (w64 h l) i
  = if i <? 32 then Z.testbit l i else (i <? 64) && Z.testbit h (i - 32).
Proof.
  intros Hi. unfold w64. pose proof (wrap_range l) as Hl.
  destruct (Z.ltb_spec i 32).
  - rewrite <- (Z.mod_pow2_bits_low _ 32) by lia.
    rewrite Z.add_comm, Z.mod_add by lia.
    rewrite (Z.mod_small (FIPS180.wrap l)) by (change (2 ^ 32) with 4294967296; lia).
    rewrite wrap_testbit by lia. by replace (i <? 32) with true by lia.
  - replace i with ((i - 32) + 32) at 1 by lia.
    rewrite <- Z.div_pow2_bits by lia.
    rewrite Z.div_add_l by lia.
    rewrite (Z.div_small (FIPS180.wrap l)) by (change (2 ^ 32) with 4294967296; lia).
    rewrite Z.add_0_r, wrap_testbit by lia.
    f_equal. lia.
Qed.

Lemma xor_testbit a b i :
  0 <= i < 32 ->
  Z.testbit (JS.xor a b) i = xorb (Z.testbit a i) (Z.testbit b i).
Proof. intros. unfold JS.xor. by rewrite Z.lxor_spec, !ToInt32_testbit. Qed.

Lemma and_testbit a b i :
  0 <= i < 32 -> Z.testbit (JS.and a b) i = Z.testbit a i && Z.testbit b i.
Proof. intros. unfold JS.and. by rewrite Z.land_spec, !ToInt32_testbit. Qed.

Lemma or_testbit a b i :
  0 <= i < 32 -> Z.testbit (JS.or a b) i = Z.testbit a i || Z.testbit b i.
Proof. intros. unfold JS.or. by rewrite Z.lor_spec, !ToInt32_testbit. Qed.

Lemma ushr_testbit a n i :
  0 <= n < 32 -> 0 <= i ->
  Z.testbit (JS.ushr a n) i = (i + n <? 32) && Z.testbit a (i + n).
Proof.
  intros Hn Hi. rewrite ushr_SHR by done. unfold FIPS180.SHR.
  rewrite Z.shiftr_spec by lia. apply wrap_testbit. lia.
Qed.

Lemma shl_testbit a n i :
  0 <= n < 32 -> 0 <= i < 32 ->
  Z.testbit (JS.shl a n) i = (n <=? i) && Z.testbit a (i - n).
Proof.
  intros Hn Hi. unfold JS.shl. rewrite ToInt32_testbit by done.
  change 31 with (Z.ones 5). rewrite Z.land_ones by lia.
  rewrite (Z.mod_small n) by (change (2 ^ 5) with 32; lia).
  destruct (Z.leb_spec n i).
  - rewrite Z.shiftl_spec by lia. apply ToInt32_testbit. lia.
  - by rewrite Z.shiftl_spec_low by lia.
Qed.

(** *** The operations of the standard on the halves *)

Lemma w64_range h l : word64 (w64 h l).
Proof.
  unfold word64, w64. pose proof (wrap_range h). pose proof (wrap_range l).
  change (2 ^ 64) with 18446744073709551616. change (2 ^ 32) with 4294967296. lia.
Qed.

Lemma SHR_testbit n x i :
  0 <= n -> 0 <= i -> Z.testbit (FIPS180_512.SHR n x) i = Z.testbit x (i + n).
Proof. intros. unfold FIPS180_512.SHR. apply Z.shiftr_spec. lia. Qed.

Lemma SHL_testbit n x i :
  0 <= n -> 0 <= i ->
  Z.testbit (FIPS180_512.SHL n x) i = (i <? 64) && ((n <=? i) && Z.testbit x (i - n)).
Proof.
  intros Hn Hi. unfold FIPS180_512.SHL, FIPS180_512.wrap.
  destruct (Z.ltb_spec i 64).
  - rewrite Z.mod_pow2_bits_low by lia. destruct (Z.leb_spec n i).
    + by rewrite Z.shiftl_spec by lia.
    + by rewrite Z.shiftl_spec_low by lia.
  - by rewrite Z.mod_pow2_bits_high by lia.
Qed.

Ltac bit_split :=
  repeat match goal with
  | |- context [?a <? ?b] => destruct (Z.ltb_spec a b); try lia
  | |- context [?a <=? ?b] => destruct (Z.leb_spec a b); try lia
  end.

Ltac bit_cases :=
  bit_split; cbn [andb orb]; rewrite ?w64_testbit by lia; bit_split;
  cbn [andb orb];
  rewrite ?orb_false_r, ?orb_false_l, ?andb_false_r, ?andb_true_r;
  try reflexivity; try (f_equal; lia).

Lemma w64_xor h1 l1 h2 l2 :
  w64 (JS.xor h1 h2) (JS.xor l1 l2) = Z.lxor (w64 h1 l1) (w64 h2 l2).
Proof.
  apply Z.bits_inj'. intros i Hi.
  rewrite Z.lxor_spec, !w64_testbit by done.
  destruct (Z.ltb_spec i 32); [by rewrite xor_testbit by lia|].
  destruct (Z.ltb_spec i 64); [|done]. cbn [andb]. by rewrite xor_testbit by lia.
Qed.

Lemma w64_and h1 l1 h2 l2 :
  w64 (JS.and h1 h2) (JS.and l1 l2) = Z.land (w64 h1 l1) (w64 h2 l2).
Proof.
  apply Z.bits_inj'. intros i Hi.
  rewrite Z.land_spec, !w64_testbit by done.
  destruct (Z.ltb_spec i 32); [by rewrite and_testbit by lia|].
  destruct (Z.ltb_spec i 64); [|done]. cbn [andb]. by rewrite and_testbit by lia.
Qed.

Lemma w64_not h l :
  w64 (JS.not h) (JS.not l) = FIPS180_512.complement (w64 h l).
Proof.
  unfold w64, FIPS180_512.complement. rewrite !wrap_not. unfold FIPS180.complement.
  change (2 ^ 64) with 18446744073709551616. change (2 ^ 32) with 4294967296. lia.
Qed.

(** A rotation by less than 32 bits. *)
Lemma w64_rot_low h l n m :
  0 < n < 32 -> m = 32 - n ->
  w64 (JS.or (JS.ushr h n) (JS.shl l m)) (JS.or (JS.ushr l n) (JS.shl h m))
  = FIPS180_512.ROTR n (w64 h l).
Proof.
  intros Hn ->. apply Z.bits_inj'. intros i Hi.
  unfold FIPS180_512.ROTR.
  rewrite Z.lor_spec, SHR_testbit, SHL_testbit, !w64_testbit by lia.
  destruct (Z.ltb_spec i 32).
  - rewrite or_testbit, ushr_testbit, shl_testbit by lia. bit_cases.
  - destruct (Z.ltb_spec i 64).
    + cbn [andb]. rewrite or_testbit, ushr_testbit, shl_testbit by lia. bit_cases.
    + bit_cases.
Qed.

(** A rotation by [32 + n] bits. *)
Lemma w64_rot_high h l n m k :
  0 < n < 32 -> m = 32 - n -> k = 32 + n ->
  w64 (JS.or (JS.ushr l n) (JS.shl h m)) (JS.or (JS.ushr h n) (JS.shl l m))
  = FIPS180_512.ROTR k (w64 h l).
Proof.
  intros Hn -> ->. apply Z.bits_inj'. intros i Hi.
  unfold FIPS180_512.ROTR.
  rewrite Z.lor_spec, SHR_testbit, SHL_testbit, !w64_testbit by lia.
  destruct (Z.ltb_spec i 32).
  - rewrite or_testbit, ushr_testbit, shl_testbit by lia. bit_cases.
  - destruct (Z.ltb_spec i 64).
    + cbn [andb]. rewrite or_testbit, ushr_testbit, shl_testbit by lia. bit_cases.
    + bit_cases.
Qed.

Lemma w64_shr h l n m :
  0 < n < 32 -> m = 32 - n ->
  w64 (JS.ushr h n) (JS.or (JS.ushr l n) (JS.shl h m))
  = FIPS180_512.SHR n (w64 h l).
Proof.
  intros Hn ->. apply Z.bits_inj'. intros i Hi.
  rewrite SHR_testbit, !w64_testbit by lia.
  destruct (Z.ltb_spec i 32).
  - rewrite or_testbit, ushr_testbit, shl_testbit by lia. bit_cases.
  - destruct (Z.ltb_spec i 64).
    + cbn [andb]. rewrite ushr_testbit by lia. bit_cases.
    + bit_cases.
Qed.

Lemma w64_Sigma1 h l :
  w64 (JS.xor (JS.xor (JS.or (JS.ushr h 14) (JS.shl l (32 - 14)))
                      (JS.or (JS.ushr h 18) (JS.shl l (32 - 18))))
              (JS.or (JS.ushr l (41 - 32)) (JS.shl h (32 - (41 - 32)))))
      (JS.xor (JS.xor (JS.or (JS.ushr l 14) (JS.shl h (32 - 14)))
                      (JS.or (JS.ushr l 18) (JS.shl h (32 - 18))))
              (JS.or (JS.ushr h (41 - 32)) (JS.shl l (32 - (41 - 32)))))
  = FIPS180_512.Sigma1 (w64 h l).
Proof.
  rewrite !w64_xor. unfold FIPS180_512.Sigma1.
  rewrite (w64_rot_low h l 14), (w64_rot_low h l 18),
    (w64_rot_high h l (41 - 32) _ 41) by lia.
  reflexivity.
Qed.

Lemma w64_Sigma0 h l :
  w64 (JS.xor (JS.xor (JS.or (JS.ushr h 28) (JS.shl l (32 - 28)))
                      (JS.or (JS.ushr l (34 - 32)) (JS.shl h (32 - (34 - 32)))))
              (JS.or (JS.ushr l (39 - 32)) (JS.shl h (32 - (39 - 32)))))
      (JS.xor (JS.xor (JS.or (JS.ushr l 28) (JS.shl h (32 - 28)))
                      (JS.or (JS.ushr h (34 - 32)) (JS.shl l (32 - (34 - 32)))))
              (JS.or (JS.ushr h (39 - 32)) (JS.shl l (32 - (39 - 32)))))
  = FIPS180_512.Sigma0 (w64 h l).
Proof.
  rewrite !w64_xor. unfold FIPS180_512.Sigma0.
  rewrite (w64_rot_low h l 28), (w64_rot_high h l (34 - 32) _ 34),
    (w64_rot_high h l (39 - 32) _ 39) by lia.
  reflexivity.
Qed.

Lemma w64_sigma0 h l :
  w64 (JS.xor (JS.xor (JS.or (JS.ushr h 1) (JS.shl l (32 - 1)))
                      (JS.or (JS.ushr h 8) (JS.shl l (32 - 8))))
              (JS.ushr h 7))
      (JS.xor (JS.xor (JS.or (JS.ushr l 1) (JS.shl h (32 - 1)))
                      (JS.or (JS.ushr l 8) (JS.shl h (32 - 8))))
              (JS.or (JS.ushr l 7) (JS.shl h (32 - 7))))
  = FIPS180_512.sigma0 (w64 h l).
Proof.
  rewrite !w64_xor. unfold FIPS180_512.sigma0.
  rewrite (w64_rot_low h l 1), (w64_rot_low h l 8), (w64_shr h l 7) by lia.
  reflexivity.
Qed.

Lemma w64_sigma1 h l :
  w64 (JS.xor (JS.xor (JS.or (JS.ushr h 19) (JS.shl l (32 - 19)))
                      (JS.or (JS.ushr l (61 - 32)) (JS.shl h (32 - (61 - 32)))))
              (JS.ushr h 6))
      (JS.xor (JS.xor (JS.or (JS.ushr l 19) (JS.shl h (32 - 19)))
                      (JS.or (JS.ushr h (61 - 32)) (JS.shl l (32 - (61 - 32)))))
              (JS.or (JS.ushr l 6) (JS.shl h (32 - 6))))
  = FIPS180_512.sigma1 (w64 h l).
Proof.
  rewrite !w64_xor. unfold FIPS180_512.sigma1.
  rewrite (w64_rot_low h l 19), (w64_rot_high h l (61 - 32) _ 61),
    (w64_shr h l 6) by lia.
  reflexivity.
Qed.

Lemma w64_Ch h4 l4 h5 l5 h6 l6 :
  w64 (JS.xor (JS.and h4 h5) (JS.and (JS.not h4) h6))
      (JS.xor (JS.and l4 l5) (JS.and (JS.not l4) l6))
  = FIPS180_512.Ch (w64 h4 l4) (w64 h5 l5) (w64 h6 l6).
Proof. by rewrite w64_xor, !w64_and, w64_not. Qed.

Lemma w64_Maj h0 l0 h1 l1 h2 l2 :
  w64 (JS.xor (JS.xor (JS.and h0 h1) (JS.and h0 h2)) (JS.and h1 h2))
      (JS.xor (JS.xor (JS.and l0 l1) (JS.and l0 l2)) (JS.and l1 l2))
  = FIPS180_512.Maj (w64 h0 l0) (w64 h1 l1) (w64 h2 l2).
Proof. by rewrite !w64_xor, !w64_and. Qed.

(** *** Additions in four columns *)

Lemma half_parts h :
  JS.and h 0xffff = FIPS180.wrap h mod 65536
  /\ JS.ushr h 16 = FIPS180.wrap h / 65536.
Proof.
  split.
  - unfold JS.and. change (JS.ToInt32 65535) with (Z.ones 16).
    rewrite Z.land_ones by lia. change (2 ^ 16) with 65536.
    pose proof (wrap_ToInt32 h) as H. unfold FIPS180.wrap in *.
    change (2 ^ 32) with 4294967296 in *.
    Z.div_mod_to_equations. lia.
  - rewrite ushr_SHR by lia. unfold FIPS180.SHR.
    by rewrite Z.shiftr_div_pow2 by lia.
Qed.

Lemma col_init_val h l :
  col_val (Ed25519.col_init h l) = w64 h l /\ col_ok 1 (Ed25519.col_init h l).
Proof.
  unfold col_val, col_ok, Ed25519.col_init, w64. cbn [Ed25519.col_a Ed25519.col_b
    Ed25519.col_c Ed25519.col_d].
  destruct (half_parts h) as [-> ->]. destruct (half_parts l) as [-> ->].
  pose proof (wrap_range h). pose proof (wrap_range l).
  change (2 ^ 16) with 65536. change (2 ^ 32) with 4294967296.
  change (2 ^ 48) with 281474976710656.
  Z.div_mod_to_equations. lia.
Qed.

Lemma col_add_val n x h l :
  col_ok n x ->
  col_val (Ed25519.col_add x h l) = col_val x + w64 h l
  /\ col_ok (n + 1) (Ed25519.col_add x h l).
Proof.
  unfold col_val, col_ok, Ed25519.col_add, w64. cbn [Ed25519.col_a Ed25519.col_b
    Ed25519.col_c Ed25519.col_d]. intros Hx.
  destruct (half_parts h) as [-> ->]. destruct (half_parts l) as [-> ->].
  pose proof (wrap_range h). pose proof (wrap_range l).
  change (2 ^ 16) with 65536. change (2 ^ 32) with 4294967296.
  change (2 ^ 48) with 281474976710656.
  Z.div_mod_to_equations. lia.
Qed.

Lemma lor_disjoint x y :
  0 <= x < 65536 -> Z.lor x (y * 65536) = x + y * 65536.
Proof.
  intros Hx. assert (H0 : Z.land x (y * 65536) = 0).
  { apply Z.bits_inj'. intros i Hi. rewrite Z.land_spec, Z.bits_0.
    change 65536 with (2 ^ 16). rewrite <- Z.shiftl_mul_pow2 by lia.
    destruct (Z.lt_ge_cases i 16).
    - rewrite Z.shiftl_spec_low by lia. apply andb_false_r.
    - rewrite <- (Z.mod_small x (2 ^ 16)) by (change (2 ^ 16) with 65536; lia).
      by rewrite Z.mod_pow2_bits_high by lia. }
  rewrite Z.add_nocarry_lxor by done. by rewrite Z.lxor_lor by done.
Qed.

(** The word of a pair of columns after the carries. *)
Lemma half_of_columns a b :
  0 <= a < 2 ^ 31 -> 0 <= b < 2 ^ 31 ->
  FIPS180.wrap (JS.or (JS.and a 0xffff) (JS.shl b 16))
  = a mod 65536 + (b mod 65536) * 65536.
Proof.
  intros Ha Hb. change (2 ^ 31) with 2147483648 in *.
  rewrite wrap_or, wrap_shl by lia.
  destruct (half_parts a) as [-> _].
  rewrite (wrap_small a), (wrap_small b) by lia.
  rewrite wrap_small by (Z.div_mod_to_equations; lia).
  unfold FIPS180.SHL, FIPS180.wrap. rewrite Z.shiftl_mul_pow2 by lia.
  change (2 ^ 16) with 65536. change (2 ^ 32) with 4294967296.
  replace ((b * 65536) mod 4294967296) with ((b mod 65536) * 65536)
    by (Z.div_mod_to_equations; lia).
  apply lor_disjoint. Z.div_mod_to_equations. lia.
Qed.

Lemma col_carry_val n x :
  0 <= n <= 8 -> col_ok n x ->
  w64 (Ed25519.col_high (Ed25519.col_carry x)) (Ed25519.col_low (Ed25519.col_carry x))
  = FIPS180_512.wrap (col_val x).
Proof.
  destruct x as [a b c d].
  unfold col_ok, col_val, w64, Ed25519.col_high, Ed25519.col_low, Ed25519.col_carry.
  cbn [Ed25519.col_a Ed25519.col_b Ed25519.col_c Ed25519.col_d].
  intros Hn (Ha & Hb & Hc & Hd). cbv zeta.
  assert (Hu : forall v, 0 <= v < 2 ^ 31 -> JS.ushr v 16 = v / 65536).
  { intros v Hv. destruct (half_parts v) as [_ ->].
    rewrite wrap_small; [done|]. change (2 ^ 31) with 2147483648 in Hv. lia. }
  change (2 ^ 31) with 2147483648 in Hu.
  rewrite (Hu a) by lia.
  assert (Hb' : 0 <= b + a / 65536 < 2147483648)
    by (Z.div_mod_to_equations; lia).
  rewrite (Hu (b + a / 65536)) by lia.
  assert (Hc' : 0 <= c + (b + a / 65536) / 65536 < 2147483648)
    by (Z.div_mod_to_equations; lia).
  rewrite (Hu (c + (b + a / 65536) / 65536)) by lia.
  assert (Hd' : 0 <= d + (c + (b + a / 65536) / 65536) / 65536 < 2147483648)
    by (Z.div_mod_to_equations; lia).
  rewrite !half_of_columns by (change (2 ^ 31) with 2147483648; lia).
  unfold FIPS180_512.wrap.
  change (2 ^ 16) with 65536. change (2 ^ 32) with 4294967296.
  change (2 ^ 48) with 281474976710656. change (2 ^ 64) with 18446744073709551616.
  set (b' := b + a / 65536) in *. set (c' := c + b' / 65536) in *.
  set (d' := d + c' / 65536) in *.
  assert (E : a + b * 65536 + c * 4294967296 + d * 281474976710656
              = a mod 65536 + (b' mod 65536) * 65536
                + (c' mod 65536) * 4294967296 + d' * 281474976710656).
  { unfold d', c', b'. Z.div_mod_to_equations. lia. }
  rewrite E. clearbody b' c' d'.
  apply Z.mod_unique_pos with (q := d' / 65536);
    Z.div_mod_to_equations; lia.
Qed.

Lemma col_sum2 h1 l1 h2 l2 :
  let x := Ed25519.col_carry (Ed25519.col_add (Ed25519.col_init h1 l1) h2 l2) in
  w64 (Ed25519.col_high x) (Ed25519.col_low x)
  = FIPS180_512.wrap (w64 h1 l1 + w64 h2 l2).
Proof.
  cbv zeta. destruct (col_init_val h1 l1) as [E1 H1].
  destruct (col_add_val _ _ h2 l2 H1) as [E2 H2].
  rewrite (col_carry_val (1 + 1)) by first [assumption | lia]. by rewrite E2, E1.
Qed.

Lemma col_sum3 h1 l1 h2 l2 h3 l3 :
  let x := Ed25519.col_carry
             (Ed25519.col_add (Ed25519.col_add (Ed25519.col_init h1 l1) h2 l2) h3 l3) in
  w64 (Ed25519.col_high x) (Ed25519.col_low x)
  = FIPS180_512.wrap (w64 h1 l1 + w64 h2 l2 + w64 h3 l3).
Proof.
  cbv zeta. destruct (col_init_val h1 l1) as [E1 H1].
  destruct (col_add_val _ _ h2 l2 H1) as [E2 H2].
  destruct (col_add_val _ _ h3 l3 H2) as [E3 H3].
  rewrite (col_carry_val (1 + 1 + 1)) by first [assumption | lia]. by rewrite E3, E2, E1.
Qed.

Lemma col_sum4 h1 l1 h2 l2 h3 l3 h4 l4 :
  let x := Ed25519.col_carry
             (Ed25519.col_add
                (Ed25519.col_add (Ed25519.col_add (Ed25519.col_init h1 l1) h2 l2) h3 l3)
                h4 l4) in
  w64 (Ed25519.col_high x) (Ed25519.col_low x)
  = FIPS180_512.wrap (w64 h1 l1 + w64 h2 l2 + w64 h3 l3 + w64 h4 l4).
Proof.
  cbv zeta. destruct (col_init_val h1 l1) as [E1 H1].
  destruct (col_add_val _ _ h2 l2 H1) as [E2 H2].
  destruct (col_add_val _ _ h3 l3 H2) as [E3 H3].
  destruct (col_add_val _ _ h4 l4 H3) as [E4 H4].
  rewrite (col_carry_val (1 + 1 + 1 + 1)) by first [assumption | lia]. by rewrite E4, E3, E2, E1.
Qed.

Lemma col_sum5 h1 l1 h2 l2 h3 l3 h4 l4 h5 l5 :
  let x := Ed25519.col_carry
             (Ed25519.col_add
                (Ed25519.col_add
                   (Ed25519.col_add (Ed25519.col_add (Ed25519.col_init h1 l1) h2 l2) h3 l3)
                   h4 l4) h5 l5) in
  w64 (Ed25519.col_high x) (Ed25519.col_low x)
  = FIPS180_512.wrap (w64 h1 l1 + w64 h2 l2 + w64 h3 l3 + w64 h4 l4 + w64 h5 l5).
Proof.
  cbv zeta. destruct (col_init_val h1 l1) as [E1 H1].
  destruct (col_add_val _ _ h2 l2 H1) as [E2 H2].
  destruct (col_add_val _ _ h3 l3 H2) as [E3 H3].
  destruct (col_add_val _ _ h4 l4 H3) as [E4 H4].
  destruct (col_add_val _ _ h5 l5 H4) as [E5 H5].
  rewrite (col_carry_val (1 + 1 + 1 + 1 + 1)) by first [assumption | lia]. by rewrite E5, E4, E3, E2, E1.
Qed.

(** *** One round *)

Lemma vars64_list a0 a1 a2 a3 a4 a5 a6 a7 b0 b1 b2 b3 b4 b5 b6 b7 :
  vars64 [a0; a1; a2; a3; a4; a5; a6; a7] [b0; b1; b2; b3; b4; b5; b6; b7]
  = (w64 a0 b0, w64 a1 b1, w64 a2 b2, w64 a3 b3,
     w64 a4 b4, w64 a5 b5, w64 a6 b6, w64 a7 b7).
Proof. reflexivity. Qed.

Lemma wrap64_add_l x y :
  FIPS180_512.wrap (FIPS180_512.wrap x + y) = FIPS180_512.wrap (x + y).
Proof. unfold FIPS180_512.wrap. apply Z.add_mod_idemp_l. lia. Qed.

Lemma wrap64_add_r x y :
  FIPS180_512.wrap (x + FIPS180_512.wrap y) = FIPS180_512.wrap (x + y).
Proof. unfold FIPS180_512.wrap. apply Z.add_mod_idemp_r. lia. Qed.

Lemma wrap64_sum3 a b c :
  FIPS180_512.wrap (a + b + c) = FIPS180_512.wrap (a + FIPS180_512.wrap (b + c)).
Proof. rewrite wrap64_add_r. f_equal. lia. Qed.

Lemma round_refines64 i ah al wh wl :
  let s := Ed25519.hash_round i (Ed25519.mkHashState ah al wh wl) in
  vars64 (Ed25519.hs_ah s) (Ed25519.hs_al s)
  = FIPS180_512.round (vars64 ah al)
      (w64 (JS.get Ed25519._K (i * 2)) (JS.get Ed25519._K (i * 2 + 1)),
       w64 (JS.get wh (i mod 16)) (JS.get wl (i mod 16)))
  /\ (Ed25519.hs_wh s, Ed25519.hs_wl s)
     = (if i mod 16 =? 15 then for_loop 0 16 Ed25519.schedule_word (wh, wl)
        else (wh, wl)).
Proof.
  unfold Ed25519.hash_round. cbv zeta.
  destruct (if i mod 16 =? 15 then for_loop 0 16 Ed25519.schedule_word (wh, wl)
            else (wh, wl)) as [wh' wl'].
  cbn [Ed25519.hs_ah Ed25519.hs_al Ed25519.hs_wh Ed25519.hs_wl].
  split; [|reflexivity].
  rewrite vars64_list. unfold vars64, FIPS180_512.round. cbn [fst snd].
  pose proof (col_sum5 (JS.get ah 7) (JS.get al 7)) as H5. cbv zeta in H5.
  pose proof col_sum3 as H3. cbv zeta in H3.
  pose proof col_sum2 as H2. cbv zeta in H2.
  rewrite H3, H2, H5.
  rewrite w64_Sigma1, w64_Sigma0, w64_Ch, w64_Maj.
  rewrite wrap64_sum3. reflexivity.
Qed.

(** *** The sliding window of the message schedule *)

Lemma w64_halves x : word64 x -> w64 (hi32 x) (lo32 x) = x.
Proof.
  unfold word64, w64, hi32, lo32. intros Hx. rewrite !wrap_ToInt32.
  unfold FIPS180.wrap. change (2 ^ 64) with 18446744073709551616 in Hx.
  change (2 ^ 32) with 4294967296. Z.div_mod_to_equations. lia.
Qed.

Lemma halves_w64 h l :
  hi32 (w64 h l) = JS.ToInt32 h /\ lo32 (w64 h l) = JS.ToInt32 l.
Proof.
  unfold hi32, lo32, w64. pose proof (wrap_range l) as Hl. split.
  - rewrite Z.div_add_l by lia.
    rewrite (Z.div_small (FIPS180.wrap l)) by (change (2 ^ 32) with 4294967296; lia).
    rewrite Z.add_0_r. apply ToInt32_wrap.
  - apply ToInt32_eq. unfold FIPS180.wrap at 1.
    rewrite Z.add_comm, Z.mod_add by lia. apply wrap_wrap.
Qed.

Lemma wrap64_range x : word64 (FIPS180_512.wrap x).
Proof. unfold word64, FIPS180_512.wrap. apply Z.mod_pos_bound. lia. Qed.

Lemma get_word64 (l : list Z) k : Forall word64 l -> word64 (JS.get l k).
Proof.
  intros H. unfold JS.get. destruct (k <? 0); [unfold word64; lia|].
  destruct (l !! Z.to_nat k) as [x|] eqn:E; simpl; [|unfold word64; lia].
  eapply Forall_lookup_1; eauto.
Qed.

Lemma win_get (ws : list Z) k :
  Forall word64 ws -> 0 <= k < Z.of_nat (length ws) ->
  w64 (JS.get (map hi32 ws) k) (JS.get (map lo32 ws) k) = JS.get ws k.
Proof.
  intros Hw Hk. rewrite !get_map by done. apply w64_halves. by apply get_word64.
Qed.

Lemma win_put (ws : list Z) (j : nat) h l :
  (JS.put32 (map hi32 ws) (Z.of_nat j) h, JS.put32 (map lo32 ws) (Z.of_nat j) l)
  = win (<[j := w64 h l]> ws).
Proof.
  unfold win, JS.put32, JS.put.
  replace (Z.of_nat j <? 0) with false by (pose proof (Nat2Z.is_nonneg j); lia).
  rewrite Nat2Z.id, !list_fmap_insert.
  by destruct (halves_w64 h l) as [-> ->].
Qed.

Lemma schedule_word_win (ws : list Z) (j : nat) :
  length ws = 16%nat -> Forall word64 ws -> (j < 16)%nat ->
  Ed25519.schedule_word (Z.of_nat j) (win ws)
  = win (<[j := FIPS180_512.wrap
                   (JS.get ws (Z.of_nat j)
                    + JS.get ws ((Z.of_nat j + 9) mod 16)
                    + FIPS180_512.sigma0 (JS.get ws ((Z.of_nat j + 1) mod 16))
                    + FIPS180_512.sigma1 (JS.get ws ((Z.of_nat j + 14) mod 16)))]> ws).
Proof.
  intros Hl Hw Hj. unfold Ed25519.schedule_word, win at 1. cbv zeta.
  rewrite win_put. f_equal. f_equal.
  pose proof col_sum4 as H4. cbv zeta in H4. rewrite H4.
  rewrite w64_sigma0, w64_sigma1.
  rewrite !win_get
    by first [assumption | rewrite Hl; Z.div_mod_to_equations; lia].
  reflexivity.
Qed.

Lemma window_length Ws r j : length (window Ws r j) = 16%nat.
Proof. unfold window. by rewrite length_map, length_seq. Qed.

Lemma window_lookup Ws r j (k : nat) :
  (k < 16)%nat ->
  window Ws r j !! k
  = Some (default 0 (Ws !! (16 * r + k + (if (k <? j)%nat then 16 else 0))%nat)).
Proof.
  intros Hk. unfold window. rewrite list_lookup_fmap, lookup_seq_lt by done.
  reflexivity.
Qed.

Lemma window_get Ws r j k :
  0 <= k < 16 ->
  JS.get (window Ws r j) k
  = default 0 (Ws !! (16 * r + Z.to_nat k
                     + (if (Z.to_nat k <? j)%nat then 16 else 0))%nat).
Proof.
  intros Hk. rewrite get_nat by lia. by rewrite window_lookup by lia.
Qed.

Lemma window_word64 Ws r j : Forall word64 Ws -> Forall word64 (window Ws r j).
Proof.
  intros HS. unfold window. apply Forall_map, Forall_forall. intros k _.
  cbv beta. match goal with |- word64 (default 0 ?o) => destruct o eqn:E end.
  - eapply Forall_lookup_1; eauto.
  - unfold word64. simpl. lia.
Qed.

Lemma window_next Ws r : window Ws r 16 = window Ws (S r) 0.
Proof.
  apply list_eq. intros k. destruct (decide (k < 16)%nat) as [Hk|Hk].
  - rewrite !window_lookup by done.
    replace (k <? 16)%nat with true by (symmetry; apply Nat.ltb_lt; lia).
    replace (k <? 0)%nat with false by (symmetry; apply Nat.ltb_ge; lia).
    do 3 f_equal. lia.
  - by rewrite !lookup_ge_None_2 by (rewrite window_length; lia).
Qed.

Lemma window_get_mod Ws r j d :
  (j < 16)%nat -> 0 <= d < 16 ->
  JS.get (window Ws r j) ((Z.of_nat j + d) mod 16)
  = default 0 (Ws !! (16 * r + j + Z.to_nat d)%nat).
Proof.
  intros Hj Hd. rewrite window_get by (apply Z.mod_pos_bound; lia).
  destruct (Z.lt_ge_cases (Z.of_nat j + d) 16) as [Hlt|Hge].
  - rewrite Z.mod_small by lia.
    replace (Z.to_nat (Z.of_nat j + d) <? j)%nat with false
      by (symmetry; apply Nat.ltb_ge; lia).
    do 2 f_equal. lia.
  - replace ((Z.of_nat j + d) mod 16) with (Z.of_nat j + d - 16)
      by (Z.div_mod_to_equations; lia).
    replace (Z.to_nat (Z.of_nat j + d - 16) <? j)%nat with true
      by (symmetry; apply Nat.ltb_lt; lia).
    do 2 f_equal. lia.
Qed.

Lemma schedule_facts (n : nat) (W : list Z) :
  is_schedule W -> Forall word64 W ->
  is_schedule (FIPS180_512.schedule n W)
  /\ Forall word64 (FIPS180_512.schedule n W)
  /\ length (FIPS180_512.schedule n W) = (length W + n)%nat
  /\ take (length W) (FIPS180_512.schedule n W) = W.
Proof.
  revert W. induction n as [|n IH]; intros W HW Hr; cbn [FIPS180_512.schedule].
  - split; [done|]. split; [done|]. split; [lia|]. by rewrite take_ge by lia.
  - assert (Hl : length (W ++ [FIPS180_512.W_next W]) = S (length W))
      by (rewrite length_app; simpl; lia).
    destruct (IH (W ++ [FIPS180_512.W_next W])) as (H1 & H2 & H3 & H4).
    + intros t Ht. rewrite Hl in Ht.
      destruct (decide (t = length W)) as [->|Hne].
      * rewrite lookup_app_r, Nat.sub_diag by lia.
        by rewrite take_app_length.
      * rewrite lookup_app_l by lia. rewrite take_app_le by lia.
        apply HW. lia.
    + apply Forall_app_2; [done|]. apply Forall_singleton.
      unfold FIPS180_512.W_next. cbv zeta. apply wrap64_range.
    + split; [done|]. split; [done|]. split; [lia|].
      rewrite Hl in H4.
      apply (f_equal (take (length W))) in H4.
      rewrite take_take, take_app_length in H4.
      by replace (length W `min` S (length W))%nat with (length W) in H4 by lia.
Qed.

Lemma window_step Ws r j :
  is_schedule Ws -> (16 * r + j + 16 < length Ws)%nat -> (j < 16)%nat ->
  <[j := FIPS180_512.wrap
           (JS.get (window Ws r j) (Z.of_nat j)
            + JS.get (window Ws r j) ((Z.of_nat j + 9) mod 16)
            + FIPS180_512.sigma0 (JS.get (window Ws r j) ((Z.of_nat j + 1) mod 16))
            + FIPS180_512.sigma1 (JS.get (window Ws r j) ((Z.of_nat j + 14) mod 16)))]>
    (window Ws r j)
  = window Ws r (S j).
Proof.
  intros HS Hlen Hj.
  rewrite !window_get_mod by lia.
  pose proof (window_get_mod Ws r j 0 Hj ltac:(lia)) as H0.
  rewrite Z.add_0_r, Z.mod_small in H0 by lia. rewrite H0.
  apply list_eq. intros k. destruct (decide (k = j)) as [->|Hne].
  - rewrite list_lookup_insert_eq by (rewrite window_length; lia).
    rewrite window_lookup by done.
    replace (j <? S j)%nat with true by (symmetry; apply Nat.ltb_lt; lia).
    rewrite (HS (16 * r + j + 16)%nat) by lia.
    cbn [default]. f_equal. unfold FIPS180_512.W_next. cbv zeta.
    rewrite length_take, Nat.min_l by lia.
    rewrite !lookup_take_lt by lia.
    replace (16 * r + j + 16 - 2)%nat with (16 * r + j + Z.to_nat 14)%nat by lia.
    replace (16 * r + j + 16 - 7)%nat with (16 * r + j + Z.to_nat 9)%nat by lia.
    replace (16 * r + j + 16 - 15)%nat with (16 * r + j + Z.to_nat 1)%nat by lia.
    replace (16 * r + j + 16 - 16)%nat with (16 * r + j + Z.to_nat 0)%nat by lia.
    unfold id. f_equal. lia.
  - rewrite list_lookup_insert_ne by done.
    destruct (decide (k < 16)%nat) as [Hk|Hk].
    + rewrite !window_lookup by done. do 4 f_equal.
      destruct (Nat.ltb_spec k j), (Nat.ltb_spec k (S j)); lia.
    + by rewrite !lookup_ge_None_2 by (rewrite window_length; lia).
Qed.

(** The update of the window after sixteen rounds. *)
Lemma window_loop Ws r :
  is_schedule Ws -> Forall word64 Ws -> (16 * r + 32 <= length Ws)%nat ->
  for_loop 0 16 Ed25519.schedule_word (win (window Ws r 0))
  = win (window Ws (S r) 0).
Proof.
  intros HS Hr Hlen. rewrite <- window_next.
  change 16 with (Z.of_nat 16) at 1.
  apply (for_loop_nat_ind (fun j st => st = win (window Ws r j))); [done|].
  intros j st Hj ->.
  rewrite schedule_word_win
    by first [apply window_length | by apply window_word64 | done].
  by rewrite window_step by (done || lia).
Qed.

(** *** The eighty rounds of a block *)

Lemma K_constants64 :
  map (fun i => w64 (JS.get Ed25519._K (i * 2)) (JS.get Ed25519._K (i * 2 + 1)))
      (seqZ 0 80)
  = FIPS180_512.K.
Proof. vm_compute. reflexivity. Qed.

Lemma K_lookup (i : nat) :
  (i < 80)%nat ->
  FIPS180_512.K !! i
  = Some (w64 (JS.get Ed25519._K (Z.of_nat i * 2))
              (JS.get Ed25519._K (Z.of_nat i * 2 + 1))).
Proof.
  intros Hi. rewrite <- K_constants64, list_lookup_fmap.
  rewrite lookup_seqZ_lt by lia. reflexivity.
Qed.

Lemma schedule_add (n k : nat) (W : list Z) :
  FIPS180_512.schedule (n + k) W
  = FIPS180_512.schedule k (FIPS180_512.schedule n W).
Proof.
  revert W. induction n as [|n IH]; intros W; [done|].
  cbn [Nat.add FIPS180_512.schedule]. apply IH.
Qed.

Lemma block_is_schedule (M : list Z) : length M = 16%nat -> is_schedule M.
Proof. intros H t Ht. lia. Qed.

Lemma window_start Ws (M : list Z) :
  length M = 16%nat -> take 16 Ws = M -> window Ws 0 0 = M.
Proof.
  intros Hl Ht. apply list_eq. intros k. destruct (decide (k < 16)%nat) as [Hk|Hk].
  - rewrite window_lookup by done. cbn [Nat.ltb Nat.leb].
    replace (16 * 0 + k + 0)%nat with k by lia.
    rewrite <- Ht, lookup_take_lt by done.
    destruct (lookup_lt_is_Some_2 (take 16 Ws) k) as [x Hx]; [rewrite Ht; lia|].
    rewrite lookup_take_lt in Hx by done. by rewrite Hx.
  - by rewrite !lookup_ge_None_2 by (rewrite ?window_length; lia).
Qed.

Lemma rounds_refine64 (M : list Z) (hh hl : list Z) :
  length M = 16%nat -> Forall word64 M ->
  let s := for_loop 0 80 Ed25519.hash_round
             (Ed25519.mkHashState hh hl (map hi32 M) (map lo32 M)) in
  vars64 (Ed25519.hs_ah s) (Ed25519.hs_al s)
  = foldl FIPS180_512.round (vars64 hh hl)
      (zip FIPS180_512.K (FIPS180_512.schedule 64 M)).
Proof.
  intros HMl HMr. cbv zeta.
  destruct (schedule_facts 64 M (block_is_schedule M HMl) HMr)
    as (HS1 & HS2 & HS3 & HS4).
  set (W64 := FIPS180_512.schedule 64 M) in *.
  destruct (schedule_facts 16 W64 HS1 HS2) as (HW1 & HW2 & HW3 & HW4).
  set (Ws := FIPS180_512.schedule 16 W64) in *.
  clearbody Ws. clearbody W64.
  assert (HK : length FIPS180_512.K = 80%nat) by (vm_compute; reflexivity).
  assert (HM : take 16 Ws = M).
  { rewrite <- HW4 in HS4. rewrite take_take, HMl, HS3, HMl in HS4.
    exact HS4. }
  pose proof (for_loop_nat_ind
    (fun i s =>
       vars64 (Ed25519.hs_ah s) (Ed25519.hs_al s)
       = foldl FIPS180_512.round (vars64 hh hl)
           (zip (take i FIPS180_512.K) (take i Ws))
       /\ (Ed25519.hs_wh s, Ed25519.hs_wl s)
          = win (window Ws (Z.to_nat (Z.of_nat i / 16)) 0))
    80 Ed25519.hash_round
    (Ed25519.mkHashState hh hl (map hi32 M) (map lo32 M))) as Hind.
  replace (Z.of_nat 80) with 80 in Hind by lia.
  destruct Hind as [Hv _].
  - cbn [Ed25519.hs_ah Ed25519.hs_al Ed25519.hs_wh Ed25519.hs_wl].
    rewrite !take_0. split; [reflexivity|].
    change (Z.to_nat (Z.of_nat 0 / 16)) with 0%nat.
    rewrite (window_start Ws M HMl HM). reflexivity.
  - intros i [ah al wh wl] Hi [IHv IHw].
    cbn [Ed25519.hs_ah Ed25519.hs_al Ed25519.hs_wh Ed25519.hs_wl] in IHv, IHw.
    set (r := Z.to_nat (Z.of_nat i / 16)) in *.
    assert (Hr : Z.of_nat r = Z.of_nat i / 16)
      by (unfold r; apply Z2Nat.id, Z.div_pos; lia).
    assert (Hr4 : (r <= 4)%nat) by (Z.div_mod_to_equations; lia).
    clearbody r.
    unfold win in IHw. apply pair_equal_spec in IHw as [-> ->].
    destruct (round_refines64 (Z.of_nat i) ah al
                (map hi32 (window Ws r 0)) (map lo32 (window Ws r 0))) as [Ev Ew].
    split.
    + rewrite Ev, IHv.
      destruct (lookup_lt_is_Some_2 Ws i) as [w Hw]; [lia|].
      rewrite (take_S_r _ _ _ (K_lookup i Hi)), (take_S_r _ _ _ Hw).
      rewrite zip_with_app by (rewrite !length_take; lia).
      rewrite foldl_app. cbn [zip_with foldl]. do 2 f_equal.
      rewrite win_get.
      * rewrite window_get by (apply Z.mod_pos_bound; lia).
        replace (16 * r + Z.to_nat (Z.of_nat i mod 16)
                 + (if (Z.to_nat (Z.of_nat i mod 16) <? 0)%nat then 16 else 0))%nat
          with i; [by rewrite Hw|].
        replace (Z.to_nat (Z.of_nat i mod 16) <? 0)%nat with false
          by (symmetry; apply Nat.ltb_ge; lia).
        Z.div_mod_to_equations. lia.
      * by apply window_word64.
      * rewrite window_length. apply Z.mod_pos_bound. lia.
    + rewrite Ew. fold (win (window Ws r 0)).
      destruct (Z.eqb_spec (Z.of_nat i mod 16) 15) as [E|E].
      * rewrite (window_loop Ws r HW1 HW2) by lia.
        do 2 f_equal. Z.div_mod_to_equations. lia.
      * do 2 f_equal. Z.div_mod_to_equations. lia.
  - rewrite take_ge in Hv by lia.
    replace (take 80 Ws) with W64 in Hv; [exact Hv|].
    rewrite <- HW4. f_equal. lia.
Qed.

(** *** Loading a block *)

Lemma lor_shift_add x lo k :
  0 <= k -> 0 <= lo < 2 ^ k -> Z.lor (x * 2 ^ k) lo = x * 2 ^ k + lo.
Proof.
  intros Hk Hlo. assert (H0 : Z.land (x * 2 ^ k) lo = 0).
  { apply Z.bits_inj'. intros i Hi. rewrite Z.land_spec, Z.bits_0.
    rewrite <- Z.shiftl_mul_pow2 by lia.
    destruct (Z.lt_ge_cases i k).
    - by rewrite Z.shiftl_spec_low by lia.
    - rewrite <- (Z.mod_small lo (2 ^ k)) by lia.
      rewrite Z.mod_pow2_bits_high by lia. apply andb_false_r. }
  rewrite Z.add_nocarry_lxor by done. by rewrite Z.lxor_lor by done.
Qed.

Lemma load_half b0 b1 b2 b3 :
  is_byte b0 -> is_byte b1 -> is_byte b2 -> is_byte b3 ->
  FIPS180.wrap (JS.or (JS.or (JS.or (JS.shl b0 24) (JS.shl b1 16)) (JS.shl b2 8)) b3)
  = ((b0 * 256 + b1) * 256 + b2) * 256 + b3.
Proof.
  unfold is_byte. intros H0 H1 H2 H3.
  rewrite !wrap_or, !wrap_shl by lia. unfold FIPS180.SHL.
  rewrite !Z.shiftl_mul_pow2 by lia.
  rewrite !(wrap_small b0), !(wrap_small b1), !(wrap_small b2), !(wrap_small b3)
    by lia.
  rewrite !wrap_small by lia.
  rewrite (lor_shift_add b0 (b1 * 2 ^ 16) 24) by lia.
  replace (b0 * 2 ^ 24 + b1 * 2 ^ 16) with ((b0 * 256 + b1) * 2 ^ 16) by lia.
  rewrite (lor_shift_add _ (b2 * 2 ^ 8) 16) by lia.
  replace ((b0 * 256 + b1) * 2 ^ 16 + b2 * 2 ^ 8)
    with (((b0 * 256 + b1) * 256 + b2) * 2 ^ 8) by lia.
  rewrite (lor_shift_add _ b3 8) by lia. lia.
Qed.

Lemma get_skip8 b0 b1 b2 b3 b4 b5 b6 b7 (bs : bytes) k :
  0 <= k ->
  JS.get (b0 :: b1 :: b2 :: b3 :: b4 :: b5 :: b6 :: b7 :: bs) (8 + k) = JS.get bs k.
Proof.
  intros Hk. rewrite !get_nat by lia.
  replace (Z.to_nat (8 + k)) with (S (S (S (S (S (S (S (S (Z.to_nat k)))))))))
    by lia.
  reflexivity.
Qed.

Lemma words_lookup (bs : bytes) (j : nat) :
  (8 * j + 8 <= length bs)%nat ->
  FIPS180_512.words bs !! j
  = Some (((((((JS.get bs (8 * Z.of_nat j + 0) * 256
                + JS.get bs (8 * Z.of_nat j + 1)) * 256
               + JS.get bs (8 * Z.of_nat j + 2)) * 256
              + JS.get bs (8 * Z.of_nat j + 3)) * 256
             + JS.get bs (8 * Z.of_nat j + 4)) * 256
            + JS.get bs (8 * Z.of_nat j + 5)) * 256
           + JS.get bs (8 * Z.of_nat j + 6)) * 256
          + JS.get bs (8 * Z.of_nat j + 7)).
Proof.
  revert bs. induction j as [|j IH]; intros bs H;
    destruct bs as [|b0 [|b1 [|b2 [|b3 [|b4 [|b5 [|b6 [|b7 bs]]]]]]]];
    simpl in H; try lia.
  - reflexivity.
  - cbn [FIPS180_512.words lookup list_lookup]. rewrite IH by lia.
    replace (8 * Z.of_nat (S j)) with (8 + 8 * Z.of_nat j) by lia.
    rewrite <- !Z.add_assoc. by rewrite !get_skip8 by lia.
Qed.

Lemma words_length64 (n : nat) (bs : bytes) :
  length bs = (8 * n)%nat -> length (FIPS180_512.words bs) = n.
Proof.
  revert bs. induction n as [|n IH]; intros bs H.
  - by destruct bs.
  - destruct bs as [|b0 [|b1 [|b2 [|b3 [|b4 [|b5 [|b6 [|b7 bs]]]]]]]];
      simpl in H; try lia.
    cbn [FIPS180_512.words length]. f_equal. apply IH. lia.
Qed.

Lemma words_word64 (n : nat) (bs : bytes) :
  length bs = (8 * n)%nat -> Forall is_byte bs ->
  Forall word64 (FIPS180_512.words bs).
Proof.
  revert bs. induction n as [|n IH]; intros bs H Hb.
  - destruct bs; [apply Forall_nil_2|discriminate].
  - destruct bs as [|b0 [|b1 [|b2 [|b3 [|b4 [|b5 [|b6 [|b7 bs]]]]]]]];
      simpl in H; try lia.
    repeat (apply Forall_cons_1 in Hb as [? Hb]).
    cbn [FIPS180_512.words]. apply Forall_cons_2; [|apply IH; [lia|done]].
    unfold is_byte, word64 in *. change (2 ^ 64) with 18446744073709551616. lia.
Qed.

Lemma load_block (m : bytes) (p : nat) :
  (p + 128 <= length m)%nat -> Forall is_byte m ->
  for_loop 0 16 (fun i '(wh, wl) =>
      let j := 8 * i + Z.of_nat p in
      (JS.put32 wh i
         (JS.or (JS.or (JS.or (JS.shl (JS.get m (j + 0)) 24)
                              (JS.shl (JS.get m (j + 1)) 16))
                       (JS.shl (JS.get m (j + 2)) 8))
                (JS.get m (j + 3))),
       JS.put32 wl i
         (JS.or (JS.or (JS.or (JS.shl (JS.get m (j + 4)) 24)
                              (JS.shl (JS.get m (j + 5)) 16))
                       (JS.shl (JS.get m (j + 6)) 8))
                (JS.get m (j + 7)))))
      (JS.zeros 16, JS.zeros 16)
  = win (FIPS180_512.words (take 128 (drop p m))).
Proof.
  intros Hp Hm.
  assert (Hbl : length (take 128 (drop p m)) = (8 * 16)%nat)
    by (rewrite length_take, length_drop; lia).
  pose proof (words_length64 16 _ Hbl) as HWl.
  set (Wd := FIPS180_512.words (take 128 (drop p m))) in *.
  change 16 with (Z.of_nat 16) at 1.
  match goal with
  | |- for_loop 0 _ ?body ?init = _ =>
      pose proof (for_loop_nat_ind
        (fun j st => st = win (take j Wd ++ replicate (16 - j) 0)) 16 body init)
        as Hind
  end.
  rewrite Hind.
  - rewrite Nat.sub_diag, take_ge by lia. by rewrite app_nil_r.
  - reflexivity.
  - intros j st Hj ->. unfold win at 1. cbv beta iota zeta.
    rewrite win_put. f_equal.
    destruct (lookup_lt_is_Some_2 Wd j) as [w Hw]; [lia|].
    rewrite (take_S_r _ _ _ Hw).
    replace (16 - j)%nat with (S (16 - S j)) by lia. cbn [replicate].
    rewrite insert_app_r_alt by (rewrite length_take; lia).
    rewrite length_take, Nat.min_l, Nat.sub_diag by lia. cbn [insert list_insert].
    rewrite <- app_assoc. cbn [app]. do 3 f_equal.
    unfold Wd in Hw. rewrite words_lookup in Hw by lia.
    injection Hw as <-.
    rewrite !get_take_drop by lia.
    unfold w64. rewrite !load_half by (apply get_byte, Hm).
    replace (8 * Z.of_nat j + Z.of_nat p) with (Z.of_nat p + 8 * Z.of_nat j) by lia.
    rewrite <- !Z.add_assoc. change (2 ^ 32) with 4294967296. lia.
Qed.

(** *** One block *)

Lemma hh_update64 (F G : Z -> Z -> Z -> Z)
    (h0 h1 h2 h3 h4 h5 h6 h7 l0 l1 l2 l3 l4 l5 l6 l7 : Z) :
  for_loop 0 8 (fun k '(hh, hl) =>
      (JS.put hh k (F k (JS.get hh k) (JS.get hl k)),
       JS.put hl k (G k (JS.get hh k) (JS.get hl k))))
    ([h0; h1; h2; h3; h4; h5; h6; h7], [l0; l1; l2; l3; l4; l5; l6; l7])
  = ([F 0 h0 l0; F 1 h1 l1; F 2 h2 l2; F 3 h3 l3;
      F 4 h4 l4; F 5 h5 l5; F 6 h6 l6; F 7 h7 l7],
     [G 0 h0 l0; G 1 h1 l1; G 2 h2 l2; G 3 h3 l3;
      G 4 h4 l4; G 5 h5 l5; G 6 h6 l6; G 7 h7 l7]).
Proof. reflexivity. Qed.

Lemma sum_halves a b h :
  word64 h ->
  let x := Ed25519.col_carry (Ed25519.col_add (Ed25519.col_init a b) (hi32 h) (lo32 h)) in
  JS.ToInt32 (Ed25519.col_high x) = hi32 (FIPS180_512.wrap (w64 a b + h))
  /\ JS.ToInt32 (Ed25519.col_low x) = lo32 (FIPS180_512.wrap (w64 a b + h)).
Proof.
  intros Hh. cbv zeta.
  pose proof (col_sum2 a b (hi32 h) (lo32 h)) as E. cbv zeta in E.
  rewrite (w64_halves h Hh) in E. rewrite <- E.
  match goal with
  | |- context [w64 ?x ?y] => destruct (halves_w64 x y) as [-> ->]
  end.
  done.
Qed.

Lemma compress_facts (H M : list Z) :
  length H = 8%nat ->
  length (FIPS180_512.compress H M) = 8%nat
  /\ Forall word64 (FIPS180_512.compress H M).
Proof.
  intros Hl.
  destruct H as [|h0 [|h1 [|h2 [|h3 [|h4 [|h5 [|h6 [|h7 [|? ?]]]]]]]]];
    try discriminate.
  unfold FIPS180_512.compress.
  destruct (foldl _ _ _) as [[[[[[[a b] c] d] e] f] g] h].
  split; [reflexivity|]. repeat constructor; apply wrap64_range.
Qed.

Lemma block_refines64 (m : bytes) (p : nat) (H : list Z) :
  (p + 128 <= length m)%nat -> Forall is_byte m ->
  length H = 8%nat -> Forall word64 H ->
  Ed25519.hash_block m (win H) (Z.of_nat p)
  = win (FIPS180_512.compress H (FIPS180_512.words (take 128 (drop p m)))).
Proof.
  intros Hp Hm Hl Hr. unfold Ed25519.hash_block, win at 1. cbv beta iota.
  pose proof (load_block m p Hp Hm) as El. cbv zeta in El. rewrite El. clear El.
  assert (Hbl : length (take 128 (drop p m)) = (8 * 16)%nat)
    by (rewrite length_take, length_drop; lia).
  pose proof (words_length64 16 _ Hbl) as HWl.
  pose proof (words_word64 16 _ Hbl ltac:(by apply Forall_take, Forall_drop))
    as HWr.
  set (M := FIPS180_512.words (take 128 (drop p m))) in *. clearbody M.
  unfold win at 1. cbv beta iota.
  pose proof (rounds_refine64 M (map hi32 H) (map lo32 H) HWl HWr) as Hv.
  cbv zeta in Hv.
  set (s := for_loop 0 80 Ed25519.hash_round _) in *. clearbody s.
  destruct H as [|h0 [|h1 [|h2 [|h3 [|h4 [|h5 [|h6 [|h7 [|? ?]]]]]]]]];
    try discriminate Hl.
  repeat (apply Forall_cons_1 in Hr as [? Hr]).
  cbn [map] in *. rewrite vars64_list in Hv.
  rewrite !w64_halves in Hv by done.
  unfold FIPS180_512.compress.
  destruct (foldl _ _ _) as [[[[[[[a b] c] d] e] f] g] h].
  unfold vars64 in Hv.
  repeat (apply pair_equal_spec in Hv as [Hv ?]).
  unfold JS.put32. cbv zeta.
  pose proof (hh_update64
    (fun k h l => JS.ToInt32 (Ed25519.col_high (Ed25519.col_carry
       (Ed25519.col_add
          (Ed25519.col_init (JS.get (Ed25519.hs_ah s) k) (JS.get (Ed25519.hs_al s) k))
          h l))))
    (fun k h l => JS.ToInt32 (Ed25519.col_low (Ed25519.col_carry
       (Ed25519.col_add
          (Ed25519.col_init (JS.get (Ed25519.hs_ah s) k) (JS.get (Ed25519.hs_al s) k))
          h l))))) as E.
  cbv beta in E. rewrite E. clear E.
  unfold win. cbn [map].
  repeat match goal with
  | |- context [Ed25519.col_carry
         (Ed25519.col_add (Ed25519.col_init ?x ?y) (hi32 ?h) (lo32 ?h))] =>
      let E1 := fresh in let E2 := fresh in
      destruct (sum_halves x y h ltac:(assumption)) as [E1 E2];
      cbv zeta in E1, E2; rewrite E1, E2; clear E1 E2
  end.
  subst. reflexivity.
Qed.

(** *** All the blocks of a buffer *)

Lemma blocks_refine64 (m : bytes) (n i : nat) (H : list Z) :
  (128 * (i + n) <= length m)%nat -> Forall is_byte m ->
  length H = 8%nat -> Forall word64 H ->
  let H' := foldl FIPS180_512.compress H (FIPS180_512.blocks n (drop (128 * i) m)) in
  foldl (Ed25519.hash_block m) (win H)
    (map (fun b => b * 128) (seqZ (Z.of_nat i) (Z.of_nat n)))
  = win H'
  /\ length H' = 8%nat /\ Forall word64 H'.
Proof.
  revert i H. induction n as [|n IH]; intros i H Hlen Hm HH Hr; cbv zeta.
  - rewrite seqZ_nil by lia. simpl. auto.
  - rewrite seqZ_cons by lia. cbn [map foldl FIPS180_512.blocks].
    replace (Z.of_nat i * 128) with (Z.of_nat (128 * i)) by lia.
    rewrite (block_refines64 m (128 * i) H) by (done || lia).
    destruct (compress_facts H
                (FIPS180_512.words (take 128 (drop (128 * i) m))) HH) as [HL HR].
    rewrite drop_drop.
    replace (128 * i + 128)%nat with (128 * S i)%nat by lia.
    replace (Z.succ (Z.of_nat i)) with (Z.of_nat (S i)) by lia.
    replace (Z.pred (Z.of_nat (S n))) with (Z.of_nat n) by lia.
    apply IH; [lia|exact Hm|exact HL|exact HR].
Qed.

Lemma blocks_take (n : nat) (a b : bytes) :
  take (128 * n) a = take (128 * n) b ->
  FIPS180_512.blocks n a = FIPS180_512.blocks n b.
Proof.
  revert a b. induction n as [|n IH]; intros a b H; [done|].
  cbn [FIPS180_512.blocks]. f_equal.
  - apply (f_equal (take 128)) in H. rewrite !take_take in H.
    replace (128 `min` (128 * S n))%nat with 128%nat in H by lia.
    by rewrite H.
  - apply IH. apply (f_equal (drop 128)) in H.
    replace (128 * S n)%nat with (128 + 128 * n)%nat in H by lia.
    rewrite <- !take_drop_commute in H. exact H.
Qed.

Lemma blocks_app (n k : nat) (a : bytes) :
  FIPS180_512.blocks (n + k) a
  = FIPS180_512.blocks n a ++ FIPS180_512.blocks k (drop (128 * n) a).
Proof.
  revert a. induction n as [|n IH]; intros a; [done|].
  cbn [Nat.add FIPS180_512.blocks app]. f_equal. rewrite IH, drop_drop.
  do 3 f_equal. lia.
Qed.

(** *** Writing a word as eight bytes *)

Lemma and_ff x : JS.and x 0xff = FIPS180.wrap x mod 256.
Proof.
  unfold JS.and. change (JS.ToInt32 255) with 255. rewrite land_255.
  pose proof (wrap_ToInt32 x) as H. unfold FIPS180.wrap in *.
  change (2 ^ 32) with 4294967296 in *. Z.div_mod_to_equations. lia.
Qed.

Lemma shr_ff x k :
  k = 8 \/ k = 16 \/ k = 24 ->
  JS.and (JS.shr x k) 0xff = (FIPS180.wrap x / 2 ^ k) mod 256.
Proof.
  intros Hk. rewrite and_ff. unfold JS.shr.
  pose proof (wrap_ToInt32 x) as H. pose proof (ToInt32_range x) as Hr.
  unfold FIPS180.wrap in *. change (2 ^ 32) with 4294967296 in *.
  destruct Hk as [->|[->| ->]].
  - change (Z.land 8 31) with 8. rewrite Z.shiftr_div_pow2 by lia.
    change (2 ^ 8) with 256. Z.div_mod_to_equations. lia.
  - change (Z.land 16 31) with 16. rewrite Z.shiftr_div_pow2 by lia.
    change (2 ^ 16) with 65536. Z.div_mod_to_equations. lia.
  - change (Z.land 24 31) with 24. rewrite Z.shiftr_div_pow2 by lia.
    change (2 ^ 24) with 16777216. Z.div_mod_to_equations. lia.
Qed.

Lemma put_app_nat (l1 l2 : bytes) (k : nat) v i :
  i = Z.of_nat (length l1) + Z.of_nat k ->
  JS.put (l1 ++ l2) i v = l1 ++ <[k := v]> l2.
Proof.
  intros ->. rewrite put_app_r by lia. unfold JS.put.
  destruct (Z.ltb_spec (Z.of_nat (length l1) + Z.of_nat k - Z.of_nat (length l1)) 0);
    [lia|].
  do 2 f_equal. lia.
Qed.

Lemma big_endian_8 x :
  word64 x ->
  FIPS180.big_endian 8 x
  = [x / 2 ^ 56; x / 2 ^ 48 mod 256; x / 2 ^ 40 mod 256; x / 2 ^ 32 mod 256;
     x / 2 ^ 24 mod 256; x / 2 ^ 16 mod 256; x / 2 ^ 8 mod 256; x mod 256].
Proof.
  intros Hx. unfold word64 in Hx. cbn [FIPS180.big_endian].
  change (256 ^ Z.of_nat 7) with (2 ^ 56). change (256 ^ Z.of_nat 6) with (2 ^ 48).
  change (256 ^ Z.of_nat 5) with (2 ^ 40). change (256 ^ Z.of_nat 4) with (2 ^ 32).
  change (256 ^ Z.of_nat 3) with (2 ^ 24). change (256 ^ Z.of_nat 2) with (2 ^ 16).
  change (256 ^ Z.of_nat 1) with (2 ^ 8). change (256 ^ Z.of_nat 0) with 1.
  rewrite Z.div_1_r. f_equal. apply Z.mod_small.
  change (2 ^ 64) with 18446744073709551616 in Hx.
  change (2 ^ 56) with 72057594037927936. Z.div_mod_to_equations. lia.
Qed.

Lemma ts64_at (l1 l3 : bytes) m0 m1 m2 m3 m4 m5 m6 m7 h l :
  Ed25519._ts64 (l1 ++ [m0; m1; m2; m3; m4; m5; m6; m7] ++ l3)
    (Z.of_nat (length l1)) h l
  = l1 ++ FIPS180.big_endian 8 (w64 h l) ++ l3.
Proof.
  unfold Ed25519._ts64, JS.put8. cbv zeta. cbn [app].
  rewrite (put_app_nat l1 _ 0) by lia. cbn [insert list_insert].
  rewrite (put_app_nat l1 _ 1) by lia. cbn [insert list_insert].
  rewrite (put_app_nat l1 _ 2) by lia. cbn [insert list_insert].
  rewrite (put_app_nat l1 _ 3) by lia. cbn [insert list_insert].
  rewrite (put_app_nat l1 _ 4) by lia. cbn [insert list_insert].
  rewrite (put_app_nat l1 _ 5) by lia. cbn [insert list_insert].
  rewrite (put_app_nat l1 _ 6) by lia. cbn [insert list_insert].
  rewrite (put_app_nat l1 _ 7) by lia. cbn [insert list_insert].
  f_equal. rewrite big_endian_8 by apply w64_range. cbn [app].
  rewrite !shr_ff, !and_ff by lia. rewrite !ToUint8_mod.
  unfold w64. pose proof (wrap_range h). pose proof (wrap_range l).
  generalize dependent (FIPS180.wrap h). generalize dependent (FIPS180.wrap l).
  intros L HL Hh HHh.
  change (2 ^ 56) with 72057594037927936. change (2 ^ 48) with 281474976710656.
  change (2 ^ 40) with 1099511627776. change (2 ^ 32) with 4294967296.
  change (2 ^ 24) with 16777216. change (2 ^ 16) with 65536.
  change (2 ^ 8) with 256.
  repeat (apply (f_equal2 cons); [Z.div_mod_to_equations; lia|]).
  reflexivity.
Qed.

(** *** The digest *)

Lemma big_endian_length n x : length (FIPS180.big_endian n x) = n.
Proof. induction n as [|n IH]; [done|]. cbn [FIPS180.big_endian length]. by rewrite IH. Qed.

Lemma digest64 (hs pre : list Z) (out : bytes) :
  Forall word64 hs -> length out = (8 * length pre)%nat ->
  for_loop (Z.of_nat (length pre)) (Z.of_nat (length pre + length hs))
    (fun i out =>
       Ed25519._ts64 out (8 * i) (JS.get (map hi32 (pre ++ hs)) i)
         (JS.get (map lo32 (pre ++ hs)) i))
    (out ++ JS.zeros (8 * length hs))
  = out ++ concat (map (FIPS180.big_endian 8) hs).
Proof.
  revert pre out. induction hs as [|x hs IH]; intros pre out Hr Hout.
  - rewrite for_loop_done by (simpl; lia). reflexivity.
  - apply Forall_cons_1 in Hr as [Hx Hr].
    rewrite for_loop_step by (simpl; lia).
    rewrite !get_map by (rewrite length_app; simpl; lia).
    rewrite get_app_r, Z.sub_diag, get_cons_0 by lia.
    replace (8 * length (x :: hs))%nat with (8 + 8 * length hs)%nat
      by (simpl; lia).
    unfold JS.zeros. rewrite replicate_add. cbn [replicate].
    replace (8 * Z.of_nat (length pre)) with (Z.of_nat (length out)) by lia.
    rewrite (ts64_at out (replicate (8 * length hs) 0)).
    rewrite (w64_halves x Hx).
    cbn [map concat].
    specialize (IH (pre ++ [x]) (out ++ FIPS180.big_endian 8 x) Hr).
    rewrite !length_app, big_endian_length in IH. cbn [length] in IH.
    rewrite <- !app_assoc in IH. cbn [app] in IH.
    replace (Z.of_nat (length pre) + 1) with (Z.of_nat (length pre + 1)) by lia.
    replace (length pre + length (x :: hs))%nat
      with (length pre + 1 + length hs)%nat by (simpl; lia).
    unfold JS.zeros in IH. rewrite IH by lia. reflexivity.
Qed.

Lemma digest64_length (hs : list Z) :
  length (concat (map (FIPS180.big_endian 8) hs)) = (8 * length hs)%nat.
Proof.
  induction hs as [|x hs IH]; [done|].
  cbn [map concat]. rewrite length_app, IH. cbn [length FIPS180.big_endian]. lia.
Qed.

Lemma digest64_bytes (hs : list Z) :
  Forall is_byte (concat (map (FIPS180.big_endian 8) hs)).
Proof.
  induction hs as [|x hs IH]; [apply Forall_nil_2|].
  cbn [map concat]. apply Forall_app_2; [apply big_endian_bytes|done].
Qed.

(** *** The last blocks: the rest of the message, [0x80], zeros, the length *)

Lemma length_halves b :
  0 <= b < 2 ^ 61 -> w64 (JS.ToInt32 (b / 0x20000000)) (JS.shl b 3) = 8 * b.
Proof.
  intros Hb. unfold w64. rewrite wrap_ToInt32, wrap_shl by lia.
  unfold FIPS180.SHL, FIPS180.wrap. rewrite Z.shiftl_mul_pow2 by lia.
  change (2 ^ 61) with 2305843009213693952 in Hb.
  change (2 ^ 32) with 4294967296. change (2 ^ 3) with 8.
  Z.div_mod_to_equations. lia.
Qed.

Lemma tail_fill (tail : bytes) (z8 t : nat) (b i9 i8 : Z) :
  (1 <= z8)%nat -> 0 <= b < 2 ^ 61 ->
  i9 = Z.of_nat (length tail + z8) -> i8 = Z.of_nat (length tail + z8 + 1) ->
  Ed25519._ts64
    (JS.put8 (JS.put8 (tail ++ JS.zeros (1 + (z8 + (8 + t))))
                (Z.of_nat (length tail)) 128)
       i9 0)
    i8 (JS.ToInt32 (b / 0x20000000)) (JS.shl b 3)
  = tail ++ [128] ++ replicate z8 0 ++ FIPS180.big_endian 8 (8 * b)
      ++ replicate t 0.
Proof.
  intros Hz Hb -> ->. unfold JS.zeros, JS.put8.
  rewrite !replicate_add. cbn [replicate].
  rewrite (put_app_nat tail _ 0) by lia.
  change (JS.ToUint8 128) with 128. change (JS.ToUint8 0) with 0.
  change (<[0%nat:=128]>
            ([0] ++ replicate z8 0 ++ [0; 0; 0; 0; 0; 0; 0; 0] ++ replicate t 0))
    with (128 :: replicate z8 0
            ++ 0 :: 0 :: 0 :: 0 :: 0 :: 0 :: 0 :: 0 :: replicate t 0).
  assert (E : JS.put (tail ++ 128 :: replicate z8 0
                        ++ 0 :: 0 :: 0 :: 0 :: 0 :: 0 :: 0 :: 0 :: replicate t 0)
                (Z.of_nat (length tail + z8)) 0
              = tail ++ 128 :: replicate z8 0
                  ++ 0 :: 0 :: 0 :: 0 :: 0 :: 0 :: 0 :: 0 :: replicate t 0).
  { rewrite (put_app_nat tail _ z8) by lia. f_equal.
    apply list_insert_id. rewrite lookup_cons_ne_0 by lia.
    rewrite lookup_app_l by (rewrite length_replicate; lia).
    apply lookup_replicate_2. lia. }
  rewrite E. clear E.
  replace (tail ++ 128 :: replicate z8 0
             ++ 0 :: 0 :: 0 :: 0 :: 0 :: 0 :: 0 :: 0 :: replicate t 0)
    with ((tail ++ 128 :: replicate z8 0)
            ++ [0; 0; 0; 0; 0; 0; 0; 0] ++ replicate t 0)
    by (rewrite <- app_assoc; reflexivity).
  replace (Z.of_nat (length tail + z8 + 1))
    with (Z.of_nat (length (tail ++ 128 :: replicate z8 0)))
    by (rewrite length_app; cbn [length]; rewrite length_replicate; lia).
  rewrite ts64_at, length_halves by done.
  rewrite <- app_assoc. reflexivity.
Qed.

Lemma big_endian_16 x :
  word64 x ->
  FIPS180.big_endian 16 x = replicate 8 0 ++ FIPS180.big_endian 8 x.
Proof.
  intros Hx. unfold word64 in Hx. change (2 ^ 64) with (256 ^ 8) in Hx.
  cbn [FIPS180.big_endian replicate app].
  assert (Hz : forall k : nat, (8 <= k)%nat -> (x / 256 ^ Z.of_nat k) mod 256 = 0).
  { intros k Hk. rewrite Z.div_small; [done|]. split; [lia|].
    eapply Z.lt_le_trans; [apply Hx|].
    apply Z.pow_le_mono_r; lia. }
  rewrite !Hz by lia. reflexivity.
Qed.

Lemma copy_tail (m : bytes) (q r : nat) :
  Forall is_byte m -> (q + r <= length m)%nat -> (r <= 256)%nat ->
  for_loop 0 (Z.of_nat r)
    (fun i x => JS.put8 x i (JS.get m (Z.of_nat q + i))) (JS.zeros 256)
  = take r (drop q m) ++ JS.zeros (256 - r).
Proof.
  intros Hm Hlen Hr.
  rewrite (for_loop_copy (JS.zeros 256) 0 r (fun i => JS.get m (Z.of_nat q + i)))
    by first [intros i a; by rewrite Z.add_0_r | rewrite zeros_length; lia].
  rewrite take_0. cbn [app Nat.add]. f_equal.
  - apply list_eq. intros k. rewrite list_lookup_fmap.
    destruct (decide (k < r)%nat) as [Hk|Hk].
    + rewrite lookup_seqZ_lt by lia. cbn [fmap option_fmap option_map].
      rewrite lookup_take_lt, lookup_drop by lia.
      destruct (lookup_lt_is_Some_2 m (q + k)) as [x Hx]; [lia|].
      rewrite Hx. f_equal. rewrite get_nat by lia.
      replace (Z.to_nat (Z.of_nat q + (0 + Z.of_nat k))) with (q + k)%nat by lia.
      rewrite Hx. apply ToUint8_small.
      by eapply (Forall_lookup_1 _ _ _ _ Hm Hx).
    + rewrite lookup_seqZ_ge by lia.
      by rewrite lookup_ge_None_2 by (rewrite length_take, length_drop; lia).
  - unfold JS.zeros. by rewrite drop_replicate.
Qed.

Lemma pad_shape (M : bytes) :
  Z.of_nat (length M) < 2 ^ 61 ->
  let r := (length M mod 128)%nat in
  let n2 := if (r <? 112)%nat then 128%nat else 256%nat in
  FIPS180_512.pad M
  = M ++ [128] ++ replicate (n2 - 9 - r) 0
      ++ FIPS180.big_endian 8 (8 * Z.of_nat (length M)).
Proof.
  intros Hn. cbv zeta. unfold FIPS180_512.pad. cbv zeta.
  set (n := length M) in *. change (2 ^ 61) with 2305843009213693952 in Hn.
  rewrite big_endian_16
    by (unfold word64; change (2 ^ 64) with 18446744073709551616; lia).
  cbn [app]. do 2 f_equal. rewrite app_assoc, <- replicate_add. do 2 f_equal.
  assert (Hr : Z.of_nat (n mod 128) = Z.of_nat n mod 128)
    by (rewrite Nat2Z.inj_mod; reflexivity).
  destruct (Nat.ltb_spec (n mod 128) 112) as [Hlt|Hge].
  - assert (E : (896 - (8 * Z.of_nat n + 1)) mod 1024
                = 8 * (111 - Z.of_nat (n mod 128)) + 7)
      by (rewrite Hr; Z.div_mod_to_equations; lia).
    rewrite E.
    replace ((8 * (111 - Z.of_nat (n mod 128)) + 7 - 7) / 8)
      with (111 - Z.of_nat (n mod 128))
      by (rewrite Z.add_simpl_r, Z.mul_comm, Z.div_mul; lia).
    lia.
  - assert (Hlt : (n mod 128 < 128)%nat) by (apply Nat.mod_upper_bound; lia).
    assert (E : (896 - (8 * Z.of_nat n + 1)) mod 1024
                = 8 * (239 - Z.of_nat (n mod 128)) + 7)
      by (rewrite Hr; Z.div_mod_to_equations; lia).
    rewrite E.
    replace ((8 * (239 - Z.of_nat (n mod 128)) + 7 - 7) / 8)
      with (239 - Z.of_nat (n mod 128))
      by (rewrite Z.add_simpl_r, Z.mul_comm, Z.div_mul; lia).
    lia.
Qed.

Lemma H0_halves :
  (map JS.ToInt32
     [0x6a09e667; 0xbb67ae85; 0x3c6ef372; 0xa54ff53a;
      0x510e527f; 0x9b05688c; 0x1f83d9ab; 0x5be0cd19],
   map JS.ToInt32
     [0xf3bcc908; 0x84caa73b; 0xfe94f82b; 0x5f1d36f1;
      0xade682d1; 0x2b3e6c1f; 0xfb41bd6b; 0x137e2179])
  = win FIPS180_512.H0
  /\ length FIPS180_512.H0 = 8%nat
  /\ forallb (fun x => (0 <=? x) && (x <? 2 ^ 64)) FIPS180_512.H0 = true.
Proof. split; [|split]; vm_compute; reflexivity. Qed.

Lemma H0_word64 : Forall word64 FIPS180_512.H0.
Proof.
  destruct H0_halves as (_ & _ & H).
  apply (Forall_impl (fun x => Is_true ((0 <=? x) && (x <? 2 ^ 64)))).
  - apply forallb_True. rewrite H. exact I.
  - intros x Hx. apply andb_True in Hx as [H1 H2].
    apply Is_true_true in H1, H2. unfold word64. lia.
Qed.

Lemma cryptoHash_refines (m : bytes) (n : nat) :
  Forall is_byte m -> (n <= length m)%nat -> Z.of_nat n < 2 ^ 61 ->
  Ed25519._cryptoHash m (Z.of_nat n) = FIPS180_512.SHA512 (take n m).
Proof.
  intros Hm Hn Hb.
  set (q := (n / 128)%nat). set (r := (n mod 128)%nat).
  assert (Enq : n = (128 * q + r)%nat) by (apply Nat.div_mod_eq).
  assert (Hr : (r < 128)%nat) by (apply Nat.mod_upper_bound; lia).
  assert (Ezq : Z.of_nat n / 128 = Z.of_nat q)
    by (unfold q; rewrite Nat2Z.inj_div; reflexivity).
  assert (Ezr : Z.of_nat n mod 128 = Z.of_nat r)
    by (unfold r; rewrite Nat2Z.inj_mod; reflexivity).
  set (n2 := if (r <? 112)%nat then 128%nat else 256%nat).
  set (t2 := if (r <? 112)%nat then 1%nat else 2%nat).
  assert (Hn2 : n2 = (128 * t2)%nat /\ (r + 17 <= n2)%nat /\ (n2 <= 256)%nat).
  { unfold n2, t2. destruct (Nat.ltb_spec r 112); lia. }
  destruct Hn2 as (En2 & Hrn2 & Hn256).
  set (tail := take r (drop (128 * q) m)).
  assert (Htl : length tail = r)
    by (unfold tail; rewrite length_take, length_drop; lia).
  assert (Htb : Forall is_byte tail) by (by apply Forall_take, Forall_drop).
  set (x := tail ++ [128] ++ replicate (n2 - 9 - r) 0
              ++ FIPS180.big_endian 8 (8 * Z.of_nat n) ++ replicate (256 - n2) 0).
  assert (Hxl : length x = 256%nat).
  { unfold x. rewrite !length_app, !length_replicate, big_endian_length, Htl.
    cbn [length]. lia. }
  assert (Hxb : Forall is_byte x).
  { unfold x. repeat apply Forall_app_2; try done.
    - apply Forall_singleton. unfold is_byte. lia.
    - apply Forall_replicate. unfold is_byte. lia.
    - apply big_endian_bytes.
    - apply Forall_replicate. unfold is_byte. lia. }
  (* the standard's side *)
  assert (Epad : FIPS180_512.pad (take n m)
                 = take n m ++ [128] ++ replicate (n2 - 9 - r) 0
                     ++ FIPS180.big_endian 8 (8 * Z.of_nat n)).
  { pose proof (pad_shape (take n m)) as Hp. cbv zeta in Hp.
    rewrite length_take, Nat.min_l in Hp by lia. by apply Hp. }
  assert (Elen : length (FIPS180_512.pad (take n m)) = (128 * (q + t2))%nat).
  { rewrite Epad, !length_app, length_take, length_replicate, big_endian_length.
    cbn [length]. lia. }
  assert (Espec : FIPS180_512.parse (FIPS180_512.pad (take n m))
                  = FIPS180_512.blocks q m ++ FIPS180_512.blocks t2 x).
  { unfold FIPS180_512.parse. rewrite Elen.
    replace (128 * (q + t2) / 128)%nat with (q + t2)%nat
      by (rewrite Nat.mul_comm, Nat.div_mul; lia).
    rewrite blocks_app. f_equal.
    - apply blocks_take. rewrite Epad.
      rewrite take_app_le by (rewrite length_take; lia).
      rewrite take_take. f_equal. lia.
    - apply blocks_take. rewrite Epad.
      rewrite drop_app_le by (rewrite length_take; lia).
      rewrite <- En2.
      replace (drop (128 * q) (take n m)) with tail.
      + assert (Ex : x = (tail ++ [128] ++ replicate (n2 - 9 - r) 0
                                ++ FIPS180.big_endian 8 (8 * Z.of_nat n))
                             ++ replicate (256 - n2) 0)
          by (unfold x; by rewrite <- !app_assoc).
        assert (HA : length (tail ++ [128] ++ replicate (n2 - 9 - r) 0
                               ++ FIPS180.big_endian 8 (8 * Z.of_nat n)) = n2).
        { rewrite !length_app, !length_replicate, big_endian_length, Htl.
          cbn [length]. lia. }
        set (A := tail ++ [128] ++ replicate (n2 - 9 - r) 0
                    ++ FIPS180.big_endian 8 (8 * Z.of_nat n)) in *.
        rewrite Ex. by rewrite (take_app_le A) by lia.
      + unfold tail. rewrite take_drop_commute. do 2 f_equal. lia. }
  unfold FIPS180_512.SHA512. rewrite Espec, foldl_app. clear Espec Elen Epad.
  destruct H0_halves as (EH0 & HH0l & _). pose proof H0_word64 as HH0r.
  (* the code's side *)
  unfold Ed25519._cryptoHash, Ed25519._cryptoHashBlocksHl. cbv zeta.
  rewrite EH0, Ezq, Ezr. clear EH0.
  generalize dependent FIPS180_512.H0. intros H0 HH0l HH0r.
  destruct (blocks_refine64 m q 0 H0 ltac:(lia) Hm HH0l HH0r) as (E1 & HL1 & HR1).
  cbv zeta in E1, HL1, HR1. rewrite Nat.mul_0_r, drop_0 in E1, HL1, HR1.
  change (Z.of_nat 0) with 0 in E1. rewrite E1. clear E1.
  set (H1 := foldl FIPS180_512.compress H0 (FIPS180_512.blocks q m)) in *.
  clearbody H1. unfold win at 1. cbv beta iota.
  replace (Z.of_nat n - Z.of_nat r) with (Z.of_nat (128 * q)) by lia.
  rewrite (copy_tail m (128 * q) r Hm) by lia. fold tail.
  replace (256 - 128 * (if Z.of_nat r <? 112 then 1 else 0)) with (Z.of_nat n2)
    by (unfold n2; destruct (Z.ltb_spec (Z.of_nat r) 112), (Nat.ltb_spec r 112);
        lia).
  replace (Z.of_nat n2 / 128) with (Z.of_nat t2)
    by (rewrite En2, Nat2Z.inj_mul, Z.mul_comm, Z.div_mul; lia).
  replace (256 - r)%nat with (1 + ((n2 - 9 - r) + (8 + (256 - n2))))%nat by lia.
  replace (Z.of_nat r) with (Z.of_nat (length tail)) by (by rewrite Htl).
  rewrite (tail_fill tail (n2 - 9 - r) (256 - n2) (Z.of_nat n)
             (Z.of_nat n2 - 9) (Z.of_nat n2 - 8)) by lia.
  fold x.
  destruct (blocks_refine64 x t2 0 H1 ltac:(lia) Hxb HL1 HR1) as (E2 & HL2 & HR2).
  cbv zeta in E2, HL2, HR2. rewrite Nat.mul_0_r, drop_0 in E2, HL2, HR2.
  change (Z.of_nat 0) with 0 in E2. fold (win H1). rewrite E2. clear E2.
  set (H2 := foldl FIPS180_512.compress H1 (FIPS180_512.blocks t2 x)) in *.
  clearbody H2. unfold win. cbv beta iota.
  pose proof (digest64 H2 [] [] HR2 eq_refl) as Hd.
  rewrite HL2 in Hd. exact Hd.
Qed.

(** X27.  [_cryptoHash (out, m, n)] writes the SHA-512 digest, as FIPS 180-4
    defines it on 64-bit words, of the first [n] bytes of [m]: the code keeps
    every word as two 32-bit halves, adds them in four 16-bit columns and
    keeps the message schedule in a window of sixteen words, and the result
    is the standard's on every message of bytes shorter than [2^61] bytes
    (the code writes the bit length as a 64-bit number).  The digest has 64
    bytes. *)
Theorem sha512_is_FIPS_180_4 (m : bytes) (n : Z) :
  Forall is_byte m -> 0 <= n <= Z.of_nat (length m) -> n < 2 ^ 61 ->
  Ed25519._cryptoHash m n = FIPS180_512.SHA512 (take (Z.to_nat n) m)
  /\ length (Ed25519._cryptoHash m n) = 64%nat
  /\ Forall is_byte (Ed25519._cryptoHash m n).
Proof.
  intros Hm Hn Hb.
  assert (E : Ed25519._cryptoHash m n = FIPS180_512.SHA512 (take (Z.to_nat n) m)).
  { rewrite <- (Z2Nat.id n) at 1 by lia. apply cryptoHash_refines; [done|lia|].
    rewrite Z2Nat.id by lia. exact Hb. }
  rewrite E. split; [done|]. unfold FIPS180_512.SHA512.
  split; [|apply digest64_bytes].
  rewrite digest64_length.
  enough (H : forall (bl : list (list Z)) (H : list Z),
            length H = 8%nat -> length (foldl FIPS180_512.compress H bl) = 8%nat).
  { rewrite H; [done|]. by destruct H0_halves as (_ & -> & _). }
  induction bl as [|M bl IH]; intros H HH; [done|].
  cbn [foldl]. apply IH. by apply compress_facts.
Qed.

Lemma sha512_is_FIPS_180_4_witness :
  Ed25519._cryptoHash (str "abc") 3 = FIPS180_512.SHA512 (take (Z.to_nat 3) (str "abc"))
  /\ length (Ed25519._cryptoHash (str "abc") 3) = 64%nat
  /\ Forall is_byte (Ed25519._cryptoHash (str "abc") 3).
Proof.
  apply (sha512_is_FIPS_180_4 (str "abc") 3).
  - exact (bool_decide_unpack (Forall is_byte (str "abc")) I).
  - vm_compute. split; discriminate.
  - reflexivity.
Defined.
